(** * line-breaking-checker: a shallow embedding of the rule parser, the text
    model and the rule matcher (UAX #14), with the properties of the
    specification stated and proved over it.

    Sources embedded:
    - [src/linebreakingchecker.mjs]: [LineBreakingChecker] (text model, class
      assignment, combining-sequence maps, matcher, iterator);
    - [src/ruleparser.mjs]: [RuleParser];
    - [src/linebreakingrules.mjs]: the rule lists of Unicode 16 and 17. *)

From Stdlib Require Import ZArith List String Ascii Bool Lia.
Import ListNotations.
Set Warnings "-register-all".
Open Scope string_scope.
Open Scope list_scope.
Open Scope Z_scope.

(* ------------------------------------------------------------------------- *)
(** ** JavaScript values used by the code *)

(** A JS number as the code meets it: an integer, or [NaN] (what arithmetic on
    [undefined] gives). *)
Inductive num : Type :=
| Int (z : Z)
| NaN.

(** Completion of a call: a value, a thrown exception, or an exhausted
    recursion budget of the model (never a behaviour of the code). *)
Inductive res (A : Type) : Type :=
| Ok (a : A)
| Throw (e : string)
| OutOfFuel.
Arguments Ok {A} a.
Arguments Throw {A} e.
Arguments OutOfFuel {A}.

Definition bind {A B : Type} (m : res A) (k : A -> res B) : res B :=
  match m with
  | Ok a => k a
  | Throw e => Throw e
  | OutOfFuel => OutOfFuel
  end.

Declare Scope js_scope.
Delimit Scope js_scope with js.
Notation "x <- m ;; k" := (bind m (fun x => k))
  (at level 61, m at next level, right associativity) : js_scope.
Open Scope js_scope.

Definition TypeError : string := "TypeError".
Definition RangeError : string := "RangeError".
Definition Error : string := "Error".

Definition num_add (a b : num) : num :=
  match a, b with
  | Int x, Int y => Int (x + y)
  | _, _ => NaN
  end.

Definition num_sub (a b : num) : num :=
  match a, b with
  | Int x, Int y => Int (x - y)
  | _, _ => NaN
  end.

Definition num_mul (a b : num) : num :=
  match a, b with
  | Int x, Int y => Int (x * y)
  | _, _ => NaN
  end.

(** [a < b], [a > b] and [a === b] on numbers: false as soon as one is NaN. *)
Definition num_ltb (a b : num) : bool :=
  match a, b with
  | Int x, Int y => x <? y
  | _, _ => false
  end.

Definition num_gtb (a b : num) : bool := num_ltb b a.

Definition num_eqb (a b : num) : bool :=
  match a, b with
  | Int x, Int y => x =? y
  | _, _ => false
  end.

(** ToNumber of an array read: [undefined] becomes NaN in arithmetic. *)
Definition to_num (v : option Z) : num :=
  match v with
  | Some z => Int z
  | None => NaN
  end.

(** ToNumber of a boolean, as in [x * !!flag]. *)
Definition num_of_bool (b : bool) : num := if b then Int 1 else Int 0.

(** [arr[i]] on a dense array: [undefined] ([None]) for a negative, too large
    or NaN index. *)
Definition aget {A : Type} (arr : list A) (i : num) : option A :=
  match i with
  | NaN => None
  | Int z => if z <? 0 then None else nth_error arr (Z.to_nat z)
  end.

(** [arr[i]] on an array whose slots may themselves hold [undefined]. *)
Definition aget_opt {A : Type} (arr : list (option A)) (i : num) : option A :=
  match aget arr i with
  | Some v => v
  | None => None
  end.

(** [a ?? b] *)
Definition nullish {A : Type} (a : option A) (b : A) : A :=
  match a with
  | Some v => v
  | None => b
  end.

(* ------------------------------------------------------------------------- *)
(** ** BreakType *)

Module BreakType.

(** Modelled from the spec: [src/breaktypes.mjs] is imported by the checker
    and by the parser but is not among the sources; the values are the flag
    values the specification and the README give. *)
Definition UNKNOWN : Z := 0.
Definition FORBIDDEN : Z := 1.
Definition MANDATORY : Z := 2.
Definition ALLOWED : Z := 4.

End BreakType.

(* ------------------------------------------------------------------------- *)
(** ** Pattern trees and parsed rules *)

(** A token object [{ type, content }] of the parsed pattern. *)
Inductive token : Type :=
| TBase (content : string)
| TEastasian
| TExtpict
| TCodepoint (content : Z)
| TGc (content : string)
| TClass (content : string)
| TModifier (content : string)
| TSet (content : list token)
| TSequence (content : list token).

(** The side-effect functions a raw rule can carry. The rule lists hold one:
    [function(cb, ...args) { cb(...args) }]. *)
Inductive side_effect_fn : Type :=
| CallFirstArgument.

(** A raw rule [[str, side_effect?, name?]]. *)
Record rawRule : Type := {
  raw_str : string;
  raw_side_effect : option side_effect_fn;
  raw_name : option string
}.

(** The object [parseRule] returns; [result] is [None] while it is
    [undefined]. *)
Record ruleObj : Type := {
  before : token;
  after : token;
  name : option string;
  side_effect : option side_effect_fn;
  result : option Z
}.

(* ------------------------------------------------------------------------- *)
(** ** RuleParser *)

Module RuleParser.

(** The three verdict symbols: U+00D7, [!] and U+00F7, as the header of
    [linebreakingrules.mjs] lists them. *)
Definition FORBIDDEN_SYMBOL : string := "×".
Definition MANDATORY_SYMBOL : string := "!".
Definition ALLOWED_SYMBOL : string := "÷".

(** The ASCII characters of the class [\s]: space, tab, line feed, vertical
    tab, form feed and carriage return. *)
Definition is_space (c : ascii) : bool :=
  let n := nat_of_ascii c in
  (Nat.eqb n 32 || (Nat.leb 9 n && Nat.leb n 13))%bool.

Definition byte_is (n : nat) (c : ascii) : bool := Nat.eqb (nat_of_ascii c) n.

(** The other characters of [\s], in the UTF-8 bytes a string has here:
    U+00A0 (C2 A0), U+1680 (E1 9A 80), U+2000 to U+200A (E2 80 80 to E2 80 8A),
    U+2028 and U+2029 (E2 80 A8, E2 80 A9), U+202F (E2 80 AF), U+205F
    (E2 81 9F), U+3000 (E3 80 80) and U+FEFF (EF BB BF).
    [space_width c rest] is the number of bytes of the white space character
    that [String c rest] starts with, 0 when it starts with none. *)
Definition space_width (c : ascii) (rest : string) : nat :=
  if is_space c then 1
  else
    match rest with
    | String d rest' =>
        if (byte_is 194 c && byte_is 160 d)%bool then 2
        else
          match rest' with
          | String e _ =>
              if (byte_is 225 c && byte_is 154 d && byte_is 128 e)%bool then 3
              else if (byte_is 226 c && byte_is 128 d
                       && ((Nat.leb 128 (nat_of_ascii e) && Nat.leb (nat_of_ascii e) 138)
                           || byte_is 168 e || byte_is 169 e || byte_is 175 e))%bool
              then 3
              else if (byte_is 226 c && byte_is 129 d && byte_is 159 e)%bool then 3
              else if (byte_is 227 c && byte_is 128 d && byte_is 128 e)%bool then 3
              else if (byte_is 239 c && byte_is 187 d && byte_is 191 e)%bool then 3
              else 0
          | EmptyString => 0
          end
    | EmptyString => 0
    end.

(** [str.split(/\s+/)]: the maximal runs without white space, with an empty
    first (last) token when the string starts (ends) with white space. *)
Fixpoint split_loop (s : string) (cur : string) (in_space : bool) : list string :=
  match s with
  | EmptyString => [cur]
  | String c rest =>
      match space_width c rest with
      | O => split_loop rest (cur ++ String c EmptyString)%string false
      | S O =>
          if in_space then split_loop rest cur true
          else cur :: split_loop rest EmptyString true
      | S (S O) =>
          match rest with
          | String _ rest1 =>
              if in_space then split_loop rest1 cur true
              else cur :: split_loop rest1 EmptyString true
          | EmptyString => [cur]
          end
      | S (S (S _)) =>
          match rest with
          | String _ (String _ rest2) =>
              if in_space then split_loop rest2 cur true
              else cur :: split_loop rest2 EmptyString true
          | _ => [cur]
          end
      end
  end.

Definition split (s : string) : list string := split_loop s EmptyString false.

Definition between (lo hi : nat) (c : ascii) : bool :=
  (Nat.leb lo (nat_of_ascii c) && Nat.leb (nat_of_ascii c) hi)%bool.

Definition is_digit (c : ascii) : bool := between 48 57 c.
Definition is_upper (c : ascii) : bool := between 65 90 c.
Definition is_lower (c : ascii) : bool := between 97 122 c.
Definition is_hex (c : ascii) : bool :=
  (is_digit c || between 65 70 c || between 97 102 c)%bool.

Fixpoint all_chars (p : ascii -> bool) (s : string) : bool :=
  match s with
  | EmptyString => true
  | String c rest => (p c && all_chars p rest)%bool
  end.

Definition strlen (s : string) : nat := String.length s.

(** [token.match(/\\u[0-9A-Fa-f]{4,6}/)?.[0] === token] *)
Definition is_codepoint_token (t : string) : bool :=
  match t with
  | String "\" (String "u" digits) =>
      (Nat.leb 4 (strlen digits) && Nat.leb (strlen digits) 6
       && all_chars is_hex digits)%bool
  | _ => false
  end.

(** [token.match(/gc\([A-Za-z&]{2}\)/)?.[0] === token] *)
Definition is_gc_token (t : string) : bool :=
  match t with
  | String "g" (String "c" (String "(" (String a (String b (String ")" EmptyString))))) =>
      let ok := fun c => (is_upper c || is_lower c || Ascii.eqb c "&")%bool in
      (ok a && ok b)%bool
  | _ => false
  end.

(** [token.match(/[A-Z0-9]{2,3}/)?.[0] === token] *)
Definition is_class_token (t : string) : bool :=
  (Nat.leb 2 (strlen t) && Nat.leb (strlen t) 3
   && all_chars (fun c => (is_upper c || is_digit c)%bool) t)%bool.

Definition hex_digit (c : ascii) : Z :=
  let n := Z.of_nat (nat_of_ascii c) in
  if is_digit c then n - 48
  else if between 65 70 c then n - 55
  else n - 87.

(** [Number('0x' + digits)] on hexadecimal digits. *)
Fixpoint hex_value (digits : string) (acc : Z) : Z :=
  match digits with
  | EmptyString => acc
  | String c rest => hex_value rest (16 * acc + hex_digit c)
  end.

(** [s.slice(from, to)] for [0 <= from <= to]. *)
Definition slice (s : string) (from to : nat) : string :=
  String.substring from (Nat.min to (strlen s) - from) s.

(** What one call of [parseToken] does to the objects it is given: the token
    it pushes on [context] (if any), the value it stores in [ruleObj.result]
    (if any), whether it returns [ruleObj.after.content] as the new context,
    and the index it returns. *)
Record parsed : Type := {
  pushed : option token;
  set_result : option Z;
  to_after : bool;
  next_i : nat
}.

Definition push_only (t : token) (i : nat) : parsed :=
  {| pushed := Some t; set_result := None; to_after := false; next_i := S i |}.

Definition verdict (v : Z) (i : nat) : parsed :=
  {| pushed := None; set_result := Some v; to_after := true; next_i := S i |}.

Definition nothing (i : nat) : parsed :=
  {| pushed := None; set_result := None; to_after := false; next_i := S i |}.

Definition append_pushed (content : list token) (p : parsed) : list token :=
  match pushed p with
  | Some t => content ++ [t]
  | None => content
  end.

Definition later_result (old : option Z) (p : parsed) : option Z :=
  match set_result p with
  | Some v => Some v
  | None => old
  end.

(** The loop [while (tokens[i] !== closer) { [unused, i] = parseToken(...) }]
    of a set or of a sequence, filling [content]; [rec] is [parseToken]. The
    context a nested call returns is dropped, the verdict it stores is not. *)
Fixpoint parse_group (rec : nat -> res parsed) (k : nat) (tokens : list string)
    (closer : string) (i : nat) (content : list token) (res_set : option Z)
    : res (list token * option Z * nat) :=
  match k with
  | O => OutOfFuel
  | S k' =>
      if match nth_error tokens i with
         | Some t => String.eqb t closer
         | None => false
         end
      then Ok (content, res_set, i)
      else
        p <- rec i ;;
        parse_group rec k' tokens closer (next_i p)
          (append_pushed content p) (later_result res_set p)
  end.

(** [parseToken(tokens, i, context, ruleObj)]. An index past the end reads
    [undefined], on which [token.match] throws. *)
Fixpoint parseToken (fuel : nat) (tokens : list string) (i : nat) : res parsed :=
  match fuel with
  | O => OutOfFuel
  | S f =>
      match nth_error tokens i with
      | None => Throw TypeError
      | Some t =>
          if String.eqb t FORBIDDEN_SYMBOL then Ok (verdict BreakType.FORBIDDEN i)
          else if String.eqb t MANDATORY_SYMBOL then Ok (verdict BreakType.MANDATORY i)
          else if String.eqb t ALLOWED_SYMBOL then Ok (verdict BreakType.ALLOWED i)
          else if (String.eqb t "any" || String.eqb t "sot" || String.eqb t "eot")%bool
          then Ok (push_only (TBase t) i)
          else if String.eqb t "eastasian" then Ok (push_only TEastasian i)
          else if String.eqb t "extpict" then Ok (push_only TExtpict i)
          else if is_codepoint_token t
          then Ok (push_only (TCodepoint (hex_value (slice t 2 (strlen t)) 0)) i)
          else if is_gc_token t then Ok (push_only (TGc (slice t 3 5)) i)
          else if is_class_token t then Ok (push_only (TClass t) i)
          else if (String.eqb t "^" || String.eqb t "&" || String.eqb t "-"
                   || String.eqb t "*")%bool
          then Ok (push_only (TModifier t) i)
          else if String.eqb t "|" then Ok (nothing i)
          else if String.eqb t "(" then
            g <- parse_group (parseToken f tokens) f tokens ")" (S i) [] None ;;
            let '(content, r, j) := g in
            Ok {| pushed := Some (TSet content); set_result := r;
                  to_after := false; next_i := S j |}
          else if String.eqb t ")" then Ok (nothing i)
          else if String.eqb t "[" then
            g <- parse_group (parseToken f tokens) f tokens "]" (S i) [] None ;;
            let '(content, r, j) := g in
            Ok {| pushed := Some (TSequence content); set_result := r;
                  to_after := false; next_i := S j |}
          else if String.eqb t "]" then Ok (nothing i)
          else Throw Error
      end
  end.

(** [cleanPart]: a sequence (set) whose only item is a sequence (set) takes
    that item's content; then the items are cleaned. *)
Fixpoint cleanPart (part : token) : token :=
  match part with
  | TSequence [TSequence inner] => TSequence (map cleanPart inner)
  | TSet [TSet inner] => TSet (map cleanPart inner)
  | TSequence content => TSequence (map cleanPart content)
  | TSet content => TSet (map cleanPart content)
  | t => t
  end.

Definition is_modifier (t : token) : bool :=
  match t with
  | TModifier _ => true
  | _ => false
  end.

(** The pass [for (i = 1; i < e; i++) if (content[i].type === 'modifier')
    swap(content[i], content[i - 1])], with [prev] for [content[i - 1]] and
    [rest] for the items from [i] on. *)
Fixpoint swap_modifiers (prev : token) (rest : list token) : list token :=
  match rest with
  | [] => [prev]
  | t :: rest' =>
      if is_modifier t then t :: swap_modifiers prev rest'
      else prev :: swap_modifiers t rest'
  end.

Definition reverse_content (content : list token) : list token :=
  match rev content with
  | [] => []
  | t :: rest => swap_modifiers t rest
  end.

(** [reverseSequences]: the content of a sequence is reversed and its
    modifiers moved back before their operands, then every item is visited.
    The items are visited first here, for the recursion to be structural:
    the visit keeps modifiers modifiers, so it commutes with the reordering
    ([reverse_content_map] below). *)
Fixpoint reverseSequences (t : token) : token :=
  match t with
  | TSequence content => TSequence (reverse_content (map reverseSequences content))
  | TSet content => TSet (map reverseSequences content)
  | t => t
  end.

(** The object under construction in [parseRule]: the two contents, which of
    them [context] is, and [ruleObj.result]. *)
Record building : Type := {
  b_before : list token;
  b_after : list token;
  in_after : bool;
  b_result : option Z
}.

Definition apply_parsed (b : building) (p : parsed) : building :=
  {| b_before := if in_after b then b_before b else append_pushed (b_before b) p;
     b_after := if in_after b then append_pushed (b_after b) p else b_after b;
     in_after := (in_after b || to_after p)%bool;
     b_result := later_result (b_result b) p |}.

(** [while (i < tokens.length) { [context, i] = parseToken(tokens, i, context, ruleObj) }] *)
Fixpoint parse_loop (k : nat) (tokens : list string) (i : nat) (b : building)
    : res building :=
  match k with
  | O => OutOfFuel
  | S k' =>
      if Nat.ltb i (List.length tokens) then
        p <- parseToken (S (List.length tokens)) tokens i ;;
        parse_loop k' tokens (next_i p) (apply_parsed b p)
      else Ok b
  end.

(** [parseRule] of a parser built with [reverseBefore = true], the default
    the checker uses. *)
Definition parseRule (rule : rawRule) : res ruleObj :=
  let tokens := split (raw_str rule) in
  b <- parse_loop (S (List.length tokens)) tokens 0
         {| b_before := []; b_after := []; in_after := false; b_result := None |} ;;
  Ok {| before := reverseSequences (cleanPart (TSequence (b_before b)));
        after := cleanPart (TSequence (b_after b));
        name := raw_name rule;
        side_effect := raw_side_effect rule;
        result := b_result b |}.

End RuleParser.


(* ------------------------------------------------------------------------- *)
(** ** The rule lists of [linebreakingrules.mjs] *)

Definition plain (str : string) : rawRule :=
  {| raw_str := str; raw_side_effect := None; raw_name := None |}.

Definition with_side_effect (str : string) (f : side_effect_fn) (name : string)
    : rawRule :=
  {| raw_str := str; raw_side_effect := Some f; raw_name := Some name |}.

(** Line breaking rules for Unicode v17.0. *)
Definition lineBreakingRulesV17 : list rawRule :=
  [ plain "sot × any"; (* LB2 *)
    plain "any ! eot"; (* LB3 *)
    plain "BK ! any"; (* LB4 *)
    plain "CR × LF"; (* LB5 *)
    plain "( CR | LF | NL ) ! any";
    plain "any × ( BK | CR | LF | NL )"; (* LB6 *)
    plain "any × ( SP | ZW )"; (* LB7 *)
    plain "[ ZW * SP ] ÷ any"; (* LB8 *)
    plain "ZWJ × any"; (* LB8a *)
    with_side_effect "^ ( sot | BK | CR | LF | NL | SP | ZW ) × ( CM | ZWJ )" CallFirstArgument "std_remove_cm_sequences"; (* LB9, LB10 *)
    plain "any × WJ"; (* LB11 *)
    plain "WJ × any";
    plain "GL × any"; (* LB12 *)
    plain "^ ( SP | BA | HY | HH ) × GL"; (* LB12a *)
    plain "any × ( CL | CP | EX | SY )"; (* LB13 *)
    plain "[ OP * SP ] × any"; (* LB14 *)
    plain "[ ( sot | BK | CR | LF | NL | OP | QU | GL | SP | ZW ) ( gc(Pi) & QU ) * SP ] × any"; (* LB15a *)
    plain "any × [ ( gc(Pf) & QU ) ( SP | GL | WJ | CL | QU | CP | EX | IS | SY | BK | CR | LF | NL | ZW | eot ) ]"; (* LB15b *)
    plain "SP ÷ [ IS NU ]"; (* LB15c *)
    plain "any × IS"; (* LB15d *)
    plain "[ ( CL | CP ) * SP ] × NS"; (* LB16 *)
    plain "[ B2 * SP ] × B2"; (* LB17 *)
    plain "SP ÷ any"; (* LB18 *)
    plain "any × ( QU - gc(Pi) )"; (* LB19 *)
    plain "( QU - gc(Pf) ) × any";
    plain "^ eastasian × QU"; (* LB19a *)
    plain "any × [ QU ( ^ eastasian | eot ) ]";
    plain "QU × ^ eastasian";
    plain "[ ( sot | ^ eastasian ) QU ] × any";
    plain "any ÷ CB"; (* LB20 *)
    plain "CB ÷ any";
    plain "[ ( sot | BK | CR | LF | NL | SP | ZW | CB | GL ) ( HY | HH ) ] × ( AL | HL )"; (* LB20a *)
    plain "any × ( BA | HH | HY | NS )"; (* LB21 *)
    plain "BB × any";
    plain "[ HL ( HY | HH ) ] × ^ HL"; (* LB21a *)
    plain "SY × HL"; (* LB21b *)
    plain "any × IN"; (* LB22 *)
    plain "( AL | HL ) × NU"; (* LB23 *)
    plain "NU × ( AL | HL )";
    plain "PR × ( ID | EB | EM )"; (* LB23a *)
    plain "( ID | EB | EM ) × PO";
    plain "( PR | PO ) × ( AL | HL )"; (* LB24 *)
    plain "( AL | HL ) × ( PR | PO )";
    plain "[ NU * ( SY | IS ) ( CL | CP ) ] × ( PO | PR )"; (* LB25 *)
    plain "[ NU * ( SY | IS ) ] × ( PO | PR | NU )";
    plain "( PO | PR ) × [ OP NU ]";
    plain "( PO | PR ) × [ OP IS NU ]";
    plain "( PO | PR | HY | IS ) × NU";
    plain "JL × ( JL | JV | H2 | H3 )"; (* LB26 *)
    plain "( JV | H2 ) × ( JV | JT )";
    plain "( JT | H3 ) × JT";
    plain "( JL | JV | JT | H2 | H3 ) × PO"; (* LB27 *)
    plain "PR × ( JL | JV | JT | H2 | H3 )";
    plain "( AL | HL ) × ( AL | HL )"; (* LB28 *)
    plain "AP × ( AK | \u25CC | AS )"; (* LB28a *)
    plain "( AK | \u25CC | AS ) × ( VF | VI )";
    plain "[ ( AK | \u25CC | AS ) VI ] × ( AK | \u25CC )";
    plain "( AK | \u25CC | AS ) × [ ( AK | \u25CC | AS ) VF ]";
    plain "IS × ( AL | HL )"; (* LB29 *)
    plain "( AL | HL | NU ) × ( OP - eastasian )"; (* LB30 *)
    plain "( CP - eastasian ) × ( AL | HL | NU )";
    plain "[ sot * [ RI RI ] RI ] × RI"; (* LB30a *)
    plain "[ ^ RI * [ RI RI ] RI ] × RI";
    plain "EB × EM"; (* LB30b *)
    plain "( extpict & gc(Cn) ) × EM";
    plain "any ÷ any" ]. (* LB31 *)

(** Line breaking rules for Unicode v16.0. *)
Definition lineBreakingRulesV16 : list rawRule :=
  [ plain "sot × any"; (* LB2 *)
    plain "any ! eot"; (* LB3 *)
    plain "BK ! any"; (* LB4 *)
    plain "CR × LF"; (* LB5 *)
    plain "( CR | LF | NL ) ! any";
    plain "any × ( BK | CR | LF | NL )"; (* LB6 *)
    plain "any × ( SP | ZW )"; (* LB7 *)
    plain "[ ZW * SP ] ÷ any"; (* LB8 *)
    plain "ZWJ × any"; (* LB8a *)
    with_side_effect "^ ( sot | BK | CR | LF | NL | SP | ZW ) × ( CM | ZWJ )" CallFirstArgument "std_remove_cm_sequences"; (* LB9, LB10 *)
    plain "any × WJ"; (* LB11 *)
    plain "WJ × any";
    plain "GL × any"; (* LB12 *)
    plain "^ ( SP | BA | HY ) × GL"; (* LB12a *)
    plain "any × ( CL | CP | EX | SY )"; (* LB13 *)
    plain "[ OP * SP ] × any"; (* LB14 *)
    plain "[ ( sot | BK | CR | LF | NL | OP | QU | GL | SP | ZW ) ( gc(Pi) & QU ) * SP ] × any"; (* LB15a *)
    plain "any × [ ( gc(Pf) & QU ) ( SP | GL | WJ | CL | QU | CP | EX | IS | SY | BK | CR | LF | NL | ZW | eot ) ]"; (* LB15b *)
    plain "SP ÷ [ IS NU ]"; (* LB15c *)
    plain "any × IS"; (* LB15d *)
    plain "[ ( CL | CP ) * SP ] × NS"; (* LB16 *)
    plain "[ B2 * SP ] × B2"; (* LB17 *)
    plain "SP ÷ any"; (* LB18 *)
    plain "any × ( QU - gc(Pi) )"; (* LB19 *)
    plain "( QU - gc(Pf) ) × any";
    plain "^ eastasian × QU"; (* LB19a *)
    plain "any × [ QU ( ^ eastasian | eot ) ]";
    plain "QU × ^ eastasian";
    plain "[ ( sot | ^ eastasian ) QU ] × any";
    plain "any ÷ CB"; (* LB20 *)
    plain "CB ÷ any";
    plain "[ ( sot | BK | CR | LF | NL | SP | ZW | CB | GL ) ( HY | \u2010 ) ] × AL"; (* LB20a *)
    plain "any × ( BA | HY | NS )"; (* LB21 *)
    plain "BB × any";
    plain "[ HL ( HY | ( BA - eastasian ) ) ] × ^ HL"; (* LB21a *)
    plain "SY × HL"; (* LB21b *)
    plain "any × IN"; (* LB22 *)
    plain "( AL | HL ) × NU"; (* LB23 *)
    plain "NU × ( AL | HL )";
    plain "PR × ( ID | EB | EM )"; (* LB23a *)
    plain "( ID | EB | EM ) × PO";
    plain "( PR | PO ) × ( AL | HL )"; (* LB24 *)
    plain "( AL | HL ) × ( PR | PO )";
    plain "[ NU * ( SY | IS ) ( CL | CP ) ] × ( PO | PR )"; (* LB25 *)
    plain "[ NU * ( SY | IS ) ] × ( PO | PR | NU )";
    plain "( PO | PR ) × [ OP NU ]";
    plain "( PO | PR ) × [ OP IS NU ]";
    plain "( PO | PR | HY | IS ) × NU";
    plain "JL × ( JL | JV | H2 | H3 )"; (* LB26 *)
    plain "( JV | H2 ) × ( JV | JT )";
    plain "( JT | H3 ) × JT";
    plain "( JL | JV | JT | H2 | H3 ) × PO"; (* LB27 *)
    plain "PR × ( JL | JV | JT | H2 | H3 )";
    plain "( AL | HL ) × ( AL | HL )"; (* LB28 *)
    plain "AP × ( AK | \u25CC | AS )"; (* LB28a *)
    plain "( AK | \u25CC | AS ) × ( VF | VI )";
    plain "[ ( AK | \u25CC | AS ) VI ] × ( AK | \u25CC )";
    plain "( AK | \u25CC | AS ) × [ ( AK | \u25CC | AS ) VF ]";
    plain "IS × ( AL | HL )"; (* LB29 *)
    plain "( AL | HL | NU ) × ( OP - eastasian )"; (* LB30 *)
    plain "( CP - eastasian ) × ( AL | HL | NU )";
    plain "[ sot * [ RI RI ] RI ] × RI"; (* LB30a *)
    plain "[ ^ RI * [ RI RI ] RI ] × RI";
    plain "EB × EM"; (* LB30b *)
    plain "( extpict & gc(Cn) ) × EM";
    plain "any ÷ any" ]. (* LB31 *)

(* ------------------------------------------------------------------------- *)
(** ** The Unicode data the checker reads *)

(** The three lookups of the checker whose data are loaded at run time:
    [codePointsBLClasses.get(key)], the sparse array [makeLBC] fills from the
    compact class table (an entry holds [line_breaking_class] and
    [general_category]); [eastAsianCodePoints.get(key).has]; and the regular
    expression test [/\p{Extended_Pictographic}/u]. They are parameters of
    the development. *)
Record unicodeData : Type := {
  codePointsBLClasses : Z -> option (string * string);
  eastAsianCodePoints : Z -> bool;
  extendedPictographic : Z -> bool
}.

(** A value the checker can be given as a side-effect argument: its own
    [boundRemoveCombiningSequences]. *)
Inductive callback : Type :=
| boundRemoveCombiningSequences.

(** What the constructor fixes: the class-assignment criterion, the parsed
    rules and the registered side-effect arguments. *)
Record config : Type := {
  assignLineBreakingClsCriteria : option (option string -> string -> option string);
  rules : list ruleObj;
  sideEffectArguments : list (string * list callback)
}.

(** The private fields of a [LineBreakingChecker] once [setText] has run.
    [text] is the string as its UTF-16 code units. *)
Record checker : Type := {
  cfg : config;
  text : list Z;
  codePoints : list (option Z);
  offsetsSurrogates : list Z;
  classes : list (option string);
  origClasses : list (option string);
  origCodePoints : list (option Z);
  classesWithoutCS : list (option string);
  codePointsWithoutCS : list (option Z);
  offsetsCombiningSeqs : list Z;
  applyOffset : bool
}.

(** The object a call of [consumeToken] returns. *)
Record consumed : Type := {
  c_result : bool;
  index : num;
  next_token_index : option nat
}.

(** The value of an iterator step: the fields of the yielded object, in
    order. *)
Definition segment : Type := list (string * Z).

Fixpoint field (name : string) (obj : segment) : option Z :=
  match obj with
  | [] => None
  | (k, v) :: rest => if String.eqb k name then Some v else field name rest
  end.

(* ------------------------------------------------------------------------- *)
(** ** LineBreakingChecker *)

(** [parseRules]: [rules.map(r => p.parseRule(r))] *)
Fixpoint parseRules (raw : list rawRule) : res (list ruleObj) :=
  match raw with
  | [] => Ok []
  | r :: rest =>
      o <- RuleParser.parseRule r ;;
      os <- parseRules rest ;;
      Ok (o :: os)
  end.

(** [registerSideEffectArguments]: the latest registration of a name wins. *)
Definition registerSideEffectArguments (c : config)
    (args : list (string * list callback)) : config :=
  {| assignLineBreakingClsCriteria := assignLineBreakingClsCriteria c;
     rules := rules c;
     sideEffectArguments := args ++ sideEffectArguments c |}.

(** The constructor. *)
Definition LineBreakingChecker
    (criteria : option (option string -> string -> option string))
    (raw : list rawRule) : res config :=
  parsed <- parseRules raw ;;
  Ok (registerSideEffectArguments
        {| assignLineBreakingClsCriteria := criteria; rules := parsed;
           sideEffectArguments := [] |}
        [("std_remove_cm_sequences", [boundRemoveCombiningSequences])]).

Fixpoint lookup_arguments (name : string) (registered : list (string * list callback))
    : option (list callback) :=
  match registered with
  | [] => None
  | (k, v) :: rest => if String.eqb k name then Some v else lookup_arguments name rest
  end.

Definition isSurrogate (n : Z) : bool := (0xd800 <=? n) && (n <=? 0xdfff).

Definition isSurrogatePair (lead trail : Z) : bool :=
  (0xd800 <=? lead) && (lead <=? 0xdbff) && (0xdc00 <=? trail) && (trail <=? 0xdfff).

Definition computeCodePointFromSurrogatePair (high low : Z) : Z :=
  let offset := 0x10000 - Z.shiftl 0xd800 10 - 0xdc00 in
  Z.shiftl high 10 + low + offset.

(** [String.prototype.codePointAt] on code units (ECMAScript): the code point
    of a well-placed surrogate pair, else the unit itself; [undefined] past
    the end. *)
Definition codePointAt (s : list Z) (pos : nat) : option Z :=
  match nth_error s pos with
  | None => None
  | Some first =>
      if (0xd800 <=? first) && (first <=? 0xdbff) then
        match nth_error s (S pos) with
        | Some second =>
            if (0xdc00 <=? second) && (second <=? 0xdfff)
            then Some ((first - 0xd800) * 0x400 + (second - 0xdc00) + 0x10000)
            else Some first
        | None => Some first
        end
      else Some first
  end.

(** The variables of the loop of [setCodePoints]. *)
Record decoding : Type := {
  d_codePoints : list (option Z);
  d_offsetsSurrogates : list Z;
  d_offset : Z;
  d_highSurrogate : bool
}.

Definition setCodePoints_step (txt : list Z) (d : decoding) (i : nat) : decoding :=
  let codePoint := codePointAt txt i in
  let above := match codePoint with Some c => 65535 <? c | None => false end in
  {| d_codePoints :=
       if d_highSurrogate d then d_codePoints d else d_codePoints d ++ [codePoint];
     d_offsetsSurrogates := d_offsetsSurrogates d ++ [d_offset d];
     d_offset := if above then d_offset d + 1 else d_offset d;
     d_highSurrogate := above |}.

(** [setCodePoints]: the decoded code points and the surrogate offsets. *)
Definition setCodePoints (txt : list Z) : list (option Z) * list Z :=
  let d := fold_left (setCodePoints_step txt) (seq 0 (List.length txt))
             {| d_codePoints := []; d_offsetsSurrogates := []; d_offset := 0;
                d_highSurrogate := false |} in
  (d_codePoints d, d_offsetsSurrogates d ++ [d_offset d]).

Section WithData.

Variable data : unicodeData.

Definition getClass (codePoint : option Z) : option string :=
  match codePoint with
  | Some c => option_map fst (codePointsBLClasses data c)
  | None => None
  end.

Definition getGeneralCategory (codePoint : option Z) : option string :=
  match codePoint with
  | Some c => option_map snd (codePointsBLClasses data c)
  | None => None
  end.

(** [getClsAndGC]: an absent entry reads as [{ line_breaking_class:
    undefined, general_category: '' }]. *)
Definition getClsAndGC (codePoint : option Z) : option string * string :=
  match codePoint with
  | Some c =>
      match codePointsBLClasses data c with
      | Some (line_breaking_class, general_category) =>
          (Some line_breaking_class, general_category)
      | None => (None, "")
      end
  | None => (None, "")
  end.

Definition is_class (c : string) (cls : option string) : bool :=
  match cls with
  | Some s => String.eqb s c
  | None => false
  end.

(** The class pushed for one code point by [assignLineBreakingClasses]. *)
Definition assignLineBreakingClass
    (criteria : option (option string -> string -> option string))
    (c : option Z) : option string :=
  let '(cls, gc) := getClsAndGC c in
  match criteria with
  | None =>
      if is_class "AI" cls || is_class "SG" cls || is_class "XX" cls then Some "AL"
      else if is_class "SA" cls then
        if String.eqb gc "Mn" || String.eqb gc "Mc" then Some "CM" else Some "AL"
      else if is_class "CJ" cls then Some "NS"
      else cls
  | Some f => f cls gc
  end.

Definition assignLineBreakingClasses
    (criteria : option (option string -> string -> option string))
    (cps : list (option Z)) : list (option string) :=
  map (assignLineBreakingClass criteria) cps.

(** The variables of the loop of [setCombiningSequencesMaps]. *)
Record combining : Type := {
  m_classesWithoutCS : list (option string);
  m_codePointsWithoutCS : list (option Z);
  m_offsetsCombiningSeqs : list Z;
  m_prevCls : option string;
  m_totOffset : Z
}.

(** [!prevCls]: [undefined] and the empty string are falsy. *)
Definition falsy (cls : option string) : bool :=
  match cls with
  | None => true
  | Some s => String.eqb s ""
  end.

Definition is_hard_or_space (cls : option string) : bool :=
  is_class "SP" cls || is_class "BK" cls || is_class "CR" cls
  || is_class "LF" cls || is_class "NL" cls || is_class "ZW" cls.

Definition setCombiningSequencesMaps_step (cps : list (option Z)) (m : combining)
    (entry : nat * option string) : combining :=
  let '(i, el) := entry in
  let m1 :=
    if is_class "CM" el || is_class "ZWJ" el then
      if falsy (m_prevCls m) || is_hard_or_space (m_prevCls m) then
        {| m_classesWithoutCS := m_classesWithoutCS m ++ [Some "AL"];
           m_codePointsWithoutCS := m_codePointsWithoutCS m ++ [Some 0x41];
           m_offsetsCombiningSeqs := m_offsetsCombiningSeqs m;
           m_prevCls := m_prevCls m;
           m_totOffset := m_totOffset m |}
      else
        {| m_classesWithoutCS := m_classesWithoutCS m;
           m_codePointsWithoutCS := m_codePointsWithoutCS m;
           m_offsetsCombiningSeqs := m_offsetsCombiningSeqs m;
           m_prevCls := m_prevCls m;
           m_totOffset := m_totOffset m + 1 |}
    else
      {| m_classesWithoutCS := m_classesWithoutCS m ++ [el];
         m_codePointsWithoutCS :=
           m_codePointsWithoutCS m ++ [aget_opt cps (Int (Z.of_nat i))];
         m_offsetsCombiningSeqs := m_offsetsCombiningSeqs m;
         m_prevCls := m_prevCls m;
         m_totOffset := m_totOffset m |} in
  {| m_classesWithoutCS := m_classesWithoutCS m1;
     m_codePointsWithoutCS := m_codePointsWithoutCS m1;
     m_offsetsCombiningSeqs := m_offsetsCombiningSeqs m1 ++ [m_totOffset m1];
     m_prevCls := el;
     m_totOffset := m_totOffset m1 |}.

(** [setCombiningSequencesMaps] on the class array and the code points:
    [classesWithoutCS], [codePointsWithoutCS] and [offsetsCombiningSeqs]
    (the flag [applyOffset] it clears is set by [setText] below). *)
Definition setCombiningSequencesMaps (cls : list (option string))
    (cps : list (option Z)) : list (option string) * list (option Z) * list Z :=
  let m := fold_left (setCombiningSequencesMaps_step cps)
             (combine (seq 0 (List.length cls)) cls)
             {| m_classesWithoutCS := []; m_codePointsWithoutCS := [];
                m_offsetsCombiningSeqs := []; m_prevCls := None;
                m_totOffset := 0 |} in
  (m_classesWithoutCS m, m_codePointsWithoutCS m,
   m_offsetsCombiningSeqs m ++ [m_totOffset m]).

(** [setText] *)
Definition setText (c : config) (txt : list Z) : checker :=
  let '(cps, offs) := setCodePoints txt in
  let cls := assignLineBreakingClasses (assignLineBreakingClsCriteria c) cps in
  let '(clsWo, cpsWo, offsCS) := setCombiningSequencesMaps cls cps in
  {| cfg := c;
     text := txt;
     codePoints := cps;
     offsetsSurrogates := offs;
     classes := cls;
     origClasses := cls;
     origCodePoints := cps;
     classesWithoutCS := clsWo;
     codePointsWithoutCS := cpsWo;
     offsetsCombiningSeqs := offsCS;
     applyOffset := false |}.

(** [removeCombiningSequences] *)
Definition removeCombiningSequences (this : checker) : checker :=
  {| cfg := cfg this;
     text := text this;
     codePoints := codePointsWithoutCS this;
     offsetsSurrogates := offsetsSurrogates this;
     classes := classesWithoutCS this;
     origClasses := origClasses this;
     origCodePoints := origCodePoints this;
     classesWithoutCS := classesWithoutCS this;
     codePointsWithoutCS := codePointsWithoutCS this;
     offsetsCombiningSeqs := offsetsCombiningSeqs this;
     applyOffset := true |}.

(** The cleanup at the end of [isPosLineBreaking]. *)
Definition cleanup (this : checker) : checker :=
  if applyOffset this then
    {| cfg := cfg this;
       text := text this;
       codePoints := origCodePoints this;
       offsetsSurrogates := offsetsSurrogates this;
       classes := origClasses this;
       origClasses := origClasses this;
       origCodePoints := origCodePoints this;
       classesWithoutCS := classesWithoutCS this;
       codePointsWithoutCS := codePointsWithoutCS this;
       offsetsCombiningSeqs := offsetsCombiningSeqs this;
       applyOffset := false |}
  else this.

Definition checkBase (this : checker) (base : string) (i : num) : res bool :=
  if String.eqb base "any" then Ok true
  else if String.eqb base "sot" then Ok (num_ltb i (Int 0))
  else if String.eqb base "eot"
  then Ok (num_eqb i (Int (Z.of_nat (List.length (codePoints this)))))
  else Throw Error.

Definition checkClass (this : checker) (cls : string) (i : num) : bool :=
  match aget_opt (classes this) i with
  | Some c => String.eqb cls c
  | None => false
  end.

Definition checkGeneralCategory (this : checker) (gc : string) (i : num) : bool :=
  match getGeneralCategory (aget_opt (codePoints this) i) with
  | Some g => String.eqb gc g
  | None => false
  end.

Definition checkCodePoint (this : checker) (cp : Z) (i : num) : bool :=
  match aget_opt (codePoints this) i with
  | Some c => cp =? c
  | None => false
  end.

(** [checkExtPict]: [String.fromCodePoint(undefined)] throws a RangeError. *)
Definition checkExtPict (this : checker) (i : num) : res bool :=
  match aget_opt (codePoints this) i with
  | Some c => Ok (extendedPictographic data c)
  | None => Throw RangeError
  end.

Definition checkEastAsian (this : checker) (i : num) : bool :=
  match aget_opt (codePoints this) i with
  | Some c => eastAsianCodePoints data c
  | None => false
  end.

Definition consumer : Type :=
  token -> num -> Z -> option (list token) -> option bool -> nat -> res consumed.

Definition simple (r : bool) (i : num) : consumed :=
  {| c_result := r; index := i; next_token_index := None |}.

(** [parent.content[next_token_index]], as the argument of a call of
    [consumeToken]: reading it on a null parent, or reading [.type] of an
    absent item, throws a TypeError. *)
Definition operand (parent : option (list token)) (next : nat) : res token :=
  match parent with
  | None => Throw TypeError
  | Some content =>
      match nth_error content next with
      | Some t => Ok t
      | None => Throw TypeError
      end
  end.

(** [prev_result === false] *)
Definition is_false (prev_result : option bool) : bool :=
  match prev_result with
  | Some false => true
  | _ => false
  end.

(** The loop condition of the modifier [*]. *)
Definition star_continues (this : checker) (r : consumed) : bool :=
  c_result r && num_gtb (index r) (Int 0)
  && num_ltb (index r) (Int (Z.of_nat (List.length (codePoints this)) - 1)).

(** The [while] loop of the modifier [*]; [rec] is [consumeToken]. *)
Fixpoint star_loop (rec : consumer) (k : nat) (this : checker) (op : token)
    (step : Z) (parent : option (list token)) (next : nat) (r : consumed)
    : res consumed :=
  match k with
  | O => OutOfFuel
  | S k' =>
      if star_continues this r then
        r' <- rec op (num_add (index r) (Int step)) step parent
                (Some (c_result r)) (S next) ;;
        star_loop rec k' this op step parent next r'
      else Ok r
  end.

(** [content[token_i]?.type !== 'modifier' || ['*', '^'].includes(content[token_i]?.content)] *)
Definition not_binary_modifier (content : list token) (token_i : nat) : bool :=
  match nth_error content token_i with
  | Some (TModifier c) => String.eqb c "*" || String.eqb c "^"
  | _ => true
  end.

(** The [while] loop of a set; [i] is the index the set was called with. *)
Fixpoint set_loop (rec : consumer) (k : nat) (content : list token) (step : Z)
    (i : num) (prev : option bool) (idx : num) (token_i : nat) : res consumed :=
  match k with
  | O => OutOfFuel
  | S k' =>
      match nth_error content token_i with
      | None => Ok (simple false i)
      | Some t =>
          r <- rec t idx step (Some content) prev (S token_i) ;;
          let token_i' := nullish (next_token_index r) (S token_i) in
          if c_result r && not_binary_modifier content token_i'
          then Ok (simple true i)
          else set_loop rec k' content step i (Some (c_result r)) (index r) token_i'
      end
  end.

(** [token.content !== '*'], negated. *)
Definition content_is_star (t : token) : bool :=
  match t with
  | TBase c | TGc c | TClass c | TModifier c => String.eqb c "*"
  | _ => false
  end.

(** The [while] loop of a sequence. *)
Fixpoint sequence_loop (rec : consumer) (k : nat) (content : list token) (step : Z)
    (i : num) (prev : option bool) (idx : num) (token_i : nat) : res consumed :=
  match k with
  | O => OutOfFuel
  | S k' =>
      match nth_error content token_i with
      | None => Ok (simple true idx)
      | Some t =>
          r <- rec t idx step (Some content) prev (S token_i) ;;
          if negb (c_result r) then Ok (simple false i)
          else
            sequence_loop rec k' content step i (Some (c_result r))
              (if content_is_star t then index r else num_add (index r) (Int step))
              (nullish (next_token_index r) (S token_i))
      end
  end.

(** The body of [consumeToken], with [rec] for its recursive calls and [k]
    bounding its loops. *)
Definition consume_body (rec : consumer) (k : nat) (this : checker) (tok : token)
    (i : num) (step : Z) (parent : option (list token)) (prev_result : option bool)
    (next : nat) : res consumed :=
  match tok with
  | TBase content => b <- checkBase this content i ;; Ok (simple b i)
  | TClass content => Ok (simple (checkClass this content i) i)
  | TGc content => Ok (simple (checkGeneralCategory this content i) i)
  | TCodepoint content => Ok (simple (checkCodePoint this content i) i)
  | TExtpict => b <- checkExtPict this i ;; Ok (simple b i)
  | TEastasian => Ok (simple (checkEastAsian this i) i)
  | TModifier content =>
      if String.eqb content "^" then
        op <- operand parent next ;;
        r <- rec op i step parent prev_result (S next) ;;
        Ok {| c_result := negb (c_result r); index := index r;
              next_token_index := Some (nullish (next_token_index r) (S next)) |}
      else if String.eqb content "&" then
        if is_false prev_result
        then Ok {| c_result := false; index := i; next_token_index := Some (S next) |}
        else
          op <- operand parent next ;;
          r <- rec op i step parent prev_result (S next) ;;
          Ok {| c_result := c_result r; index := index r;
                next_token_index := Some (nullish (next_token_index r) (S next)) |}
      else if String.eqb content "-" then
        if is_false prev_result
        then Ok {| c_result := false; index := i; next_token_index := Some (S next) |}
        else
          op <- operand parent next ;;
          r <- rec op i step parent prev_result (S next) ;;
          Ok {| c_result := negb (c_result r); index := index r;
                next_token_index := Some (nullish (next_token_index r) (S next)) |}
      else if String.eqb content "*" then
        op <- operand parent next ;;
        r0 <- rec op i step parent prev_result (S next) ;;
        r <- star_loop rec k this op step parent next r0 ;;
        Ok {| c_result := true; index := index r;
              next_token_index := Some (nullish (next_token_index r) (S next)) |}
      else Throw Error
  | TSet content => set_loop rec k content step i None i 0
  | TSequence content => sequence_loop rec k content step i None i 0
  end.

(** [consumeToken]; [fuel] bounds the depth of the calls and the length of the
    loops. *)
Fixpoint consumeToken (fuel : nat) (this : checker) : consumer :=
  match fuel with
  | O => fun _ _ _ _ _ _ => OutOfFuel
  | S f => consume_body (consumeToken f this) f this
  end.

(** The call [rule.side_effect(...(sideEffectArguments[rule.name] ?? []))]:
    the side effect of the rule lists calls its first argument, which throws
    a TypeError when there is none. *)
Definition call_side_effect (this : checker) (f : side_effect_fn)
    (args : list callback) : res checker :=
  match f, args with
  | CallFirstArgument, boundRemoveCombiningSequences :: _ =>
      Ok (removeCombiningSequences this)
  | CallFirstArgument, [] => Throw TypeError
  end.

(** [checkRule] *)
Definition checkRule (fuel : nat) (this : checker) (rule : ruleObj) (i : num)
    : res (option Z * checker) :=
  b <- consumeToken fuel this (before rule) (num_sub i (Int 1)) (-1) None None 0%nat ;;
  a <- (if c_result b then consumeToken fuel this (after rule) i 1 None None 0%nat
        else Ok (simple false i)) ;;
  if c_result b && c_result a then Ok (result rule, this)
  else
    match side_effect rule with
    | Some f =>
        this' <- call_side_effect this f
                   (nullish (lookup_arguments (nullish (name rule) "undefined")
                               (sideEffectArguments (cfg this))) []) ;;
        Ok (Some BreakType.UNKNOWN, this')
    | None => Ok (Some BreakType.UNKNOWN, this)
    end.

(** The index [i - offsetSurrogates - offsetsCombiningSeqs[i - offsetSurrogates]
    * !!applyOffset] given to [checkRule]. *)
Definition rule_index (this : checker) (i : Z) : num :=
  let offsetSurrogates := to_num (aget (offsetsSurrogates this) (Int i)) in
  let j := num_sub (Int i) offsetSurrogates in
  num_sub j (num_mul (to_num (aget (offsetsCombiningSeqs this) j))
                     (num_of_bool (applyOffset this))).

(** [result !== BreakType.UNKNOWN] *)
Definition decided (r : option Z) : bool :=
  match r with
  | Some v => negb (v =? BreakType.UNKNOWN)
  | None => true
  end.

(** The loop [for (const rule of this.#rules)] of [isPosLineBreaking]. *)
Fixpoint rules_loop (fuel : nat) (this : checker) (rs : list ruleObj) (i : Z)
    (r : option Z) : res (option Z * checker) :=
  match rs with
  | [] => Ok (r, this)
  | rule :: rest =>
      c <- checkRule fuel this rule (rule_index this i) ;;
      let '(r', this') := c in
      if decided r' then Ok (r', this') else rules_loop fuel this' rest i r'
  end.

(** The test of the position inside a surrogate pair. *)
Definition inside_surrogate_pair (this : checker) (i : Z) : bool :=
  (0 <? i) && (i <? Z.of_nat (List.length (text this)))
  && match nth_error (text this) (Z.to_nat (i - 1)), nth_error (text this) (Z.to_nat i) with
     | Some lead, Some trail => isSurrogatePair lead trail
     | _, _ => false
     end.

(** [isPosLineBreaking]: the verdict and the checker after the call. *)
Definition isPosLineBreaking (fuel : nat) (this : checker) (i : Z)
    : res (option Z * checker) :=
  c <- (if inside_surrogate_pair this i then Ok (Some BreakType.FORBIDDEN, this)
        else rules_loop fuel this (rules (cfg this)) i (Some BreakType.UNKNOWN)) ;;
  let '(r, this') := c in
  Ok (r, cleanup this').

(** [result & lineBreak], with [undefined] read as 0. *)
Definition bit_and (r : option Z) (mask : Z) : Z :=
  match r with
  | Some v => Z.land v mask
  | None => 0
  end.

(** The closure [next] of the iterator: the yielded value ([None] when done),
    the new [current] and the checker after the call. *)
Fixpoint next (k : nat) (fuel : nat) (this : checker) (current : Z)
    : res (option segment * Z * checker) :=
  match k with
  | O => OutOfFuel
  | S k' =>
      let current := current + 1 in
      if Z.of_nat (List.length (text this)) <? current then Ok (None, current, this)
      else
        c <- isPosLineBreaking fuel this current ;;
        let '(r, this') := c in
        if bit_and r (Z.lor BreakType.MANDATORY BreakType.ALLOWED) =? 0
        then next k' fuel this' current
        else Ok (Some [("index", current); ("breakType", nullish r 0)], current, this')
  end.

(** A [for ... of] loop over the checker: the values yielded until the
    iterator is done. *)
Fixpoint iterate_from (k : nat) (fuel : nat) (this : checker) (current : Z)
    : res (list segment) :=
  match k with
  | O => OutOfFuel
  | S k' =>
      n <- next fuel fuel this current ;;
      let '(value, current', this') := n in
      match value with
      | None => Ok []
      | Some v =>
          rest <- iterate_from k' fuel this' current' ;;
          Ok (v :: rest)
      end
  end.

Definition iterate (fuel : nat) (this : checker) : res (list segment) :=
  iterate_from fuel fuel this (-1).

End WithData.

(* ------------------------------------------------------------------------- *)
(** ** The standard checkers, and data for examples *)

Definition rulesV17 : list ruleObj :=
  Eval vm_compute in
    match parseRules lineBreakingRulesV17 with
    | Ok rs => rs
    | _ => []
    end.

Definition rulesV16 : list ruleObj :=
  Eval vm_compute in
    match parseRules lineBreakingRulesV16 with
    | Ok rs => rs
    | _ => []
    end.

(** The configuration the constructor builds from parsed rules [rs]. *)
Definition constructed (criteria : option (option string -> string -> option string))
    (rs : list ruleObj) : config :=
  {| assignLineBreakingClsCriteria := criteria;
     rules := rs;
     sideEffectArguments :=
       [("std_remove_cm_sequences", [boundRemoveCombiningSequences])] |}.

(** LB2 and LB3 as parsed. *)
Definition LB2 : ruleObj :=
  {| before := TSequence [TBase "sot"]; after := TSequence [TBase "any"];
     name := None; side_effect := None; result := Some BreakType.FORBIDDEN |}.

Definition LB3 : ruleObj :=
  {| before := TSequence [TBase "any"]; after := TSequence [TBase "eot"];
     name := None; side_effect := None; result := Some BreakType.MANDATORY |}.

(** LB31, the last rule of both lists, as parsed. *)
Definition LB31 : ruleObj :=
  {| before := TSequence [TBase "any"]; after := TSequence [TBase "any"];
     name := None; side_effect := None; result := Some BreakType.ALLOWED |}.

(** A small class table: Latin letters, space, comma, CR, LF, the combining
    acute accent and the regional indicators; no East Asian and no
    Extended_Pictographic code point. *)
Definition sampleData : unicodeData :=
  {| codePointsBLClasses := fun c =>
       if (65 <=? c) && (c <=? 90) then Some ("AL", "Lu")
       else if (97 <=? c) && (c <=? 122) then Some ("AL", "Ll")
       else if c =? 32 then Some ("SP", "Zs")
       else if c =? 44 then Some ("IS", "Po")
       else if c =? 10 then Some ("LF", "Cc")
       else if c =? 13 then Some ("CR", "Cc")
       else if c =? 0x301 then Some ("CM", "Mn")
       else if (0x1F1E6 <=? c) && (c <=? 0x1F1FF) then Some ("RI", "So")
       else None;
     eastAsianCodePoints := fun _ => false;
     extendedPictographic := fun _ => false |}.

(** The code units of an ASCII string. *)
Definition units (s : string) : list Z :=
  map (fun c => Z.of_nat (nat_of_ascii c)) (list_ascii_of_string s).

(** A JS string: every code unit is a 16-bit value. *)
Definition wf_text (txt : list Z) : Prop :=
  Forall (fun u => 0 <= u <= 65535) txt.

(** The checkers a call can meet once [setText c txt] has run: the only
    changes of a checker are the side effect of a rule and the cleanup. *)
Inductive reachable (data : unicodeData) (c : config) (txt : list Z) : checker -> Prop :=
| reach_setText : reachable data c txt (setText data c txt)
| reach_side_effect this :
    reachable data c txt this ->
    reachable data c txt (removeCombiningSequences this)
| reach_cleanup this :
    reachable data c txt this ->
    reachable data c txt (cleanup this).

(* ------------------------------------------------------------------------- *)
(** ** The combining-sequence transform, as the specification words it *)

Definition is_CM_or_ZWJ (cls : option string) : bool :=
  is_class "CM" cls || is_class "ZWJ" cls.

(** The previous class is absent or one of SP, BK, CR, LF, NL, ZW. *)
Definition absent_or_break (prev : option string) : bool :=
  match prev with
  | None => true
  | Some _ => is_hard_or_space prev
  end.

(** What one scan step emits for the class [cur] with code point [cp]. *)
Definition emitted (prev cur : option string) (cp : option Z)
    : list (option string * option Z) :=
  if is_CM_or_ZWJ cur then
    if absent_or_break prev then [(Some "AL", Some 0x41)] else []
  else [(cur, cp)].

(** Whether the scan step skips [cur] and increments the running offset. *)
Definition absorbed (prev cur : option string) : bool :=
  is_CM_or_ZWJ cur && negb (absent_or_break prev).

Fixpoint emit_all (prev : option string) (l : list (option string * option Z))
    : list (option string * option Z) :=
  match l with
  | [] => []
  | (cur, cp) :: rest => emitted prev cur cp ++ emit_all cur rest
  end.

(** The running offset recorded at every step, and once more at the end. *)
Fixpoint offsets_all (prev : option string) (off : Z) (l : list (option string))
    : list Z :=
  match l with
  | [] => [off]
  | cur :: rest =>
      let off' := if absorbed prev cur then off + 1 else off in
      off' :: offsets_all cur off' rest
  end.

(** The class array paired with the code points at the same indices. *)
Definition entries (cls : list (option string)) (cps : list (option Z))
    : list (option string * option Z) :=
  map (fun e => (snd e, aget_opt cps (Int (Z.of_nat (fst e)))))
      (combine (seq 0 (List.length cls)) cls).

(* ------------------------------------------------------------------------- *)
(** ** Runs of the modifier [*] *)

(** [strictly_inside this r]: the result [r] is a match whose index is an
    integer [z] with [0 < z < n_codepoints - 1]. The bounds are written out
    here, on the integers, and not taken from the loop's own test. *)
Definition strictly_inside (this : checker) (r : consumed) : Prop :=
  c_result r = true
  /\ exists z, index r = Int z
               /\ 0 < z /\ z < Z.of_nat (List.length (codePoints this)) - 1.

(** [star_run eval this step r0 r]: starting from the operand's first result
    [r0], the loop re-evaluates the operand at [index + step] as long as the
    previous result is a match strictly inside [(0, n_codepoints - 1)], and
    [r] is the first result that is not. *)
Inductive star_run (eval : num -> option bool -> res consumed) (this : checker)
    (step : Z) : consumed -> consumed -> Prop :=
| star_stop r :
    ~ strictly_inside this r ->
    star_run eval this step r r
| star_again r r' r_last :
    strictly_inside this r ->
    eval (num_add (index r) (Int step)) (Some (c_result r)) = Ok r' ->
    star_run eval this step r' r_last ->
    star_run eval this step r r_last.

(** The ways a run of [*] stops: on a failure, on an index that is not a
    number, at or before the first code point, at or after the last one. *)
Definition star_stopped (this : checker) (r : consumed) : Prop :=
  c_result r = false
  \/ index r = NaN
  \/ exists z, index r = Int z
               /\ (z <= 0 \/ Z.of_nat (List.length (codePoints this)) - 1 <= z).

(** The operand does not move against the direction of the scan. *)
Definition advances (step : Z) (j : num) (r : consumed) : Prop :=
  match j, index r with
  | Int z, Int z' => 0 <= step * (z' - z)
  | _, _ => True
  end.

(* ------------------------------------------------------------------------- *)
(** ** Tokens of a rule string *)

Definition verdict_of (t : string) : option Z :=
  if String.eqb t RuleParser.FORBIDDEN_SYMBOL then Some BreakType.FORBIDDEN
  else if String.eqb t RuleParser.MANDATORY_SYMBOL then Some BreakType.MANDATORY
  else if String.eqb t RuleParser.ALLOWED_SYMBOL then Some BreakType.ALLOWED
  else None.

(** A recognised token other than an opening bracket. *)
Definition flat_token (t : string) : bool :=
  match verdict_of t with
  | Some _ => true
  | None =>
      String.eqb t "any" || String.eqb t "sot" || String.eqb t "eot"
      || String.eqb t "eastasian" || String.eqb t "extpict"
      || RuleParser.is_codepoint_token t || RuleParser.is_gc_token t
      || RuleParser.is_class_token t
      || String.eqb t "^" || String.eqb t "&" || String.eqb t "-" || String.eqb t "*"
      || String.eqb t "|" || String.eqb t ")" || String.eqb t "]"
  end.

(** The verdict of the last verdict symbol among the tokens, [old] when
    there is none. *)
Fixpoint last_verdict (old : option Z) (tokens : list string) : option Z :=
  match tokens with
  | [] => old
  | t :: rest =>
      last_verdict (match verdict_of t with Some v => Some v | None => old end) rest
  end.

Definition count_verdicts (tokens : list string) : nat :=
  List.length (filter (fun t => match verdict_of t with Some _ => true | None => false end)
                 tokens).

(* ------------------------------------------------------------------------- *)
(** ** The rule loop at a fixed index *)

(** [rules_loop] with the index given to [checkRule] fixed to [idx]: what the
    loop of [isPosLineBreaking] does when the index does not depend on the
    views (see [rules_loop_fixed_index]). *)
Fixpoint rules_loop_at (data : unicodeData) (idx : num) (fuel : nat) (this : checker)
    (rs : list ruleObj) (r : option Z) : res (option Z * checker) :=
  match rs with
  | [] => Ok (r, this)
  | rule :: rest =>
      c <- checkRule data fuel this rule idx ;;
      let '(r', this') := c in
      if decided r' then Ok (r', this') else rules_loop_at data idx fuel this' rest r'
  end.

(* ------------------------------------------------------------------------- *)
(** ** Budgets *)

(** [refines r r']: [r] is [r'], unless the budget of [r] was exhausted. *)
Definition refines {A : Type} (r r' : res A) : Prop :=
  r = OutOfFuel \/ r = r'.

(* ------------------------------------------------------------------------- *)
(** ** The class [Range] and its use for the class table *)

Module Range.

(** The numbers of the code are doubles; the integers among them are those
    with at most 53 significant bits. [to_double z] is the double nearest to
    the integer [z], with ties going to the even mantissa: the result of an
    addition or subtraction of two integer doubles whose exact result is [z]
    (an overflow to Infinity, from 2^1024 on, is out of reach of the integers
    the constructor accepts). Up to 2^53 every integer is a double. *)
Definition to_double (z : Z) : Z :=
  let a := Z.abs z in
  if a <=? 2 ^ 53 then z
  else
    let ulp := 2 ^ (Z.log2 a - 52) in
    let q := a / ulp in
    let r := a mod ulp in
    let q' := if 2 * r <? ulp then q
              else if ulp <? 2 * r then q + 1
              else if Z.even q then q else q + 1 in
    Z.sgn z * (q' * ulp).

(** [Math.ceil(d / s)] for integer doubles [d > 0] and [s > 0]: the ceiling
    of the double nearest to the quotient. Below 2^52 the doubles around the
    quotient include the integers on both sides of it, so that the result is
    the lower one exactly when the quotient rounds to it; from 2^52 on the
    doubles are integers. *)
Definition ceil_div (d s : Z) : Z :=
  let k := d / s in
  let rem := d mod s in
  if rem =? 0 then to_double k
  else if k =? 0 then 1
  else
    let e := Z.log2 k in
    if e <? 52 then
      if rem * 2 ^ (53 - e) <=? s then k else k + 1
    else
      let ulp := 2 ^ (e - 52) in
      let m := k / ulp in
      let twice := 2 * ((k mod ulp) * s + rem) in
      let m' := if twice <? ulp * s then m
                else if ulp * s <? twice then m + 1
                else if Z.even m then m else m + 1 in
      m' * ulp.

(** The private fields [#start], [#stop], [#step]. *)
Record t : Type := { start : Z; stop : Z; step : Z }.

(** [parseInt(n) !== Number(n)] on an integer [n]: [parseInt] reads the
    digits of [String(n)], which is in exponent notation from 10^21 on. *)
Definition not_integer (n : Z) : bool := 10 ^ 21 <=? Z.abs n.

(** [new Range(start, ...more)] called with integers: an argument that fails
    the integer test throws a TypeError; then a zero step throws a
    RangeError; a lone argument is the stop of a range from 0. *)
Definition constructor (start : Z) (more : list Z) : res t :=
  if existsb not_integer (start :: more) then Throw TypeError
  else
    let step := match more with
                | _ :: s :: _ => s
                | _ => 1
                end in
    if step =? 0 then Throw RangeError
    else
      match more with
      | [] => Ok {| start := 0; stop := start; step := step |}
      | stop :: _ => Ok {| start := start; stop := stop; step := step |}
      end.

(** [a % b] on integers: the remainder of the truncated division, which is
    exact on doubles, NaN for a zero divisor. *)
Definition remainder (a b : Z) : num :=
  if b =? 0 then NaN else Int (Z.rem a b).

(** [includes] *)
Definition includes (r : t) (n : Z) : bool :=
  if 0 <? step r then
    (start r <=? n) && (n <? stop r)
    && num_eqb (remainder (to_double (n - start r)) (step r)) (Int 0)
  else
    (n <=? start r) && (stop r <? n)
    && num_eqb (remainder (to_double (start r - n)) (- step r)) (Int 0).

(** The getter [size], for a range the constructor built (its step is not
    zero). *)
Definition size (r : t) : Z :=
  let d := if 0 <? step r then to_double (stop r - start r)
           else to_double (start r - stop r) in
  if d <=? 0 then 0
  else ceil_div d (Z.abs (step r)).

(** [isInRange] of the iterator. *)
Definition isInRange (r : t) (n : Z) : bool :=
  if 0 <? step r then n <? stop r else stop r <? n.

(** The closure [next] of the iterator: the value ([None] when done) and the
    new [current], [current += step] being an addition of doubles. *)
Definition next (r : t) (current : Z) : option Z * Z :=
  if isInRange r current then (Some current, to_double (current + step r))
  else (None, current).

(** A [for ... of] loop over the range: the values until the iterator is
    done. *)
Fixpoint values (k : nat) (r : t) (current : Z) : res (list Z) :=
  match k with
  | O => OutOfFuel
  | S k' =>
      match next r current with
      | (Some v, current') =>
          rest <- values k' r current' ;;
          Ok (v :: rest)
      | (None, _) => Ok []
      end
  end.

End Range.

(** The class [R] of [lbclassesTxt2Json.js], which extends [Range] and
    overrides [toJSON]: [[start]] for a range of one code point, else
    [[start, stop]]. The ranges are ranges of code points, on which
    [start + 1] is exact. *)
Module R.

Definition toJSON (r : Range.t) : Z * option Z :=
  if Range.stop r =? Range.start r + 1 then (Range.start r, None)
  else (Range.start r, Some (Range.stop r)).

End R.

(* ------------------------------------------------------------------------- *)
(** ** The tables [makeLBC] builds *)

(** A range [[b]] or [[b, e]] of the compact tables. *)
Definition compactRange : Type := (Z * option Z)%type.

(** [for (let i = b; i < e; i++) classes[i] = v] on the sparse array. *)
Definition fill {A : Type} (classes : Z -> option A) (b e : Z) (v : A)
    : Z -> option A :=
  fun i => if (b <=? i) && (i <? e) then Some v else classes i.

(** The loop over the ranges of one class and one general category. *)
Definition expandRanges (cls gc : string) (ranges : list compactRange)
    (classes : Z -> option (string * string)) : Z -> option (string * string) :=
  fold_left (fun acc (r : compactRange) =>
               let '(b, e) := r in
               fill acc b (nullish e (b + 1)) (cls, gc))
            ranges classes.

(** The array [classes] that [makeLBC] stores in [codePointsBLClasses], from
    the parsed compact table: an object from class to an object from general
    category to ranges, in the order of their keys. *)
Definition expandClasses
    (CompactClasses : list (string * list (string * list compactRange)))
    : Z -> option (string * string) :=
  fold_left (fun acc (c : string * list (string * list compactRange)) =>
               fold_left (fun acc' (g : string * list compactRange) =>
                            expandRanges (fst c) (fst g) (snd g) acc')
                         (snd c) acc)
            CompactClasses (fun _ => None).

(** The set [eaCodePoints] that [makeLBC] stores in [eastAsianCodePoints]:
    [for (const [s, e] of ranges) for (let i = s; i < e; i++) add(i)]; with
    [e] undefined the inner loop does not run. *)
Definition expandEastAsian (EastAsianCharRanges : list compactRange) : Z -> bool :=
  fold_left (fun has (r : compactRange) =>
               let '(s, e) := r in
               fun i => has i || match e with
                                 | Some e' => (s <=? i) && (i <? e')
                                 | None => false
                                 end)
            EastAsianCharRanges (fun _ => false).

(** Whether the loop of [makeLBC] over a compact range visits [i]. *)
Definition in_compact_range (r : compactRange) (i : Z) : bool :=
  let '(b, e) := r in (b <=? i) && (i <? nullish e (b + 1)).

(** The ranges of a compact table with their class and category, in the
    order [makeLBC] visits them. *)
Definition listed (CompactClasses : list (string * list (string * list compactRange)))
    : list (string * string * compactRange) :=
  flat_map (fun c => flat_map (fun g => map (fun r => (fst c, fst g, r)) (snd g))
                              (snd c))
           CompactClasses.

(* ------------------------------------------------------------------------- *)
(** ** Decoding, by recursion on the text *)

(** The code points of a text and the surrogate offsets of its positions,
    starting from offset [off]: a surrogate pair gives one code point and
    raises the offset from its second unit on. *)
Fixpoint decode (off : Z) (txt : list Z) : list Z * list Z :=
  match txt with
  | [] => ([], [off])
  | u :: rest =>
      match rest with
      | low :: rest' =>
          if isSurrogatePair u low then
            let '(cps, offs) := decode (off + 1) rest' in
            ((u - 0xd800) * 0x400 + (low - 0xdc00) + 0x10000 :: cps,
             off :: off + 1 :: offs)
          else
            let '(cps, offs) := decode off rest in
            (u :: cps, off :: offs)
      | [] => ([u], [off; off])
      end
  end.

(* ------------------------------------------------------------------------- *)
(** ** Patterns without modifiers *)

(** The tokens that test one position: a class, a general category, a code
    point, the East Asian set, or a base (the parser gives none of them the
    content ['*']). *)
Definition single (t : token) : bool :=
  match t with
  | TClass c | TGc c => negb (String.eqb c "*")
  | TCodepoint _ | TEastasian => true
  | TBase c => String.eqb c "any" || String.eqb c "sot" || String.eqb c "eot"
  | _ => false
  end.

(** Whether such a token matches at index [i]. *)
Definition matches (data : unicodeData) (this : checker) (t : token) (i : num) : bool :=
  match t with
  | TClass c => checkClass this c i
  | TGc c => checkGeneralCategory data this c i
  | TCodepoint c => checkCodePoint this c i
  | TEastasian => checkEastAsian data this i
  | TBase c =>
      String.eqb c "any"
      || (String.eqb c "sot" && num_ltb i (Int 0))
      || (String.eqb c "eot"
          && num_eqb i (Int (Z.of_nat (List.length (codePoints this)))))
  | _ => false
  end.

(** [i + m * step], by [m] additions. *)
Fixpoint advance (i : num) (step : Z) (m : nat) : num :=
  match m with
  | O => i
  | S m' => advance (num_add i (Int step)) step m'
  end.

(** Every item matches, the first at [i], the next at [i + step], ... *)
Fixpoint all_match (data : unicodeData) (this : checker) (content : list token)
    (i : num) (step : Z) : bool :=
  match content with
  | [] => true
  | t :: rest =>
      matches data this t i && all_match data this rest (num_add i (Int step)) step
  end.

(* ------------------------------------------------------------------------- *)
(** ** The positions the iterator yields *)

(** What the iterator yields for position [p]: nothing unless the verdict
    there has a bit of [MANDATORY|ALLOWED]. *)
Definition yielded (data : unicodeData) (fuel : nat) (this : checker) (p : Z)
    : list segment :=
  match isPosLineBreaking data fuel this p with
  | Ok (r, _) =>
      if bit_and r (Z.lor BreakType.MANDATORY BreakType.ALLOWED) =? 0 then []
      else [[("index", p); ("breakType", nullish r 0)]]
  | _ => []
  end.

(** The [n] positions after [from]. *)
Definition positions_after (from : Z) (n : nat) : list Z :=
  map (fun j => from + 1 + Z.of_nat j) (seq 0 n).

(* ------------------------------------------------------------------------- *)
(** ** The items of a sequence, each modifier with its operand *)

(** The content of a sequence cut into its items: a modifier together with
    the item that follows it, or a lone item. *)
Fixpoint items (content : list token) : list (list token) :=
  match content with
  | [] => []
  | t :: rest =>
      if RuleParser.is_modifier t then
        match rest with
        | op :: rest' => [t; op] :: items rest'
        | [] => [[t]]
        end
      else [t] :: items rest
  end.

(** Every modifier is followed by an item that is not a modifier. *)
Fixpoint modifiers_have_operands (content : list token) : bool :=
  match content with
  | [] => true
  | t :: rest =>
      if RuleParser.is_modifier t then
        match rest with
        | op :: rest' =>
            negb (RuleParser.is_modifier op) && modifiers_have_operands rest'
        | [] => false
        end
      else modifiers_have_operands rest
  end.

(* ------------------------------------------------------------------------- *)
(** ** The rules of the hard line breaks *)

(** LB4, the two rules of LB5 and LB6, as parsed: they follow LB2 and LB3 in
    both rule lists. *)
Definition LB4 : ruleObj :=
  {| before := TSequence [TClass "BK"]; after := TSequence [TBase "any"];
     name := None; side_effect := None; result := Some BreakType.MANDATORY |}.

Definition LB5_CRLF : ruleObj :=
  {| before := TSequence [TClass "CR"]; after := TSequence [TClass "LF"];
     name := None; side_effect := None; result := Some BreakType.FORBIDDEN |}.

Definition LB5 : ruleObj :=
  {| before := TSequence [TSet [TClass "CR"; TClass "LF"; TClass "NL"]];
     after := TSequence [TBase "any"];
     name := None; side_effect := None; result := Some BreakType.MANDATORY |}.

Definition LB6 : ruleObj :=
  {| before := TSequence [TBase "any"];
     after := TSequence [TSet [TClass "BK"; TClass "CR"; TClass "LF"; TClass "NL"]];
     name := None; side_effect := None; result := Some BreakType.FORBIDDEN |}.

(** The class [assignLineBreakingClasses] gives a code point. *)
Definition class_of (data : unicodeData)
    (criteria : option (option string -> string -> option string)) (cp : Z)
    : option string :=
  assignLineBreakingClass data criteria (Some cp).

(* ------------------------------------------------------------------------- *)
(** ** Rule strings without brackets *)

(** An item that is a modifier with its operand, or a lone operand. *)
Definition well_formed_item (g : list token) : bool :=
  match g with
  | [x] => negb (RuleParser.is_modifier x)
  | [m; x] => RuleParser.is_modifier m && negb (RuleParser.is_modifier x)
  | _ => false
  end.

(** What [parseToken] pushes on its context for the token [t] alone. *)
Definition pushed_of (t : string) : list token :=
  match RuleParser.parseToken 1 [t] 0 with
  | Ok p =>
      match RuleParser.pushed p with
      | Some x => [x]
      | None => []
      end
  | _ => []
  end.

(** A token object without items of its own. *)
Definition leaf (t : token) : bool :=
  match t with
  | TSet _ | TSequence _ => false
  | _ => true
  end.

(** LB7, LB8, LB8a and LB9 as parsed: they follow LB6 in both rule lists. *)
Definition LB7 : ruleObj :=
  {| before := TSequence [TBase "any"];
     after := TSequence [TSet [TClass "SP"; TClass "ZW"]];
     name := None; side_effect := None; result := Some BreakType.FORBIDDEN |}.

Definition LB8 : ruleObj :=
  {| before := TSequence [TModifier "*"; TClass "SP"; TClass "ZW"];
     after := TSequence [TBase "any"];
     name := None; side_effect := None; result := Some BreakType.ALLOWED |}.

Definition LB8a : ruleObj :=
  {| before := TSequence [TClass "ZWJ"]; after := TSequence [TBase "any"];
     name := None; side_effect := None; result := Some BreakType.FORBIDDEN |}.

Definition LB9 : ruleObj :=
  {| before := TSequence [TModifier "^";
                          TSet [TBase "sot"; TClass "BK"; TClass "CR"; TClass "LF";
                                TClass "NL"; TClass "SP"; TClass "ZW"]];
     after := TSequence [TSet [TClass "CM"; TClass "ZWJ"]];
     name := Some "std_remove_cm_sequences";
     side_effect := Some CallFirstArgument;
     result := Some BreakType.FORBIDDEN |}.

(* ------------------------------------------------------------------------- *)
(** ** The tokens the matcher recognises *)

(** The token objects on which [consumeToken] and [checkBase] do not reach
    their [throw new Error]: the bases [any], [sot], [eot], the modifiers
    [^], [&], [-], [*], and sets and sequences of such tokens. *)
Fixpoint known (t : token) : bool :=
  match t with
  | TBase c => String.eqb c "any" || String.eqb c "sot" || String.eqb c "eot"
  | TModifier c =>
      String.eqb c "^" || String.eqb c "&" || String.eqb c "-" || String.eqb c "*"
  | TSet content | TSequence content => forallb known content
  | _ => true
  end.

(* ------------------------------------------------------------------------- *)
(** ** Budgets that suffice *)

(** The size of a token object. *)
Fixpoint weight (t : token) : nat :=
  match t with
  | TSet content | TSequence content =>
      S (S (List.length content + list_sum (map weight content)))
  | _ => 1%nat
  end.

(** The depth of the calls under a call of [consumeToken]: for a modifier,
    the operands come from the content of the parent, from [next] on. *)
Definition budget (tok : token) (parent : option (list token)) (next : nat) : nat :=
  match tok with
  | TModifier _ =>
      match parent with
      | Some content => S (List.length content - next + list_sum (map weight content))
      | None => 1%nat
      end
  | _ => weight tok
  end.

(** The index [j] is [i], or lies from [i] in the direction of [step]. *)
Definition ahead (step : Z) (i j : num) : Prop :=
  match i, j with
  | Int z, Int z' => (0 < step -> z <= z') /\ (step < 0 -> z' <= z)
  | NaN, NaN => True
  | _, _ => False
  end.

(** A budget that suffices for every rule of the checker, in both views of
    the text. *)
Definition rules_budget (this : checker) : nat :=
  list_max (map (fun o => Nat.max (weight (before o)) (weight (after o)))
                (rules (cfg this)))
  + Nat.max (List.length (codePoints this)) (List.length (codePointsWithoutCS this))
  + 2.

(* ------------------------------------------------------------------------- *)
(** ** Rules that cannot throw *)

(** The call returns or runs out of budget: it does not throw. *)
Definition no_throw {A : Type} (m : res A) : Prop := forall e, m <> Throw e.

(** Every modifier of [content] is followed by an item, its operand. *)
Fixpoint operands_present (content : list token) : bool :=
  match content with
  | [] => true
  | t :: rest =>
      match t, rest with
      | TModifier _, [] => false
      | _, _ => operands_present rest
      end
  end.

(** A token object without [extpict], whose bases and modifiers are those
    [consumeToken] knows and whose modifiers have their operands. *)
Fixpoint total_token (t : token) : bool :=
  match t with
  | TExtpict => false
  | TSet content | TSequence content =>
      forallb total_token content && operands_present content
  | _ => known t
  end.

(** The two parts of a rule are such tokens, and no modifiers. *)
Definition total_parts (o : ruleObj) : bool :=
  total_token (before o) && total_token (after o)
  && negb (RuleParser.is_modifier (before o))
  && negb (RuleParser.is_modifier (after o)).

(** A rule of such parts, without side effect. *)
Definition total_rule (o : ruleObj) : bool :=
  total_parts o
  && match side_effect o with
     | None => true
     | Some _ => false
     end.

(** LB30b, [( extpict & gc(Cn) ) × EM], as parsed: the one rule of the lists
    with [extpict]; LB31 follows it. *)
Definition LB30b : ruleObj :=
  {| before := TSequence [TSet [TExtpict; TModifier "&"; TGc "Cn"]];
     after := TSequence [TClass "EM"];
     name := None; side_effect := None; result := Some BreakType.FORBIDDEN |}.

(** A call of [consumeToken] on an item of such tokens: the items of the
    parent are total, and a modifier finds its operand at [next]. *)
Definition called (tok : token) (parent : option (list token)) (next : nat) : Prop :=
  total_token tok = true
  /\ (forall c, parent = Some c ->
                forallb total_token c = true /\ operands_present c = true)
  /\ (RuleParser.is_modifier tok = true ->
      exists c op, parent = Some c /\ nth_error c next = Some op).

(* ------------------------------------------------------------------------- *)
(** ** The scan of the combining sequences *)

(** What the scan of [setCombiningSequencesMaps] has built after the classes
    [p]: the transformed arrays hold code points, every offset sends its
    index into them, and the offset does not grow at a class that is kept:
    one that is not CM or ZWJ, or follows nothing, an empty class or one of
    SP, BK, CR, LF, NL, ZW. *)
Definition scanned (p : list (option string)) (m : combining) : Prop :=
  List.length (m_offsetsCombiningSeqs m) = List.length p
  /\ ((p = [] /\ m_prevCls m = None) \/ exists p0, p = p0 ++ [m_prevCls m])
  /\ ((m_offsetsCombiningSeqs m = [] /\ m_totOffset m = 0)
      \/ exists o0, m_offsetsCombiningSeqs m = o0 ++ [m_totOffset m])
  /\ List.length (m_classesWithoutCS m) = List.length (m_codePointsWithoutCS m)
  /\ Forall (fun x => x <> None) (m_codePointsWithoutCS m)
  /\ Z.of_nat (List.length (m_classesWithoutCS m)) + m_totOffset m
     = Z.of_nat (List.length (m_offsetsCombiningSeqs m))
  /\ (forall i o, nth_error (m_offsetsCombiningSeqs m) i = Some o ->
                  1 <= Z.of_nat i + 1 - o
                       <= Z.of_nat (List.length (m_classesWithoutCS m)))
  /\ (forall j a b,
        nth_error p j = Some a -> nth_error p (S j) = Some b ->
        is_CM_or_ZWJ b = false \/ falsy a || is_hard_or_space a = true ->
        exists o, nth_error (m_offsetsCombiningSeqs m) j = Some o
                  /\ nth_error (m_offsetsCombiningSeqs m) (S j) = Some o).

(* ------------------------------------------------------------------------- *)
(** * Properties *)

(** ** The rule lists parse *)

Lemma parseRules_V17 : parseRules lineBreakingRulesV17 = Ok rulesV17.
Proof. vm_compute. reflexivity. Qed.

Lemma parseRules_V16 : parseRules lineBreakingRulesV16 = Ok rulesV16.
Proof. vm_compute. reflexivity. Qed.

Lemma LineBreakingChecker_V17 criteria :
  LineBreakingChecker criteria lineBreakingRulesV17 = Ok (constructed criteria rulesV17).
Proof. unfold LineBreakingChecker. rewrite parseRules_V17. reflexivity. Qed.

Lemma LineBreakingChecker_V16 criteria :
  LineBreakingChecker criteria lineBreakingRulesV16 = Ok (constructed criteria rulesV16).
Proof. unfold LineBreakingChecker. rewrite parseRules_V16. reflexivity. Qed.

Lemma rulesV17_head : exists rest, rulesV17 = LB2 :: LB3 :: rest.
Proof. eexists. reflexivity. Qed.

Lemma rulesV16_head : exists rest, rulesV16 = LB2 :: LB3 :: rest.
Proof. eexists. reflexivity. Qed.

(** The visit of [reverseSequences] commutes with the reordering of a
    sequence, since it keeps modifiers modifiers. *)
Lemma swap_modifiers_map (f : token -> token) prev rest :
  (forall t, RuleParser.is_modifier (f t) = RuleParser.is_modifier t) ->
  RuleParser.swap_modifiers (f prev) (map f rest)
  = map f (RuleParser.swap_modifiers prev rest).
Proof.
  intros Hf. revert prev.
  induction rest as [|t rest IH]; intros prev; simpl; [reflexivity|].
  rewrite Hf. destruct (RuleParser.is_modifier t); simpl; rewrite IH; reflexivity.
Qed.

Lemma reverse_content_map (f : token -> token) content :
  (forall t, RuleParser.is_modifier (f t) = RuleParser.is_modifier t) ->
  RuleParser.reverse_content (map f content)
  = map f (RuleParser.reverse_content content).
Proof.
  intros Hf. unfold RuleParser.reverse_content. rewrite <- map_rev.
  destruct (rev content) as [|t rest]; simpl; [reflexivity|].
  apply swap_modifiers_map, Hf.
Qed.

Lemma reverseSequences_modifier t :
  RuleParser.is_modifier (RuleParser.reverseSequences t) = RuleParser.is_modifier t.
Proof. destruct t; reflexivity. Qed.

(** ** The text model *)

Section TextModel.

Variable data : unicodeData.

Lemma setText_cfg c txt : cfg (setText data c txt) = c.
Proof.
  unfold setText. destruct (setCodePoints txt) as [cps offs].
  destruct (setCombiningSequencesMaps _ cps) as [[a b] o]. reflexivity.
Qed.

Lemma setText_text c txt : text (setText data c txt) = txt.
Proof.
  unfold setText. destruct (setCodePoints txt) as [cps offs].
  destruct (setCombiningSequencesMaps _ cps) as [[a b] o]. reflexivity.
Qed.

Lemma setText_codePoints c txt :
  codePoints (setText data c txt) = fst (setCodePoints txt).
Proof.
  unfold setText. destruct (setCodePoints txt) as [cps offs].
  destruct (setCombiningSequencesMaps _ cps) as [[a b] o]. reflexivity.
Qed.

Lemma setText_offsetsSurrogates c txt :
  offsetsSurrogates (setText data c txt) = snd (setCodePoints txt).
Proof.
  unfold setText. destruct (setCodePoints txt) as [cps offs].
  destruct (setCombiningSequencesMaps _ cps) as [[a b] o]. reflexivity.
Qed.

Lemma setText_classes c txt :
  classes (setText data c txt)
  = assignLineBreakingClasses data (assignLineBreakingClsCriteria c)
      (codePoints (setText data c txt)).
Proof.
  unfold setText. destruct (setCodePoints txt) as [cps offs].
  destruct (setCombiningSequencesMaps _ cps) as [[a b] o]. reflexivity.
Qed.

Lemma setText_maps c txt :
  (classesWithoutCS (setText data c txt), codePointsWithoutCS (setText data c txt),
   offsetsCombiningSeqs (setText data c txt))
  = setCombiningSequencesMaps (classes (setText data c txt))
      (codePoints (setText data c txt)).
Proof.
  unfold setText. destruct (setCodePoints txt) as [cps offs].
  destruct (setCombiningSequencesMaps _ cps) as [[a b] o] eqn:E. simpl.
  rewrite E. reflexivity.
Qed.

Lemma setText_applyOffset c txt : applyOffset (setText data c txt) = false.
Proof.
  unfold setText. destruct (setCodePoints txt) as [cps offs].
  destruct (setCombiningSequencesMaps _ cps) as [[a b] o]. reflexivity.
Qed.

Lemma setText_orig c txt :
  origClasses (setText data c txt) = classes (setText data c txt)
  /\ origCodePoints (setText data c txt) = codePoints (setText data c txt).
Proof.
  unfold setText. destruct (setCodePoints txt) as [cps offs].
  destruct (setCombiningSequencesMaps _ cps) as [[a b] o]. split; reflexivity.
Qed.

End TextModel.

Lemma reverseSequences_order content :
  RuleParser.reverse_content (map RuleParser.reverseSequences content)
  = map RuleParser.reverseSequences (RuleParser.reverse_content content).
Proof. apply reverse_content_map, reverseSequences_modifier. Qed.

(** ** Decoding: [setCodePoints] *)

Lemma fold_left_seq_ind {A : Type} (f : A -> nat -> A) (P : nat -> A -> Prop) len :
  forall s a,
    P s a ->
    (forall i b, (s <= i < s + len)%nat -> P i b -> P (S i) (f b i)) ->
    P (s + len)%nat (fold_left f (seq s len) a).
Proof.
  induction len as [|len IH]; intros s a H0 Hstep; simpl.
  - rewrite Nat.add_0_r. exact H0.
  - replace (s + S len)%nat with (S s + len)%nat by lia.
    apply IH.
    + apply Hstep; [lia | exact H0].
    + intros i b Hi Hb. apply Hstep; [lia | exact Hb].
Qed.

Lemma setCodePoints_length_offsets txt :
  List.length (snd (setCodePoints txt)) = S (List.length txt).
Proof.
  unfold setCodePoints. cbn [snd]. rewrite length_app. simpl.
  rewrite Nat.add_1_r. f_equal.
  apply (fold_left_seq_ind (setCodePoints_step txt)
           (fun i d => List.length (d_offsetsSurrogates d) = i) (List.length txt) 0%nat).
  - reflexivity.
  - intros i b _ Hb. simpl. rewrite length_app, Hb. simpl. lia.
Qed.

Lemma codePointAt_low txt i u :
  nth_error txt i = Some u -> 0xdc00 <= u <= 0xdfff ->
  codePointAt txt i = Some u.
Proof.
  intros Hu Hr. unfold codePointAt. rewrite Hu.
  replace (u <=? 0xdbff) with false by (symmetry; apply Z.leb_gt; lia).
  rewrite andb_false_r. reflexivity.
Qed.

Lemma codePointAt_above txt i c :
  wf_text txt -> codePointAt txt i = Some c -> 65535 < c ->
  exists u, nth_error txt (S i) = Some u /\ 0xdc00 <= u <= 0xdfff.
Proof.
  intros Hwf H Hc. unfold codePointAt in H.
  destruct (nth_error txt i) as [first|] eqn:E1; [|discriminate].
  assert (Hf : 0 <= first <= 65535).
  { unfold wf_text in Hwf. rewrite Forall_forall in Hwf.
    apply Hwf. eapply nth_error_In; eauto. }
  destruct ((0xd800 <=? first) && (first <=? 0xdbff)).
  - destruct (nth_error txt (S i)) as [second|] eqn:E2.
    + destruct ((0xdc00 <=? second) && (second <=? 0xdfff)) eqn:E3.
      * exists second. split; [reflexivity|].
        apply andb_true_iff in E3. destruct E3 as [A B].
        apply Z.leb_le in A. apply Z.leb_le in B. lia.
      * inversion H; subst. lia.
    + inversion H; subst. lia.
  - inversion H; subst. lia.
Qed.

Lemma setCodePoints_step_invariant txt i d :
  wf_text txt -> (i < List.length txt)%nat ->
  (List.length (d_offsetsSurrogates d) = i
   /\ Z.of_nat (List.length (d_codePoints d)) + d_offset d
      = Z.of_nat i + (if d_highSurrogate d then 1 else 0)
   /\ (d_highSurrogate d = true ->
       exists u, nth_error txt i = Some u /\ 0xdc00 <= u <= 0xdfff)
   /\ ((0 < i)%nat -> nth_error (d_offsetsSurrogates d) 0 = Some 0
                      /\ (0 < List.length (d_codePoints d))%nat)
   /\ (i = 0%nat -> d_offset d = 0 /\ d_highSurrogate d = false)) ->
  let d' := setCodePoints_step txt d i in
  List.length (d_offsetsSurrogates d') = S i
  /\ Z.of_nat (List.length (d_codePoints d')) + d_offset d'
     = Z.of_nat (S i) + (if d_highSurrogate d' then 1 else 0)
  /\ (d_highSurrogate d' = true ->
      exists u, nth_error txt (S i) = Some u /\ 0xdc00 <= u <= 0xdfff)
  /\ ((0 < S i)%nat -> nth_error (d_offsetsSurrogates d') 0 = Some 0
                       /\ (0 < List.length (d_codePoints d'))%nat)
  /\ (S i = 0%nat -> d_offset d' = 0 /\ d_highSurrogate d' = false).
Proof.
  intros Hwf Hi (Hlen & Hsum & Hhs & Hpos & Hzero). cbv zeta.
  assert (Hoffs : nth_error (d_offsetsSurrogates d ++ [d_offset d]) 0 = Some 0).
  { destruct i as [|i].
    - destruct (d_offsetsSurrogates d); [|discriminate].
      simpl. destruct (Hzero eq_refl) as [-> _]. reflexivity.
    - destruct Hpos as [Hp _]; [lia|].
      rewrite nth_error_app1; [exact Hp|]. lia. }
  destruct (d_highSurrogate d) eqn:Ehs.
  - destruct (Hhs eq_refl) as (u & Hu & Hr).
    unfold setCodePoints_step. rewrite Ehs, (codePointAt_low _ _ _ Hu Hr).
    replace (65535 <? u) with false by (symmetry; apply Z.ltb_ge; lia).
    simpl. rewrite length_app, Hlen. simpl.
    repeat split; try lia; try congruence; try exact Hoffs.
  - unfold setCodePoints_step. rewrite Ehs.
    destruct (codePointAt txt i) as [c|] eqn:Ec.
    + destruct (65535 <? c) eqn:Eab; simpl; rewrite !length_app, Hlen; simpl;
        repeat split; try lia; try congruence; try exact Hoffs.
      intros _. apply Z.ltb_lt in Eab. eapply codePointAt_above; eauto.
    + simpl. rewrite !length_app, Hlen. simpl.
      repeat split; try lia; try congruence; try exact Hoffs.
Qed.

(** The decoded array has one entry per code point, and the last surrogate
    offset is the number of code units the pairs take beyond it. *)
Lemma setCodePoints_spec txt :
  wf_text txt ->
  let '(cps, offs) := setCodePoints txt in
  nth_error offs (List.length txt)
  = Some (Z.of_nat (List.length txt) - Z.of_nat (List.length cps))
  /\ (txt <> [] -> nth_error offs 0 = Some 0 /\ (0 < List.length cps)%nat).
Proof.
  intros Hwf. unfold setCodePoints.
  set (d := fold_left _ _ _).
  assert (H : List.length (d_offsetsSurrogates d) = List.length txt
   /\ Z.of_nat (List.length (d_codePoints d)) + d_offset d
      = Z.of_nat (List.length txt) + (if d_highSurrogate d then 1 else 0)
   /\ (d_highSurrogate d = true ->
       exists u, nth_error txt (List.length txt) = Some u /\ 0xdc00 <= u <= 0xdfff)
   /\ ((0 < List.length txt)%nat -> nth_error (d_offsetsSurrogates d) 0 = Some 0
                      /\ (0 < List.length (d_codePoints d))%nat)
   /\ (List.length txt = 0%nat -> d_offset d = 0 /\ d_highSurrogate d = false)).
  { subst d.
    apply (fold_left_seq_ind (setCodePoints_step txt)
      (fun i d => List.length (d_offsetsSurrogates d) = i
        /\ Z.of_nat (List.length (d_codePoints d)) + d_offset d
           = Z.of_nat i + (if d_highSurrogate d then 1 else 0)
        /\ (d_highSurrogate d = true ->
            exists u, nth_error txt i = Some u /\ 0xdc00 <= u <= 0xdfff)
        /\ ((0 < i)%nat -> nth_error (d_offsetsSurrogates d) 0 = Some 0
                           /\ (0 < List.length (d_codePoints d))%nat)
        /\ (i = 0%nat -> d_offset d = 0 /\ d_highSurrogate d = false))
      (List.length txt) 0%nat).
    - simpl. repeat split; try lia; discriminate.
    - intros i b Hi Hb. apply setCodePoints_step_invariant; [exact Hwf | lia | exact Hb]. }
  destruct H as (Hlen & Hsum & Hhs & Hpos & _).
  assert (Ehs : d_highSurrogate d = false).
  { destruct (d_highSurrogate d); [|reflexivity].
    destruct (Hhs eq_refl) as (u & Hu & _).
    assert (nth_error txt (List.length txt) = None) by (apply nth_error_None; lia).
    congruence. }
  rewrite Ehs in Hsum. split.
  - rewrite nth_error_app2 by lia. rewrite Hlen, Nat.sub_diag. simpl.
    f_equal. lia.
  - intros Hne. destruct txt as [|u txt']; [congruence|].
    destruct Hpos as [Hp Hc]; [simpl; lia|]. split; [|exact Hc].
    rewrite nth_error_app1; [exact Hp|]. rewrite Hlen. simpl. lia.
Qed.

(** ** The combining-sequence maps: [setCombiningSequencesMaps] *)

Lemma falsy_absent prev :
  prev <> Some "" -> falsy prev || is_hard_or_space prev = absent_or_break prev.
Proof.
  intros H. destruct prev as [s|]; [|reflexivity].
  unfold falsy, absent_or_break.
  destruct (String.eqb_spec s ""); [subst; congruence | reflexivity].
Qed.

Lemma setCombiningSequencesMaps_fold cps :
  forall l s m,
    m_prevCls m <> Some "" ->
    Forall (fun c => c <> Some "") l ->
    let m' := fold_left (setCombiningSequencesMaps_step cps)
                (combine (seq s (List.length l)) l) m in
    let es := map (fun e => (snd e, aget_opt cps (Int (Z.of_nat (fst e)))))
                (combine (seq s (List.length l)) l) in
    m_classesWithoutCS m'
    = m_classesWithoutCS m ++ map fst (emit_all (m_prevCls m) es)
    /\ m_codePointsWithoutCS m'
       = m_codePointsWithoutCS m ++ map snd (emit_all (m_prevCls m) es)
    /\ m_offsetsCombiningSeqs m' ++ [m_totOffset m']
       = m_offsetsCombiningSeqs m ++ offsets_all (m_prevCls m) (m_totOffset m) l.
Proof.
  induction l as [|el l IH]; intros s m Hprev Hall; cbv zeta.
  - simpl. rewrite !app_nil_r. auto.
  - inversion Hall as [|? ? Hel Hl]; subst.
    cbn [List.length seq combine fold_left map emit_all offsets_all fst snd].
    set (m1 := setCombiningSequencesMaps_step cps m (s, el)).
    assert (Hp1 : m_prevCls m1 = el) by (subst m1; reflexivity).
    destruct (IH (S s) m1) as (Hc & Hp & Ho); [rewrite Hp1; exact Hel | exact Hl |].
    rewrite Hc, Hp, Ho, Hp1. clear Hc Hp Ho IH.
    unfold emitted, absorbed. subst m1. unfold setCombiningSequencesMaps_step.
    fold (is_CM_or_ZWJ el). rewrite (falsy_absent _ Hprev).
    destruct (is_CM_or_ZWJ el); [destruct (absent_or_break (m_prevCls m))|];
      cbn; rewrite <- ?app_assoc; cbn; rewrite ?app_nil_r; auto.
Qed.

Lemma setCombiningSequencesMaps_offsets_length cps :
  forall l s m,
    List.length (m_offsetsCombiningSeqs
                   (fold_left (setCombiningSequencesMaps_step cps)
                      (combine (seq s (List.length l)) l) m))
    = (List.length (m_offsetsCombiningSeqs m) + List.length l)%nat.
Proof.
  induction l as [|el l IH]; intros s m; simpl; [lia|].
  rewrite IH. unfold setCombiningSequencesMaps_step.
  destruct (is_class "CM" el || is_class "ZWJ" el);
    [destruct (falsy (m_prevCls m) || is_hard_or_space (m_prevCls m))|];
    simpl; rewrite length_app; simpl; lia.
Qed.

Lemma offsets_all_length l : forall prev off,
  List.length (offsets_all prev off l) = S (List.length l).
Proof.
  induction l as [|c l IH]; intros prev off; simpl; [reflexivity|].
  rewrite IH. reflexivity.
Qed.

Lemma offsetsCombiningSeqs_length cls cps :
  List.length (snd (setCombiningSequencesMaps cls cps)) = S (List.length cls).
Proof.
  unfold setCombiningSequencesMaps. cbn [snd].
  rewrite length_app, setCombiningSequencesMaps_offsets_length. simpl. lia.
Qed.

(** C8. The combining-sequence transform scans the class array once: a CM or
    ZWJ whose previous class is absent or one of SP, BK, CR, LF, NL, ZW is
    emitted as class AL with code point U+0041; any other CM or ZWJ emits
    nothing and increments the running offset; every other class is emitted
    with its code point; the running offset is recorded at every step and
    once more at the end, so that the offsets are one more than the classes.
    (Class names are not the empty string.) *)
Theorem setCombiningSequencesMaps_scan (cls : list (option string))
    (cps : list (option Z)) :
  Forall (fun c => c <> Some "") cls ->
  setCombiningSequencesMaps cls cps
  = (map fst (emit_all None (entries cls cps)),
     map snd (emit_all None (entries cls cps)),
     offsets_all None 0 cls)
  /\ List.length (snd (setCombiningSequencesMaps cls cps)) = S (List.length cls).
Proof.
  intros Hall. split; [|apply offsetsCombiningSeqs_length].
  unfold setCombiningSequencesMaps, entries.
  set (m0 := {| m_classesWithoutCS := []; m_codePointsWithoutCS := [];
                m_offsetsCombiningSeqs := []; m_prevCls := None; m_totOffset := 0 |}).
  destruct (setCombiningSequencesMaps_fold cps cls 0%nat m0) as (Hc & Hp & Ho);
    [discriminate | exact Hall |].
  rewrite Hc, Hp, Ho. reflexivity.
Qed.

Lemma setCombiningSequencesMaps_scan_witness :
  let cls := [Some "AL"; Some "CM"; Some "SP"; Some "ZWJ"; Some "CM"; None; Some "CM"] in
  let cps := [Some 97; Some 0x301; Some 32; Some 0x200d; Some 0x301; Some 0x1234; Some 0x301] in
  Forall (fun c => c <> Some "") cls
  /\ setCombiningSequencesMaps cls cps
     = ([Some "AL"; Some "SP"; Some "AL"; None; Some "AL"],
        [Some 97; Some 32; Some 0x41; Some 0x1234; Some 0x41],
        [0; 1; 1; 1; 2; 2; 2; 2])
  /\ List.length (snd (setCombiningSequencesMaps cls cps)) = 8%nat.
Proof.
  cbv zeta.
  assert (H : Forall (fun c : option string => c <> Some "")
                [Some "AL"; Some "CM"; Some "SP"; Some "ZWJ"; Some "CM"; None; Some "CM"])
    by (repeat constructor; discriminate).
  split; [exact H|].
  exact (setCombiningSequencesMaps_scan _
           [Some 97; Some 0x301; Some 32; Some 0x200d; Some 0x301; Some 0x1234; Some 0x301] H).
Defined.

(** ** The matcher at the boundaries of the text *)

Section Matcher.

Variable data : unicodeData.

Lemma checkRule_LB2_start this f :
  checkRule data (S (S (S f))) this LB2 (Int 0)
  = Ok (Some BreakType.FORBIDDEN, this).
Proof. reflexivity. Qed.

Lemma checkRule_LB2_later this f n :
  0 < n ->
  checkRule data (S (S (S f))) this LB2 (Int n)
  = Ok (Some BreakType.UNKNOWN, this).
Proof.
  intros Hn. unfold checkRule, LB2. cbn.
  replace (n - 1 <? 0) with false by (symmetry; apply Z.ltb_ge; lia).
  reflexivity.
Qed.

Lemma checkRule_LB3_end this f :
  checkRule data (S (S (S f))) this LB3
    (Int (Z.of_nat (List.length (codePoints this))))
  = Ok (Some BreakType.MANDATORY, this).
Proof.
  unfold checkRule, LB3. cbn. rewrite Z.eqb_refl. reflexivity.
Qed.

Lemma rule_index_original this i o x :
  applyOffset this = false ->
  aget (offsetsSurrogates this) (Int i) = Some o ->
  aget (offsetsCombiningSeqs this) (Int (i - o)) = Some x ->
  rule_index this i = Int (i - o).
Proof.
  intros Ha Ho Hx. unfold rule_index. rewrite Ho. cbn [to_num num_sub].
  rewrite Hx, Ha. cbn [to_num num_of_bool num_mul num_sub]. f_equal. lia.
Qed.

Lemma rule_index_undefined this i :
  aget (offsetsSurrogates this) (Int i) = None ->
  rule_index this i = NaN.
Proof. intros H. unfold rule_index. rewrite H. reflexivity. Qed.

Lemma setText_lengths c txt :
  List.length (classes (setText data c txt))
  = List.length (codePoints (setText data c txt))
  /\ List.length (offsetsCombiningSeqs (setText data c txt))
     = S (List.length (codePoints (setText data c txt)))
  /\ List.length (offsetsSurrogates (setText data c txt)) = S (List.length txt).
Proof.
  assert (H1 : List.length (classes (setText data c txt))
               = List.length (codePoints (setText data c txt))).
  { rewrite setText_classes. unfold assignLineBreakingClasses. apply length_map. }
  split; [exact H1|]. split.
  - pose proof (setText_maps data c txt) as Hm.
    pose proof (offsetsCombiningSeqs_length (classes (setText data c txt))
                  (codePoints (setText data c txt))) as Hl.
    rewrite <- Hm in Hl. cbn [snd] in Hl. rewrite Hl, H1. reflexivity.
  - rewrite setText_offsetsSurrogates. apply setCodePoints_length_offsets.
Qed.

Lemma aget_defined {A : Type} (l : list A) (n : nat) :
  (n < List.length l)%nat -> exists x, aget l (Int (Z.of_nat n)) = Some x.
Proof.
  intros H. unfold aget.
  replace (Z.of_nat n <? 0) with false by (symmetry; apply Z.ltb_ge; lia).
  rewrite Nat2Z.id. destruct (nth_error l n) eqn:E; [eauto|].
  apply nth_error_None in E. lia.
Qed.

Lemma aget_outside {A : Type} (l : list A) (i : Z) :
  i < 0 \/ Z.of_nat (List.length l) <= i -> aget l (Int i) = None.
Proof.
  intros H. unfold aget. destruct (i <? 0) eqn:E; [reflexivity|].
  apply Z.ltb_ge in E. apply nth_error_None. lia.
Qed.

Lemma rules_loop_undecided fuel this this' rule rest i r :
  checkRule data fuel this rule (rule_index this i)
  = Ok (Some BreakType.UNKNOWN, this') ->
  rules_loop data fuel this (rule :: rest) i r
  = rules_loop data fuel this' rest i (Some BreakType.UNKNOWN).
Proof. intros H. cbn [rules_loop]. rewrite H. reflexivity. Qed.

Lemma rules_loop_decided fuel this this' rule rest i r v :
  checkRule data fuel this rule (rule_index this i) = Ok (v, this') ->
  decided v = true ->
  rules_loop data fuel this (rule :: rest) i r = Ok (v, this').
Proof. intros H Hv. cbn [rules_loop]. rewrite H. cbn [bind]. rewrite Hv. reflexivity. Qed.

Lemma isPosLineBreaking_start this f rest :
  rules (cfg this) = LB2 :: rest ->
  rule_index this 0 = Int 0 ->
  isPosLineBreaking data (S (S (S f))) this 0
  = Ok (Some BreakType.FORBIDDEN, cleanup this).
Proof.
  intros Hr Hi. unfold isPosLineBreaking, inside_surrogate_pair.
  cbn [Z.ltb Z.compare andb]. rewrite Hr. cbn [rules_loop].
  rewrite Hi, checkRule_LB2_start. reflexivity.
Qed.

Lemma isPosLineBreaking_end this f rest :
  rules (cfg this) = LB2 :: LB3 :: rest ->
  (0 < List.length (codePoints this))%nat ->
  rule_index this (Z.of_nat (List.length (text this)))
  = Int (Z.of_nat (List.length (codePoints this))) ->
  isPosLineBreaking data (S (S (S f))) this (Z.of_nat (List.length (text this)))
  = Ok (Some BreakType.MANDATORY, cleanup this).
Proof.
  intros Hr Hn Hi. unfold isPosLineBreaking, inside_surrogate_pair.
  rewrite Z.ltb_irrefl, andb_false_r. cbn [andb].
  rewrite Hr.
  rewrite (rules_loop_undecided _ this this)
    by (rewrite Hi; apply checkRule_LB2_later; lia).
  rewrite (rules_loop_decided _ this this _ _ _ _ (Some BreakType.MANDATORY))
    by (rewrite ?Hi; first [apply checkRule_LB3_end | reflexivity]).
  reflexivity.
Qed.

Lemma cleanup_setText c txt : cleanup (setText data c txt) = setText data c txt.
Proof. unfold cleanup. rewrite setText_applyOffset. reflexivity. Qed.

Lemma standard_rules_head raw criteria c :
  raw = lineBreakingRulesV17 \/ raw = lineBreakingRulesV16 ->
  LineBreakingChecker criteria raw = Ok c ->
  exists rest, rules c = LB2 :: LB3 :: rest.
Proof.
  intros [-> | ->] H.
  - rewrite LineBreakingChecker_V17 in H. inversion H; subst. apply rulesV17_head.
  - rewrite LineBreakingChecker_V16 in H. inversion H; subst. apply rulesV16_head.
Qed.

(** C2. With the standard rule lists (Unicode 17 and 16), for every non-empty
    text installed by [setText], [isPosLineBreaking(0)] returns FORBIDDEN and
    [isPosLineBreaking(text.length)] returns MANDATORY (and the checker is
    left as [setText] installed it). *)
Theorem boundary_verdicts (raw : list rawRule)
    (criteria : option (option string -> string -> option string))
    (c : config) (txt : list Z) (f : nat) :
  raw = lineBreakingRulesV17 \/ raw = lineBreakingRulesV16 ->
  LineBreakingChecker criteria raw = Ok c ->
  wf_text txt ->
  txt <> [] ->
  isPosLineBreaking data (S (S (S f))) (setText data c txt) 0
  = Ok (Some BreakType.FORBIDDEN, setText data c txt)
  /\ isPosLineBreaking data (S (S (S f))) (setText data c txt)
       (Z.of_nat (List.length txt))
     = Ok (Some BreakType.MANDATORY, setText data c txt).
Proof.
  intros Hraw Hc Hwf Hne.
  destruct (standard_rules_head _ _ _ Hraw Hc) as [rest Hrules].
  set (this := setText data c txt).
  assert (Hcfg : rules (cfg this) = LB2 :: LB3 :: rest)
    by (subst this; rewrite setText_cfg; exact Hrules).
  destruct (setText_lengths c txt) as (Hlc & Hlo & Hls). fold this in Hlc, Hlo, Hls.
  pose proof (setCodePoints_spec txt Hwf) as Hspec.
  assert (Ecps : codePoints this = fst (setCodePoints txt))
    by (subst this; apply setText_codePoints).
  assert (Eoff : offsetsSurrogates this = snd (setCodePoints txt))
    by (subst this; apply setText_offsetsSurrogates).
  destruct (setCodePoints txt) as [cps offs]. cbn [fst snd] in Ecps, Eoff.
  destruct Hspec as [Hlast Hfirst]. destruct (Hfirst Hne) as [H0 Hpos].
  assert (Ha : applyOffset this = false) by (subst this; apply setText_applyOffset).
  assert (Hcl : cleanup this = this) by (subst this; apply cleanup_setText).
  assert (Et : text this = txt) by (subst this; apply setText_text).
  split.
  - rewrite (isPosLineBreaking_start this f (LB3 :: rest) Hcfg); [rewrite Hcl; reflexivity|].
    destruct (aget_defined (offsetsCombiningSeqs this) 0) as [x Hx]; [lia|].
    rewrite (rule_index_original this 0 0 x Ha); [reflexivity | | exact Hx].
    rewrite Eoff. exact H0.
  - rewrite <- Et.
    rewrite (isPosLineBreaking_end this f rest Hcfg); [rewrite Hcl; reflexivity | |].
    + rewrite Ecps. exact Hpos.
    + rewrite Et, Ecps.
      destruct (aget_defined (offsetsCombiningSeqs this) (List.length cps)) as [x Hx];
        [rewrite Hlo, Ecps; lia|].
      rewrite (rule_index_original this _
                 (Z.of_nat (List.length txt) - Z.of_nat (List.length cps)) x Ha).
      * f_equal. lia.
      * rewrite Eoff. unfold aget.
        replace (Z.of_nat (List.length txt) <? 0) with false
          by (symmetry; apply Z.ltb_ge; lia).
        rewrite Nat2Z.id. exact Hlast.
      * replace (Z.of_nat (List.length txt)
                 - (Z.of_nat (List.length txt) - Z.of_nat (List.length cps)))
          with (Z.of_nat (List.length cps)) by lia.
        exact Hx.
Qed.

(** C10. After [setText] of the empty string, [isPosLineBreaking(0)] returns
    FORBIDDEN under the standard rule lists: LB2 (sot) matches at position 0
    and is evaluated first, although LB3 (eot) matches there too. *)
Theorem empty_text_is_forbidden
    (criteria : option (option string -> string -> option string)) (f : nat) :
  (isPosLineBreaking data (S (S (S f)))
     (setText data (constructed criteria rulesV17) []) 0
   = Ok (Some BreakType.FORBIDDEN, setText data (constructed criteria rulesV17) [])
   /\ isPosLineBreaking data (S (S (S f)))
        (setText data (constructed criteria rulesV16) []) 0
      = Ok (Some BreakType.FORBIDDEN, setText data (constructed criteria rulesV16) []))
  /\ forall rs,
       checkRule data (S (S (S f))) (setText data (constructed criteria rs) []) LB3 (Int 0)
       = Ok (Some BreakType.MANDATORY, setText data (constructed criteria rs) []).
Proof.
  split; [split|]; reflexivity.
Qed.

(** C7. At a position strictly between the high and the low code unit of a
    surrogate pair, [isPosLineBreaking] returns FORBIDDEN whatever the rules
    of the checker and whatever the budget of the matcher, the empty budget
    included: no rule is evaluated. *)
Theorem surrogate_pair_is_forbidden (this : checker) (k : Z) (lead trail : Z)
    (fuel : nat) :
  0 < k < Z.of_nat (List.length (text this)) ->
  nth_error (text this) (Z.to_nat (k - 1)) = Some lead ->
  nth_error (text this) (Z.to_nat k) = Some trail ->
  0xd800 <= lead <= 0xdbff ->
  0xdc00 <= trail <= 0xdfff ->
  isPosLineBreaking data fuel this k = Ok (Some BreakType.FORBIDDEN, cleanup this)
  /\ isPosLineBreaking data 0 this k = Ok (Some BreakType.FORBIDDEN, cleanup this).
Proof.
  intros Hk Hl Ht Hlead Htrail.
  assert (H : inside_surrogate_pair this k = true).
  { unfold inside_surrogate_pair. rewrite Hl, Ht. unfold isSurrogatePair.
    repeat (apply andb_true_iff; split);
      first [apply Z.ltb_lt | apply Z.leb_le]; lia. }
  unfold isPosLineBreaking. rewrite H. split; reflexivity.
Qed.

End Matcher.

(** ** The views of the checker across calls *)

Lemma bind_Ok {A B : Type} (m : res A) (k : A -> res B) (b : B) :
  bind m k = Ok b -> exists a, m = Ok a /\ k a = Ok b.
Proof. destruct m; simpl; intros H; try discriminate. eauto. Qed.

Section Views.

Variable data : unicodeData.

Lemma removeCombiningSequences_idempotent this :
  removeCombiningSequences (removeCombiningSequences this)
  = removeCombiningSequences this.
Proof. reflexivity. Qed.

Lemma cleanup_removeCombiningSequences c txt :
  cleanup (removeCombiningSequences (setText data c txt)) = setText data c txt.
Proof.
  pose proof (setText_orig data c txt) as [Hc Hp].
  pose proof (setText_applyOffset data c txt) as Ha.
  destruct (setText data c txt). simpl in *. subst. reflexivity.
Qed.

Lemma reachable_cases c txt this :
  reachable data c txt this ->
  this = setText data c txt \/ this = removeCombiningSequences (setText data c txt).
Proof.
  induction 1 as [|this _ [-> | ->]|this _ [-> | ->]].
  - left. reflexivity.
  - right. reflexivity.
  - right. reflexivity.
  - left. apply cleanup_setText.
  - left. apply cleanup_removeCombiningSequences.
Qed.

Lemma checkRule_state fuel this rule idx r this' :
  checkRule data fuel this rule idx = Ok (r, this') ->
  this' = this \/ this' = removeCombiningSequences this.
Proof.
  unfold checkRule. intros H.
  apply bind_Ok in H. destruct H as (b & _ & H).
  apply bind_Ok in H. destruct H as (a & _ & H).
  destruct (c_result b && c_result a).
  - inversion H. auto.
  - destruct (side_effect rule) as [fn|]; [|inversion H; auto].
    apply bind_Ok in H. destruct H as (t & Ht & H). inversion H; subst.
    unfold call_side_effect in Ht. destruct fn.
    destruct (nullish _ _) as [|[] ?]; [discriminate|]. inversion Ht. auto.
Qed.

Lemma rules_loop_state fuel i : forall rs this r r' this',
  rules_loop data fuel this rs i r = Ok (r', this') ->
  this' = this \/ this' = removeCombiningSequences this.
Proof.
  induction rs as [|rule rest IH]; intros this r r' this' H; simpl in H.
  - inversion H. auto.
  - apply bind_Ok in H. destruct H as ([r1 this1] & Hc & H).
    apply checkRule_state in Hc.
    destruct (decided r1).
    + inversion H; subst. exact Hc.
    + apply IH in H. destruct Hc as [-> | ->], H as [-> | ->]; auto.
Qed.

(** C6. After [setText], [applyOffset] is false and the active arrays are the
    original ones; and whenever a top-level call of [isPosLineBreaking]
    returns, from any checker a call can meet after [setText], the checker is
    again the one [setText] installed: [applyOffset] false, original class
    and code-point arrays active, whether or not the side effect of LB9/LB10
    swapped the views during the call. *)
Theorem isPosLineBreaking_restores_views (c : config) (txt : list Z)
    (this : checker) (fuel : nat) (i : Z) (r : option Z) (this' : checker) :
  reachable data c txt this ->
  isPosLineBreaking data fuel this i = Ok (r, this') ->
  (applyOffset (setText data c txt) = false
   /\ classes (setText data c txt) = origClasses (setText data c txt)
   /\ codePoints (setText data c txt) = origCodePoints (setText data c txt))
  /\ this' = setText data c txt
  /\ applyOffset this' = false
  /\ classes this' = origClasses this
  /\ codePoints this' = origCodePoints this.
Proof.
  intros Hreach H.
  pose proof (setText_orig data c txt) as [Hoc Hop].
  pose proof (setText_applyOffset data c txt) as Ha.
  split; [auto|].
  assert (E : this' = setText data c txt).
  { unfold isPosLineBreaking in H.
    apply bind_Ok in H. destruct H as ([r1 this1] & H1 & H). inversion H; subst.
    assert (H2 : this1 = this \/ this1 = removeCombiningSequences this).
    { destruct (inside_surrogate_pair this i).
      - inversion H1. auto.
      - eapply rules_loop_state; eauto. }
    apply reachable_cases in Hreach.
    destruct Hreach as [-> | ->], H2 as [-> | ->];
      rewrite ?removeCombiningSequences_idempotent;
      auto using cleanup_setText, cleanup_removeCombiningSequences. }
  subst this'. split; [reflexivity|]. split; [exact Ha|].
  apply reachable_cases in Hreach. destruct Hreach as [-> | ->]; auto.
Qed.

End Views.

(** ** Positions outside the text *)

Section OutOfRange.

Variable data : unicodeData.

Lemma rules_loop_fixed_index fuel i idx : forall rs this r,
  rule_index this i = idx ->
  rule_index (removeCombiningSequences this) i = idx ->
  rules_loop data fuel this rs i r = rules_loop_at data idx fuel this rs r.
Proof.
  induction rs as [|rule rest IH]; intros this r H1 H2; simpl; [reflexivity|].
  rewrite H1.
  destruct (checkRule data fuel this rule idx) as [[r1 this1]| |] eqn:E;
    simpl; try reflexivity.
  destruct (decided r1); [reflexivity|].
  apply checkRule_state in E. destruct E as [-> | ->]; apply IH; auto.
Qed.

Lemma standard_rules_undefined_index criteria (this : checker) f :
  (cfg this = constructed criteria rulesV17
   -> rules_loop_at data NaN (20 + f) this rulesV17 (Some BreakType.UNKNOWN)
      = Throw RangeError)
  /\ (cfg this = constructed criteria rulesV16
      -> rules_loop_at data NaN (20 + f) this rulesV16 (Some BreakType.UNKNOWN)
         = Throw RangeError).
Proof.
  destruct this as [cfg0 ? ? ? ? ? ? ? ? ? ?]. simpl.
  split; intros ->; vm_compute; reflexivity.
Qed.

Lemma rule_index_outside c txt this i :
  reachable data c txt this ->
  i < 0 \/ Z.of_nat (List.length txt) < i ->
  rule_index this i = NaN /\ rule_index (removeCombiningSequences this) i = NaN.
Proof.
  intros Hreach Hi.
  assert (H : aget (offsetsSurrogates (setText data c txt)) (Int i) = None).
  { apply aget_outside. destruct (setText_lengths data c txt) as (_ & _ & ->). lia. }
  apply reachable_cases in Hreach.
  destruct Hreach as [-> | ->]; split; apply rule_index_undefined; exact H.
Qed.

(** C3, as the code has it. [isPosLineBreaking] has no check of its argument:
    outside [[0, text.length]] the surrogate offset is undefined, the index
    given to the rules is NaN, and the rules are evaluated with it. Under
    the standard rule lists (Unicode 17 and 16) the call then fails: every
    rule before LB30b is undecided and the Extended_Pictographic test of
    LB30b throws a RangeError, so that no verdict is returned. *)
Theorem out_of_range_position_throws (raw : list rawRule)
    (criteria : option (option string -> string -> option string))
    (c : config) (txt : list Z) (this : checker) (f : nat) (i : Z) :
  raw = lineBreakingRulesV17 \/ raw = lineBreakingRulesV16 ->
  LineBreakingChecker criteria raw = Ok c ->
  reachable data c txt this ->
  i < 0 \/ Z.of_nat (List.length txt) < i ->
  isPosLineBreaking data (20 + f) this i = Throw RangeError.
Proof.
  intros Hraw Hc Hreach Hi.
  destruct (rule_index_outside c txt this i Hreach Hi) as [H1 H2].
  assert (Hcfg : cfg this = c /\ text this = txt).
  { apply reachable_cases in Hreach.
    destruct Hreach as [-> | ->]; unfold removeCombiningSequences; cbn [cfg text];
      rewrite setText_cfg, setText_text; auto. }
  destruct Hcfg as [Hcfg Htxt].
  unfold isPosLineBreaking.
  replace (inside_surrogate_pair this i) with false.
  2:{ unfold inside_surrogate_pair. rewrite Htxt.
      destruct Hi as [Hi | Hi].
      - replace (0 <? i) with false by (symmetry; apply Z.ltb_ge; lia). reflexivity.
      - replace (i <? Z.of_nat (List.length txt)) with false
          by (symmetry; apply Z.ltb_ge; lia).
        rewrite andb_false_r. reflexivity. }
  rewrite (rules_loop_fixed_index _ _ NaN _ _ _ H1 H2).
  destruct (standard_rules_undefined_index criteria this f) as [H17 H16].
  destruct Hraw as [-> | ->].
  - rewrite LineBreakingChecker_V17 in Hc. inversion Hc as [Hc'].
    rewrite <- Hc' in Hcfg. rewrite Hcfg. cbn [rules constructed].
    rewrite (H17 Hcfg). reflexivity.
  - rewrite LineBreakingChecker_V16 in Hc. inversion Hc as [Hc'].
    rewrite <- Hc' in Hcfg. rewrite Hcfg. cbn [rules constructed].
    rewrite (H16 Hcfg). reflexivity.
Qed.

End OutOfRange.

(** C3, as stated, fails: a checker built from the single rule [any ÷ any]
    returns ALLOWED at positions 2 and -1 of the one-unit text "a". *)
Lemma out_of_range_position_can_return :
  let this := setText sampleData (constructed None [LB31]) (units "a") in
  LineBreakingChecker None [plain "any ÷ any"] = Ok (constructed None [LB31])
  /\ List.length (text this) = 1%nat
  /\ isPosLineBreaking sampleData 3 this 2 = Ok (Some BreakType.ALLOWED, this)
  /\ isPosLineBreaking sampleData 3 this (-1) = Ok (Some BreakType.ALLOWED, this).
Proof. vm_compute. repeat split; reflexivity. Qed.

Lemma out_of_range_position_throws_witness :
  let c := constructed None rulesV17 in
  let this := setText sampleData c (units "ab") in
  (3 < 0 \/ Z.of_nat (List.length (units "ab")) < 3)
  /\ isPosLineBreaking sampleData 20 this 3 = Throw RangeError.
Proof.
  cbv zeta.
  assert (H : 3 < 0 \/ Z.of_nat (List.length (units "ab")) < 3) by (right; simpl; lia).
  split; [exact H|].
  exact (out_of_range_position_throws sampleData lineBreakingRulesV17 None _ (units "ab")
           _ 0%nat 3 (or_introl eq_refl) (LineBreakingChecker_V17 None)
           (reach_setText sampleData _ _) H).
Defined.

(** ** The modifier [*] *)

Section Star.

Variable data : unicodeData.

Lemma consumeToken_star f this content next i step prev_result :
  consumeToken data (S f) this (TModifier "*") i step (Some content) prev_result next
  = (op <- operand (Some content) next ;;
     r0 <- consumeToken data f this op i step (Some content) prev_result (S next) ;;
     r <- star_loop (consumeToken data f this) f this op step (Some content) next r0 ;;
     Ok {| c_result := true; index := index r;
           next_token_index := Some (nullish (next_token_index r) (S next)) |}).
Proof. reflexivity. Qed.

Lemma star_continues_inside_iff this r :
  star_continues this r = true <-> strictly_inside this r.
Proof.
  unfold star_continues, strictly_inside, num_gtb, num_ltb. split.
  - intros H. destruct (index r) as [z|]; [|rewrite andb_false_r in H; discriminate].
    apply andb_true_iff in H. destruct H as [H H2].
    apply andb_true_iff in H. destruct H as [H0 H1].
    apply Z.ltb_lt in H1. apply Z.ltb_lt in H2.
    split; [exact H0|]. exists z. auto.
  - intros (H0 & z & Hz & H1 & H2). rewrite H0, Hz.
    apply Z.ltb_lt in H1. apply Z.ltb_lt in H2. rewrite H1, H2. reflexivity.
Qed.

Lemma star_continues_outside this r :
  star_continues this r = false <-> star_stopped this r.
Proof.
  unfold star_continues, star_stopped, num_gtb, num_ltb. split.
  - intros H. destruct (c_result r); [|left; reflexivity]. right.
    destruct (index r) as [z|]; [|left; reflexivity]. right.
    exists z. split; [reflexivity|]. cbn [andb] in H.
    apply andb_false_iff in H. destruct H as [H | H]; apply Z.ltb_ge in H; lia.
  - intros [H | [H | (z & Hz & H)]].
    + rewrite H. reflexivity.
    + rewrite H. apply andb_false_r.
    + rewrite Hz. destruct (c_result r); [|reflexivity]. cbn [andb].
      apply andb_false_iff. destruct H as [H | H]; [left | right]; apply Z.ltb_ge; lia.
Qed.

Lemma star_loop_run (rec : consumer) this op step parent next :
  forall k r0 r,
    star_loop rec k this op step parent next r0 = Ok r ->
    star_run (fun j p => rec op j step parent p (S next)) this step r0 r.
Proof.
  induction k as [|k IH]; intros r0 r H; simpl in H; [discriminate|].
  destruct (star_continues this r0) eqn:E.
  - apply bind_Ok in H. destruct H as (r' & H1 & H2).
    apply star_continues_inside_iff in E.
    eapply star_again; eauto.
  - inversion H; subst. apply star_stop.
    intros Hin. apply star_continues_inside_iff in Hin. congruence.
Qed.

Lemma star_continues_inside this r :
  star_continues this r = true ->
  exists z, index r = Int z
            /\ 0 < z < Z.of_nat (List.length (codePoints this)) - 1.
Proof.
  unfold star_continues, num_gtb, num_ltb. intros H.
  destruct (index r) as [z|]; [|rewrite andb_false_r in H; discriminate].
  apply andb_true_iff in H. destruct H as [H H2].
  apply andb_true_iff in H. destruct H as [_ H1].
  apply Z.ltb_lt in H1. apply Z.ltb_lt in H2. eauto.
Qed.

Lemma star_loop_returns (rec : consumer) this op step parent next :
  step = 1 \/ step = -1 ->
  (forall j p, exists r', rec op j step parent p (S next) = Ok r'
                          /\ advances step j r') ->
  forall k r0,
    (0 < k)%nat ->
    (forall z, star_continues this r0 = true -> index r0 = Int z ->
               (if step =? 1
                then Z.of_nat (List.length (codePoints this)) - 1 - z
                else z) < Z.of_nat k) ->
    exists r, star_loop rec k this op step parent next r0 = Ok r.
Proof.
  intros Hstep Hop.
  induction k as [|k IH]; intros r0 Hk Hm; [lia|]. simpl.
  destruct (star_continues this r0) eqn:E; [|eauto].
  destruct (star_continues_inside _ _ E) as (z & Hz & Hin).
  specialize (Hm z eq_refl Hz).
  destruct (Hop (num_add (index r0) (Int step)) (Some (c_result r0))) as (r' & Hr' & Hadv).
  rewrite Hr'. cbn [bind].
  rewrite Hz in Hadv. cbn [num_add] in Hadv. unfold advances in Hadv.
  rewrite Nat2Z.inj_succ in Hm.
  apply IH.
  - destruct Hstep as [-> | ->]; cbn [Z.eqb Pos.eqb] in Hm; lia.
  - intros z' E' Hz'. rewrite Hz' in Hadv.
    destruct Hstep as [-> | ->]; cbn [Z.eqb Pos.eqb] in Hm |- *.
    + destruct (star_continues_inside _ _ E') as (z'' & Hz'' & Hin').
      rewrite Hz' in Hz''. inversion Hz''; subst z''. lia.
    + lia.
Qed.

Lemma star_run_stops eval this step r0 r :
  star_run eval this step r0 r -> star_stopped this r.
Proof.
  induction 1 as [r Hout | ]; auto.
  apply star_continues_outside.
  destruct (star_continues this r) eqn:E; [|reflexivity].
  apply star_continues_inside_iff in E. contradiction.
Qed.

(** C9. Evaluating the modifier [*], placed before its operand. Whenever the
    call returns, its result is [true]: the operand has been evaluated at the
    given index, then again at [index + step] after every match whose
    returned index [z] satisfies [0 < z < n_codepoints - 1], and the returned
    index is that of the first evaluation which is not such a match: a
    failure, an index that is not a number, an index [z <= 0] or an index
    [z >= n_codepoints - 1]. And the call does return, for [step] +1 or -1,
    when the operand evaluates at every index without moving against the
    scan. *)
Theorem consume_star (this : checker) (f : nat) (content : list token)
    (next : nat) (op : token) (i : num) (step : Z) (prev_result : option bool) :
  nth_error content next = Some op ->
  (forall r,
      consumeToken data (S f) this (TModifier "*") i step (Some content)
        prev_result next = Ok r ->
      c_result r = true
      /\ exists r0 r_last,
           consumeToken data f this op i step (Some content) prev_result (S next)
           = Ok r0
           /\ star_run (fun j p => consumeToken data f this op j step (Some content)
                                     p (S next))
                this step r0 r_last
           /\ (c_result r_last = false
               \/ index r_last = NaN
               \/ exists z, index r_last = Int z
                            /\ (z <= 0
                                \/ Z.of_nat (List.length (codePoints this)) - 1 <= z))
           /\ index r = index r_last
           /\ next_token_index r = Some (nullish (next_token_index r_last) (S next)))
  /\ (step = 1 \/ step = -1 ->
      (List.length (codePoints this) < f)%nat ->
      (forall j p, exists r',
          consumeToken data f this op j step (Some content) p (S next) = Ok r'
          /\ advances step j r') ->
      exists r,
        consumeToken data (S f) this (TModifier "*") i step (Some content)
          prev_result next = Ok r).
Proof.
  intros Hop. rewrite consumeToken_star. unfold operand. rewrite Hop. cbn [bind].
  split.
  - intros r H.
    apply bind_Ok in H. destruct H as (r0 & Hr0 & H).
    apply bind_Ok in H. destruct H as (r_last & Hloop & H).
    inversion H; subst. cbn [c_result index next_token_index].
    split; [reflexivity|].
    pose proof (star_loop_run _ _ _ _ _ _ _ _ _ Hloop) as Hrun.
    exists r0, r_last. repeat split; auto.
    exact (star_run_stops _ _ _ _ _ Hrun).
  - intros Hstep Hf Heval.
    destruct (Heval i prev_result) as (r0 & Hr0 & _).
    destruct (star_loop_returns (consumeToken data f this) this op step (Some content)
                next Hstep Heval f r0) as (r_last & Hloop); [lia | |].
    { intros z E Hz. destruct (star_continues_inside _ _ E) as (z' & Hz' & Hin).
      rewrite Hz in Hz'. inversion Hz'; subst z'.
      destruct Hstep as [-> | ->]; simpl; lia. }
    rewrite Hr0. cbn [bind]. rewrite Hloop. cbn [bind]. eauto.
Qed.

End Star.

Lemma consume_star_witness :
  let this := setText sampleData (constructed None rulesV17) (units "a  b") in
  let content := [TModifier "*"; TClass "SP"; TClass "OP"] in
  (nth_error content 1 = Some (TClass "SP")
   /\ (-1 = 1 \/ -1 = -1)
   /\ (List.length (codePoints this) < 5)%nat
   /\ (forall j p, exists r',
         consumeToken sampleData 5 this (TClass "SP") j (-1) (Some content) p 2%nat = Ok r'
         /\ advances (-1) j r'))
  /\ consumeToken sampleData 6 this (TModifier "*") (Int 2) (-1) (Some content)
       None 1%nat
     = Ok {| c_result := true; index := Int 0; next_token_index := Some 2%nat |}
  /\ (forall r,
        consumeToken sampleData 6 this (TModifier "*") (Int 2) (-1) (Some content)
          None 1%nat = Ok r ->
        c_result r = true
        /\ exists r0 r_last,
             consumeToken sampleData 5 this (TClass "SP") (Int 2) (-1) (Some content)
               None 2%nat = Ok r0
             /\ star_run (fun j p => consumeToken sampleData 5 this (TClass "SP") j (-1)
                                       (Some content) p 2%nat)
                  this (-1) r0 r_last
             /\ (c_result r_last = false
                 \/ index r_last = NaN
                 \/ exists z, index r_last = Int z
                              /\ (z <= 0
                                  \/ Z.of_nat (List.length (codePoints this)) - 1 <= z))
             /\ index r = index r_last
             /\ next_token_index r = Some (nullish (next_token_index r_last) 2%nat))
  /\ exists r,
       consumeToken sampleData 6 this (TModifier "*") (Int 2) (-1) (Some content)
         None 1%nat = Ok r.
Proof.
  cbv zeta.
  assert (H1 : nth_error [TModifier "*"; TClass "SP"; TClass "OP"] 1
               = Some (TClass "SP")) by reflexivity.
  assert (H2 : -1 = 1 \/ -1 = -1) by (right; reflexivity).
  assert (H3 : (List.length (codePoints (setText sampleData (constructed None rulesV17)
                                          (units "a  b"))) < 5)%nat)
    by (vm_compute; lia).
  assert (H4 : forall j p, exists r',
             consumeToken sampleData 5
               (setText sampleData (constructed None rulesV17) (units "a  b"))
               (TClass "SP") j (-1)
               (Some [TModifier "*"; TClass "SP"; TClass "OP"]) p 2%nat = Ok r'
             /\ advances (-1) j r').
  { intros j p. exists (simple (checkClass
        (setText sampleData (constructed None rulesV17) (units "a  b")) "SP" j) j).
    split; [reflexivity|].
    unfold advances, simple. cbn [index]. destruct j; [lia | exact I]. }
  split; [auto|].
  split; [vm_compute; reflexivity|].
  exact (match consume_star sampleData _ 5%nat _ 1%nat (TClass "SP") (Int 2) (-1) None H1
         with
         | conj A B => conj A (B H2 H3 H4)
         end).
Defined.

(** On "a  b" the run of [* SP] leftwards from the second space passes both
    spaces and stops on the letter: result [true], index 0. *)
Example star_run_example :
  consumeToken sampleData 6
    (setText sampleData (constructed None rulesV17) (units "a  b"))
    (TModifier "*") (Int 2) (-1) (Some [TModifier "*"; TClass "SP"; TClass "OP"]) None 1%nat
  = Ok {| c_result := true; index := Int 0; next_token_index := Some 2%nat |}.
Proof. vm_compute. reflexivity. Qed.

(** On "a  " the run of [* SP] rightwards from the first space stops on the
    last code point, index 2 = n_codepoints - 1, although it is a space too:
    the operand is not evaluated at index 3. *)
Example star_run_stops_at_last :
  consumeToken sampleData 6
    (setText sampleData (constructed None rulesV17) (units "a  "))
    (TModifier "*") (Int 1) 1 (Some [TModifier "*"; TClass "SP"; TClass "OP"]) None 1%nat
  = Ok {| c_result := true; index := Int 2; next_token_index := Some 2%nat |}.
Proof. vm_compute. reflexivity. Qed.

(** ** Witnesses of the boundary and view theorems *)

Lemma boundary_verdicts_witness :
  let txt := [0xd83c; 0xddeb; 97] in
  let c := constructed None rulesV17 in
  (wf_text txt /\ txt <> [])
  /\ isPosLineBreaking sampleData 3 (setText sampleData c txt) 0
     = Ok (Some BreakType.FORBIDDEN, setText sampleData c txt)
  /\ isPosLineBreaking sampleData 3 (setText sampleData c txt) 3
     = Ok (Some BreakType.MANDATORY, setText sampleData c txt).
Proof.
  cbv zeta.
  assert (Hwf : wf_text [0xd83c; 0xddeb; 97])
    by (repeat (apply Forall_cons; [lia|]); apply Forall_nil).
  assert (Hne : [0xd83c; 0xddeb; 97] <> []) by discriminate.
  split; [auto|].
  exact (boundary_verdicts sampleData lineBreakingRulesV17 None _ _ 0%nat
           (or_introl eq_refl) (LineBreakingChecker_V17 None) Hwf Hne).
Defined.

Lemma surrogate_pair_is_forbidden_witness :
  let this := setText sampleData (constructed None rulesV17) [0xd83c; 0xddeb; 97] in
  (0 < 1 < Z.of_nat (List.length (text this))
   /\ nth_error (text this) (Z.to_nat (1 - 1)) = Some 0xd83c
   /\ nth_error (text this) (Z.to_nat 1) = Some 0xddeb)
  /\ isPosLineBreaking sampleData 7 this 1
     = Ok (Some BreakType.FORBIDDEN, cleanup this)
  /\ isPosLineBreaking sampleData 0 this 1
     = Ok (Some BreakType.FORBIDDEN, cleanup this).
Proof.
  cbv zeta.
  assert (H1 : 0 < 1 < Z.of_nat (List.length (text (setText sampleData
                 (constructed None rulesV17) [0xd83c; 0xddeb; 97]))))
    by (vm_compute; split; reflexivity).
  assert (H2 : nth_error (text (setText sampleData (constructed None rulesV17)
                 [0xd83c; 0xddeb; 97])) (Z.to_nat (1 - 1)) = Some 0xd83c) by reflexivity.
  assert (H3 : nth_error (text (setText sampleData (constructed None rulesV17)
                 [0xd83c; 0xddeb; 97])) (Z.to_nat 1) = Some 0xddeb) by reflexivity.
  split; [auto|].
  refine (surrogate_pair_is_forbidden sampleData _ 1 0xd83c 0xddeb 7%nat H1 H2 H3 _ _); lia.
Defined.

Lemma isPosLineBreaking_restores_views_witness :
  let c := constructed None rulesV17 in
  let txt := [97; 0x301; 98] in
  let this := setText sampleData c txt in
  (reachable sampleData c txt this
   /\ isPosLineBreaking sampleData 40 this 2 = Ok (Some BreakType.FORBIDDEN, this))
  /\ (applyOffset (setText sampleData c txt) = false
      /\ classes (setText sampleData c txt) = origClasses (setText sampleData c txt)
      /\ codePoints (setText sampleData c txt) = origCodePoints (setText sampleData c txt))
  /\ this = setText sampleData c txt
  /\ applyOffset this = false
  /\ classes this = origClasses this
  /\ codePoints this = origCodePoints this.
Proof.
  cbv zeta.
  assert (H : isPosLineBreaking sampleData 40
                (setText sampleData (constructed None rulesV17) [97; 0x301; 98]) 2
              = Ok (Some BreakType.FORBIDDEN,
                    setText sampleData (constructed None rulesV17) [97; 0x301; 98]))
    by (vm_compute; reflexivity).
  split; [split; [apply reach_setText | exact H]|].
  exact (isPosLineBreaking_restores_views sampleData _ _ _ 40%nat 2 _ _
           (reach_setText sampleData _ _) H).
Defined.

(** In that call the rule of LB9/LB10 fails, its side effect swaps the views
    in, and LB28 decides on them: the rule loop ends on the swapped checker,
    which the cleanup then restores. *)
Example views_swapped_during_call :
  let this := setText sampleData (constructed None rulesV17) [97; 0x301; 98] in
  rules_loop sampleData 40 this rulesV17 2 (Some BreakType.UNKNOWN)
  = Ok (Some BreakType.FORBIDDEN, removeCombiningSequences this)
  /\ applyOffset (removeCombiningSequences this) = true
  /\ classes (removeCombiningSequences this) = [Some "AL"; Some "AL"]
  /\ classes this = [Some "AL"; Some "CM"; Some "AL"].
Proof. vm_compute. repeat split; reflexivity. Qed.

(** ** Class assignment of code points the table does not list *)

Section Unlisted.

Variable data : unicodeData.

Lemma classes_nth c txt i cp :
  nth_error (codePoints (setText data c txt)) i = Some cp ->
  nth_error (classes (setText data c txt)) i
  = Some (assignLineBreakingClass data (assignLineBreakingClsCriteria c) cp).
Proof.
  intros H. rewrite setText_classes. unfold assignLineBreakingClasses.
  rewrite nth_error_map, H. reflexivity.
Qed.

(** C4, as the code has it. A code point without entry in the class table
    reads as class [undefined] with General_Category [''] (the empty
    string); without criterion, class assignment stores [undefined] for it.
    The functions are total: nothing is thrown. *)
Theorem unlisted_code_point_is_undefined (cp : Z) (c : config) (txt : list Z)
    (i : nat) :
  codePointsBLClasses data cp = None ->
  assignLineBreakingClsCriteria c = None ->
  nth_error (codePoints (setText data c txt)) i = Some (Some cp) ->
  getClsAndGC data (Some cp) = (None, "")
  /\ assignLineBreakingClass data None (Some cp) = None
  /\ nth_error (classes (setText data c txt)) i = Some None.
Proof.
  intros Htab Hcrit Hcp.
  assert (H1 : getClsAndGC data (Some cp) = (None, ""))
    by (unfold getClsAndGC; rewrite Htab; reflexivity).
  assert (H2 : assignLineBreakingClass data None (Some cp) = None)
    by (unfold assignLineBreakingClass; rewrite H1; reflexivity).
  repeat split; auto.
  rewrite (classes_nth _ _ _ _ Hcp), Hcrit. f_equal. exact H2.
Qed.

End Unlisted.

(** C4, as stated, fails: U+1234 has no entry in the sample table, and the
    checker built without criterion gives it neither class AL nor
    General_Category Cn. *)
Lemma unlisted_code_point_is_not_AL :
  let this := setText sampleData (constructed None rulesV17) [0x1234] in
  codePointsBLClasses sampleData 0x1234 = None
  /\ assignLineBreakingClsCriteria (cfg this) = None
  /\ codePoints this = [Some 0x1234]
  /\ classes this = [None]
  /\ classes this <> [Some "AL"]
  /\ snd (getClsAndGC sampleData (Some 0x1234)) <> "Cn".
Proof.
  vm_compute. repeat split; try reflexivity; discriminate.
Qed.

Lemma unlisted_code_point_is_undefined_witness :
  let c := constructed None rulesV17 in
  (codePointsBLClasses sampleData 0x1234 = None
   /\ assignLineBreakingClsCriteria c = None
   /\ nth_error (codePoints (setText sampleData c [97; 0x1234])) 1 = Some (Some 0x1234))
  /\ getClsAndGC sampleData (Some 0x1234) = (None, "")
  /\ assignLineBreakingClass sampleData None (Some 0x1234) = None
  /\ nth_error (classes (setText sampleData c [97; 0x1234])) 1 = Some None.
Proof.
  cbv zeta.
  assert (H1 : codePointsBLClasses sampleData 0x1234 = None) by reflexivity.
  assert (H2 : assignLineBreakingClsCriteria (constructed None rulesV17) = None)
    by reflexivity.
  assert (H3 : nth_error (codePoints (setText sampleData (constructed None rulesV17)
                                        [97; 0x1234])) 1 = Some (Some 0x1234))
    by reflexivity.
  split; [auto|].
  exact (unlisted_code_point_is_undefined sampleData 0x1234 _ [97; 0x1234] 1%nat H1 H2 H3).
Defined.

(** ** The parser and the verdict symbols *)

Lemma parseToken_flat f tokens i t :
  nth_error tokens i = Some t ->
  flat_token t = true ->
  exists p, RuleParser.parseToken (S f) tokens i = Ok p
            /\ RuleParser.next_i p = S i
            /\ RuleParser.set_result p = verdict_of t.
Proof.
  intros Hnth Hflat. cbn [RuleParser.parseToken]. rewrite Hnth.
  revert Hflat. unfold flat_token, verdict_of.
  destruct (String.eqb t RuleParser.FORBIDDEN_SYMBOL); [intros _; eexists; repeat split|].
  destruct (String.eqb t RuleParser.MANDATORY_SYMBOL); [intros _; eexists; repeat split|].
  destruct (String.eqb t RuleParser.ALLOWED_SYMBOL); [intros _; eexists; repeat split|].
  destruct (String.eqb t "any"); [intros _; eexists; repeat split|].
  destruct (String.eqb t "sot"); [intros _; eexists; repeat split|].
  destruct (String.eqb t "eot"); [intros _; eexists; repeat split|].
  destruct (String.eqb t "eastasian"); [intros _; eexists; repeat split|].
  destruct (String.eqb t "extpict"); [intros _; eexists; repeat split|].
  destruct (RuleParser.is_codepoint_token t); [intros _; eexists; repeat split|].
  destruct (RuleParser.is_gc_token t); [intros _; eexists; repeat split|].
  destruct (RuleParser.is_class_token t); [intros _; eexists; repeat split|].
  destruct (String.eqb t "^"); [intros _; eexists; repeat split|].
  destruct (String.eqb t "&"); [intros _; eexists; repeat split|].
  destruct (String.eqb t "-"); [intros _; eexists; repeat split|].
  destruct (String.eqb t "*"); [intros _; eexists; repeat split|].
  destruct (String.eqb t "|"); [intros _; eexists; repeat split|].
  cbn [orb].
  destruct (String.eqb_spec t "("); [subst; cbn; discriminate|].
  destruct (String.eqb t ")"); [intros _; eexists; repeat split|].
  destruct (String.eqb_spec t "["); [subst; cbn; discriminate|].
  destruct (String.eqb t "]"); [intros _; eexists; repeat split|].
  cbn. discriminate.
Qed.

Lemma parse_loop_flat tokens :
  Forall (fun t => flat_token t = true) tokens ->
  forall k i b,
    (List.length tokens - i < k)%nat ->
    exists b', RuleParser.parse_loop k tokens i b = Ok b'
               /\ RuleParser.b_result b'
                  = last_verdict (RuleParser.b_result b) (skipn i tokens).
Proof.
  intros Hflat. induction k as [|k IH]; intros i b Hk; [lia|].
  cbn [RuleParser.parse_loop].
  destruct (Nat.ltb_spec i (List.length tokens)) as [Hi | Hi].
  - destruct (nth_error tokens i) as [t|] eqn:Et;
      [|apply nth_error_None in Et; lia].
    assert (Ht : flat_token t = true).
    { rewrite Forall_forall in Hflat. apply Hflat. eapply nth_error_In; eauto. }
    destruct (parseToken_flat (List.length tokens) tokens i t Et Ht) as (p & Hp & Hn & Hv).
    rewrite Hp. cbn [bind]. rewrite Hn.
    destruct (IH (S i) (RuleParser.apply_parsed b p)) as (b' & Hb' & Hr); [lia|].
    exists b'. split; [exact Hb'|]. rewrite Hr.
    assert (Es : skipn i tokens = t :: skipn (S i) tokens).
    { clear - Et. revert i Et. induction tokens as [|a l IHl]; intros [|i] E;
        simpl in *; try discriminate.
      - inversion E. reflexivity.
      - apply IHl. exact E. }
    rewrite Es. cbn [last_verdict RuleParser.apply_parsed RuleParser.b_result].
    unfold RuleParser.later_result. rewrite Hv. reflexivity.
  - exists b. split; [reflexivity|].
    rewrite skipn_all2 by lia. reflexivity.
Qed.

(** C5, as the code has it. [parseRule] does not count verdict symbols nor
    look at the sides: a rule string whose tokens are recognised (brackets
    apart) parses whatever the number of its verdict symbols; its result is
    the verdict of the last one, and [undefined] when there is none. *)
Theorem parseRule_ignores_verdict_count (rule : rawRule) :
  Forall (fun t => flat_token t = true) (RuleParser.split (raw_str rule)) ->
  exists o, RuleParser.parseRule rule = Ok o
            /\ result o = last_verdict None (RuleParser.split (raw_str rule)).
Proof.
  intros Hflat. unfold RuleParser.parseRule.
  destruct (parse_loop_flat _ Hflat (S (List.length (RuleParser.split (raw_str rule))))
              0%nat
              {| RuleParser.b_before := []; RuleParser.b_after := [];
                 RuleParser.in_after := false; RuleParser.b_result := None |})
    as (b & Hb & Hr); [lia|].
  rewrite Hb. cbn [bind]. eexists. split; [reflexivity|].
  cbn [result]. rewrite Hr. reflexivity.
Qed.

(** C5, as stated, fails: a rule without verdict symbol, a rule with two and
    a rule with an empty before side all parse. *)
Lemma parseRule_accepts_other_verdict_counts :
  (count_verdicts (RuleParser.split "any any") = 0%nat
   /\ RuleParser.parseRule (plain "any any")
      = Ok {| before := TSequence [TBase "any"; TBase "any"];
              after := TSequence [];
              name := None; side_effect := None; result := None |})
  /\ (count_verdicts (RuleParser.split "SP ÷ any ! ZZ") = 2%nat
      /\ RuleParser.parseRule (plain "SP ÷ any ! ZZ")
         = Ok {| before := TSequence [TClass "SP"];
                 after := TSequence [TBase "any"; TClass "ZZ"];
                 name := None; side_effect := None;
                 result := Some BreakType.MANDATORY |})
  /\ RuleParser.parseRule (plain "× any")
     = Ok {| before := TSequence [];
             after := TSequence [TBase "any"];
             name := None; side_effect := None;
             result := Some BreakType.FORBIDDEN |}.
Proof. vm_compute. repeat split; reflexivity. Qed.

Lemma parseRule_ignores_verdict_count_witness :
  Forall (fun t => flat_token t = true) (RuleParser.split (raw_str (plain "SP ÷ any ! ZZ")))
  /\ exists o, RuleParser.parseRule (plain "SP ÷ any ! ZZ") = Ok o
               /\ result o = last_verdict None
                               (RuleParser.split (raw_str (plain "SP ÷ any ! ZZ"))).
Proof.
  assert (H : Forall (fun t => flat_token t = true)
                (RuleParser.split (raw_str (plain "SP ÷ any ! ZZ"))))
    by (vm_compute; repeat (apply Forall_cons; [reflexivity|]); apply Forall_nil).
  split; [exact H|].
  exact (parseRule_ignores_verdict_count (plain "SP ÷ any ! ZZ") H).
Defined.

(** ** The budget of the parser

    [parseRule] gives its loops a budget of one more than the number of
    tokens; every call of [parseToken] that returns moves the index forward,
    so the budget is never exhausted. *)

Lemma parse_group_progress (rec : nat -> res RuleParser.parsed) tokens closer :
  (forall i p, rec i = Ok p -> (i < RuleParser.next_i p)%nat) ->
  forall k j content rs content' rs' j',
    RuleParser.parse_group rec k tokens closer j content rs = Ok (content', rs', j') ->
    (j <= j')%nat.
Proof.
  intros Hrec.
  induction k as [|k IH]; intros j content rs content' rs' j' H;
    cbn [RuleParser.parse_group] in H; [discriminate|].
  destruct (match nth_error tokens j with
            | Some t => String.eqb t closer
            | None => false
            end).
  - inversion H; subst. lia.
  - apply bind_Ok in H. destruct H as (p & Hp & H).
    apply Hrec in Hp. apply IH in H. lia.
Qed.

Lemma parseToken_progress tokens :
  forall f i p,
    RuleParser.parseToken f tokens i = Ok p ->
    (i < RuleParser.next_i p)%nat /\ (i < List.length tokens)%nat.
Proof.
  induction f as [|f IH]; intros i p H; cbn [RuleParser.parseToken] in H;
    [discriminate|].
  destruct (nth_error tokens i) as [t|] eqn:Et; [|discriminate].
  split; [|apply nth_error_Some; congruence].
  assert (Hg : forall closer mk,
    (g <- RuleParser.parse_group (RuleParser.parseToken f tokens) f tokens closer
            (S i) [] None ;;
     let '(content, r, j) := g in
     Ok {| RuleParser.pushed := Some (mk content); RuleParser.set_result := r;
           RuleParser.to_after := false; RuleParser.next_i := S j |}) = Ok p ->
    (i < RuleParser.next_i p)%nat).
  { intros closer mk Hp. apply bind_Ok in Hp.
    destruct Hp as ([[content r] j] & Hgr & Hp). inversion Hp; subst. cbn.
    apply parse_group_progress in Hgr; [lia|].
    intros i0 p0 H0. apply IH in H0. tauto. }
  repeat match type of H with
         | (if ?c then _ else _) = _ => destruct c
         end;
    try (inversion H; subst; cbn; lia);
    try (eapply Hg; exact H).
Qed.

Lemma parse_group_budget (rec : nat -> res RuleParser.parsed) tokens closer f :
  (forall i, (List.length tokens - i < f)%nat -> rec i <> OutOfFuel) ->
  (forall i p, rec i = Ok p ->
               (i < RuleParser.next_i p)%nat /\ (i < List.length tokens)%nat) ->
  forall k j content rs,
    (List.length tokens - j < k)%nat -> (k <= f)%nat ->
    RuleParser.parse_group rec k tokens closer j content rs <> OutOfFuel.
Proof.
  intros Hrec Hprog.
  induction k as [|k IH]; intros j content rs Hk Hf; [lia|].
  cbn [RuleParser.parse_group].
  destruct (match nth_error tokens j with
            | Some t => String.eqb t closer
            | None => false
            end); [discriminate|].
  assert (Hoof : rec j <> OutOfFuel) by (apply Hrec; lia).
  destruct (rec j) as [p| |] eqn:E; cbn [bind]; try discriminate; [|congruence].
  destruct (Hprog j p E) as [Hn Hj].
  apply IH; lia.
Qed.

Lemma parseToken_budget tokens :
  forall f i,
    (List.length tokens - i < f)%nat ->
    RuleParser.parseToken f tokens i <> OutOfFuel.
Proof.
  induction f as [|f IH]; intros i Hf; [lia|].
  cbn [RuleParser.parseToken].
  destruct (nth_error tokens i) as [t|] eqn:Et; [|discriminate].
  assert (Hi : (i < List.length tokens)%nat) by (apply nth_error_Some; congruence).
  assert (Hg : forall closer mk,
    (g <- RuleParser.parse_group (RuleParser.parseToken f tokens) f tokens closer
            (S i) [] None ;;
     let '(content, r, j) := g in
     Ok {| RuleParser.pushed := Some (mk content); RuleParser.set_result := r;
           RuleParser.to_after := false; RuleParser.next_i := S j |}) <> OutOfFuel).
  { intros closer mk.
    pose proof (parse_group_budget (RuleParser.parseToken f tokens) tokens closer f
                  IH (parseToken_progress tokens f) f (S i) [] None) as Hb.
    destruct (RuleParser.parse_group _ f tokens closer (S i) [] None)
      as [[[content r] j]| |]; cbn [bind]; try discriminate.
    exfalso. apply Hb; [lia | lia | reflexivity]. }
  repeat match goal with
         | |- (if ?c then _ else _) <> _ => destruct c
         end;
    try discriminate; apply Hg.
Qed.

Lemma parse_loop_budget tokens :
  forall k i b,
    (List.length tokens - i < k)%nat ->
    RuleParser.parse_loop k tokens i b <> OutOfFuel.
Proof.
  induction k as [|k IH]; intros i b Hk; [lia|].
  cbn [RuleParser.parse_loop].
  destruct (Nat.ltb_spec i (List.length tokens)) as [Hi | Hi]; [|discriminate].
  pose proof (parseToken_budget tokens (S (List.length tokens)) i) as Hb.
  destruct (RuleParser.parseToken (S (List.length tokens)) tokens i) as [p| |] eqn:E;
    cbn [bind]; try discriminate.
  - apply parseToken_progress in E. apply IH. lia.
  - exfalso. apply Hb; [lia | reflexivity].
Qed.

(** Parsing a rule returns an object or throws. *)
Lemma parseRule_budget rule : RuleParser.parseRule rule <> OutOfFuel.
Proof.
  unfold RuleParser.parseRule.
  pose proof (parse_loop_budget (RuleParser.split (raw_str rule))
                (S (List.length (RuleParser.split (raw_str rule)))) 0%nat
                {| RuleParser.b_before := []; RuleParser.b_after := [];
                   RuleParser.in_after := false; RuleParser.b_result := None |}) as H.
  destruct (RuleParser.parse_loop _ _ _ _); cbn [bind]; try discriminate.
  exfalso. apply H; [lia | reflexivity].
Qed.

(** ** The budget of the matcher

    The budget only bounds the model: a call that completes within a budget
    completes in the same way within any larger one. *)

Lemma refines_refl {A : Type} (r : res A) : refines r r.
Proof. right. reflexivity. Qed.

Lemma refines_Ok {A : Type} (r : res A) (a : A) :
  refines (Ok a) r -> r = Ok a.
Proof. intros [H | H]; [discriminate | auto]. Qed.

Lemma refines_Throw {A : Type} (r : res A) (e : string) :
  refines (Throw e) r -> r = Throw e.
Proof. intros [H | H]; [discriminate | auto]. Qed.

Lemma bind_refines {A B : Type} (m m' : res A) (k k' : A -> res B) :
  refines m m' -> (forall a, refines (k a) (k' a)) ->
  refines (bind m k) (bind m' k').
Proof.
  intros [-> | ->] Hk; [left; reflexivity|].
  destruct m'; simpl; [apply Hk | right; reflexivity | left; reflexivity].
Qed.

Section MatcherBudget.

Variable data : unicodeData.

Section Loops.

Variables rec rec' : consumer.

Hypothesis rec_refines :
  forall t i step parent prev next,
    refines (rec t i step parent prev next) (rec' t i step parent prev next).

Lemma star_loop_refines this op step parent next :
  forall k k' r, (k <= k')%nat ->
    refines (star_loop rec k this op step parent next r)
            (star_loop rec' k' this op step parent next r).
Proof.
  induction k as [|k IH]; intros k' r Hk; [left; reflexivity|].
  destruct k' as [|k']; [lia|]. simpl.
  destruct (star_continues this r); [|apply refines_refl].
  apply bind_refines; [apply rec_refines|].
  intros a. apply IH. lia.
Qed.

Lemma set_loop_refines content step i :
  forall k k' prev idx token_i, (k <= k')%nat ->
    refines (set_loop rec k content step i prev idx token_i)
            (set_loop rec' k' content step i prev idx token_i).
Proof.
  induction k as [|k IH]; intros k' prev idx token_i Hk; [left; reflexivity|].
  destruct k' as [|k']; [lia|]. simpl.
  destruct (nth_error content token_i); [|apply refines_refl].
  apply bind_refines; [apply rec_refines|].
  intros a. destruct (c_result a && not_binary_modifier content _);
    [apply refines_refl | apply IH; lia].
Qed.

Lemma sequence_loop_refines content step i :
  forall k k' prev idx token_i, (k <= k')%nat ->
    refines (sequence_loop rec k content step i prev idx token_i)
            (sequence_loop rec' k' content step i prev idx token_i).
Proof.
  induction k as [|k IH]; intros k' prev idx token_i Hk; [left; reflexivity|].
  destruct k' as [|k']; [lia|]. simpl.
  destruct (nth_error content token_i); [|apply refines_refl].
  apply bind_refines; [apply rec_refines|].
  intros a. destruct (negb (c_result a)); [apply refines_refl | apply IH; lia].
Qed.

Lemma consume_body_refines k k' this tok i step parent prev next :
  (k <= k')%nat ->
  refines (consume_body data rec k this tok i step parent prev next)
          (consume_body data rec' k' this tok i step parent prev next).
Proof.
  intros Hk. destruct tok; simpl; try apply refines_refl.
  - repeat match goal with
           | |- refines (if ?c then _ else _) (if ?c then _ else _) => destruct c
           end;
      try apply refines_refl;
      (apply bind_refines; [apply refines_refl|]; intros op;
       apply bind_refines; [apply rec_refines|]; intros r0;
       try apply refines_refl).
    apply bind_refines; [apply star_loop_refines; exact Hk|].
    intros r. apply refines_refl.
  - apply set_loop_refines. exact Hk.
  - apply sequence_loop_refines. exact Hk.
Qed.

End Loops.

Lemma consumeToken_refines this :
  forall f f', (f <= f')%nat ->
    forall tok i step parent prev next,
      refines (consumeToken data f this tok i step parent prev next)
              (consumeToken data f' this tok i step parent prev next).
Proof.
  induction f as [|f IH]; intros f' Hf tok i step parent prev next;
    [left; reflexivity|].
  destruct f' as [|f']; [lia|]. cbn [consumeToken].
  apply consume_body_refines; [|lia].
  intros. apply IH. lia.
Qed.

Lemma checkRule_refines f f' this rule idx :
  (f <= f')%nat ->
  refines (checkRule data f this rule idx) (checkRule data f' this rule idx).
Proof.
  intros Hf. unfold checkRule.
  apply bind_refines; [apply consumeToken_refines; exact Hf|]. intros b.
  apply bind_refines; [|intros a; apply refines_refl].
  destruct (c_result b); [apply consumeToken_refines; exact Hf | apply refines_refl].
Qed.

Lemma rules_loop_refines f f' i :
  (f <= f')%nat ->
  forall rs this r,
    refines (rules_loop data f this rs i r) (rules_loop data f' this rs i r).
Proof.
  intros Hf. induction rs as [|rule rest IH]; intros this r; simpl;
    [apply refines_refl|].
  apply bind_refines; [apply checkRule_refines; exact Hf|].
  intros [r1 this1]. destruct (decided r1); [apply refines_refl | apply IH].
Qed.

Lemma isPosLineBreaking_refines f f' this i :
  (f <= f')%nat ->
  refines (isPosLineBreaking data f this i) (isPosLineBreaking data f' this i).
Proof.
  intros Hf. unfold isPosLineBreaking.
  apply bind_refines; [|intros a; apply refines_refl].
  destruct (inside_surrogate_pair this i);
    [apply refines_refl | apply rules_loop_refines; exact Hf].
Qed.

Lemma next_refines f f' :
  (f <= f')%nat ->
  forall k k' this current, (k <= k')%nat ->
    refines (next data k f this current) (next data k' f' this current).
Proof.
  intros Hf. induction k as [|k IH]; intros k' this current Hk;
    [left; reflexivity|].
  destruct k' as [|k']; [lia|]. cbn [next].
  destruct (Z.of_nat (List.length (text this)) <? current + 1);
    [apply refines_refl|].
  apply bind_refines; [apply isPosLineBreaking_refines; exact Hf|].
  intros [r this1].
  destruct (bit_and r _ =? 0); [apply IH; lia | apply refines_refl].
Qed.

Lemma iterate_from_refines f f' :
  (f <= f')%nat ->
  forall k k' this current, (k <= k')%nat ->
    refines (iterate_from data k f this current) (iterate_from data k' f' this current).
Proof.
  intros Hf. induction k as [|k IH]; intros k' this current Hk;
    [left; reflexivity|].
  destruct k' as [|k']; [lia|]. cbn [iterate_from].
  apply bind_refines; [apply next_refines; auto|].
  intros [[value current'] this1]. destruct value; [|apply refines_refl].
  apply bind_refines; [apply IH; lia | intros a; apply refines_refl].
Qed.

Lemma iterate_refines f f' this :
  (f <= f')%nat -> refines (iterate data f this) (iterate data f' this).
Proof. intros Hf. apply iterate_from_refines; exact Hf. Qed.

End MatcherBudget.

(** ** The iterator *)

(** C1, on the code. On the text of the README, "Hello, breaker", the
    iterator of the standard checker yields two objects, with the fields
    [index] and [breakType] and no field [text] (within every budget of at
    least 40). *)
Theorem iterator_yields_no_text (fuel : nat) :
  let this := setText sampleData (constructed None rulesV17) (units "Hello, breaker") in
  iterate sampleData (40 + fuel) this
  = Ok [[("index", 7); ("breakType", BreakType.ALLOWED)];
        [("index", 14); ("breakType", BreakType.MANDATORY)]]
  /\ forall v, In v [[("index", 7); ("breakType", BreakType.ALLOWED)];
                     [("index", 14); ("breakType", BreakType.MANDATORY)]] ->
               field "text" v = None.
Proof.
  cbv zeta. split.
  - apply refines_Ok.
    pose proof (iterate_refines sampleData 40 (40 + fuel)
                  (setText sampleData (constructed None rulesV17) (units "Hello, breaker")))
      as R.
    replace (iterate sampleData 40
               (setText sampleData (constructed None rulesV17) (units "Hello, breaker")))
      with (Ok [[("index", 7); ("breakType", BreakType.ALLOWED)];
                [("index", 14); ("breakType", BreakType.MANDATORY)]]) in R
      by (vm_compute; reflexivity).
    apply R. lia.
  - intros v [<- | [<- | []]]; reflexivity.
Qed.

(** Every object [next] yields has exactly the fields [index] and
    [breakType]. *)
Lemma next_value_fields data : forall k fuel this current v current' this',
  next data k fuel this current = Ok (Some v, current', this') ->
  exists b, v = [("index", current'); ("breakType", b)]
            /\ Z.land b (Z.lor BreakType.MANDATORY BreakType.ALLOWED) <> 0
            /\ current < current' <= Z.of_nat (List.length (text this)).
Proof.
  induction k as [|k IH]; intros fuel this current v current' this' H;
    simpl in H; [discriminate|].
  destruct (Z.ltb_spec (Z.of_nat (List.length (text this))) (current + 1)) as [Hlt | Hge];
    [discriminate|].
  apply bind_Ok in H. destruct H as ([r this1] & Hcall & H).
  match type of H with (if ?cond then _ else _) = _ => destruct cond eqn:E end.
  - assert (Ht : text this1 = text this).
    { unfold isPosLineBreaking in Hcall.
      apply bind_Ok in Hcall. destruct Hcall as ([r1 this2] & H1 & H2).
      inversion H2; subst.
      assert (H3 : this2 = this \/ this2 = removeCombiningSequences this).
      { destruct (inside_surrogate_pair this (current + 1)).
        - inversion H1. auto.
        - eapply rules_loop_state; eauto. }
      unfold cleanup. destruct H3 as [-> | ->]; destruct (applyOffset _); reflexivity. }
    apply IH in H. destruct H as (b & Hv & Hb & Hc).
    exists b. rewrite Ht in Hc. repeat split; auto; lia.
  - inversion H; subst. apply Z.eqb_neq in E.
    destruct r as [b|]; [|exfalso; apply E; reflexivity].
    exists b. repeat split; [exact E | lia | lia].
Qed.

(* ------------------------------------------------------------------------- *)
(** * Further properties of the code *)

(** ** Range *)

Lemma to_double_exact z : Z.abs z <= 2 ^ 53 -> Range.to_double z = z.
Proof.
  intros H. unfold Range.to_double. cbv zeta.
  apply Z.leb_le in H. rewrite H. reflexivity.
Qed.

Lemma Range_constructor_step a more r :
  Range.constructor a more = Ok r -> Range.step r <> 0.
Proof.
  unfold Range.constructor. intros H.
  destruct (existsb Range.not_integer (a :: more)); [discriminate|].
  destruct (Z.eqb_spec (match more with _ :: s :: _ => s | _ => 1 end) 0) as [E | E];
    [discriminate|].
  destruct more as [|b [|s rest]]; inversion H; subst; cbn in *; auto.
Qed.

Lemma ceiling_bound d s j :
  0 < s -> 0 < d -> (j < (d + s - 1) / s <-> j * s < d).
Proof.
  intros Hs Hd.
  pose proof (Z.div_mod (d + s - 1) s) as Hdm.
  pose proof (Z.mod_pos_bound (d + s - 1) s Hs) as Hm.
  split; intros H; nia.
Qed.

(** Up to 2^53 the quotient of the code has the ceiling of the exact one. *)
Lemma ceil_div_exact d s :
  0 < s -> 0 < d <= 2 ^ 53 -> Range.ceil_div d s = (d + s - 1) / s.
Proof.
  intros Hs [Hd Hd53]. unfold Range.ceil_div. cbv zeta.
  pose proof (Z.div_mod d s ltac:(lia)) as Hdm.
  pose proof (Z.mod_pos_bound d s Hs) as Hm.
  assert (Hk : 0 <= d / s) by (apply Z.div_pos; lia).
  destruct (Z.eqb_spec (d mod s) 0) as [E0 | E0].
  - rewrite to_double_exact by nia.
    apply Z.div_unique with (r := s - 1); [lia | rewrite E0 in Hdm; lia].
  - assert (Hup : (d + s - 1) / s = d / s + 1).
    { symmetry. apply Z.div_unique with (r := d mod s - 1); [lia | lia]. }
    rewrite Hup.
    destruct (Z.eqb_spec (d / s) 0) as [Ek | Ek]; [lia|].
    assert (Hkpos : 0 < d / s) by lia.
    pose proof (Z.log2_spec (d / s) Hkpos) as [Hlo _].
    pose proof (Z.log2_nonneg (d / s)) as He.
    destruct (Z.ltb_spec (Z.log2 (d / s)) 52) as [Hlt | Hge].
    + assert (Hp : 2 ^ 53 = 2 ^ Z.log2 (d / s) * 2 ^ (53 - Z.log2 (d / s))).
      { rewrite <- Z.pow_add_r by lia. f_equal. lia. }
      assert (Hp1 : 0 < 2 ^ Z.log2 (d / s)) by (apply Z.pow_pos_nonneg; lia).
      assert (Hp2 : 0 < 2 ^ (53 - Z.log2 (d / s))) by (apply Z.pow_pos_nonneg; lia).
      destruct (Z.leb_spec (d mod s * 2 ^ (53 - Z.log2 (d / s))) s) as [Hle | Hgt];
        [|reflexivity].
      exfalso.
      assert (2 ^ Z.log2 (d / s) * s < 2 ^ Z.log2 (d / s) * 2 ^ (53 - Z.log2 (d / s)))
        by nia.
      assert (s < 2 ^ (53 - Z.log2 (d / s))) by nia.
      nia.
    + exfalso.
      assert (2 ^ 52 <= 2 ^ Z.log2 (d / s)) by (apply Z.pow_le_mono_r; lia).
      assert (2 ^ 53 = 2 * 2 ^ 52) by reflexivity.
      nia.
Qed.

(** The size of a range whose bounds are at most 2^52 apart from 0 is the
    ceiling of the exact quotient. *)
Lemma Range_size_exact r :
  Range.step r <> 0 ->
  Z.abs (Range.start r) <= 2 ^ 52 -> Z.abs (Range.stop r) <= 2 ^ 52 ->
  Range.size r
  = let d := if 0 <? Range.step r then Range.stop r - Range.start r
             else Range.start r - Range.stop r in
    if d <=? 0 then 0 else (d + Z.abs (Range.step r) - 1) / Z.abs (Range.step r).
Proof.
  intros Hs Ha Hb. unfold Range.size. cbv zeta.
  assert (H53 : 2 ^ 53 = 2 * 2 ^ 52) by reflexivity.
  rewrite !to_double_exact by lia.
  destruct (0 <? Range.step r);
    match goal with |- context [?d <=? 0] => destruct (Z.leb_spec d 0) end;
    try reflexivity; apply ceil_div_exact; lia.
Qed.

(** The values of a range with a stepping test [inside] that holds for the
    first [m] of them and fails for the next, none of the sums being
    rounded. *)
Lemma Range_values_count r :
  forall m k c,
    (m < k)%nat ->
    (forall i, (i < m)%nat ->
               Range.isInRange r (c + Z.of_nat i * Range.step r) = true) ->
    Range.isInRange r (c + Z.of_nat m * Range.step r) = false ->
    (forall i, (0 < i <= m)%nat -> Z.abs (c + Z.of_nat i * Range.step r) <= 2 ^ 53) ->
    Range.values k r c
    = Ok (map (fun i => c + Z.of_nat i * Range.step r) (seq 0 m)).
Proof.
  induction m as [|m IH]; intros k c Hk Hin Hout Hex; (destruct k as [|k]; [lia|]);
    cbn [Range.values]; unfold Range.next.
  - replace (c + Z.of_nat 0 * Range.step r) with c in Hout by lia.
    rewrite Hout. reflexivity.
  - pose proof (Hin 0%nat ltac:(lia)) as H0.
    replace (c + Z.of_nat 0 * Range.step r) with c in H0 by lia.
    rewrite H0.
    pose proof (Hex 1%nat ltac:(lia)) as H1.
    replace (c + Z.of_nat 1 * Range.step r) with (c + Range.step r) in H1 by lia.
    rewrite (to_double_exact _ H1).
    rewrite (IH k (c + Range.step r)); [| lia | | |].
    + cbn [bind seq map]. f_equal. f_equal; [lia|].
      rewrite <- seq_shift, map_map. apply map_ext. intros i. lia.
    + intros i Hi. specialize (Hin (S i) ltac:(lia)).
      rewrite <- Hin. f_equal. lia.
    + rewrite <- Hout. f_equal. lia.
    + intros i Hi. specialize (Hex (S i) ltac:(lia)).
      replace (c + Range.step r + Z.of_nat i * Range.step r)
        with (c + Z.of_nat (S i) * Range.step r) by lia.
      exact Hex.
Qed.

Lemma Range_inside_iff r j :
  Range.step r <> 0 ->
  Z.abs (Range.start r) <= 2 ^ 52 -> Z.abs (Range.stop r) <= 2 ^ 52 ->
  0 <= j ->
  (Range.isInRange r (Range.start r + j * Range.step r) = true <-> j < Range.size r).
Proof.
  intros Hs Ha Hb Hj. rewrite Range_size_exact by assumption.
  unfold Range.isInRange. cbv zeta.
  destruct (Z.ltb_spec 0 (Range.step r)) as [Hpos | Hneg].
  - rewrite Z.ltb_lt.
    destruct (Z.leb_spec (Range.stop r - Range.start r) 0) as [Hd | Hd]; [nia|].
    rewrite Z.abs_eq by lia. rewrite ceiling_bound by lia. lia.
  - rewrite Z.ltb_lt.
    destruct (Z.leb_spec (Range.start r - Range.stop r) 0) as [Hd | Hd]; [nia|].
    rewrite (Z.abs_neq (Range.step r)) by lia. rewrite ceiling_bound by lia. nia.
Qed.

Lemma Range_size_nonneg r :
  Range.step r <> 0 ->
  Z.abs (Range.start r) <= 2 ^ 52 -> Z.abs (Range.stop r) <= 2 ^ 52 ->
  0 <= Range.size r.
Proof.
  intros Hs Ha Hb. rewrite Range_size_exact by assumption. cbv zeta.
  match goal with |- context [?d <=? 0] => destruct (Z.leb_spec d 0) end; [lia|].
  apply Z.div_pos; lia.
Qed.

(** A value the iterator yields lies between [start] and [stop]. *)
Lemma Range_inside_bounds r v :
  Range.isInRange r v = true ->
  (0 < Range.step r -> Range.start r <= v) ->
  (Range.step r <= 0 -> v <= Range.start r) ->
  Z.abs (Range.start r) <= 2 ^ 52 -> Z.abs (Range.stop r) <= 2 ^ 52 ->
  Z.abs v <= 2 ^ 52.
Proof.
  unfold Range.isInRange. intros H Hup Hdown Ha Hb.
  destruct (Z.ltb_spec 0 (Range.step r)) as [Hpos | Hneg]; apply Z.ltb_lt in H; lia.
Qed.

(** X1. Iterating a range built by the constructor, with [start], [stop] and
    [step] at most 2^52 apart from 0 (so that no sum is rounded), yields
    [start], [start + step], ...: as many values as [size] says, in this
    order. *)
Theorem Range_iteration (a : Z) (more : list Z) (r : Range.t) (k : nat) :
  Range.constructor a more = Ok r ->
  Z.abs (Range.start r) <= 2 ^ 52 ->
  Z.abs (Range.stop r) <= 2 ^ 52 ->
  Z.abs (Range.step r) <= 2 ^ 52 ->
  (Z.to_nat (Range.size r) < k)%nat ->
  Range.values k r (Range.start r)
  = Ok (map (fun i => Range.start r + Z.of_nat i * Range.step r)
            (seq 0 (Z.to_nat (Range.size r)))).
Proof.
  intros Hc Ha Hb Hst Hk. apply Range_constructor_step in Hc.
  pose proof (Range_size_nonneg r Hc Ha Hb) as Hsz.
  assert (H53 : 2 ^ 53 = 2 * 2 ^ 52) by reflexivity.
  apply Range_values_count; [exact Hk | | |].
  - intros i Hi. apply Range_inside_iff; try assumption; lia.
  - destruct (Range.isInRange r _) eqn:E; [|reflexivity].
    apply Range_inside_iff in E; try assumption; lia.
  - intros i Hi.
    assert (Hin : Range.isInRange r (Range.start r + Z.of_nat (i - 1) * Range.step r)
                  = true)
      by (apply Range_inside_iff; try assumption; lia).
    apply Range_inside_bounds in Hin; try assumption; [|nia|nia].
    replace (Z.of_nat i) with (Z.of_nat (i - 1) + 1) by lia.
    lia.
Qed.

Lemma Range_iteration_witness :
  Range.constructor 10 [1; -3] = Ok {| Range.start := 10; Range.stop := 1; Range.step := -3 |}
  /\ (Z.to_nat (Range.size {| Range.start := 10; Range.stop := 1; Range.step := -3 |}) < 4)%nat
  /\ Range.values 4 {| Range.start := 10; Range.stop := 1; Range.step := -3 |} 10
     = Ok [10; 7; 4].
Proof.
  assert (H1 : Range.constructor 10 [1; -3]
               = Ok {| Range.start := 10; Range.stop := 1; Range.step := -3 |})
    by reflexivity.
  assert (H2 : (Z.to_nat (Range.size {| Range.start := 10; Range.stop := 1;
                                        Range.step := -3 |}) < 4)%nat)
    by (vm_compute; lia).
  assert (Ha : Z.abs (Range.start {| Range.start := 10; Range.stop := 1;
                                     Range.step := -3 |}) <= 2 ^ 52)
    by (vm_compute; discriminate).
  assert (Hb : Z.abs (Range.stop {| Range.start := 10; Range.stop := 1;
                                    Range.step := -3 |}) <= 2 ^ 52)
    by (vm_compute; discriminate).
  assert (Hs : Z.abs (Range.step {| Range.start := 10; Range.stop := 1;
                                    Range.step := -3 |}) <= 2 ^ 52)
    by (vm_compute; discriminate).
  split; [exact H1|]. split; [exact H2|].
  exact (Range_iteration 10 [1; -3] _ 4%nat H1 Ha Hb Hs H2).
Defined.

(** From 2^53 on the sums of the iterator are rounded: the iteration of
    [new Range(2**53, 2**53 + 4)] yields 2^53 again and again and never
    ends, although [size] is 4 and [includes(2**53 + 2)] holds. *)
Example Range_iteration_stalls :
  Range.constructor (2 ^ 53) [2 ^ 53 + 4]
  = Ok {| Range.start := 2 ^ 53; Range.stop := 2 ^ 53 + 4; Range.step := 1 |}
  /\ Range.next {| Range.start := 2 ^ 53; Range.stop := 2 ^ 53 + 4; Range.step := 1 |}
       (2 ^ 53) = (Some (2 ^ 53), 2 ^ 53)
  /\ (forall k, Range.values k {| Range.start := 2 ^ 53; Range.stop := 2 ^ 53 + 4;
                                  Range.step := 1 |} (2 ^ 53) = OutOfFuel)
  /\ Range.size {| Range.start := 2 ^ 53; Range.stop := 2 ^ 53 + 4; Range.step := 1 |} = 4
  /\ Range.includes {| Range.start := 2 ^ 53; Range.stop := 2 ^ 53 + 4; Range.step := 1 |}
       (2 ^ 53 + 2) = true.
Proof.
  assert (Hn : Range.next {| Range.start := 2 ^ 53; Range.stop := 2 ^ 53 + 4;
                             Range.step := 1 |} (2 ^ 53) = (Some (2 ^ 53), 2 ^ 53))
    by (vm_compute; reflexivity).
  split; [vm_compute; reflexivity|]. split; [exact Hn|].
  split; [|split; vm_compute; reflexivity].
  induction k as [|k IH]; [reflexivity|].
  cbn [Range.values]. rewrite Hn, IH. reflexivity.
Qed.

(** An argument from 10^21 on fails the integer test of the constructor. *)
Example Range_constructor_large :
  Range.constructor (10 ^ 21) [] = Throw TypeError
  /\ Range.constructor 0 [5; 10 ^ 21] = Throw TypeError
  /\ Range.constructor 0 [5; 0] = Throw RangeError
  /\ Range.constructor (10 ^ 21 - 1) []
     = Ok {| Range.start := 0; Range.stop := 10 ^ 21 - 1; Range.step := 1 |}.
Proof. repeat split; vm_compute; reflexivity. Qed.

(** X2. For a range built by the constructor, with [start], [stop] and
    [step] at most 2^52 apart from 0, and a number [n] that is an integer
    double, [includes(n)] holds exactly for the values the iteration yields:
    [n = start + j * step] for some [0 <= j < size]. *)
Theorem Range_includes_iterated (a : Z) (more : list Z) (r : Range.t) (n : Z) :
  Range.constructor a more = Ok r ->
  Z.abs (Range.start r) <= 2 ^ 52 ->
  Z.abs (Range.stop r) <= 2 ^ 52 ->
  Z.abs (Range.step r) <= 2 ^ 52 ->
  Range.to_double n = n ->
  (Range.includes r n = true
   <-> exists j, 0 <= j < Range.size r /\ n = Range.start r + j * Range.step r).
Proof.
  intros Hc Ha Hb Hst Hn. apply Range_constructor_step in Hc.
  assert (H53 : 2 ^ 53 = 2 * 2 ^ 52) by reflexivity.
  unfold Range.includes, Range.remainder.
  destruct (Z.ltb_spec 0 (Range.step r)) as [Hpos | Hneg].
  - replace (Range.step r =? 0) with false by (symmetry; apply Z.eqb_neq; lia).
    split.
    + intros H. apply andb_true_iff in H. destruct H as [H H3].
      apply andb_true_iff in H. destruct H as [H1 H2].
      apply Z.leb_le in H1. apply Z.ltb_lt in H2.
      rewrite to_double_exact in H3 by lia.
      cbn [num_eqb] in H3. apply Z.eqb_eq in H3.
      apply Z.rem_divide in H3; [|lia]. destruct H3 as [j Hj].
      exists j. assert (0 <= j) by nia. split; [|lia].
      split; [lia|]. apply Range_inside_iff; try assumption.
      unfold Range.isInRange.
      replace (0 <? Range.step r) with true by (symmetry; apply Z.ltb_lt; lia).
      apply Z.ltb_lt. lia.
    + intros (j & [Hj0 Hj] & ->).
      apply Range_inside_iff in Hj; try assumption.
      unfold Range.isInRange in Hj.
      replace (0 <? Range.step r) with true in Hj by (symmetry; apply Z.ltb_lt; lia).
      apply Z.ltb_lt in Hj.
      rewrite to_double_exact by nia.
      cbn [num_eqb]. rewrite !andb_true_iff, Z.leb_le, Z.ltb_lt, Z.eqb_eq.
      repeat split; [nia | lia |].
      apply Z.rem_divide; [lia|]. exists j. lia.
  - replace (- Range.step r =? 0) with false by (symmetry; apply Z.eqb_neq; lia).
    split.
    + intros H. apply andb_true_iff in H. destruct H as [H H3].
      apply andb_true_iff in H. destruct H as [H1 H2].
      apply Z.leb_le in H1. apply Z.ltb_lt in H2.
      rewrite to_double_exact in H3 by lia.
      cbn [num_eqb] in H3. apply Z.eqb_eq in H3.
      apply Z.rem_divide in H3; [|lia]. destruct H3 as [j Hj].
      exists j. assert (0 <= j) by nia. split; [|lia].
      split; [lia|]. apply Range_inside_iff; try assumption.
      unfold Range.isInRange.
      replace (0 <? Range.step r) with false by (symmetry; apply Z.ltb_ge; lia).
      apply Z.ltb_lt. lia.
    + intros (j & [Hj0 Hj] & ->).
      apply Range_inside_iff in Hj; try assumption.
      unfold Range.isInRange in Hj.
      replace (0 <? Range.step r) with false in Hj by (symmetry; apply Z.ltb_ge; lia).
      apply Z.ltb_lt in Hj.
      rewrite to_double_exact by nia.
      cbn [num_eqb]. rewrite !andb_true_iff, Z.leb_le, Z.ltb_lt, Z.eqb_eq.
      repeat split; [nia | lia |].
      apply Z.rem_divide; [lia|]. exists j. lia.
Qed.

Lemma Range_includes_iterated_witness :
  Range.constructor 10 [1; -3] = Ok {| Range.start := 10; Range.stop := 1; Range.step := -3 |}
  /\ Range.to_double 4 = 4
  /\ Range.includes {| Range.start := 10; Range.stop := 1; Range.step := -3 |} 4 = true
  /\ (Range.includes {| Range.start := 10; Range.stop := 1; Range.step := -3 |} 4 = true
      <-> exists j, 0 <= j < Range.size {| Range.start := 10; Range.stop := 1;
                                            Range.step := -3 |}
                    /\ 4 = Range.start {| Range.start := 10; Range.stop := 1;
                                          Range.step := -3 |}
                           + j * Range.step {| Range.start := 10; Range.stop := 1;
                                               Range.step := -3 |}).
Proof.
  assert (H1 : Range.constructor 10 [1; -3]
               = Ok {| Range.start := 10; Range.stop := 1; Range.step := -3 |})
    by reflexivity.
  assert (Ha : Z.abs (Range.start {| Range.start := 10; Range.stop := 1;
                                     Range.step := -3 |}) <= 2 ^ 52)
    by (vm_compute; discriminate).
  assert (Hb : Z.abs (Range.stop {| Range.start := 10; Range.stop := 1;
                                    Range.step := -3 |}) <= 2 ^ 52)
    by (vm_compute; discriminate).
  assert (Hs : Z.abs (Range.step {| Range.start := 10; Range.stop := 1;
                                    Range.step := -3 |}) <= 2 ^ 52)
    by (vm_compute; discriminate).
  assert (Hn : Range.to_double 4 = 4) by reflexivity.
  split; [exact H1|]. split; [exact Hn|]. split; [reflexivity|].
  exact (Range_includes_iterated 10 [1; -3] _ 4 H1 Ha Hb Hs Hn).
Defined.

(** X3. A range written by [R.toJSON] is read back by the loop of [makeLBC]
    as the code points the range includes: [[start]] is read as
    [[start, start + 1)]. *)
Theorem compact_range_round_trip (a b : Z) (r : Range.t) (i : Z) :
  Range.constructor a [b] = Ok r ->
  in_compact_range (R.toJSON r) i = Range.includes r i.
Proof.
  unfold Range.constructor. intros H.
  destruct (existsb Range.not_integer [a; b]); [discriminate|].
  inversion H; subst. clear H.
  unfold R.toJSON, Range.includes, in_compact_range, Range.remainder.
  cbn [Range.start Range.stop Range.step Z.ltb Z.compare Z.eqb nullish].
  rewrite Z.rem_1_r. cbn [num_eqb Z.eqb]. rewrite andb_true_r.
  destruct (Z.eqb_spec b (a + 1)) as [-> | Hne]; reflexivity.
Qed.

Lemma compact_range_round_trip_witness :
  Range.constructor 65 [66] = Ok {| Range.start := 65; Range.stop := 66; Range.step := 1 |}
  /\ R.toJSON {| Range.start := 65; Range.stop := 66; Range.step := 1 |} = (65, None)
  /\ in_compact_range (R.toJSON {| Range.start := 65; Range.stop := 66;
                                       Range.step := 1 |}) 65
     = Range.includes {| Range.start := 65; Range.stop := 66; Range.step := 1 |} 65.
Proof.
  assert (H1 : Range.constructor 65 [66]
               = Ok {| Range.start := 65; Range.stop := 66; Range.step := 1 |})
    by reflexivity.
  split; [exact H1|]. split; [reflexivity|].
  exact (compact_range_round_trip 65 66 _ 65 H1).
Defined.

(** ** The tables of [makeLBC] *)

Lemma fold_left_flat_map {A B C : Type} (f : A -> C -> A) (g : B -> list C)
    (l : list B) :
  forall a,
    fold_left (fun acc b => fold_left f (g b) acc) l a
    = fold_left f (flat_map g l) a.
Proof.
  induction l as [|b l IH]; intros a; simpl; [reflexivity|].
  rewrite fold_left_app. apply IH.
Qed.

(** The nested loops of [makeLBC] are one loop over the listed ranges. *)
Lemma expandClasses_listed CompactClasses :
  expandClasses CompactClasses
  = fold_left (fun acc (e : string * string * compactRange) =>
                 fill acc (fst (snd e)) (nullish (snd (snd e)) (fst (snd e) + 1))
                      (fst (fst e), snd (fst e)))
              (listed CompactClasses) (fun _ => None).
Proof.
  unfold expandClasses, listed.
  rewrite <- (fold_left_flat_map
                (fun acc (e : string * string * compactRange) =>
                   fill acc (fst (snd e)) (nullish (snd (snd e)) (fst (snd e) + 1))
                        (fst (fst e), snd (fst e)))
                (fun c : string * list (string * list compactRange) =>
                   flat_map (fun g => map (fun r => (fst c, fst g, r)) (snd g)) (snd c))).
  generalize (fun _ : Z => @None (string * string)).
  induction CompactClasses as [|c l IH]; intros a; simpl; [reflexivity|].
  rewrite IH. f_equal.
  rewrite <- (fold_left_flat_map
                (fun acc (e : string * string * compactRange) =>
                   fill acc (fst (snd e)) (nullish (snd (snd e)) (fst (snd e) + 1))
                        (fst (fst e), snd (fst e)))
                (fun g : string * list compactRange =>
                   map (fun r => (fst c, fst g, r)) (snd g))).
  clear IH. revert a. induction (snd c) as [|g gs IHg]; intros a; simpl; [reflexivity|].
  rewrite IHg. f_equal.
  unfold expandRanges. clear IHg. revert a.
  induction (snd g) as [|[b e] rs IHr]; intros a; simpl; [reflexivity|].
  rewrite IHr. reflexivity.
Qed.

Lemma fill_loop_lookup (cp : Z) :
  forall (l : list (string * string * compactRange)) init,
    let table := fold_left (fun acc (e : string * string * compactRange) =>
                   fill acc (fst (snd e)) (nullish (snd (snd e)) (fst (snd e) + 1))
                        (fst (fst e), snd (fst e))) l init in
    (Forall (fun e => in_compact_range (snd e) cp = false) l -> table cp = init cp)
    /\ (forall pre cls gc r post,
           l = pre ++ (cls, gc, r) :: post ->
           in_compact_range r cp = true ->
           Forall (fun e => in_compact_range (snd e) cp = false) post ->
           table cp = Some (cls, gc)).
Proof.
  intros l. induction l as [|[[c g] [b e]] l IH] using rev_ind; intros init; cbv zeta.
  - split; [reflexivity|]. intros pre cls gc r post H. destruct pre; discriminate.
  - rewrite fold_left_app. cbn [fold_left fst snd]. unfold fill at 1 3.
    specialize (IH init). cbv zeta in IH. destruct IH as [IH1 IH2]. split.
    + intros Hall. apply Forall_app in Hall. destruct Hall as [Hl Hx].
      inversion Hx as [|? ? Hx' _]; subst. cbn [in_compact_range snd] in Hx'.
      rewrite Hx'. apply IH1. exact Hl.
    + intros pre cls gc r post Heq Hin Hpost.
      destruct post as [|p post'] using rev_ind.
      * apply app_inj_tail in Heq. destruct Heq as [_ Heq]. inversion Heq; subst.
        cbn [in_compact_range] in Hin. rewrite Hin. reflexivity.
      * clear IHpost'. rewrite app_comm_cons, app_assoc in Heq.
        apply app_inj_tail in Heq. destruct Heq as [Heq Hp]. subst p.
        apply Forall_app in Hpost. destruct Hpost as [Hpost Hx].
        inversion Hx as [|? ? Hx' _]; subst. cbn [in_compact_range snd] in Hx'.
        rewrite Hx'. eapply IH2; eauto.
Qed.

(** X4. The class table built by [makeLBC]: a code point has no entry exactly
    when no range of the compact table lists it; otherwise its class and
    general category are those of the last range listing it, in the order of
    the compact table. *)
Theorem class_table_lookup
    (CompactClasses : list (string * list (string * list compactRange))) (cp : Z) :
  (Forall (fun e => in_compact_range (snd e) cp = false) (listed CompactClasses)
   -> expandClasses CompactClasses cp = None)
  /\ (forall pre cls gc r post,
         listed CompactClasses = pre ++ (cls, gc, r) :: post ->
         in_compact_range r cp = true ->
         Forall (fun e => in_compact_range (snd e) cp = false) post ->
         expandClasses CompactClasses cp = Some (cls, gc)).
Proof.
  rewrite expandClasses_listed.
  apply (fill_loop_lookup cp (listed CompactClasses) (fun _ => None)).
Qed.

Lemma class_table_lookup_witness :
  let compact := [("AL", [("Lu", [(65, Some 91)]); ("Ll", [(97, Some 123)])]);
                  ("SP", [("Zs", [(32, None)])])] in
  (Forall (fun e => in_compact_range (snd e) 48 = false) (listed compact)
   /\ listed compact = [("AL", "Lu", (65, Some 91))] ++ ("AL", "Ll", (97, Some 123))
                        :: [("SP", "Zs", (32, None))]
   /\ in_compact_range (97, Some 123) 100 = true
   /\ Forall (fun e => in_compact_range (snd e) 100 = false) [("SP", "Zs", (32, None))])
  /\ expandClasses compact 48 = None
  /\ expandClasses compact 100 = Some ("AL", "Ll").
Proof.
  cbv zeta.
  assert (H1 : Forall (fun e : string * string * compactRange =>
                         in_compact_range (snd e) 48 = false)
                 (listed [("AL", [("Lu", [(65, Some 91)]); ("Ll", [(97, Some 123)])]);
                          ("SP", [("Zs", [(32, None)])])]))
    by (repeat (apply Forall_cons; [reflexivity|]); apply Forall_nil).
  assert (H2 : listed [("AL", [("Lu", [(65, Some 91)]); ("Ll", [(97, Some 123)])]);
                       ("SP", [("Zs", [(32, None)])])]
               = [("AL", "Lu", (65, Some 91))] ++ ("AL", "Ll", (97, Some 123))
                 :: [("SP", "Zs", (32, None))]) by reflexivity.
  assert (H3 : in_compact_range (97, Some 123) 100 = true) by reflexivity.
  assert (H4 : Forall (fun e : string * string * compactRange =>
                         in_compact_range (snd e) 100 = false)
                 [("SP", "Zs", (32, None))])
    by (repeat (apply Forall_cons; [reflexivity|]); apply Forall_nil).
  split; [auto|].
  split.
  - exact (proj1 (class_table_lookup _ 48) H1).
  - exact (proj2 (class_table_lookup _ 100) _ _ _ _ _ H2 H3 H4).
Defined.

(** X5. The East Asian set built by [makeLBC] holds a code point exactly when
    a range [[s, e]] of the table has [s <= cp < e]; an entry without end
    adds nothing. *)
Theorem east_asian_membership (EastAsianCharRanges : list compactRange) (cp : Z) :
  expandEastAsian EastAsianCharRanges cp = true
  <-> exists s e, In (s, Some e) EastAsianCharRanges /\ s <= cp < e.
Proof.
  unfold expandEastAsian.
  assert (G : forall l (init : Z -> bool),
    fold_left (fun has (r : compactRange) =>
                 let '(s, e) := r in
                 fun i => has i || match e with
                                   | Some e' => (s <=? i) && (i <? e')
                                   | None => false
                                   end) l init cp = true
    <-> init cp = true \/ exists s e, In (s, Some e) l /\ s <= cp < e).
  { induction l as [|[s e] l IH]; intros init; simpl.
    - split; [auto|]. intros [H | (s & e & [] & _)]; exact H.
    - rewrite IH. rewrite orb_true_iff. split.
      + intros [[H | H] | (s' & e' & Hin & Hr)]; [auto | | eauto 6].
        destruct e as [e|]; [|discriminate].
        apply andb_true_iff in H. destruct H as [H1 H2].
        apply Z.leb_le in H1. apply Z.ltb_lt in H2. right. exists s, e. split; [auto|lia].
      + intros [H | (s' & e' & [Heq | Hin] & Hr)]; [auto | | eauto 6].
        inversion Heq; subst. left. right.
        apply andb_true_iff. split; [apply Z.leb_le | apply Z.ltb_lt]; lia. }
  rewrite G. split; [intros [H | H]; [discriminate | exact H] | auto].
Qed.

(** ** Invariants of the arrays [setText] installs *)

Lemma is_class_eq c cls : is_class c cls = true <-> cls = Some c.
Proof.
  unfold is_class. destruct cls as [s|]; [|split; discriminate].
  rewrite String.eqb_eq. split; [intros ->; reflexivity | intros H; inversion H; reflexivity].
Qed.

(** X6. Without caller-provided criterion, class assignment never leaves one of
    the classes AI, SG, XX, SA, CJ in the class array: the matcher only sees
    resolved classes. *)
Theorem resolved_classes_only (data : unicodeData) (c : config) (txt : list Z)
    (cls : string) :
  assignLineBreakingClsCriteria c = None ->
  In cls ["AI"; "SG"; "XX"; "SA"; "CJ"] ->
  ~ In (Some cls) (classes (setText data c txt)).
Proof.
  intros Hcrit Hcls Hin. rewrite setText_classes, Hcrit in Hin.
  unfold assignLineBreakingClasses in Hin. apply in_map_iff in Hin.
  destruct Hin as (cp & Hcp & _).
  unfold assignLineBreakingClass in Hcp.
  destruct (getClsAndGC data cp) as [raw gc].
  destruct (is_class "AI" raw) eqn:E1.
  { cbn in Hcp. inversion Hcp; subst. cbn in Hcls. intuition discriminate. }
  destruct (is_class "SG" raw) eqn:E2.
  { cbn in Hcp. inversion Hcp; subst. cbn in Hcls. intuition discriminate. }
  destruct (is_class "XX" raw) eqn:E3.
  { cbn in Hcp. inversion Hcp; subst. cbn in Hcls. intuition discriminate. }
  cbn [orb] in Hcp.
  destruct (is_class "SA" raw) eqn:E4.
  { destruct (String.eqb gc "Mn" || String.eqb gc "Mc");
      inversion Hcp; subst; cbn in Hcls; intuition discriminate. }
  destruct (is_class "CJ" raw) eqn:E5.
  { inversion Hcp; subst. cbn in Hcls. intuition discriminate. }
  subst raw.
  cbn in Hcls.
  destruct Hcls as [<- | [<- | [<- | [<- | [<- | []]]]]];
    match goal with
    | H : is_class ?c (Some ?c) = false |- _ =>
        assert (is_class c (Some c) = true) by (apply is_class_eq; reflexivity); congruence
    end.
Qed.

Lemma resolved_classes_only_witness :
  let c := constructed None rulesV17 in
  (assignLineBreakingClsCriteria c = None /\ In "SA" ["AI"; "SG"; "XX"; "SA"; "CJ"])
  /\ ~ In (Some "SA") (classes (setText sampleData c (units "ab"))).
Proof.
  cbv zeta.
  assert (H1 : assignLineBreakingClsCriteria (constructed None rulesV17) = None)
    by reflexivity.
  assert (H2 : In "SA" ["AI"; "SG"; "XX"; "SA"; "CJ"]) by (cbn; auto).
  split; [auto|].
  exact (resolved_classes_only sampleData _ (units "ab") "SA" H1 H2).
Defined.

Lemma combining_step_invariant cps m entry :
  let m' := setCombiningSequencesMaps_step cps m entry in
  (List.length (m_classesWithoutCS m) = List.length (m_codePointsWithoutCS m)
   /\ Forall (fun c => is_CM_or_ZWJ c = false) (m_classesWithoutCS m)
   /\ Z.of_nat (List.length (m_classesWithoutCS m)) + m_totOffset m
      = Z.of_nat (List.length (m_offsetsCombiningSeqs m))
   /\ (m_offsetsCombiningSeqs m = [] -> m_prevCls m = None)
   /\ (forall i o, nth_error (m_offsetsCombiningSeqs m) i = Some o ->
                   1 <= Z.of_nat i + 1 - o
                        <= Z.of_nat (List.length (m_classesWithoutCS m)))) ->
  List.length (m_classesWithoutCS m') = List.length (m_codePointsWithoutCS m')
  /\ Forall (fun c => is_CM_or_ZWJ c = false) (m_classesWithoutCS m')
  /\ Z.of_nat (List.length (m_classesWithoutCS m')) + m_totOffset m'
     = Z.of_nat (List.length (m_offsetsCombiningSeqs m'))
  /\ (m_offsetsCombiningSeqs m' = [] -> m_prevCls m' = None)
  /\ (forall i o, nth_error (m_offsetsCombiningSeqs m') i = Some o ->
                  1 <= Z.of_nat i + 1 - o
                       <= Z.of_nat (List.length (m_classesWithoutCS m'))).
Proof.
  cbv zeta. intros (Hlen & Hall & Hsum & Hfirst & Hoffs).
  destruct entry as [i el]. unfold setCombiningSequencesMaps_step.
  fold (is_CM_or_ZWJ el).
  assert (Hnth : forall (l : list Z) (x : Z) j o,
             nth_error (l ++ [x]) j = Some o ->
             nth_error l j = Some o \/ (j = List.length l /\ o = x)).
  { intros l x j o H. destruct (Nat.ltb_spec j (List.length l)) as [Hj | Hj].
    - rewrite nth_error_app1 in H by exact Hj. auto.
    - rewrite nth_error_app2 in H by exact Hj.
      destruct (j - List.length l)%nat as [|d] eqn:Ed.
      + inversion H. right. split; [lia | reflexivity].
      + destruct d; discriminate. }
  destruct (is_CM_or_ZWJ el) eqn:Ecm;
    [destruct (falsy (m_prevCls m) || is_hard_or_space (m_prevCls m)) eqn:Ef|];
    cbn [m_classesWithoutCS m_codePointsWithoutCS m_offsetsCombiningSeqs
         m_prevCls m_totOffset];
    rewrite ?length_app; cbn [List.length].
  - refine (conj _ (conj _ (conj _ (conj _ _)))).
    + lia.
    + apply Forall_app. split; [exact Hall|]. repeat constructor.
    + lia.
    + intros H. destruct (m_offsetsCombiningSeqs m); discriminate.
    + intros j off H. apply Hnth in H. destruct H as [H | [-> ->]].
      * apply Hoffs in H. lia.
      * lia.
  - assert (Hne : m_offsetsCombiningSeqs m <> []).
    { intros E. rewrite (Hfirst E) in Ef. discriminate. }
    assert (Hpos : (0 < List.length (m_classesWithoutCS m))%nat).
    { destruct (m_offsetsCombiningSeqs m) as [|o0 l0] eqn:E; [congruence|].
      specialize (Hoffs 0%nat o0 eq_refl). lia. }
    refine (conj _ (conj _ (conj _ (conj _ _)))).
    + exact Hlen.
    + exact Hall.
    + lia.
    + intros H. destruct (m_offsetsCombiningSeqs m); discriminate.
    + intros j off H. apply Hnth in H. destruct H as [H | [-> ->]].
      * apply Hoffs in H. lia.
      * lia.
  - refine (conj _ (conj _ (conj _ (conj _ _)))).
    + lia.
    + apply Forall_app. split; [exact Hall|]. repeat constructor. exact Ecm.
    + lia.
    + intros H. destruct (m_offsetsCombiningSeqs m); discriminate.
    + intros j off H. apply Hnth in H. destruct H as [H | [-> ->]].
      * apply Hoffs in H. lia.
      * lia.
Qed.

(** X7. The arrays of the combining-sequence transform fit together: the
    transformed class and code-point arrays have the same length and hold no
    CM and no ZWJ; for every index [i] of the class array, [i - offsets[i]]
    is an index of the transformed arrays; and the last offset sends the end
    of the class array to the end of the transformed one. *)
Theorem combining_maps_fit (cls : list (option string)) (cps : list (option Z)) :
  let '(clsWithoutCS, cpsWithoutCS, offsets) := setCombiningSequencesMaps cls cps in
  List.length clsWithoutCS = List.length cpsWithoutCS
  /\ Forall (fun c => is_CM_or_ZWJ c = false) clsWithoutCS
  /\ (forall i o, (i < List.length cls)%nat -> nth_error offsets i = Some o ->
                  0 <= Z.of_nat i - o < Z.of_nat (List.length clsWithoutCS))
  /\ nth_error offsets (List.length cls)
     = Some (Z.of_nat (List.length cls) - Z.of_nat (List.length clsWithoutCS)).
Proof.
  unfold setCombiningSequencesMaps.
  set (m0 := {| m_classesWithoutCS := []; m_codePointsWithoutCS := [];
                m_offsetsCombiningSeqs := []; m_prevCls := None; m_totOffset := 0 |}).
  assert (G : forall l s m,
    (List.length (m_classesWithoutCS m) = List.length (m_codePointsWithoutCS m)
     /\ Forall (fun c => is_CM_or_ZWJ c = false) (m_classesWithoutCS m)
     /\ Z.of_nat (List.length (m_classesWithoutCS m)) + m_totOffset m
        = Z.of_nat (List.length (m_offsetsCombiningSeqs m))
     /\ (m_offsetsCombiningSeqs m = [] -> m_prevCls m = None)
     /\ (forall i o, nth_error (m_offsetsCombiningSeqs m) i = Some o ->
                     1 <= Z.of_nat i + 1 - o
                          <= Z.of_nat (List.length (m_classesWithoutCS m)))) ->
    let m' := fold_left (setCombiningSequencesMaps_step cps)
                (combine (seq s (List.length l)) l) m in
    List.length (m_classesWithoutCS m') = List.length (m_codePointsWithoutCS m')
    /\ Forall (fun c => is_CM_or_ZWJ c = false) (m_classesWithoutCS m')
    /\ Z.of_nat (List.length (m_classesWithoutCS m')) + m_totOffset m'
       = Z.of_nat (List.length (m_offsetsCombiningSeqs m'))
    /\ (m_offsetsCombiningSeqs m' = [] -> m_prevCls m' = None)
    /\ (forall i o, nth_error (m_offsetsCombiningSeqs m') i = Some o ->
                    1 <= Z.of_nat i + 1 - o
                         <= Z.of_nat (List.length (m_classesWithoutCS m')))).
  { induction l as [|el l IH]; intros s m Hm; cbv zeta; [exact Hm|].
    cbn [List.length seq combine fold_left].
    apply (IH (S s)). apply (combining_step_invariant cps m (s, el)). exact Hm. }
  specialize (G cls 0%nat m0).
  pose proof (setCombiningSequencesMaps_offsets_length cps cls 0%nat m0) as Hl.
  cbv zeta in G.
  destruct G as (H1 & H2 & H3 & _ & H5).
  { subst m0. cbn. refine (conj _ (conj _ (conj _ (conj _ _)))); auto.
    intros i o H. destruct i; discriminate. }
  set (m := fold_left _ _ m0) in *.
  cbn [m_offsetsCombiningSeqs m0 List.length Nat.add] in Hl.
  refine (conj H1 (conj H2 (conj _ _))).
  - intros i o Hi Ho. rewrite nth_error_app1 in Ho by lia. apply H5 in Ho. lia.
  - rewrite nth_error_app2 by lia. rewrite Hl, Nat.sub_diag. cbn. f_equal. lia.
Qed.

(** ** Decoding *)

Lemma codePointAt_app pre suf k :
  codePointAt (pre ++ suf) (List.length pre + k) = codePointAt suf k.
Proof.
  unfold codePointAt.
  rewrite nth_error_app2 by lia.
  replace (List.length pre + k - List.length pre)%nat with k by lia.
  replace (S (List.length pre + k)) with (List.length pre + S k)%nat by lia.
  rewrite (nth_error_app2 pre suf (n := List.length pre + S k)) by lia.
  replace (List.length pre + S k - List.length pre)%nat with (S k) by lia.
  reflexivity.
Qed.

Lemma decode_pair off u low rest :
  isSurrogatePair u low = true ->
  decode off (u :: low :: rest)
  = ((u - 0xd800) * 0x400 + (low - 0xdc00) + 0x10000 :: fst (decode (off + 1) rest),
     off :: off + 1 :: snd (decode (off + 1) rest)).
Proof.
  intros H. cbn [decode]. rewrite H.
  destruct (decode (off + 1) rest). reflexivity.
Qed.

Lemma decode_single off u rest :
  (forall low rest', rest = low :: rest' -> isSurrogatePair u low = false) ->
  decode off (u :: rest) = (u :: fst (decode off rest), off :: snd (decode off rest)).
Proof.
  intros H. destruct rest as [|low rest']; [reflexivity|].
  change (decode off (u :: low :: rest'))
    with (if isSurrogatePair u low
          then let '(cps, offs) := decode (off + 1) rest' in
               ((u - 0xd800) * 0x400 + (low - 0xdc00) + 0x10000 :: cps,
                off :: off + 1 :: offs)
          else let '(cps, offs) := decode off (low :: rest') in
               (u :: cps, off :: offs)).
  rewrite (H low rest' eq_refl).
  destruct (decode off (low :: rest')). reflexivity.
Qed.

Lemma setCodePoints_fold_decode :
  forall n suf pre d,
    (List.length suf <= n)%nat ->
    wf_text (pre ++ suf) ->
    d_highSurrogate d = false ->
    let d' := fold_left (setCodePoints_step (pre ++ suf))
                (seq (List.length pre) (List.length suf)) d in
    d_codePoints d' = d_codePoints d ++ map Some (fst (decode (d_offset d) suf))
    /\ d_offsetsSurrogates d' ++ [d_offset d']
       = d_offsetsSurrogates d ++ snd (decode (d_offset d) suf).
Proof.
  induction n as [|n IH]; intros suf pre d Hn Hwf Hhs; cbv zeta.
  - destruct suf; [|simpl in Hn; lia]. cbn. rewrite app_nil_r. auto.
  - destruct suf as [|u rest]; [cbn; rewrite app_nil_r; auto|].
    assert (Hu : 0 <= u <= 65535).
    { unfold wf_text in Hwf. rewrite Forall_forall in Hwf. apply Hwf.
      apply in_or_app. right. left. reflexivity. }
    cbn [List.length seq fold_left].
    assert (Hcp : codePointAt (pre ++ u :: rest) (List.length pre)
                  = codePointAt (u :: rest) 0).
    { rewrite <- (codePointAt_app pre (u :: rest) 0). f_equal. lia. }
    destruct rest as [|low rest'].
    + (* last unit *)
      cbn [List.length seq fold_left decode fst snd map].
      unfold setCodePoints_step. rewrite Hhs, Hcp. unfold codePointAt.
      cbn [nth_error].
      destruct ((0xd800 <=? u) && (u <=? 0xdbff));
        replace (65535 <? u) with false by (symmetry; apply Z.ltb_ge; lia);
        cbn; rewrite <- ?app_assoc; auto.
    + assert (Hlow : 0 <= low <= 65535).
      { unfold wf_text in Hwf. rewrite Forall_forall in Hwf. apply Hwf.
        apply in_or_app. right. right. left. reflexivity. }
      destruct (isSurrogatePair u low) eqn:Epair.
      * (* a pair: two steps *)
        rewrite (decode_pair _ _ _ _ Epair).
        unfold isSurrogatePair in Epair.
        apply andb_true_iff in Epair. destruct Epair as [Epair Hl2].
        apply andb_true_iff in Epair. destruct Epair as [Epair Hl1].
        apply andb_true_iff in Epair. destruct Epair as [Hh1 Hh2].
        assert (Hcp2 : codePointAt (pre ++ u :: low :: rest') (S (List.length pre))
                       = Some low).
        { replace (S (List.length pre)) with (List.length pre + 1)%nat by lia.
          rewrite codePointAt_app. unfold codePointAt. cbn [nth_error].
          apply Z.leb_le in Hl1.
          replace (low <=? 0xdbff) with false by (symmetry; apply Z.leb_gt; lia).
          rewrite andb_false_r. reflexivity. }
        cbn [List.length seq fold_left].
        set (d1 := setCodePoints_step (pre ++ u :: low :: rest') d (List.length pre)).
        set (d2 := setCodePoints_step (pre ++ u :: low :: rest') d1 (S (List.length pre))).
        assert (E1 : d1 = {| d_codePoints := d_codePoints d
                               ++ [Some ((u - 0xd800) * 0x400 + (low - 0xdc00) + 0x10000)];
                             d_offsetsSurrogates := d_offsetsSurrogates d ++ [d_offset d];
                             d_offset := d_offset d + 1;
                             d_highSurrogate := true |}).
        { subst d1. unfold setCodePoints_step. rewrite Hhs, Hcp. unfold codePointAt.
          cbn [nth_error]. rewrite Hh1, Hh2, Hl1, Hl2. cbn [andb].
          apply Z.leb_le in Hh1. apply Z.leb_le in Hl1.
          replace (65535 <? (u - 0xd800) * 0x400 + (low - 0xdc00) + 0x10000) with true
            by (symmetry; apply Z.ltb_lt; lia).
          reflexivity. }
        assert (E2 : d2 = {| d_codePoints := d_codePoints d1;
                             d_offsetsSurrogates := d_offsetsSurrogates d1 ++ [d_offset d1];
                             d_offset := d_offset d1;
                             d_highSurrogate := false |}).
        { subst d2. unfold setCodePoints_step. rewrite Hcp2.
          replace (65535 <? low) with false by (symmetry; apply Z.ltb_ge; lia).
          rewrite E1. reflexivity. }
        destruct (IH rest' (pre ++ [u; low]) d2) as [Hc Ho].
        { simpl in Hn. lia. }
        { rewrite <- app_assoc. exact Hwf. }
        { rewrite E2. reflexivity. }
        rewrite <- app_assoc in Hc, Ho. cbn [app] in Hc, Ho.
        rewrite length_app in Hc, Ho. cbn [List.length] in Hc, Ho.
        replace (List.length pre + 2)%nat with (S (S (List.length pre))) in Hc, Ho by lia.
        rewrite Hc, Ho, E2. cbn [d_codePoints d_offsetsSurrogates d_offset].
        rewrite E1. cbn [d_codePoints d_offsetsSurrogates d_offset].
        cbn [fst snd map]. rewrite <- !app_assoc. auto.
      * (* no pair: one step *)
        rewrite (decode_single (d_offset d) u (low :: rest'))
          by (intros ? ? E; inversion E; subst; exact Epair).
        assert (Hcp1 : codePointAt (u :: low :: rest') 0 = Some u).
        { unfold codePointAt. cbn [nth_error]. unfold isSurrogatePair in Epair.
          destruct ((0xd800 <=? u) && (u <=? 0xdbff)); [|reflexivity].
          cbn [andb] in Epair. rewrite Epair. reflexivity. }
        set (d1 := setCodePoints_step (pre ++ u :: low :: rest') d (List.length pre)).
        assert (E1 : d1 = {| d_codePoints := d_codePoints d ++ [Some u];
                             d_offsetsSurrogates := d_offsetsSurrogates d ++ [d_offset d];
                             d_offset := d_offset d;
                             d_highSurrogate := false |}).
        { subst d1. unfold setCodePoints_step. rewrite Hhs, Hcp, Hcp1.
          replace (65535 <? u) with false by (symmetry; apply Z.ltb_ge; lia).
          reflexivity. }
        destruct (IH (low :: rest') (pre ++ [u]) d1) as [Hc Ho].
        { simpl in Hn |- *. lia. }
        { rewrite <- app_assoc. exact Hwf. }
        { rewrite E1. reflexivity. }
        rewrite <- app_assoc in Hc, Ho. cbn [app] in Hc, Ho.
        rewrite length_app in Hc, Ho. cbn [List.length] in Hc, Ho.
        replace (List.length pre + 1)%nat with (S (List.length pre)) in Hc, Ho by lia.
        cbn [List.length]. rewrite Hc, Ho, E1. cbn [d_codePoints d_offsetsSurrogates d_offset].
        cbn [fst snd map]. rewrite <- !app_assoc. auto.
Qed.

Lemma setCodePoints_as_decode (txt : list Z) :
  wf_text txt ->
  setCodePoints txt = (map Some (fst (decode 0 txt)), snd (decode 0 txt)).
Proof.
  intros Hwf. unfold setCodePoints.
  destruct (setCodePoints_fold_decode (List.length txt) txt []
              {| d_codePoints := []; d_offsetsSurrogates := []; d_offset := 0;
                 d_highSurrogate := false |}) as [Hc Ho];
    [lia | exact Hwf | reflexivity |].
  cbn [List.length app d_codePoints d_offsetsSurrogates d_offset] in Hc, Ho.
  rewrite Hc, Ho. reflexivity.
Qed.

(** X8. [setCodePoints] decodes UTF-16: on a text of 16-bit units, the loop
    over the indices with its [highSurrogate] flag computes the code points
    and the offsets of the decoding by recursion on the text, where a
    surrogate pair gives one code point and raises the offset by one from
    its second unit on. *)
Theorem setCodePoints_decodes (txt : list Z) :
  wf_text txt ->
  setCodePoints txt = (map Some (fst (decode 0 txt)), snd (decode 0 txt)).
Proof.
  intros Hwf. unfold setCodePoints.
  destruct (setCodePoints_fold_decode (List.length txt) txt []
              {| d_codePoints := []; d_offsetsSurrogates := []; d_offset := 0;
                 d_highSurrogate := false |}) as [Hc Ho];
    [lia | exact Hwf | reflexivity |].
  cbn [List.length app d_codePoints d_offsetsSurrogates d_offset] in Hc, Ho.
  rewrite Hc, Ho. reflexivity.
Qed.

Lemma setCodePoints_decodes_witness :
  wf_text [97; 0xd83c; 0xddeb; 98; 0xd83c]
  /\ setCodePoints [97; 0xd83c; 0xddeb; 98; 0xd83c]
     = (map Some [97; 0x1f1eb; 98; 0xd83c], [0; 0; 1; 1; 1; 1]).
Proof.
  assert (H : wf_text [97; 0xd83c; 0xddeb; 98; 0xd83c])
    by (repeat (apply Forall_cons; [lia|]); apply Forall_nil).
  split; [exact H|].
  exact (setCodePoints_decodes _ H).
Defined.

Lemma decode_without_surrogates txt :
  Forall (fun u => isSurrogate u = false) txt ->
  forall off, decode off txt = (txt, repeat off (S (List.length txt))).
Proof.
  induction 1 as [|u rest Hu Hrest IH]; intros off; [reflexivity|].
  assert (Hp : forall low, isSurrogatePair u low = false).
  { intros low. unfold isSurrogatePair. unfold isSurrogate in Hu.
    destruct (0xd800 <=? u) eqn:E1; [|reflexivity].
    destruct (u <=? 0xdbff) eqn:E2; [|reflexivity].
    apply Z.leb_le in E2.
    replace (u <=? 0xdfff) with true in Hu by (symmetry; apply Z.leb_le; lia).
    discriminate. }
  rewrite decode_single by (intros; apply Hp).
  rewrite IH. reflexivity.
Qed.

(** ** Patterns: sequences, sets and their modifiers *)

Section Patterns.

Variable data : unicodeData.

Lemma consumeToken_sequence f this content i step parent prev next :
  consumeToken data (S f) this (TSequence content) i step parent prev next
  = sequence_loop (consumeToken data f this) f content step i None i 0.
Proof. reflexivity. Qed.

Lemma consumeToken_set f this content i step parent prev next :
  consumeToken data (S f) this (TSet content) i step parent prev next
  = set_loop (consumeToken data f this) f content step i None i 0.
Proof. reflexivity. Qed.

Lemma consume_single f this t i step parent prev next :
  single t = true ->
  consumeToken data (S f) this t i step parent prev next
  = Ok (simple (matches data this t i) i).
Proof.
  intros H. destruct t; cbn in H |- *; try discriminate; try reflexivity.
  unfold checkBase.
  destruct (String.eqb_spec content "any") as [-> | H1]; [reflexivity|].
  destruct (String.eqb_spec content "sot") as [-> | H2]; [cbn; rewrite orb_false_r; reflexivity|].
  destruct (String.eqb_spec content "eot") as [-> | H3]; [reflexivity|].
  cbn in H. discriminate.
Qed.

Lemma single_not_star t : single t = true -> content_is_star t = false.
Proof.
  destruct t; cbn; try discriminate; try reflexivity.
  - intros H. destruct (String.eqb_spec content "*") as [-> | Hn]; [discriminate | reflexivity].
  - intros H. destruct (String.eqb content "*"); [discriminate | reflexivity].
  - intros H. destruct (String.eqb content "*"); [discriminate | reflexivity].
Qed.

Lemma single_not_modifier content n :
  Forall (fun t => single t = true) content ->
  forall pre, not_binary_modifier (pre ++ content) (List.length pre + n) = true.
Proof.
  intros Hall pre. unfold not_binary_modifier.
  rewrite nth_error_app2 by lia.
  replace (List.length pre + n - List.length pre)%nat with n by lia.
  destruct (nth_error content n) as [t|] eqn:E; [|reflexivity].
  rewrite Forall_forall in Hall. specialize (Hall t (nth_error_In _ _ E)).
  destruct t; try reflexivity. discriminate.
Qed.

(** The loop of a sequence over items that test one position each, up to the
    items [tail] that follow them. *)
Lemma sequence_loop_single f this step i tail :
  forall rest done idx k prev,
    Forall (fun t => single t = true) rest ->
    (List.length rest < k)%nat ->
    sequence_loop (consumeToken data (S f) this) k (done ++ rest ++ tail) step i prev
      idx (List.length done)
    = if all_match data this rest idx step
      then sequence_loop (consumeToken data (S f) this) (k - List.length rest)
             (done ++ rest ++ tail) step i
             (match rest with [] => prev | _ => Some true end)
             (advance idx step (List.length rest))
             (List.length done + List.length rest)
      else Ok (simple false i).
Proof.
  induction rest as [|t rest IH]; intros done idx k prev Hall Hk.
  - cbn [all_match List.length advance]. rewrite Nat.sub_0_r, Nat.add_0_r. reflexivity.
  - inversion Hall as [|? ? Ht Hrest]; subst.
    destruct k as [|k]; [simpl in Hk; lia|].
    cbn [sequence_loop].
    rewrite nth_error_app2 by lia. rewrite Nat.sub_diag. cbn [app nth_error].
    rewrite (consume_single f this t idx step _ prev _ Ht).
    cbn [bind c_result simple index next_token_index nullish all_match].
    destruct (matches data this t idx); cbn [negb andb]; [|reflexivity].
    rewrite (single_not_star t Ht).
    replace (done ++ t :: rest ++ tail) with ((done ++ [t]) ++ rest ++ tail)
      by (rewrite <- app_assoc; reflexivity).
    replace (S (List.length done)) with (List.length (done ++ [t]))
      by (rewrite length_app; simpl; lia).
    rewrite IH by (simpl in Hk; auto; lia).
    cbn [List.length advance]. rewrite length_app. cbn [List.length].
    replace (S k - S (List.length rest))%nat with (k - List.length rest)%nat by lia.
    replace (List.length done + 1 + List.length rest)%nat
      with (List.length done + S (List.length rest))%nat by lia.
    destruct (all_match data this rest (num_add idx (Int step)) step); [|reflexivity].
    destruct rest; reflexivity.
Qed.

Lemma sequence_single_result (this : checker) (content : list token) (f : nat)
    (i : num) (step : Z) (parent : option (list token)) (prev : option bool)
    (next : nat) :
  Forall (fun t => single t = true) content ->
  consumeToken data (S (S (List.length content + f))) this (TSequence content) i step
    parent prev next
  = Ok (if all_match data this content i step
        then simple true (advance i step (List.length content))
        else simple false i).
Proof.
  intros Hall. rewrite consumeToken_sequence.
  pose proof (sequence_loop_single (List.length content + f) this step i []
                content [] i (S (List.length content + f)) None Hall) as H.
  rewrite app_nil_r in H. cbn [app List.length] in H.
  rewrite H by lia. clear H.
  destruct (all_match data this content i step); [|reflexivity].
  replace (S (List.length content + f) - List.length content)%nat with (S f) by lia.
  cbn [sequence_loop].
  replace (nth_error content (0 + List.length content)) with (@None token)
    by (symmetry; apply nth_error_None; lia).
  reflexivity.
Qed.

(** X9. A sequence of items that each test one position (classes, general
    categories, code points, the East Asian set, bases) matches exactly when
    its first item matches at the given index, the next at [index + step],
    and so on; it then returns the index after the last item, and the given
    index when it fails. The empty sequence matches. *)
Theorem sequence_of_singles (this : checker) (content : list token) (f : nat)
    (i : num) (step : Z) (parent : option (list token)) (prev : option bool)
    (next : nat) :
  Forall (fun t => single t = true) content ->
  consumeToken data (S (S (List.length content + f))) this (TSequence content) i step
    parent prev next
  = Ok (if all_match data this content i step
        then simple true (advance i step (List.length content))
        else simple false i).
Proof.
  intros Hall. rewrite consumeToken_sequence.
  pose proof (sequence_loop_single (List.length content + f) this step i []
                content [] i (S (List.length content + f)) None Hall) as H.
  rewrite app_nil_r in H. cbn [app List.length] in H.
  rewrite H by lia. clear H.
  destruct (all_match data this content i step); [|reflexivity].
  replace (S (List.length content + f) - List.length content)%nat with (S f) by lia.
  cbn [sequence_loop].
  replace (nth_error content (0 + List.length content)) with (@None token)
    by (symmetry; apply nth_error_None; lia).
  reflexivity.
Qed.

Lemma set_loop_single f this step i :
  forall rest done k prev,
    Forall (fun t => single t = true) rest ->
    (List.length rest < k)%nat ->
    set_loop (consumeToken data (S f) this) k (done ++ rest) step i prev i
      (List.length done)
    = Ok (simple (existsb (fun t => matches data this t i) rest) i).
Proof.
  induction rest as [|t rest IH]; intros done k prev Hall Hk;
    (destruct k as [|k]; [simpl in Hk; lia|]); cbn [set_loop].
  - rewrite app_nil_r.
    replace (nth_error done (List.length done)) with (@None token)
      by (symmetry; apply nth_error_None; lia).
    reflexivity.
  - inversion Hall as [|? ? Ht Hrest]; subst.
    rewrite nth_error_app2 by lia. rewrite Nat.sub_diag. cbn [nth_error].
    rewrite (consume_single f this t i step _ prev _ Ht).
    cbn [bind c_result simple index next_token_index nullish existsb].
    replace (done ++ t :: rest) with ((done ++ [t]) ++ rest)
      by (rewrite <- app_assoc; reflexivity).
    replace (S (List.length done)) with (List.length (done ++ [t]) + 0)%nat
      by (rewrite length_app; simpl; lia).
    rewrite (single_not_modifier rest 0 Hrest (done ++ [t])).
    rewrite Nat.add_0_r.
    destruct (matches data this t i); cbn [andb orb]; [reflexivity|].
    apply IH; [exact Hrest | simpl in Hk; lia].
Qed.

Lemma set_single_result (this : checker) (content : list token) (f : nat)
    (i : num) (step : Z) (parent : option (list token)) (prev : option bool)
    (next : nat) :
  Forall (fun t => single t = true) content ->
  consumeToken data (S (S (List.length content + f))) this (TSet content) i step
    parent prev next
  = Ok (simple (existsb (fun t => matches data this t i) content) i).
Proof.
  intros Hall. rewrite consumeToken_set.
  apply (set_loop_single (List.length content + f) this step i content []
           (S (List.length content + f)) None Hall).
  lia.
Qed.

(** X10. A set of items that each test one position matches exactly when one
    of them matches at the given index, and never moves the index. The
    empty set does not match. *)
Theorem set_of_singles (this : checker) (content : list token) (f : nat)
    (i : num) (step : Z) (parent : option (list token)) (prev : option bool)
    (next : nat) :
  Forall (fun t => single t = true) content ->
  consumeToken data (S (S (List.length content + f))) this (TSet content) i step
    parent prev next
  = Ok (simple (existsb (fun t => matches data this t i) content) i).
Proof.
  intros Hall. rewrite consumeToken_set.
  apply (set_loop_single (List.length content + f) this step i content []
           (S (List.length content + f)) None Hall).
  lia.
Qed.

(** X11. In a set, [a & b] matches when both items match at the index, and
    [a - b] when [a] matches and [b] does not; the index does not move. *)
Theorem set_with_binary_modifier (this : checker) (a b : token) (f : nat)
    (i : num) (step : Z) (parent : option (list token)) (prev : option bool)
    (next : nat) :
  single a = true ->
  single b = true ->
  consumeToken data (S (S (S (S f)))) this (TSet [a; TModifier "&"; b]) i step
    parent prev next
  = Ok (simple (matches data this a i && matches data this b i) i)
  /\ consumeToken data (S (S (S (S f)))) this (TSet [a; TModifier "-"; b]) i step
       parent prev next
     = Ok (simple (matches data this a i && negb (matches data this b i)) i).
Proof.
  intros Ha Hb.
  assert (Hamp : forall c p,
    c = "&" \/ c = "-" ->
    consumeToken data (S (S (S f))) this (TModifier c) i step
      (Some [a; TModifier c; b]) (Some p) 2%nat
    = Ok {| c_result := p && (if String.eqb c "&" then matches data this b i
                              else negb (matches data this b i));
            index := i; next_token_index := Some 3%nat |}).
  { intros c p [-> | ->]; destruct p;
      change (consumeToken data (S (S (S f))) this (TModifier ?c) i step ?par ?pr ?n)
        with (consume_body data (consumeToken data (S (S f)) this) (S (S f)) this
                (TModifier c) i step par pr n);
      cbn [consume_body String.eqb Ascii.eqb Bool.eqb is_false operand nth_error bind];
      try reflexivity;
      rewrite (consume_single _ this b i step _ _ _ Hb); reflexivity. }
  assert (Hset : forall c,
    c = "&" \/ c = "-" ->
    consumeToken data (S (S (S (S f)))) this (TSet [a; TModifier c; b]) i step
      parent prev next
    = Ok (simple (matches data this a i
                  && (if String.eqb c "&" then matches data this b i
                      else negb (matches data this b i))) i)).
  { intros c Hc. rewrite consumeToken_set. cbn [set_loop nth_error].
    rewrite (consume_single _ this a i step _ None _ Ha).
    cbn [bind c_result simple index next_token_index nullish].
    replace (not_binary_modifier [a; TModifier c; b] 1) with false
      by (destruct Hc as [-> | ->]; reflexivity).
    rewrite andb_false_r. cbn [set_loop nth_error]. rewrite (Hamp c _ Hc).
    cbn [bind c_result index next_token_index nullish not_binary_modifier nth_error].
    rewrite andb_true_r.
    destruct (matches data this a i && _); reflexivity. }
  split.
  - apply (Hset "&"). auto.
  - apply (Hset "-"). auto.
Qed.

End Patterns.

Lemma sequence_of_singles_witness :
  let this := setText sampleData (constructed None rulesV17) (units "a, b") in
  Forall (fun t => single t = true) [TClass "AL"; TClass "IS"; TClass "SP"]
  /\ consumeToken sampleData 5 this (TSequence [TClass "AL"; TClass "IS"; TClass "SP"])
       (Int 0) 1 None None 0%nat
     = Ok (simple true (Int 3)).
Proof.
  cbv zeta.
  assert (H : Forall (fun t => single t = true) [TClass "AL"; TClass "IS"; TClass "SP"])
    by (repeat (apply Forall_cons; [reflexivity|]); apply Forall_nil).
  split; [exact H|].
  exact (sequence_of_singles sampleData
           (setText sampleData (constructed None rulesV17) (units "a, b"))
           _ 0%nat (Int 0) 1 None None 0%nat H).
Defined.

Lemma set_of_singles_witness :
  let this := setText sampleData (constructed None rulesV17) (units "a, b") in
  Forall (fun t => single t = true) [TClass "SP"; TClass "IS"; TBase "eot"]
  /\ consumeToken sampleData 5 this (TSet [TClass "SP"; TClass "IS"; TBase "eot"])
       (Int 1) 1 None None 0%nat
     = Ok (simple true (Int 1)).
Proof.
  cbv zeta.
  assert (H : Forall (fun t => single t = true) [TClass "SP"; TClass "IS"; TBase "eot"])
    by (repeat (apply Forall_cons; [reflexivity|]); apply Forall_nil).
  split; [exact H|].
  exact (set_of_singles sampleData
           (setText sampleData (constructed None rulesV17) (units "a, b"))
           _ 0%nat (Int 1) 1 None None 0%nat H).
Defined.

Lemma set_with_binary_modifier_witness :
  let this := setText sampleData (constructed None rulesV17) (units "a, b") in
  (single (TClass "IS") = true /\ single (TGc "Po") = true)
  /\ consumeToken sampleData 4 this (TSet [TClass "IS"; TModifier "&"; TGc "Po"])
       (Int 1) 1 None None 0%nat
     = Ok (simple (matches sampleData this (TClass "IS") (Int 1)
                   && matches sampleData this (TGc "Po") (Int 1)) (Int 1))
  /\ consumeToken sampleData 4 this (TSet [TClass "IS"; TModifier "-"; TGc "Po"])
       (Int 1) 1 None None 0%nat
     = Ok (simple (matches sampleData this (TClass "IS") (Int 1)
                   && negb (matches sampleData this (TGc "Po") (Int 1))) (Int 1)).
Proof.
  cbv zeta.
  assert (H1 : single (TClass "IS") = true) by reflexivity.
  assert (H2 : single (TGc "Po") = true) by reflexivity.
  split; [auto|].
  exact (set_with_binary_modifier sampleData
           (setText sampleData (constructed None rulesV17) (units "a, b"))
           (TClass "IS") (TGc "Po") 0%nat (Int 1) 1 None None 0%nat H1 H2).
Defined.

(** ** The modifier [*] on a sequence, and indices outside the arrays *)

Section StarOnSequence.

Variable data : unicodeData.

Lemma advance_Int z step m :
  advance (Int z) step m = Int (z + Z.of_nat m * step).
Proof.
  revert z. induction m as [|m IH]; intros z; cbn [advance num_add].
  - f_equal. lia.
  - rewrite IH. f_equal. lia.
Qed.

Lemma star_loop_more (rec : consumer) this op step parent next k k' r0 r :
  (k <= k')%nat ->
  star_loop rec k this op step parent next r0 = Ok r ->
  star_loop rec k' this op step parent next r0 = Ok r.
Proof.
  intros Hk H.
  pose proof (star_loop_refines rec rec (fun _ _ _ _ _ _ => refines_refl _)
                this op step parent next k k' r0 Hk) as R.
  rewrite H in R. apply refines_Ok in R. exact R.
Qed.

(** X12. The modifier [*] on a sequence of [m] items that test one position
    each: when the sequence matches at index [z] and [z + m * step] lies
    strictly inside [(0, n_codepoints - 1)], the sequence is evaluated next
    at [z + (m + 1) * step], so that the call gives what it gives from
    there: the code point at [z + m * step] is not examined. *)
Theorem star_on_sequence_skips (this : checker) (content items : list token)
    (next : nat) (f : nat) (z step : Z) (prev prev' : option bool) (r : consumed) :
  nth_error content next = Some (TSequence items) ->
  Forall (fun t => single t = true) items ->
  all_match data this items (Int z) step = true ->
  0 < z + Z.of_nat (List.length items) * step
    < Z.of_nat (List.length (codePoints this)) - 1 ->
  consumeToken data (S (S (S (List.length items + f)))) this (TModifier "*") (Int z)
    step (Some content) prev next = Ok r ->
  consumeToken data (S (S (S (List.length items + f)))) this (TModifier "*")
    (Int (z + (Z.of_nat (List.length items) + 1) * step))
    step (Some content) prev' next = Ok r.
Proof.
  intros Hop Hall Hmatch Hin H.
  rewrite consumeToken_star in H |- *. unfold operand in H |- *.
  rewrite Hop in H |- *. cbn [bind] in H |- *.
  rewrite (sequence_single_result data this items f (Int z) step _ prev _ Hall) in H.
  rewrite Hmatch, advance_Int in H. cbn [bind] in H.
  apply bind_Ok in H. destruct H as (r_last & Hloop & H).
  cbn [star_loop] in Hloop.
  replace (star_continues this
             (simple true (Int (z + Z.of_nat (List.length items) * step))))
    with true in Hloop.
  2:{ symmetry. unfold star_continues, simple, num_gtb, num_ltb. cbn [c_result index andb].
      apply andb_true_iff. split; apply Z.ltb_lt; lia. }
  cbn [index simple num_add c_result] in Hloop.
  apply bind_Ok in Hloop. destruct Hloop as (r' & Hr' & Hloop).
  replace (z + (Z.of_nat (List.length items) + 1) * step)
    with (z + Z.of_nat (List.length items) * step + step) by lia.
  rewrite consumeToken_sequence in Hr' |- *. rewrite Hr'. cbn [bind].
  rewrite (star_loop_more _ _ _ _ _ _ _ (S (S (List.length items + f))) _ _
             (Nat.le_succ_diag_r _) Hloop).
  exact H.
Qed.

End StarOnSequence.

Lemma star_on_sequence_skips_witness :
  let ri := [0xd83c; 0xddeb] in
  let this := setText sampleData (constructed None rulesV17)
                (ri ++ ri ++ ri ++ ri ++ ri ++ ri) in
  let content := [TClass "RI"; TModifier "*"; TSequence [TClass "RI"; TClass "RI"];
                  TBase "sot"] in
  let r := {| c_result := true; index := Int 0; next_token_index := Some 3%nat |} in
  (nth_error content 2 = Some (TSequence [TClass "RI"; TClass "RI"])
   /\ Forall (fun t => single t = true) [TClass "RI"; TClass "RI"]
   /\ all_match sampleData this [TClass "RI"; TClass "RI"] (Int 3) (-1) = true
   /\ 0 < 3 + Z.of_nat (List.length [TClass "RI"; TClass "RI"]) * -1
        < Z.of_nat (List.length (codePoints this)) - 1
   /\ consumeToken sampleData 5 this (TModifier "*") (Int 3) (-1) (Some content)
        None 2%nat = Ok r)
  /\ consumeToken sampleData 5 this (TModifier "*") (Int 0) (-1) (Some content)
       None 2%nat = Ok r.
Proof.
  cbv zeta.
  set (this := setText sampleData (constructed None rulesV17) _).
  set (content := [TClass "RI"; TModifier "*"; TSequence [TClass "RI"; TClass "RI"];
                   TBase "sot"]).
  assert (H1 : nth_error content 2 = Some (TSequence [TClass "RI"; TClass "RI"]))
    by reflexivity.
  assert (H2 : Forall (fun t => single t = true) [TClass "RI"; TClass "RI"])
    by (repeat (apply Forall_cons; [reflexivity|]); apply Forall_nil).
  assert (H3 : all_match sampleData this [TClass "RI"; TClass "RI"] (Int 3) (-1) = true)
    by (vm_compute; reflexivity).
  assert (H4 : 0 < 3 + Z.of_nat (List.length [TClass "RI"; TClass "RI"]) * -1
               < Z.of_nat (List.length (codePoints this)) - 1)
    by (vm_compute; split; reflexivity).
  assert (H5 : consumeToken sampleData 5 this (TModifier "*") (Int 3) (-1) (Some content)
                 None 2%nat
               = Ok {| c_result := true; index := Int 0; next_token_index := Some 3%nat |})
    by (vm_compute; reflexivity).
  split; [auto|].
  exact (star_on_sequence_skips sampleData this content _ 2%nat 0%nat 3 (-1) None None _
           H1 H2 H3 H4 H5).
Defined.

(** After five regional indicators the rules of LB30a therefore do not see an
    odd run: with six of them, the verdict after the fifth is ALLOWED. *)
Example six_regional_indicators :
  let ri := [0xd83c; 0xddeb] in
  let this := setText sampleData (constructed None rulesV17)
                (ri ++ ri ++ ri ++ ri ++ ri ++ ri) in
  isPosLineBreaking sampleData 40 this 6 = Ok (Some BreakType.FORBIDDEN, this)
  /\ isPosLineBreaking sampleData 40 this 8 = Ok (Some BreakType.ALLOWED, this)
  /\ isPosLineBreaking sampleData 40 this 10 = Ok (Some BreakType.ALLOWED, this).
Proof. vm_compute. repeat split; reflexivity. Qed.

(** ** Verdicts of the standard checkers *)

Section Verdicts.

Variable data : unicodeData.

Lemma checkRule_LB31 this f idx :
  checkRule data (S (S (S f))) this LB31 idx = Ok (Some BreakType.ALLOWED, this).
Proof. reflexivity. Qed.

Lemma checkRule_result fuel this rule idx r this' :
  checkRule data fuel this rule idx = Ok (r, this') ->
  r = result rule \/ r = Some BreakType.UNKNOWN.
Proof.
  unfold checkRule. intros H.
  apply bind_Ok in H. destruct H as (b & _ & H).
  apply bind_Ok in H. destruct H as (a & _ & H).
  destruct (c_result b && c_result a).
  - inversion H. auto.
  - destruct (side_effect rule) as [fn|]; [|inversion H; auto].
    apply bind_Ok in H. destruct H as (t & _ & H). inversion H. auto.
Qed.

Lemma rules_loop_decided_by fuel i : forall rs this r0 r this',
  rules_loop data fuel this rs i r0 = Ok (r, this') ->
  decided r = true -> decided r0 = false ->
  exists rule, In rule rs /\ r = result rule.
Proof.
  induction rs as [|rule rest IH]; intros this r0 r this' H Hd H0;
    cbn [rules_loop] in H.
  - inversion H; subst. congruence.
  - apply bind_Ok in H. destruct H as ([r1 this1] & Hc & H).
    destruct (decided r1) eqn:E1.
    + inversion H; subst. apply checkRule_result in Hc.
      destruct Hc as [-> | ->]; [exists rule; split; [left|]; reflexivity | discriminate].
    + destruct (IH _ _ _ _ H Hd E1) as (rule' & Hin & Hr).
      exists rule'. split; [right; exact Hin | exact Hr].
Qed.

Lemma rules_loop_last_decides f i : forall l this r0 r this',
  rules_loop data (S (S (S f))) this (l ++ [LB31]) i r0 = Ok (r, this') ->
  decided r = true.
Proof.
  induction l as [|rule rest IH]; intros this r0 r this' H;
    cbn [rules_loop app] in H.
  - rewrite checkRule_LB31 in H. cbn [bind decided] in H.
    destruct (decided (Some BreakType.ALLOWED)) eqn:E; [inversion H; subst; exact E|].
    discriminate E.
  - apply bind_Ok in H. destruct H as ([r1 this1] & Hc & H).
    destruct (decided r1) eqn:E1.
    + inversion H; subst. exact E1.
    + eapply IH; eauto.
Qed.

Lemma standard_rules_verdicts rs :
  rs = rulesV17 \/ rs = rulesV16 ->
  rs = removelast rs ++ [LB31]
  /\ forall rule, In rule rs ->
       result rule = Some BreakType.FORBIDDEN
       \/ result rule = Some BreakType.MANDATORY
       \/ result rule = Some BreakType.ALLOWED.
Proof.
  intros Hrs.
  assert (Hb : forallb (fun rule => match result rule with
                                    | Some v => (v =? 1) || (v =? 2) || (v =? 4)
                                    | None => false
                                    end) rs = true)
    by (destruct Hrs as [-> | ->]; vm_compute; reflexivity).
  split; [destruct Hrs as [-> | ->]; vm_compute; reflexivity|].
  intros rule Hin. rewrite forallb_forall in Hb. specialize (Hb rule Hin).
  destruct (result rule) as [v|]; [|discriminate].
  apply orb_true_iff in Hb. destruct Hb as [Hb | Hb];
    [apply orb_true_iff in Hb; destruct Hb as [Hb | Hb]|];
    apply Z.eqb_eq in Hb; subst; auto.
Qed.

(** X14. With the standard rule lists, a call of [isPosLineBreaking] that
    returns gives FORBIDDEN, MANDATORY or ALLOWED: never UNKNOWN, LB31 being
    the last rule and matching everywhere. *)
Theorem standard_verdict_is_known (this : checker) (f : nat) (i : Z)
    (r : option Z) (this' : checker) :
  rules (cfg this) = rulesV17 \/ rules (cfg this) = rulesV16 ->
  isPosLineBreaking data (S (S (S f))) this i = Ok (r, this') ->
  r = Some BreakType.FORBIDDEN \/ r = Some BreakType.MANDATORY
  \/ r = Some BreakType.ALLOWED.
Proof.
  intros Hrs H.
  destruct (standard_rules_verdicts _ Hrs) as [Hlast Hall].
  unfold isPosLineBreaking in H.
  apply bind_Ok in H. destruct H as ([r1 this1] & H1 & H). inversion H; subst.
  destruct (inside_surrogate_pair this i).
  - inversion H1. auto.
  - assert (Hd : decided r = true).
    { rewrite Hlast in H1. eapply rules_loop_last_decides; eauto. }
    destruct (rules_loop_decided_by _ _ _ _ _ _ _ H1 Hd eq_refl) as (rule & Hin & ->).
    apply Hall. exact Hin.
Qed.

(** X15. A rule that carries the side-effect function of the rule lists but has
    no argument registered under its name (or an empty list of arguments)
    cannot fail quietly: when it does not match, the call of its side effect
    throws a TypeError; so a call of [checkRule] on it that returns is a
    match. *)
Theorem side_effect_without_arguments (this : checker) (rule : ruleObj)
    (fuel : nat) (idx : num) :
  side_effect rule = Some CallFirstArgument ->
  nullish (lookup_arguments (nullish (name rule) "undefined")
             (sideEffectArguments (cfg this))) [] = [] ->
  (forall b,
      consumeToken data fuel this (before rule) (num_sub idx (Int 1)) (-1) None None 0%nat
      = Ok b ->
      c_result b = false
      \/ (exists a, consumeToken data fuel this (after rule) idx 1 None None 0%nat = Ok a
                    /\ c_result a = false) ->
      checkRule data fuel this rule idx = Throw TypeError)
  /\ (forall r this',
         checkRule data fuel this rule idx = Ok (r, this') ->
         r = result rule /\ this' = this).
Proof.
  intros Hse Hargs. unfold checkRule. rewrite Hse, Hargs. split.
  - intros b Hb Hfail. rewrite Hb. cbn [bind].
    destruct Hfail as [Hf | (a & Ha & Hf)].
    + rewrite Hf. reflexivity.
    + destruct (c_result b); [|reflexivity].
      rewrite Ha. cbn [bind]. rewrite Hf. reflexivity.
  - intros r this' H.
    apply bind_Ok in H. destruct H as (b & _ & H).
    apply bind_Ok in H. destruct H as (a & _ & H).
    destruct (c_result b && c_result a); [inversion H; auto | discriminate].
Qed.

End Verdicts.

Lemma standard_verdict_is_known_witness :
  let this := setText sampleData (constructed None rulesV17) (units "a b") in
  (rules (cfg this) = rulesV17 \/ rules (cfg this) = rulesV16)
  /\ isPosLineBreaking sampleData 40 this 2 = Ok (Some BreakType.ALLOWED, this)
  /\ (Some BreakType.ALLOWED = Some BreakType.FORBIDDEN
      \/ Some BreakType.ALLOWED = Some BreakType.MANDATORY
      \/ Some BreakType.ALLOWED = Some BreakType.ALLOWED).
Proof.
  cbv zeta.
  assert (H1 : rules (cfg (setText sampleData (constructed None rulesV17) (units "a b")))
               = rulesV17
               \/ rules (cfg (setText sampleData (constructed None rulesV17) (units "a b")))
                  = rulesV16) by (left; reflexivity).
  assert (H2 : isPosLineBreaking sampleData 40
                 (setText sampleData (constructed None rulesV17) (units "a b")) 2
               = Ok (Some BreakType.ALLOWED,
                     setText sampleData (constructed None rulesV17) (units "a b")))
    by (vm_compute; reflexivity).
  split; [exact H1|]. split; [exact H2|].
  exact (standard_verdict_is_known sampleData _ 37%nat 2 _ _ H1 H2).
Defined.

Lemma side_effect_without_arguments_witness :
  let c := registerSideEffectArguments (constructed None rulesV17)
             [("std_remove_cm_sequences", [])] in
  let this := setText sampleData c (units "ab") in
  let LB9 := {| before := TSequence [TModifier "^";
                                     TSet [TBase "sot"; TClass "BK"; TClass "CR";
                                           TClass "LF"; TClass "NL"; TClass "SP";
                                           TClass "ZW"]];
                after := TSequence [TSet [TClass "CM"; TClass "ZWJ"]];
                name := Some "std_remove_cm_sequences";
                side_effect := Some CallFirstArgument;
                result := Some BreakType.FORBIDDEN |} in
  (In LB9 rulesV17
   /\ side_effect LB9 = Some CallFirstArgument
   /\ nullish (lookup_arguments (nullish (name LB9) "undefined")
                 (sideEffectArguments (cfg this))) [] = []
   /\ consumeToken sampleData 20 this (before LB9) (num_sub (Int 1) (Int 1)) (-1)
        None None 0%nat = Ok (simple true (Int (-1)))
   /\ consumeToken sampleData 20 this (after LB9) (Int 1) 1 None None 0%nat
      = Ok (simple false (Int 1)))
  /\ checkRule sampleData 20 this LB9 (Int 1) = Throw TypeError.
Proof.
  cbv zeta.
  set (c := registerSideEffectArguments _ _).
  set (this := setText sampleData c (units "ab")).
  set (LB9 := {| before := _; after := _; name := _; side_effect := _; result := _ |}).
  assert (H0 : In LB9 rulesV17) by (vm_compute; tauto).
  assert (H1 : side_effect LB9 = Some CallFirstArgument) by reflexivity.
  assert (H2 : nullish (lookup_arguments (nullish (name LB9) "undefined")
                          (sideEffectArguments (cfg this))) [] = []) by reflexivity.
  assert (H3 : consumeToken sampleData 20 this (before LB9) (num_sub (Int 1) (Int 1)) (-1)
                 None None 0%nat = Ok (simple true (Int (-1)))) by (vm_compute; reflexivity).
  assert (H4 : consumeToken sampleData 20 this (after LB9) (Int 1) 1 None None 0%nat
               = Ok (simple false (Int 1))) by (vm_compute; reflexivity).
  split; [auto 6|].
  exact (proj1 (side_effect_without_arguments sampleData this LB9 20%nat (Int 1) H1 H2)
           _ H3 (or_intror (ex_intro _ _ (conj H4 eq_refl)))).
Defined.

(** ** The iterator *)

Section Iterator.

Variable data : unicodeData.

Lemma isPosLineBreaking_setText_state c txt fuel i r this' :
  isPosLineBreaking data fuel (setText data c txt) i = Ok (r, this') ->
  this' = setText data c txt.
Proof.
  unfold isPosLineBreaking. intros H.
  apply bind_Ok in H. destruct H as ([r1 this1] & H1 & H). inversion H; subst.
  destruct (inside_surrogate_pair (setText data c txt) i).
  - inversion H1; subst. apply cleanup_setText.
  - apply rules_loop_state in H1. destruct H1 as [-> | ->].
    + apply cleanup_setText.
    + apply cleanup_removeCombiningSequences.
Qed.

Lemma positions_after_S from m :
  positions_after from (S m) = from + 1 :: positions_after (from + 1) m.
Proof.
  unfold positions_after. cbn [seq map]. f_equal; [lia|].
  rewrite <- seq_shift, map_map. apply map_ext. intros j. lia.
Qed.

Variable c : config.
Variable txt : list Z.
Variable fuel : nat.

Lemma next_scans : forall k m cur v cur' this',
  Z.of_nat m = Z.of_nat (List.length txt) - cur ->
  next data k fuel (setText data c txt) cur = Ok (v, cur', this') ->
  this' = setText data c txt
  /\ match v with
     | None =>
         flat_map (yielded data fuel (setText data c txt)) (positions_after cur m) = []
     | Some s =>
         exists m', (m' < m)%nat
                    /\ Z.of_nat m' = Z.of_nat (List.length txt) - cur'
                    /\ flat_map (yielded data fuel (setText data c txt))
                         (positions_after cur m)
                       = s :: flat_map (yielded data fuel (setText data c txt))
                                (positions_after cur' m')
     end.
Proof.
  induction k as [|k IH]; intros m cur v cur' this' Hm H; [discriminate|].
  cbn [next] in H. rewrite setText_text in H.
  destruct (Z.of_nat (List.length txt) <? cur + 1) eqn:E.
  - inversion H; subst. apply Z.ltb_lt in E.
    destruct m; [split; reflexivity | lia].
  - apply Z.ltb_ge in E. destruct m as [|m1]; [lia|].
    apply bind_Ok in H. destruct H as ([r this1] & Hp & H).
    pose proof (isPosLineBreaking_setText_state _ _ _ _ _ _ Hp) as ->.
    rewrite positions_after_S. cbn [flat_map].
    assert (HY : yielded data fuel (setText data c txt) (cur + 1)
                 = if bit_and r (Z.lor BreakType.MANDATORY BreakType.ALLOWED) =? 0
                   then []
                   else [[("index", cur + 1); ("breakType", nullish r 0)]]).
    { unfold yielded. rewrite Hp. reflexivity. }
    rewrite HY.
    destruct (bit_and r (Z.lor BreakType.MANDATORY BreakType.ALLOWED) =? 0).
    + destruct (IH m1 (cur + 1) v cur' this' ltac:(lia) H) as [-> Hv].
      split; [reflexivity|]. cbn [app].
      destruct v as [s|]; [|exact Hv].
      destruct Hv as (m' & Hlt & Hm' & Hflat).
      exists m'. split; [lia|]. split; [exact Hm' | exact Hflat].
    + inversion H; subst. split; [reflexivity|].
      exists m1. split; [lia|]. split; [lia | reflexivity].
Qed.

Lemma iterate_from_scans : forall k m cur l,
  Z.of_nat m = Z.of_nat (List.length txt) - cur ->
  iterate_from data k fuel (setText data c txt) cur = Ok l ->
  l = flat_map (yielded data fuel (setText data c txt)) (positions_after cur m).
Proof.
  induction k as [|k IH]; intros m cur l Hm H; [discriminate|].
  cbn [iterate_from] in H.
  apply bind_Ok in H. destruct H as ([[v cur'] this'] & Hn & H).
  destruct (next_scans _ _ _ _ _ _ Hm Hn) as [-> Hv].
  destruct v as [s|].
  - destruct Hv as (m' & _ & Hm' & Hflat).
    apply bind_Ok in H. destruct H as (rest & Hrest & H). inversion H; subst.
    rewrite Hflat. f_equal. apply (IH m' cur' rest Hm' Hrest).
  - inversion H; subst. symmetry. exact Hv.
Qed.

Hypothesis returns : forall p,
  0 <= p <= Z.of_nat (List.length txt) ->
  exists r t, isPosLineBreaking data fuel (setText data c txt) p = Ok (r, t).

Lemma next_returns : forall m k cur,
  Z.of_nat m = Z.of_nat (List.length txt) - cur ->
  -1 <= cur ->
  (m < k)%nat ->
  exists v cur', next data k fuel (setText data c txt) cur = Ok (v, cur', (setText data c txt)).
Proof.
  induction m as [|m IH]; intros k cur Hm Hcur Hk;
    (destruct k as [|k]; [lia|]); cbn [next];
    rewrite setText_text.
  - replace (Z.of_nat (List.length txt) <? cur + 1) with true
      by (symmetry; apply Z.ltb_lt; lia).
    eauto.
  - replace (Z.of_nat (List.length txt) <? cur + 1) with false
      by (symmetry; apply Z.ltb_ge; lia).
    destruct (returns (cur + 1) ltac:(lia)) as (r & t & Hp).
    pose proof (isPosLineBreaking_setText_state _ _ _ _ _ _ Hp) as Ht.
    subst t. rewrite Hp. cbn [bind].
    destruct (bit_and r (Z.lor BreakType.MANDATORY BreakType.ALLOWED) =? 0).
    + apply IH; lia.
    + eauto.
Qed.

Lemma iterate_from_returns : forall k m cur,
  Z.of_nat m = Z.of_nat (List.length txt) - cur ->
  -1 <= cur ->
  (m < k)%nat -> (m < fuel)%nat ->
  exists l, iterate_from data k fuel (setText data c txt) cur = Ok l.
Proof.
  induction k as [|k IH]; intros m cur Hm Hcur Hk Hf; [lia|].
  cbn [iterate_from].
  destruct (next_returns m fuel cur Hm Hcur Hf) as (v & cur' & Hn).
  rewrite Hn. cbn [bind].
  destruct (next_scans _ _ _ _ _ _ Hm Hn) as [_ Hv].
  destruct v as [s|]; [|eauto].
  destruct Hv as (m' & Hlt & Hm' & _).
  destruct (IH m' cur' Hm' ltac:(lia) ltac:(lia) ltac:(lia)) as (rest & Hrest).
  rewrite Hrest. cbn [bind]. eauto.
Qed.

End Iterator.

(** X16. A [for ... of] loop over a checker whose text [setText] installed
    visits the positions 0, 1, ..., [text.length] in this order and yields,
    for each position whose verdict has a bit of [MANDATORY | ALLOWED], its
    index and its verdict, and nothing for the others: provided that
    [isPosLineBreaking] returns at each of these positions, and with a budget
    above the number of positions. *)
Theorem iterator_filters_positions (data : unicodeData) (c : config) (txt : list Z)
    (fuel : nat) :
  (S (List.length txt) < fuel)%nat ->
  (forall p, 0 <= p <= Z.of_nat (List.length txt) ->
             exists r t, isPosLineBreaking data fuel (setText data c txt) p = Ok (r, t)) ->
  iterate data fuel (setText data c txt)
  = Ok (flat_map (yielded data fuel (setText data c txt))
          (positions_after (-1) (S (List.length txt)))).
Proof.
  intros Hf Hret. unfold iterate.
  destruct (iterate_from_returns data c txt fuel Hret fuel (S (List.length txt)) (-1))
    as (l & Hl); [lia | lia | lia | lia |].
  rewrite Hl. f_equal.
  apply (iterate_from_scans data c txt fuel fuel (S (List.length txt)) (-1) l); [lia|].
  exact Hl.
Qed.

Lemma iterator_filters_positions_witness :
  let this := setText sampleData (constructed None rulesV17) (units "a b") in
  ((S (List.length (units "a b")) < 40)%nat
   /\ forall p, 0 <= p <= Z.of_nat (List.length (units "a b")) ->
                exists r t, isPosLineBreaking sampleData 40 this p = Ok (r, t))
  /\ iterate sampleData 40 this
     = Ok [[("index", 2); ("breakType", BreakType.ALLOWED)];
           [("index", 3); ("breakType", BreakType.MANDATORY)]].
Proof.
  cbv zeta.
  assert (H1 : (S (List.length (units "a b")) < 40)%nat) by (vm_compute; lia).
  assert (H2 : forall p, 0 <= p <= Z.of_nat (List.length (units "a b")) ->
                 exists r t,
                   isPosLineBreaking sampleData 40
                     (setText sampleData (constructed None rulesV17) (units "a b")) p
                   = Ok (r, t)).
  { intros p Hp. change (Z.of_nat (List.length (units "a b"))) with 3 in Hp.
    assert (Hc : p = 0 \/ p = 1 \/ p = 2 \/ p = 3) by lia.
    destruct Hc as [-> | [-> | [-> | ->]]]; vm_compute; eauto. }
  split; [split; [exact H1 | exact H2]|].
  rewrite (iterator_filters_positions sampleData (constructed None rulesV17)
             (units "a b") 40 H1 H2).
  vm_compute. reflexivity.
Defined.

Section StandardIteration.

Variable data : unicodeData.

Lemma positions_after_snoc from m :
  positions_after from (S m) = positions_after from m ++ [from + 1 + Z.of_nat m].
Proof.
  unfold positions_after. rewrite seq_S, map_app. reflexivity.
Qed.

Lemma standard_boundaries raw criteria c txt f :
  raw = lineBreakingRulesV17 \/ raw = lineBreakingRulesV16 ->
  LineBreakingChecker criteria raw = Ok c ->
  wf_text txt ->
  txt <> [] ->
  isPosLineBreaking data (S (S (S f))) (setText data c txt) 0
  = Ok (Some BreakType.FORBIDDEN, setText data c txt)
  /\ isPosLineBreaking data (S (S (S f))) (setText data c txt)
       (Z.of_nat (List.length txt))
     = Ok (Some BreakType.MANDATORY, setText data c txt).
Proof.
  intros Hraw Hc Hwf Hne.
  destruct (standard_rules_head _ _ _ Hraw Hc) as [rest Hrules].
  set (this := setText data c txt).
  assert (Hcfg : rules (cfg this) = LB2 :: LB3 :: rest)
    by (subst this; rewrite setText_cfg; exact Hrules).
  destruct (setText_lengths data c txt) as (Hlc & Hlo & Hls).
  fold this in Hlc, Hlo, Hls.
  pose proof (setCodePoints_spec txt Hwf) as Hspec.
  assert (Ecps : codePoints this = fst (setCodePoints txt))
    by (subst this; apply setText_codePoints).
  assert (Eoff : offsetsSurrogates this = snd (setCodePoints txt))
    by (subst this; apply setText_offsetsSurrogates).
  destruct (setCodePoints txt) as [cps offs]. cbn [fst snd] in Ecps, Eoff.
  destruct Hspec as [Hlast Hfirst]. destruct (Hfirst Hne) as [H0 Hpos].
  assert (Ha : applyOffset this = false) by (subst this; apply setText_applyOffset).
  assert (Hcl : cleanup this = this) by (subst this; apply cleanup_setText).
  assert (Et : text this = txt) by (subst this; apply setText_text).
  split.
  - rewrite (isPosLineBreaking_start data this f (LB3 :: rest) Hcfg);
      [rewrite Hcl; reflexivity|].
    destruct (aget_defined (offsetsCombiningSeqs this) 0) as [x Hx]; [lia|].
    rewrite (rule_index_original this 0 0 x Ha); [reflexivity | | exact Hx].
    rewrite Eoff. exact H0.
  - rewrite <- Et.
    rewrite (isPosLineBreaking_end data this f rest Hcfg);
      [rewrite Hcl; reflexivity | |].
    + rewrite Ecps. exact Hpos.
    + rewrite Et, Ecps.
      destruct (aget_defined (offsetsCombiningSeqs this) (List.length cps)) as [x Hx];
        [rewrite Hlo, Ecps; lia|].
      rewrite (rule_index_original this _
                 (Z.of_nat (List.length txt) - Z.of_nat (List.length cps)) x Ha).
      * f_equal. lia.
      * rewrite Eoff. unfold aget.
        replace (Z.of_nat (List.length txt) <? 0) with false
          by (symmetry; apply Z.ltb_ge; lia).
        rewrite Nat2Z.id. exact Hlast.
      * replace (Z.of_nat (List.length txt)
                 - (Z.of_nat (List.length txt) - Z.of_nat (List.length cps)))
          with (Z.of_nat (List.length cps)) by lia.
        exact Hx.
Qed.

End StandardIteration.

(** ** Hard line breaks *)

Lemma decode_head off txt : nth_error (snd (decode off txt)) 0 = Some off.
Proof.
  destruct txt as [|u [|low rest]]; try reflexivity.
  destruct (isSurrogatePair u low) eqn:E.
  - rewrite decode_pair by exact E. reflexivity.
  - rewrite decode_single by (intros l r Heq; inversion Heq; subst; exact E).
    reflexivity.
Qed.

Lemma decode_code_points : forall n txt off off',
  (List.length txt <= n)%nat ->
  fst (decode off txt) = fst (decode off' txt).
Proof.
  induction n as [|n IH]; intros txt off off' Hn.
  - destruct txt; [reflexivity | simpl in Hn; lia].
  - destruct txt as [|u [|low rest]]; try reflexivity.
    cbn [List.length] in Hn.
    destruct (isSurrogatePair u low) eqn:E.
    + rewrite !decode_pair by exact E. cbn [fst]. f_equal.
      apply IH. lia.
    + rewrite !(decode_single _ u (low :: rest))
        by (intros l r Heq; inversion Heq; subst; exact E).
      cbn [fst]. f_equal. apply IH. cbn [List.length]. lia.
Qed.

Lemma isSurrogatePair_zero low : isSurrogatePair 0 low = false.
Proof. reflexivity. Qed.

Lemma decode_app : forall n pre post off,
  (List.length pre <= n)%nat ->
  isSurrogatePair (last pre 0) (hd 0 post) = false ->
  fst (decode off (pre ++ post)) = fst (decode off pre) ++ fst (decode 0 post)
  /\ nth_error (snd (decode off (pre ++ post))) (List.length pre)
     = Some (off + Z.of_nat (List.length pre)
             - Z.of_nat (List.length (fst (decode off pre)))).
Proof.
  induction n as [|n IH]; intros pre post off Hn Hsplit.
  - destruct pre; [|simpl in Hn; lia]. cbn [app List.length fst decode].
    split; [apply (decode_code_points (List.length post)); lia|].
    rewrite decode_head. f_equal. lia.
  - destruct pre as [|u [|low rest]].
    + cbn [app List.length fst decode].
      split; [apply (decode_code_points (List.length post)); lia|].
      rewrite decode_head. f_equal. lia.
    + cbn [app]. rewrite decode_single.
      * change (decode off [u]) with ([u], [off; off]).
        cbn [fst snd List.length nth_error app].
        split; [f_equal; apply (decode_code_points (List.length post)); lia|].
        pose proof (decode_head off post) as Hh. cbn [nth_error] in Hh.
        rewrite Hh. f_equal. lia.
      * intros l r Heq. subst post. exact Hsplit.
    + cbn [List.length] in Hn.
      assert (Hlast : last (u :: low :: rest) 0 = last (low :: rest) 0) by reflexivity.
      destruct (isSurrogatePair u low) eqn:E.
      * change ((u :: low :: rest) ++ post) with (u :: low :: (rest ++ post)).
        rewrite !decode_pair by exact E.
        cbn [fst snd List.length nth_error].
        destruct (IH rest post (off + 1)) as [Hc Ho]; [lia | |].
        { destruct rest as [|x rest']; [apply isSurrogatePair_zero|].
          rewrite Hlast in Hsplit. exact Hsplit. }
        split; [cbn [app]; f_equal; exact Hc|].
        rewrite Ho. f_equal. lia.
      * change ((u :: low :: rest) ++ post) with (u :: ((low :: rest) ++ post)).
        rewrite (decode_single off u ((low :: rest) ++ post))
          by (intros l r Heq; inversion Heq; subst; exact E).
        rewrite (decode_single off u (low :: rest))
          by (intros l r Heq; inversion Heq; subst; exact E).
        cbn [fst snd nth_error].
        destruct (IH (low :: rest) post off) as [Hc Ho];
          [cbn [List.length]; lia | rewrite <- Hlast; exact Hsplit |].
        split; [cbn [app]; f_equal; exact Hc|].
        change (List.length (u :: low :: rest)) with (S (List.length (low :: rest))).
        cbn [nth_error]. rewrite Ho. f_equal.
        cbn [List.length]. lia.
Qed.

Section HardBreaks.

Variable data : unicodeData.

Lemma consume_sequence_of_set this l f i step parent prev next :
  Forall (fun t => single t = true) l ->
  consumeToken data (S (S (S (List.length l + f)))) this (TSequence [TSet l]) i step
    parent prev next
  = Ok (if existsb (fun t => matches data this t i) l
        then simple true (num_add i (Int step))
        else simple false i).
Proof.
  intros Hl. rewrite consumeToken_sequence. cbn [sequence_loop nth_error].
  rewrite (set_single_result data this l f i step _ _ _ Hl).
  cbn [bind c_result simple].
  destruct (existsb (fun t => matches data this t i) l); reflexivity.
Qed.

Lemma consume_sequence_of_one this t f i step parent prev next :
  single t = true ->
  consumeToken data (S (S (S f))) this (TSequence [t]) i step parent prev next
  = Ok (if matches data this t i
        then simple true (num_add i (Int step))
        else simple false i).
Proof.
  intros Ht.
  pose proof (sequence_single_result data this [t] f i step parent prev next) as H.
  cbn [List.length Nat.add all_match advance] in H.
  rewrite H by (repeat constructor; exact Ht).
  rewrite andb_true_r. reflexivity.
Qed.

Lemma checkRule_pair this b a res F idx rb ra :
  consumeToken data F this b (num_sub idx (Int 1)) (-1) None None 0%nat = Ok rb ->
  consumeToken data F this a idx 1 None None 0%nat = Ok ra ->
  checkRule data F this
    {| before := b; after := a; name := None; side_effect := None; result := res |} idx
  = Ok (if c_result rb && c_result ra then res else Some BreakType.UNKNOWN, this).
Proof.
  intros Hb Ha. unfold checkRule. cbn [before after side_effect result].
  rewrite Hb. cbn [bind].
  destruct (c_result rb); [rewrite Ha|]; cbn [bind andb c_result simple];
    [destruct (c_result ra)|]; reflexivity.
Qed.

Lemma checkRule_LB3_inside this f j :
  j <> Z.of_nat (List.length (codePoints this)) ->
  checkRule data (S (S (S f))) this LB3 (Int j) = Ok (Some BreakType.UNKNOWN, this).
Proof.
  intros Hj. unfold LB3.
  rewrite (checkRule_pair this _ _ _ _ _ (simple true (Int (j - 1 + -1)))
             (simple false (Int j))); [reflexivity | reflexivity |].
  rewrite (consume_sequence_of_one this (TBase "eot") f) by reflexivity.
  cbn [matches String.eqb Ascii.eqb Bool.eqb orb andb num_eqb].
  replace (j =? Z.of_nat (List.length (codePoints this))) with false
    by (symmetry; apply Z.eqb_neq; exact Hj).
  reflexivity.
Qed.

Lemma checkRule_LB4 this f idx :
  checkRule data (S (S (S f))) this LB4 idx
  = Ok (if checkClass this "BK" (num_sub idx (Int 1))
        then Some BreakType.MANDATORY else Some BreakType.UNKNOWN, this).
Proof.
  unfold LB4.
  rewrite (checkRule_pair this _ _ _ _ _
             (if checkClass this "BK" (num_sub idx (Int 1))
              then simple true (num_add (num_sub idx (Int 1)) (Int (-1)))
              else simple false (num_sub idx (Int 1)))
             (simple true (num_add idx (Int 1)))).
  - destruct (checkClass this "BK" (num_sub idx (Int 1))); reflexivity.
  - rewrite (consume_sequence_of_one this (TClass "BK") f) by reflexivity.
    cbn [matches].
    destruct (checkClass this "BK" (num_sub idx (Int 1))); reflexivity.
  - reflexivity.
Qed.

Lemma checkRule_LB5_CRLF this f idx :
  checkRule data (S (S (S f))) this LB5_CRLF idx
  = Ok (if checkClass this "CR" (num_sub idx (Int 1)) && checkClass this "LF" idx
        then Some BreakType.FORBIDDEN else Some BreakType.UNKNOWN, this).
Proof.
  unfold LB5_CRLF.
  rewrite (checkRule_pair this _ _ _ _ _
             (if checkClass this "CR" (num_sub idx (Int 1))
              then simple true (num_add (num_sub idx (Int 1)) (Int (-1)))
              else simple false (num_sub idx (Int 1)))
             (if checkClass this "LF" idx
              then simple true (num_add idx (Int 1))
              else simple false idx)).
  - destruct (checkClass this "CR" (num_sub idx (Int 1))),
      (checkClass this "LF" idx); reflexivity.
  - rewrite (consume_sequence_of_one this (TClass "CR") f) by reflexivity.
    cbn [matches].
    destruct (checkClass this "CR" (num_sub idx (Int 1))); reflexivity.
  - rewrite (consume_sequence_of_one this (TClass "LF") f) by reflexivity.
    cbn [matches].
    destruct (checkClass this "LF" idx); reflexivity.
Qed.

Lemma checkRule_LB5 this f idx :
  checkRule data (S (S (S (S (S (S f)))))) this LB5 idx
  = Ok (if checkClass this "CR" (num_sub idx (Int 1))
           || checkClass this "LF" (num_sub idx (Int 1))
           || checkClass this "NL" (num_sub idx (Int 1))
        then Some BreakType.MANDATORY else Some BreakType.UNKNOWN, this).
Proof.
  unfold LB5.
  rewrite (checkRule_pair this _ _ _ _ _
             (if checkClass this "CR" (num_sub idx (Int 1))
                 || checkClass this "LF" (num_sub idx (Int 1))
                 || checkClass this "NL" (num_sub idx (Int 1))
              then simple true (num_add (num_sub idx (Int 1)) (Int (-1)))
              else simple false (num_sub idx (Int 1)))
             (simple true (num_add idx (Int 1)))).
  - destruct (_ || _); reflexivity.
  - pose proof (consume_sequence_of_set this [TClass "CR"; TClass "LF"; TClass "NL"] f)
      as H.
    cbn [List.length Nat.add] in H. rewrite H by (repeat constructor).
    cbn [existsb matches]. rewrite orb_false_r, orb_assoc. reflexivity.
  - reflexivity.
Qed.

Lemma checkRule_LB6 this f idx :
  checkRule data (S (S (S (S (S (S (S f))))))) this LB6 idx
  = Ok (if checkClass this "BK" idx || checkClass this "CR" idx
           || checkClass this "LF" idx || checkClass this "NL" idx
        then Some BreakType.FORBIDDEN else Some BreakType.UNKNOWN, this).
Proof.
  unfold LB6.
  rewrite (checkRule_pair this _ _ _ _ _
             (simple true (num_add (num_sub idx (Int 1)) (Int (-1))))
             (if checkClass this "BK" idx || checkClass this "CR" idx
                 || checkClass this "LF" idx || checkClass this "NL" idx
              then simple true (num_add idx (Int 1))
              else simple false idx)).
  - destruct (_ || _); reflexivity.
  - reflexivity.
  - pose proof (consume_sequence_of_set this
                  [TClass "BK"; TClass "CR"; TClass "LF"; TClass "NL"] f) as H.
    cbn [List.length Nat.add] in H. rewrite H by (repeat constructor).
    cbn [existsb matches]. rewrite orb_false_r, !orb_assoc. reflexivity.
Qed.

End HardBreaks.

Section HardBreakVerdicts.

Variable data : unicodeData.

Lemma standard_rules_hard_head raw criteria c :
  raw = lineBreakingRulesV17 \/ raw = lineBreakingRulesV16 ->
  LineBreakingChecker criteria raw = Ok c ->
  assignLineBreakingClsCriteria c = criteria
  /\ exists rest,
       rules c = LB2 :: LB3 :: LB4 :: LB5_CRLF :: LB5 :: LB6
                 :: LB7 :: LB8 :: LB8a :: LB9 :: rest.
Proof.
  intros [-> | ->] H.
  - rewrite LineBreakingChecker_V17 in H. inversion H; subst.
    split; [reflexivity|]. eexists. reflexivity.
  - rewrite LineBreakingChecker_V16 in H. inversion H; subst.
    split; [reflexivity|]. eexists. reflexivity.
Qed.

Lemma hard_break_loop this rest p j f r0 :
  rule_index this p = Int j ->
  0 < j ->
  j <> Z.of_nat (List.length (codePoints this)) ->
  rules_loop data (S (S (S (S (S (S (S f))))))) this
    (LB2 :: LB3 :: LB4 :: LB5_CRLF :: LB5 :: LB6 :: rest) p r0
  = if checkClass this "BK" (Int (j - 1)) then Ok (Some BreakType.MANDATORY, this)
    else if checkClass this "CR" (Int (j - 1)) && checkClass this "LF" (Int j)
    then Ok (Some BreakType.FORBIDDEN, this)
    else if checkClass this "CR" (Int (j - 1)) || checkClass this "LF" (Int (j - 1))
            || checkClass this "NL" (Int (j - 1))
    then Ok (Some BreakType.MANDATORY, this)
    else if checkClass this "BK" (Int j) || checkClass this "CR" (Int j)
            || checkClass this "LF" (Int j) || checkClass this "NL" (Int j)
    then Ok (Some BreakType.FORBIDDEN, this)
    else rules_loop data (S (S (S (S (S (S (S f))))))) this rest p
           (Some BreakType.UNKNOWN).
Proof.
  intros Hidx Hpos Hend.
  rewrite (rules_loop_undecided data _ this this)
    by (rewrite Hidx; apply checkRule_LB2_later; exact Hpos).
  rewrite (rules_loop_undecided data _ this this)
    by (rewrite Hidx; apply checkRule_LB3_inside; exact Hend).
  cbn [rules_loop]. rewrite Hidx, checkRule_LB4. cbn [bind num_sub].
  destruct (checkClass this "BK" (Int (j - 1))); [reflexivity|].
  cbn [decided BreakType.UNKNOWN Z.eqb negb rules_loop].
  rewrite ?Hidx, checkRule_LB5_CRLF. cbn [bind num_sub].
  destruct (checkClass this "CR" (Int (j - 1)) && checkClass this "LF" (Int j));
    [reflexivity|].
  cbn [decided BreakType.UNKNOWN Z.eqb negb rules_loop].
  rewrite ?Hidx, checkRule_LB5. cbn [bind num_sub].
  destruct (checkClass this "CR" (Int (j - 1)) || checkClass this "LF" (Int (j - 1))
            || checkClass this "NL" (Int (j - 1))); [reflexivity|].
  cbn [decided BreakType.UNKNOWN Z.eqb negb rules_loop].
  rewrite ?Hidx, checkRule_LB6. cbn [bind].
  destruct (checkClass this "BK" (Int j) || checkClass this "CR" (Int j)
            || checkClass this "LF" (Int j) || checkClass this "NL" (Int j));
    reflexivity.
Qed.

Lemma checkClass_at this cls j o :
  0 <= j ->
  nth_error (classes this) (Z.to_nat j) = Some o ->
  checkClass this cls (Int j)
  = match o with Some x => String.eqb cls x | None => false end.
Proof.
  intros Hj Hn. unfold checkClass, aget_opt, aget.
  replace (j <? 0) with false by (symmetry; apply Z.ltb_ge; exact Hj).
  rewrite Hn. reflexivity.
Qed.

(** The state of the checker at a position between two code points. *)
Lemma between_code_points c pre h l post cps1 u v cps2 :
  wf_text (pre ++ h :: l :: post) ->
  isSurrogatePair h l = false ->
  fst (decode 0 (pre ++ [h])) = cps1 ++ [u] ->
  fst (decode 0 (l :: post)) = v :: cps2 ->
  let this := setText data c (pre ++ h :: l :: post) in
  let p := Z.of_nat (List.length pre) + 1 in
  let j := Z.of_nat (List.length cps1) + 1 in
  inside_surrogate_pair this p = false
  /\ rule_index this p = Int j
  /\ j <> Z.of_nat (List.length (codePoints this))
  /\ nth_error (classes this) (Z.to_nat (j - 1))
     = Some (class_of data (assignLineBreakingClsCriteria c) u)
  /\ nth_error (classes this) (Z.to_nat j)
     = Some (class_of data (assignLineBreakingClsCriteria c) v).
Proof.
  intros Hwf Hpair Hu Hv. cbv zeta.
  set (txt := pre ++ h :: l :: post).
  set (this := setText data c txt).
  assert (Etxt : txt = (pre ++ [h]) ++ l :: post)
    by (subst txt; rewrite <- app_assoc; reflexivity).
  pose proof (setCodePoints_as_decode txt Hwf) as Hsc.
  destruct (decode_app (List.length (pre ++ [h])) (pre ++ [h]) (l :: post) 0
              (Nat.le_refl _)) as [Hc Ho].
  { rewrite last_last. exact Hpair. }
  rewrite <- Etxt, Hu, Hv in Hc. rewrite <- Etxt, Hu in Ho.
  rewrite !length_app in Ho. cbn [List.length] in Ho.
  assert (Ecps : codePoints this = map Some ((cps1 ++ [u]) ++ v :: cps2)).
  { subst this. rewrite setText_codePoints, Hsc. cbn [fst]. rewrite Hc. reflexivity. }
  assert (Eoff : offsetsSurrogates this = snd (decode 0 txt)).
  { subst this. rewrite setText_offsetsSurrogates, Hsc. reflexivity. }
  assert (Ha : applyOffset this = false) by (subst this; apply setText_applyOffset).
  assert (Et : text this = txt) by (subst this; apply setText_text).
  destruct (setText_lengths data c txt) as (Hlc & Hlo & Hls).
  fold this in Hlc, Hlo, Hls.
  assert (Hlen : List.length (codePoints this)
                 = (List.length cps1 + 1 + S (List.length cps2))%nat).
  { rewrite Ecps, length_map, !length_app. cbn [List.length]. lia. }
  refine (conj _ (conj _ (conj _ (conj _ _)))).
  - unfold inside_surrogate_pair. rewrite Et.
    replace (Z.to_nat (Z.of_nat (List.length pre) + 1 - 1)) with (List.length pre) by lia.
    replace (Z.to_nat (Z.of_nat (List.length pre) + 1)) with (S (List.length pre)) by lia.
    subst txt.
    rewrite (nth_error_app2 pre (h :: l :: post) (n := List.length pre)) by lia.
    rewrite (nth_error_app2 pre (h :: l :: post) (n := S (List.length pre))) by lia.
    rewrite Nat.sub_diag.
    replace (S (List.length pre) - List.length pre)%nat with 1%nat by lia.
    cbn [nth_error]. rewrite Hpair. apply andb_false_r.
  - destruct (aget_defined (offsetsCombiningSeqs this) (List.length cps1 + 1))
      as [x Hx]; [rewrite Hlo, Hlen; lia|].
    rewrite (rule_index_original this _
               (Z.of_nat (List.length pre) - Z.of_nat (List.length cps1)) x Ha).
    + f_equal. lia.
    + rewrite Eoff. unfold aget.
      replace (Z.of_nat (List.length pre) + 1 <? 0) with false
        by (symmetry; apply Z.ltb_ge; lia).
      replace (Z.to_nat (Z.of_nat (List.length pre) + 1))
        with (List.length pre + 1)%nat by lia.
      rewrite Ho. f_equal. lia.
    + replace (Z.of_nat (List.length pre) + 1
               - (Z.of_nat (List.length pre) - Z.of_nat (List.length cps1)))
        with (Z.of_nat (List.length cps1 + 1)) by lia.
      exact Hx.
  - rewrite Hlen. lia.
  - replace (Z.to_nat (Z.of_nat (List.length cps1) + 1 - 1))
      with (List.length cps1) by lia.
    unfold this. apply classes_nth. fold this. rewrite Ecps.
    rewrite <- app_assoc, map_app, nth_error_app2 by (rewrite length_map; lia).
    rewrite length_map, Nat.sub_diag. reflexivity.
  - replace (Z.to_nat (Z.of_nat (List.length cps1) + 1))
      with (List.length (cps1 ++ [u])) by (rewrite length_app; cbn [List.length]; lia).
    unfold this. apply classes_nth. fold this. rewrite Ecps.
    rewrite map_app, nth_error_app2 by (rewrite length_map; lia).
    rewrite length_map, Nat.sub_diag. reflexivity.
Qed.

Lemma class_test_true (o : option string) (cls : string) :
  o = Some cls ->
  match o with Some x => String.eqb cls x | None => false end = true.
Proof. intros ->. apply String.eqb_refl. Qed.

Lemma class_test_false (o : option string) (cls : string) :
  o <> Some cls ->
  match o with Some x => String.eqb cls x | None => false end = false.
Proof.
  intros Hne. destruct o as [x|]; [|reflexivity].
  apply String.eqb_neq. congruence.
Qed.

Lemma code_points_as_decode txt ys :
  wf_text txt ->
  fst (setCodePoints txt) = map Some ys ->
  fst (decode 0 txt) = ys.
Proof.
  intros Hwf H. rewrite (setCodePoints_as_decode txt Hwf) in H. cbn [fst] in H.
  revert ys H. induction (fst (decode 0 txt)) as [|x xs IH]; intros [|y ys] H;
    cbn [map] in H; try discriminate; [reflexivity|].
  inversion H; subst. f_equal. apply IH. assumption.
Qed.

Lemma wf_text_split pre h l post :
  wf_text (pre ++ h :: l :: post) ->
  wf_text (pre ++ [h]) /\ wf_text (l :: post).
Proof.
  unfold wf_text. intros H. apply Forall_app in H. destruct H as [Hpre H].
  inversion H as [|? ? Hh Hrest]; subst.
  split; [|exact Hrest].
  apply Forall_app. split; [exact Hpre | constructor; [exact Hh | constructor]].
Qed.

(** The call of [isPosLineBreaking] at a position between two code points,
    with the standard rule lists. *)
Lemma position_between raw criteria c pre h l post cps1 u v cps2 F :
  raw = lineBreakingRulesV17 \/ raw = lineBreakingRulesV16 ->
  LineBreakingChecker criteria raw = Ok c ->
  wf_text (pre ++ h :: l :: post) ->
  isSurrogatePair h l = false ->
  fst (setCodePoints (pre ++ [h])) = map Some (cps1 ++ [u]) ->
  fst (setCodePoints (l :: post)) = map Some (v :: cps2) ->
  let this := setText data c (pre ++ h :: l :: post) in
  let p := Z.of_nat (List.length pre) + 1 in
  exists j rest,
    0 < j
    /\ j <> Z.of_nat (List.length (codePoints this))
    /\ rule_index this p = Int j
    /\ cleanup this = this
    /\ isPosLineBreaking data F this p
       = (x <- rules_loop data F this
                 (LB2 :: LB3 :: LB4 :: LB5_CRLF :: LB5 :: LB6
                  :: LB7 :: LB8 :: LB8a :: LB9 :: rest) p (Some BreakType.UNKNOWN) ;;
          let '(r, this') := x in Ok (r, cleanup this'))
    /\ (forall cls,
          checkClass this cls (Int (j - 1))
          = match class_of data criteria u with
            | Some x => String.eqb cls x
            | None => false
            end)
    /\ (forall cls,
          checkClass this cls (Int j)
          = match class_of data criteria v with
            | Some x => String.eqb cls x
            | None => false
            end).
Proof.
  intros Hraw Hc Hwf Hpair Hu Hv. cbv zeta.
  destruct (wf_text_split _ _ _ _ Hwf) as [Hwf1 Hwf2].
  apply (code_points_as_decode _ _ Hwf1) in Hu.
  apply (code_points_as_decode _ _ Hwf2) in Hv.
  destruct (standard_rules_hard_head _ _ _ Hraw Hc) as [Hcrit [rest Hrules]].
  destruct (between_code_points c pre h l post cps1 u v cps2 Hwf Hpair Hu Hv)
    as (Hin & Hidx & Hend & Hcu & Hcv).
  rewrite Hcrit in Hcu, Hcv.
  set (this := setText data c (pre ++ h :: l :: post)) in *.
  set (j := Z.of_nat (List.length cps1) + 1) in *.
  exists j, rest.
  refine (conj _ (conj Hend (conj Hidx (conj _ (conj _ (conj _ _)))))).
  - subst j. lia.
  - subst this. apply cleanup_setText.
  - unfold isPosLineBreaking. rewrite Hin.
    replace (rules (cfg this))
      with (LB2 :: LB3 :: LB4 :: LB5_CRLF :: LB5 :: LB6
            :: LB7 :: LB8 :: LB8a :: LB9 :: rest)
      by (subst this; rewrite setText_cfg; symmetry; exact Hrules).
    reflexivity.
  - intros cls. apply checkClass_at; [subst j; lia | exact Hcu].
  - intros cls. apply checkClass_at; [subst j; lia | exact Hcv].
Qed.

(** X18. Hard line breaks, with the standard rule lists.  At a position
    between two code points of a text (not inside a surrogate pair), where [u]
    is the last code point [setCodePoints] reads before the position and [v]
    the first one it reads after it,
    [isPosLineBreaking] returns MANDATORY when the class of [u] is BK, or LF,
    or NL, or CR with a [v] that is not LF; FORBIDDEN between CR and LF; and
    FORBIDDEN when [u] is none of these and [v] is BK, CR, LF or NL (LB4, LB5,
    LB6).  The classes are those [assignLineBreakingClasses] gives. *)
Theorem hard_line_breaks (raw : list rawRule)
    (criteria : option (option string -> string -> option string))
    (c : config) (pre post : list Z) (h l : Z) (cps1 cps2 : list Z) (u v : Z)
    (f : nat) :
  raw = lineBreakingRulesV17 \/ raw = lineBreakingRulesV16 ->
  LineBreakingChecker criteria raw = Ok c ->
  wf_text (pre ++ h :: l :: post) ->
  isSurrogatePair h l = false ->
  fst (setCodePoints (pre ++ [h])) = map Some (cps1 ++ [u]) ->
  fst (setCodePoints (l :: post)) = map Some (v :: cps2) ->
  let this := setText data c (pre ++ h :: l :: post) in
  let verdict :=
    isPosLineBreaking data (S (S (S (S (S (S (S f))))))) this
      (Z.of_nat (List.length pre) + 1) in
  let cu := class_of data criteria u in
  let cv := class_of data criteria v in
  let hard x := x = Some "BK" \/ x = Some "CR" \/ x = Some "LF" \/ x = Some "NL" in
  (cu = Some "BK" -> verdict = Ok (Some BreakType.MANDATORY, this))
  /\ (cu = Some "CR" -> cv = Some "LF" -> verdict = Ok (Some BreakType.FORBIDDEN, this))
  /\ (cu = Some "CR" -> cv <> Some "LF" ->
      verdict = Ok (Some BreakType.MANDATORY, this))
  /\ (cu = Some "LF" \/ cu = Some "NL" -> verdict = Ok (Some BreakType.MANDATORY, this))
  /\ (~ hard cu -> hard cv -> verdict = Ok (Some BreakType.FORBIDDEN, this)).
Proof.
  intros Hraw Hc Hwf Hpair Hu Hv. cbv zeta.
  destruct (position_between raw criteria c pre h l post cps1 u v cps2
              (S (S (S (S (S (S (S f))))))) Hraw Hc Hwf Hpair Hu Hv)
    as (j & rest & Hj & Hend & Hidx & Hcl & Hpos & Hbefore & Hafter).
  rewrite Hpos.
  rewrite (hard_break_loop _ _ _ j f _ Hidx Hj Hend).
  rewrite !Hbefore, !Hafter.
  refine (conj _ (conj _ (conj _ (conj _ _)))).
  - intros ->. cbn [String.eqb Ascii.eqb Bool.eqb andb orb bind]. rewrite Hcl.
    reflexivity.
  - intros -> ->. cbn [String.eqb Ascii.eqb Bool.eqb andb orb bind]. rewrite Hcl.
    reflexivity.
  - intros -> Hlf. rewrite (class_test_false _ "LF" Hlf).
    cbn [String.eqb Ascii.eqb Bool.eqb andb orb bind]. rewrite Hcl. reflexivity.
  - intros [-> | ->]; cbn [String.eqb Ascii.eqb Bool.eqb andb orb bind];
      rewrite Hcl; reflexivity.
  - intros Hnot Hhard. cbv beta in Hnot, Hhard.
    rewrite (class_test_false (class_of data criteria u) "BK"),
      (class_test_false (class_of data criteria u) "CR"),
      (class_test_false (class_of data criteria u) "LF"),
      (class_test_false (class_of data criteria u) "NL") by tauto.
    cbn [andb orb].
    destruct Hhard as [-> | [-> | [-> | ->]]];
      cbn [String.eqb Ascii.eqb Bool.eqb andb orb bind]; rewrite Hcl; reflexivity.
Qed.

End HardBreakVerdicts.

Lemma hard_line_breaks_witness :
  let txt := [97] ++ 13 :: 10 :: [98] in
  let this := setText sampleData (constructed None rulesV17) txt in
  ((lineBreakingRulesV17 = lineBreakingRulesV17
    \/ lineBreakingRulesV17 = lineBreakingRulesV16)
   /\ LineBreakingChecker None lineBreakingRulesV17 = Ok (constructed None rulesV17)
   /\ wf_text txt
   /\ isSurrogatePair 13 10 = false
   /\ fst (setCodePoints ([97] ++ [13])) = map Some ([97] ++ [13])
   /\ fst (setCodePoints (10 :: [98])) = map Some (10 :: [98])
   /\ class_of sampleData None 13 = Some "CR"
   /\ class_of sampleData None 10 = Some "LF")
  /\ isPosLineBreaking sampleData 7 this 2 = Ok (Some BreakType.FORBIDDEN, this).
Proof.
  cbv zeta.
  assert (H1 : lineBreakingRulesV17 = lineBreakingRulesV17
               \/ lineBreakingRulesV17 = lineBreakingRulesV16) by (left; reflexivity).
  assert (H2 : LineBreakingChecker None lineBreakingRulesV17
               = Ok (constructed None rulesV17)) by apply LineBreakingChecker_V17.
  assert (H3 : wf_text ([97] ++ 13 :: 10 :: [98]))
    by (repeat (apply Forall_cons; [lia|]); apply Forall_nil).
  assert (H4 : isSurrogatePair 13 10 = false) by reflexivity.
  assert (H5 : fst (setCodePoints ([97] ++ [13])) = map Some ([97] ++ [13]))
    by reflexivity.
  assert (H6 : fst (setCodePoints (10 :: [98])) = map Some (10 :: [98]))
    by reflexivity.
  assert (H7 : class_of sampleData None 13 = Some "CR") by reflexivity.
  assert (H8 : class_of sampleData None 10 = Some "LF") by reflexivity.
  split; [auto 10|].
  exact (proj1 (proj2 (hard_line_breaks sampleData _ None _ [97] [98] 13 10 [97] [98]
                         13 10 0%nat H1 H2 H3 H4 H5 H6)) H7 H8).
Defined.

(** ** The parser: reversal of a sequence *)

Lemma items_concat : forall n content,
  (List.length content <= n)%nat -> List.concat (items content) = content.
Proof.
  induction n as [|n IH]; intros content Hn.
  - destruct content; [reflexivity | simpl in Hn; lia].
  - destruct content as [|t rest]; [reflexivity|].
    cbn [List.length] in Hn. cbn [items].
    destruct (RuleParser.is_modifier t).
    + destruct rest as [|op rest']; [reflexivity|].
      cbn [List.concat app List.length] in *. rewrite IH by lia. reflexivity.
    + cbn [List.concat app]. rewrite IH by lia. reflexivity.
Qed.

Lemma items_well_formed : forall n content,
  (List.length content <= n)%nat ->
  modifiers_have_operands content = true ->
  Forall (fun g => well_formed_item g = true) (items content).
Proof.
  induction n as [|n IH]; intros content Hn Hm.
  - destruct content; [constructor | simpl in Hn; lia].
  - destruct content as [|t rest]; [constructor|].
    cbn [List.length] in Hn. cbn [items modifiers_have_operands] in *.
    destruct (RuleParser.is_modifier t) eqn:Et.
    + destruct rest as [|op rest']; [discriminate|].
      apply andb_true_iff in Hm. destruct Hm as [Hop Hrest].
      cbn [List.length] in Hn.
      constructor; [cbn [well_formed_item]; rewrite Et, Hop; reflexivity|].
      apply IH; [lia | exact Hrest].
    + constructor; [cbn [well_formed_item]; rewrite Et; reflexivity|].
      apply IH; [lia | exact Hm].
Qed.

Lemma rev_concat (G : list (list token)) :
  rev (List.concat G) = List.concat (map (@rev token) (rev G)).
Proof.
  induction G as [|g G IH]; [reflexivity|].
  cbn [List.concat rev]. rewrite rev_app_distr, IH, map_app, concat_app.
  cbn [map List.concat]. rewrite app_nil_r. reflexivity.
Qed.

Lemma swap_modifiers_items : forall R,
  Forall (fun g => well_formed_item g = true) R ->
  forall x,
    RuleParser.swap_modifiers x (List.concat (map (@rev token) R))
    = x :: List.concat R.
Proof.
  induction 1 as [|g R Hg HR IH]; intros x; [reflexivity|].
  destruct g as [|a [|b [|c g']]]; try discriminate.
  - cbn [well_formed_item] in Hg. apply negb_true_iff in Hg.
    cbn [map List.concat rev app RuleParser.swap_modifiers]. rewrite Hg, IH. reflexivity.
  - cbn [well_formed_item] in Hg. apply andb_true_iff in Hg.
    destruct Hg as [Ha Hb]. apply negb_true_iff in Hb.
    cbn [map List.concat rev app RuleParser.swap_modifiers]. rewrite Hb.
    cbn [RuleParser.swap_modifiers]. rewrite Ha, IH. reflexivity.
Qed.

Lemma reverse_content_of_items R :
  Forall (fun g => well_formed_item g = true) R ->
  RuleParser.reverse_content (List.concat (rev R)) = List.concat R.
Proof.
  intros HR. unfold RuleParser.reverse_content.
  rewrite rev_concat, rev_involutive.
  destruct HR as [|g R Hg HR]; [reflexivity|].
  pose proof (swap_modifiers_items R HR) as Hswap.
  destruct g as [|a [|b [|c g']]]; try discriminate.
  - cbn [map List.concat rev app]. apply Hswap.
  - cbn [well_formed_item] in Hg. apply andb_true_iff in Hg. destruct Hg as [Ha _].
    cbn [map List.concat rev app RuleParser.swap_modifiers]. rewrite Ha, Hswap. reflexivity.
Qed.

(** X19. [reverseSequences] keeps every modifier in front of its operand: on a
    sequence in which each modifier is followed by an operand that is not a
    modifier, reversing the content and running the swapping pass gives the
    items in reverse order, a modifier and its operand counting as one item;
    and doing it twice gives the content back. *)
Theorem reversal_keeps_modifiers_with_operands (content : list token) :
  modifiers_have_operands content = true ->
  RuleParser.reverse_content content = List.concat (rev (items content))
  /\ RuleParser.reverse_content (RuleParser.reverse_content content) = content.
Proof.
  intros Hm.
  pose proof (items_well_formed (List.length content) content (Nat.le_refl _) Hm) as Hwf.
  pose proof (items_concat (List.length content) content (Nat.le_refl _)) as Hc.
  assert (Hrev : Forall (fun g => well_formed_item g = true) (rev (items content))).
  { rewrite Forall_forall in *. intros g Hg. apply Hwf. apply in_rev. exact Hg. }
  assert (H1 : RuleParser.reverse_content content = List.concat (rev (items content))).
  { rewrite <- Hc at 1. rewrite <- (rev_involutive (items content)) at 1.
    apply reverse_content_of_items. exact Hrev. }
  split; [exact H1|].
  rewrite H1, (reverse_content_of_items (items content) Hwf). exact Hc.
Qed.

Lemma reversal_keeps_modifiers_with_operands_witness :
  let content := [TClass "ZW"; TModifier "*"; TClass "SP"] in
  modifiers_have_operands content = true
  /\ RuleParser.reverse_content content = [TModifier "*"; TClass "SP"; TClass "ZW"]
  /\ RuleParser.reverse_content (RuleParser.reverse_content content) = content.
Proof.
  cbv zeta.
  assert (H : modifiers_have_operands [TClass "ZW"; TModifier "*"; TClass "SP"] = true)
    by reflexivity.
  split; [exact H|].
  exact (reversal_keeps_modifiers_with_operands _ H).
Defined.

(** ** The parser: rule strings without brackets, and errors *)

Lemma parseToken_flat_parsed f tokens i t :
  nth_error tokens i = Some t ->
  flat_token t = true ->
  RuleParser.parseToken (S f) tokens i
  = Ok {| RuleParser.pushed := match pushed_of t with x :: _ => Some x | [] => None end;
          RuleParser.set_result := verdict_of t;
          RuleParser.to_after := match verdict_of t with Some _ => true | None => false end;
          RuleParser.next_i := S i |}
  /\ Forall (fun x => leaf x = true) (pushed_of t)
  /\ (List.length (pushed_of t) <= 1)%nat
  /\ (verdict_of t <> None -> pushed_of t = []).
Proof.
  intros Hnth Hflat. unfold pushed_of.
  cbn [RuleParser.parseToken nth_error]. rewrite Hnth.
  revert Hflat. unfold flat_token, verdict_of.
  destruct (String.eqb t RuleParser.FORBIDDEN_SYMBOL);
    [intros _; repeat split; auto; constructor|].
  destruct (String.eqb t RuleParser.MANDATORY_SYMBOL);
    [intros _; repeat split; auto; constructor|].
  destruct (String.eqb t RuleParser.ALLOWED_SYMBOL);
    [intros _; repeat split; auto; constructor|].
  assert (Hleaf : forall x, leaf x = true ->
            Forall (fun y => leaf y = true) [x] /\ (List.length [x] <= 1)%nat
            /\ ((@None Z) <> None -> [x] = [])).
  { intros x Hx. split; [repeat constructor; exact Hx|].
    split; [cbn; lia | congruence]. }
  assert (Hnone : Forall (fun y => leaf y = true) [] /\ (@List.length token [] <= 1)%nat
                  /\ ((@None Z) <> None -> @nil token = [])).
  { split; [constructor|]. split; [cbn; lia | reflexivity]. }
  destruct (String.eqb t "any"); [intros _; split; [reflexivity | apply Hleaf; reflexivity]|].
  destruct (String.eqb t "sot"); [intros _; split; [reflexivity | apply Hleaf; reflexivity]|].
  destruct (String.eqb t "eot"); [intros _; split; [reflexivity | apply Hleaf; reflexivity]|].
  cbn [orb].
  destruct (String.eqb t "eastasian");
    [intros _; split; [reflexivity | apply Hleaf; reflexivity]|].
  destruct (String.eqb t "extpict");
    [intros _; split; [reflexivity | apply Hleaf; reflexivity]|].
  destruct (RuleParser.is_codepoint_token t);
    [intros _; split; [reflexivity | apply Hleaf; reflexivity]|].
  destruct (RuleParser.is_gc_token t);
    [intros _; split; [reflexivity | apply Hleaf; reflexivity]|].
  destruct (RuleParser.is_class_token t);
    [intros _; split; [reflexivity | apply Hleaf; reflexivity]|].
  destruct (String.eqb t "^"); [intros _; split; [reflexivity | apply Hleaf; reflexivity]|].
  destruct (String.eqb t "&"); [intros _; split; [reflexivity | apply Hleaf; reflexivity]|].
  destruct (String.eqb t "-"); [intros _; split; [reflexivity | apply Hleaf; reflexivity]|].
  destruct (String.eqb t "*"); [intros _; split; [reflexivity | apply Hleaf; reflexivity]|].
  cbn [orb].
  destruct (String.eqb t "|"); [intros _; split; [reflexivity | exact Hnone]|].
  cbn [orb].
  destruct (String.eqb_spec t "("); [subst; cbn; discriminate|].
  destruct (String.eqb t ")"); [intros _; split; [reflexivity | exact Hnone]|].
  destruct (String.eqb_spec t "["); [subst; cbn; discriminate|].
  destruct (String.eqb t "]"); [intros _; split; [reflexivity | exact Hnone]|].
  cbn. discriminate.
Qed.

Lemma skipn_cons {A : Type} (l : list A) : forall i t rest,
  skipn i l = t :: rest ->
  nth_error l i = Some t /\ skipn (S i) l = rest /\ (i < List.length l)%nat.
Proof.
  induction l as [|a l IH]; intros [|i] t rest H; cbn [skipn] in H; try discriminate.
  - inversion H; subst. cbn. repeat split. lia.
  - destruct (IH i t rest H) as (H1 & H2 & H3). cbn [nth_error List.length].
    repeat split; [exact H1 | exact H2 | lia].
Qed.

Lemma skipn_nil {A : Type} (l : list A) : forall i,
  skipn i l = [] -> (List.length l <= i)%nat.
Proof.
  induction l as [|a l IH]; intros [|i] H; cbn [skipn List.length] in *;
    try lia; try discriminate.
  apply IH in H. lia.
Qed.

Lemma apply_parsed_flat b t i :
  (List.length (pushed_of t) <= 1)%nat ->
  RuleParser.apply_parsed b
    {| RuleParser.pushed := match pushed_of t with x :: _ => Some x | [] => None end;
       RuleParser.set_result := verdict_of t;
       RuleParser.to_after := match verdict_of t with Some _ => true | None => false end;
       RuleParser.next_i := i |}
  = {| RuleParser.b_before :=
         if RuleParser.in_after b then RuleParser.b_before b
         else RuleParser.b_before b ++ pushed_of t;
       RuleParser.b_after :=
         if RuleParser.in_after b then RuleParser.b_after b ++ pushed_of t
         else RuleParser.b_after b;
       RuleParser.in_after :=
         RuleParser.in_after b
         || match verdict_of t with Some _ => true | None => false end;
       RuleParser.b_result :=
         match verdict_of t with Some v => Some v | None => RuleParser.b_result b end |}.
Proof.
  intros Hlen. unfold RuleParser.apply_parsed, RuleParser.append_pushed,
    RuleParser.later_result.
  cbn [RuleParser.pushed RuleParser.set_result RuleParser.to_after].
  destruct (pushed_of t) as [|x [|y l]]; [| |cbn [List.length] in Hlen; lia];
    rewrite ?app_nil_r; reflexivity.
Qed.

Section FlatRules.

Variable tokens : list string.

(** After the verdict symbol: the tokens go to [after]. *)
Lemma parse_loop_after : forall l k i b,
  skipn i tokens = l ->
  (List.length l < k)%nat ->
  RuleParser.in_after b = true ->
  Forall (fun t => flat_token t = true) l ->
  RuleParser.parse_loop k tokens i b
  = Ok {| RuleParser.b_before := RuleParser.b_before b;
          RuleParser.b_after := RuleParser.b_after b ++ flat_map pushed_of l;
          RuleParser.in_after := true;
          RuleParser.b_result := last_verdict (RuleParser.b_result b) l |}.
Proof.
  induction l as [|t l IH]; intros k i b Hskip Hk Hin Hflat;
    (destruct k as [|k]; [cbn [List.length] in Hk; lia|]); cbn [RuleParser.parse_loop].
  - apply skipn_nil in Hskip.
    replace (Nat.ltb i (List.length tokens)) with false
      by (symmetry; apply Nat.ltb_ge; exact Hskip).
    cbn [flat_map last_verdict]. rewrite app_nil_r.
    destruct b; cbn in *; subst; reflexivity.
  - destruct (skipn_cons _ _ _ _ Hskip) as (Hnth & Hrest & Hi).
    replace (Nat.ltb i (List.length tokens)) with true
      by (symmetry; apply Nat.ltb_lt; exact Hi).
    inversion Hflat as [|? ? Ht Hl]; subst.
    destruct (parseToken_flat_parsed (List.length tokens) tokens i t Hnth Ht)
      as (Hp & _ & Hlen & _).
    rewrite Hp. cbn [bind RuleParser.next_i].
    rewrite apply_parsed_flat by exact Hlen. rewrite Hin. cbn [orb].
    rewrite (IH k (S i) _ eq_refl); [| cbn [List.length] in Hk; lia | reflexivity | exact Hl].
    cbn [RuleParser.b_before RuleParser.b_after RuleParser.b_result flat_map last_verdict].
    rewrite <- app_assoc. reflexivity.
Qed.

(** Up to the first verdict symbol: the tokens go to [before]. *)
Lemma parse_loop_before : forall pre v post k i b,
  skipn i tokens = pre ++ v :: post ->
  (List.length (pre ++ v :: post) < k)%nat ->
  RuleParser.in_after b = false ->
  Forall (fun t => flat_token t = true) (pre ++ v :: post) ->
  Forall (fun t => verdict_of t = None) pre ->
  verdict_of v <> None ->
  RuleParser.parse_loop k tokens i b
  = Ok {| RuleParser.b_before := RuleParser.b_before b ++ flat_map pushed_of pre;
          RuleParser.b_after := RuleParser.b_after b ++ flat_map pushed_of post;
          RuleParser.in_after := true;
          RuleParser.b_result := last_verdict None (v :: post) |}.
Proof.
  induction pre as [|t pre IH]; intros v post k i b Hskip Hk Hin Hflat Hpre Hv;
    (destruct k as [|k]; [cbn [List.length] in Hk; lia|]); cbn [RuleParser.parse_loop];
    cbn [app] in Hskip, Hflat, Hk;
    destruct (skipn_cons _ _ _ _ Hskip) as (Hnth & Hrest & Hi);
    (replace (Nat.ltb i (List.length tokens)) with true
      by (symmetry; apply Nat.ltb_lt; exact Hi));
    inversion Hflat as [|? ? Ht Hl]; subst.
  - destruct (parseToken_flat_parsed (List.length tokens) tokens i v Hnth Ht)
      as (Hp & _ & Hlen & Hnone).
    rewrite Hp. cbn [bind RuleParser.next_i].
    rewrite apply_parsed_flat by exact Hlen. rewrite Hin, (Hnone Hv), app_nil_r.
    destruct (verdict_of v) as [w|] eqn:Ev; [|congruence].
    cbn [orb].
    rewrite (parse_loop_after (skipn (S i) tokens) k (S i) _ eq_refl);
      [| cbn [List.length] in Hk; lia | reflexivity | exact Hl].
    cbn [RuleParser.b_before RuleParser.b_after RuleParser.b_result flat_map
         last_verdict app].
    rewrite Ev, app_nil_r. reflexivity.
  - inversion Hpre as [|? ? Htv Hpre']; subst.
    destruct (parseToken_flat_parsed (List.length tokens) tokens i t Hnth Ht)
      as (Hp & _ & Hlen & _).
    rewrite Hp. cbn [bind RuleParser.next_i].
    rewrite apply_parsed_flat by exact Hlen. rewrite Hin, Htv. cbn [orb].
    rewrite (IH v post k (S i) _ Hrest);
      [| cbn [List.length] in Hk; lia | reflexivity | exact Hl | exact Hpre' | exact Hv].
    cbn [RuleParser.b_before RuleParser.b_after RuleParser.b_result flat_map].
    rewrite <- app_assoc. reflexivity.
Qed.

End FlatRules.

Lemma flat_pushes_leaves l :
  Forall (fun t => flat_token t = true) l ->
  Forall (fun x => leaf x = true) (flat_map pushed_of l).
Proof.
  induction 1 as [|t l Ht Hl IH]; [constructor|].
  cbn [flat_map]. apply Forall_app. split; [|exact IH].
  destruct (parseToken_flat_parsed 0 [t] 0 t eq_refl Ht) as (_ & H & _). exact H.
Qed.

Lemma cleanPart_leaves content :
  Forall (fun x => leaf x = true) content ->
  RuleParser.cleanPart (TSequence content) = TSequence content.
Proof.
  intros H.
  assert (Hm : map RuleParser.cleanPart content = content).
  { induction H as [|x l Hx Hl IH]; [reflexivity|].
    cbn [map]. rewrite IH. destruct x; try reflexivity; discriminate. }
  destruct content as [|x [|y l]]; [reflexivity | |].
  - inversion H as [|? ? Hx _]; subst. destruct x; try reflexivity; discriminate.
  - cbn [RuleParser.cleanPart]. destruct x; rewrite <- Hm at 2; reflexivity.
Qed.

Lemma reverseSequences_leaves content :
  Forall (fun x => leaf x = true) content ->
  RuleParser.reverseSequences (TSequence content)
  = TSequence (RuleParser.reverse_content content).
Proof.
  intros H. cbn [RuleParser.reverseSequences].
  assert (Hm : map RuleParser.reverseSequences content = content).
  { induction H as [|x l Hx Hl IH]; [reflexivity|].
    cbn [map]. rewrite IH. destruct x; try reflexivity; discriminate. }
  rewrite Hm. reflexivity.
Qed.

(** X20. A rule string without brackets whose first verdict symbol is [v]:
    [parseRule] puts the tokens on the left of [v] in [before], reversed by
    [reverseSequences], and the tokens on its right in [after], in the order
    of the string ([|], closing brackets and later verdict symbols push
    nothing); the name and the side effect are those of the rule. *)
Theorem bracket_free_rule (rule : rawRule) (pre post : list string) (v : string) :
  RuleParser.split (raw_str rule) = pre ++ v :: post ->
  Forall (fun t => flat_token t = true) (pre ++ v :: post) ->
  Forall (fun t => verdict_of t = None) pre ->
  verdict_of v <> None ->
  RuleParser.parseRule rule
  = Ok {| before := TSequence (RuleParser.reverse_content (flat_map pushed_of pre));
          after := TSequence (flat_map pushed_of post);
          name := raw_name rule;
          side_effect := raw_side_effect rule;
          result := last_verdict None (v :: post) |}.
Proof.
  intros Hsplit Hflat Hpre Hv. unfold RuleParser.parseRule. rewrite Hsplit.
  rewrite (parse_loop_before (pre ++ v :: post) pre v post _ 0 _ eq_refl);
    [| lia | reflexivity | exact Hflat | exact Hpre | exact Hv].
  cbn [bind RuleParser.b_before RuleParser.b_after RuleParser.b_result app].
  apply Forall_app in Hflat. destruct Hflat as [Hfpre Hfrest].
  inversion Hfrest as [|? ? _ Hfpost]; subst.
  rewrite (cleanPart_leaves _ (flat_pushes_leaves pre Hfpre)).
  rewrite (cleanPart_leaves _ (flat_pushes_leaves post Hfpost)).
  rewrite (reverseSequences_leaves _ (flat_pushes_leaves pre Hfpre)).
  reflexivity.
Qed.

Lemma bracket_free_rule_witness :
  let rule := plain "ZW * SP ÷ any" in
  (RuleParser.split (raw_str rule) = ["ZW"; "*"; "SP"] ++ "÷" :: ["any"]
   /\ Forall (fun t => flat_token t = true) (["ZW"; "*"; "SP"] ++ "÷" :: ["any"])
   /\ Forall (fun t => verdict_of t = None) ["ZW"; "*"; "SP"]
   /\ verdict_of "÷" <> None)
  /\ RuleParser.parseRule rule
     = Ok {| before := TSequence [TModifier "*"; TClass "SP"; TClass "ZW"];
             after := TSequence [TBase "any"];
             name := None;
             side_effect := None;
             result := Some BreakType.ALLOWED |}.
Proof.
  cbv zeta.
  assert (H1 : RuleParser.split (raw_str (plain "ZW * SP ÷ any"))
               = ["ZW"; "*"; "SP"] ++ "÷" :: ["any"]) by reflexivity.
  assert (H2 : Forall (fun t => flat_token t = true)
                 (["ZW"; "*"; "SP"] ++ "÷" :: ["any"]))
    by (repeat constructor).
  assert (H3 : Forall (fun t => verdict_of t = None) ["ZW"; "*"; "SP"])
    by (repeat constructor).
  assert (H4 : verdict_of "÷" <> None) by (vm_compute; congruence).
  split; [auto|].
  exact (bracket_free_rule _ _ _ _ H1 H2 H3 H4).
Defined.

Section ParseErrors.

Variable tokens : list string.

Lemma parse_loop_throws (e : string) : forall pre rest k i b,
  skipn i tokens = pre ++ rest ->
  rest <> [] ->
  (List.length pre < k)%nat ->
  Forall (fun t => flat_token t = true) pre ->
  RuleParser.parseToken (S (List.length tokens)) tokens (i + List.length pre) = Throw e ->
  RuleParser.parse_loop k tokens i b = Throw e.
Proof.
  induction pre as [|t pre IH]; intros rest k i b Hskip Hrest Hk Hflat Hthrow;
    (destruct k as [|k]; [cbn [List.length] in Hk; lia|]); cbn [RuleParser.parse_loop];
    cbn [app List.length] in Hskip, Hthrow, Hk.
  - destruct rest as [|r rest]; [congruence|].
    destruct (skipn_cons _ _ _ _ Hskip) as (_ & _ & Hi).
    replace (Nat.ltb i (List.length tokens)) with true
      by (symmetry; apply Nat.ltb_lt; exact Hi).
    rewrite Nat.add_0_r in Hthrow. rewrite Hthrow. reflexivity.
  - destruct (skipn_cons _ _ _ _ Hskip) as (Hnth & Hskip' & Hi).
    replace (Nat.ltb i (List.length tokens)) with true
      by (symmetry; apply Nat.ltb_lt; exact Hi).
    inversion Hflat as [|? ? Ht Hl]; subst.
    destruct (parseToken_flat_parsed (List.length tokens) tokens i t Hnth Ht)
      as (Hp & _).
    rewrite Hp. cbn [bind RuleParser.next_i].
    apply (IH rest k (S i) _ Hskip' Hrest); [lia | exact Hl |].
    rewrite <- Hthrow. f_equal. lia.
Qed.

Lemma parseToken_unrecognised f i bad :
  nth_error tokens i = Some bad ->
  flat_token bad = false ->
  bad <> "(" -> bad <> "[" ->
  RuleParser.parseToken (S f) tokens i = Throw Error.
Proof.
  intros Hnth Hflat Hp Hb. cbn [RuleParser.parseToken]. rewrite Hnth.
  revert Hflat. unfold flat_token, verdict_of.
  destruct (String.eqb bad RuleParser.FORBIDDEN_SYMBOL); [discriminate|].
  destruct (String.eqb bad RuleParser.MANDATORY_SYMBOL); [discriminate|].
  destruct (String.eqb bad RuleParser.ALLOWED_SYMBOL); [discriminate|].
  destruct (String.eqb bad "any"); [cbn; discriminate|].
  destruct (String.eqb bad "sot"); [cbn; discriminate|].
  destruct (String.eqb bad "eot"); [cbn; discriminate|].
  destruct (String.eqb bad "eastasian"); [cbn; discriminate|].
  destruct (String.eqb bad "extpict"); [cbn; discriminate|].
  destruct (RuleParser.is_codepoint_token bad); [cbn; discriminate|].
  destruct (RuleParser.is_gc_token bad); [cbn; discriminate|].
  destruct (RuleParser.is_class_token bad); [cbn; discriminate|].
  destruct (String.eqb bad "^"); [cbn; discriminate|].
  destruct (String.eqb bad "&"); [cbn; discriminate|].
  destruct (String.eqb bad "-"); [cbn; discriminate|].
  destruct (String.eqb bad "*"); [cbn; discriminate|].
  destruct (String.eqb bad "|"); [cbn; discriminate|].
  destruct (String.eqb_spec bad "("); [contradiction|].
  destruct (String.eqb bad ")"); [cbn; discriminate|].
  destruct (String.eqb_spec bad "["); [contradiction|].
  destruct (String.eqb bad "]"); [cbn; discriminate|].
  intros _. reflexivity.
Qed.

Lemma parse_group_unclosed closer f : forall l k i content rs,
  skipn i tokens = l ->
  Forall (fun t => flat_token t = true) l ->
  ~ In closer l ->
  (List.length l < k)%nat ->
  RuleParser.parse_group (RuleParser.parseToken (S f) tokens) k tokens closer i content rs
  = Throw TypeError.
Proof.
  induction l as [|t l IH]; intros k i content rs Hskip Hflat Hnot Hk;
    (destruct k as [|k]; [cbn [List.length] in Hk; lia|]);
    cbn [RuleParser.parse_group].
  - apply skipn_nil in Hskip.
    assert (Hnone : nth_error tokens i = None) by (apply nth_error_None; exact Hskip).
    rewrite Hnone. cbn [RuleParser.parseToken]. rewrite Hnone. reflexivity.
  - destruct (skipn_cons _ _ _ _ Hskip) as (Hnth & Hskip' & Hi).
    rewrite Hnth.
    replace (String.eqb t closer) with false
      by (symmetry; apply String.eqb_neq; intros ->; apply Hnot; left; reflexivity).
    inversion Hflat as [|? ? Ht Hl]; subst.
    destruct (parseToken_flat_parsed f tokens i t Hnth Ht) as (Hp & _).
    rewrite Hp. cbn [bind RuleParser.next_i].
    apply IH; [reflexivity | exact Hl | | cbn [List.length] in Hk; lia].
    intros Hin. apply Hnot. right. exact Hin.
Qed.

Lemma parseToken_unclosed f i opener closer post :
  (opener = "(" /\ closer = ")") \/ (opener = "[" /\ closer = "]") ->
  nth_error tokens i = Some opener ->
  skipn (S i) tokens = post ->
  Forall (fun t => flat_token t = true) post ->
  ~ In closer post ->
  (List.length post < S f)%nat ->
  RuleParser.parseToken (S (S f)) tokens i = Throw TypeError.
Proof.
  intros Hoc Hnth Hskip Hflat Hnot Hlen.
  pose proof (parse_group_unclosed closer f post (S f) (S i) [] None Hskip Hflat Hnot Hlen)
    as Hg.
  assert (Hopen : RuleParser.parseToken (S (S f)) tokens i
                  = (g <- RuleParser.parse_group (RuleParser.parseToken (S f) tokens)
                            (S f) tokens closer (S i) [] None ;;
                     let '(content, r, j) := g in
                     Ok {| RuleParser.pushed :=
                             Some (if String.eqb opener "(" then TSet content
                                   else TSequence content);
                           RuleParser.set_result := r;
                           RuleParser.to_after := false;
                           RuleParser.next_i := S j |})).
  { destruct Hoc as [[-> ->] | [-> ->]];
      (etransitivity; [cbn [RuleParser.parseToken]; rewrite Hnth|]); reflexivity. }
  rewrite Hopen, Hg. reflexivity.
Qed.

End ParseErrors.

(** X21. A token that [parseToken] does not recognise makes [parseRule] throw
    an [Error], wherever it stands in a rule string whose tokens before it
    are recognised ones outside brackets. *)
Theorem unrecognised_token_throws (rule : rawRule) (pre post : list string)
    (bad : string) :
  RuleParser.split (raw_str rule) = pre ++ bad :: post ->
  Forall (fun t => flat_token t = true) pre ->
  flat_token bad = false ->
  bad <> "(" -> bad <> "[" ->
  RuleParser.parseRule rule = Throw Error.
Proof.
  intros Hsplit Hflat Hbad Hp Hb. unfold RuleParser.parseRule. rewrite Hsplit.
  rewrite (parse_loop_throws (pre ++ bad :: post) Error pre (bad :: post) _ 0 _ eq_refl);
    [reflexivity | discriminate | rewrite length_app; cbn [List.length]; lia
     | exact Hflat |].
  apply (parseToken_unrecognised _ _ _ bad); [|exact Hbad | exact Hp | exact Hb].
  cbn [Nat.add]. rewrite nth_error_app2 by lia. rewrite Nat.sub_diag. reflexivity.
Qed.

Lemma unrecognised_token_throws_witness :
  let rule := plain "sot × anything" in
  (RuleParser.split (raw_str rule) = ["sot"; "×"] ++ "anything" :: []
   /\ Forall (fun t => flat_token t = true) ["sot"; "×"]
   /\ flat_token "anything" = false
   /\ "anything" <> "(" /\ "anything" <> "[")
  /\ RuleParser.parseRule rule = Throw Error.
Proof.
  cbv zeta.
  assert (H1 : RuleParser.split (raw_str (plain "sot × anything"))
               = ["sot"; "×"] ++ "anything" :: []) by reflexivity.
  assert (H2 : Forall (fun t => flat_token t = true) ["sot"; "×"])
    by (repeat constructor).
  assert (H3 : flat_token "anything" = false) by reflexivity.
  assert (H4 : "anything" <> "(") by discriminate.
  assert (H5 : "anything" <> "[") by discriminate.
  split; [auto|].
  exact (unrecognised_token_throws _ _ _ _ H1 H2 H3 H4 H5).
Defined.

(** The tokens are cut at every character of [\s], not at the ASCII ones
    only: written with no-break spaces (U+00A0), or with an ideographic space
    (U+3000) and a line separator (U+2028), the rule [any × any] has the same
    three tokens and parses to the same rule object. *)
Example split_at_other_white_space :
  RuleParser.split "any × any" = ["any"; "×"; "any"]
  /\ RuleParser.split "any　× any" = ["any"; "×"; "any"]
  /\ RuleParser.parseRule (plain "any × any")
     = RuleParser.parseRule (plain "any × any").
Proof. repeat split; vm_compute; reflexivity. Qed.

(** X22. An opening bracket that is never closed makes [parseRule] throw a
    TypeError: the loop of the bracket runs past the last token and reads
    [undefined], on which [token.match] is called. *)
Theorem unclosed_bracket_throws (rule : rawRule) (pre post : list string)
    (opener closer : string) :
  (opener = "(" /\ closer = ")") \/ (opener = "[" /\ closer = "]") ->
  RuleParser.split (raw_str rule) = pre ++ opener :: post ->
  Forall (fun t => flat_token t = true) pre ->
  Forall (fun t => flat_token t = true) post ->
  ~ In closer post ->
  RuleParser.parseRule rule = Throw TypeError.
Proof.
  intros Hoc Hsplit Hpre Hpost Hnot. unfold RuleParser.parseRule. rewrite Hsplit.
  rewrite (parse_loop_throws (pre ++ opener :: post) TypeError pre (opener :: post)
             _ 0 _ eq_refl);
    [reflexivity | discriminate | rewrite length_app; cbn [List.length]; lia
     | exact Hpre |].
  cbn [Nat.add].
  assert (Hlen : List.length (pre ++ opener :: post)
                 = S (List.length pre + List.length post))
    by (rewrite length_app; cbn [List.length]; lia).
  rewrite Hlen.
  apply (parseToken_unclosed (pre ++ opener :: post) _ _ opener closer post Hoc).
  - rewrite nth_error_app2 by lia. rewrite Nat.sub_diag. reflexivity.
  - rewrite skipn_app, skipn_all2 by lia.
    replace (S (List.length pre) - List.length pre)%nat with 1%nat by lia.
    reflexivity.
  - exact Hpost.
  - exact Hnot.
  - lia.
Qed.

Lemma unclosed_bracket_throws_witness :
  let rule := plain "( CR | LF ! any" in
  ((("(" = "(" /\ ")" = ")") \/ ("(" = "[" /\ ")" = "]"))
   /\ RuleParser.split (raw_str rule) = [] ++ "(" :: ["CR"; "|"; "LF"; "!"; "any"]
   /\ Forall (fun t => flat_token t = true) []
   /\ Forall (fun t => flat_token t = true) ["CR"; "|"; "LF"; "!"; "any"]
   /\ ~ In ")" ["CR"; "|"; "LF"; "!"; "any"])
  /\ RuleParser.parseRule rule = Throw TypeError.
Proof.
  cbv zeta.
  assert (H0 : ("(" = "(" /\ ")" = ")") \/ ("(" = "[" /\ ")" = "]"))
    by (left; split; reflexivity).
  assert (H1 : RuleParser.split (raw_str (plain "( CR | LF ! any"))
               = [] ++ "(" :: ["CR"; "|"; "LF"; "!"; "any"]) by reflexivity.
  assert (H2 : Forall (fun t => flat_token t = true) []) by constructor.
  assert (H3 : Forall (fun t => flat_token t = true) ["CR"; "|"; "LF"; "!"; "any"])
    by (repeat constructor).
  assert (H4 : ~ In ")" ["CR"; "|"; "LF"; "!"; "any"])
    by (cbn [In]; intros [H | [H | [H | [H | [H | []]]]]]; discriminate H).
  split; [auto 6|].
  exact (unclosed_bracket_throws _ _ _ _ _ H0 H1 H2 H3 H4).
Defined.

(** ** Spaces and combining marks *)

Section CombiningMarks.

Variable data : unicodeData.

Lemma consumeToken_caret f this content next i step prev_result :
  consumeToken data (S f) this (TModifier "^") i step (Some content) prev_result next
  = (op <- operand (Some content) next ;;
     r <- consumeToken data f this op i step (Some content) prev_result (S next) ;;
     Ok {| c_result := negb (c_result r); index := index r;
           next_token_index := Some (nullish (next_token_index r) (S next)) |}).
Proof. reflexivity. Qed.


Lemma consume_negated_set this l f i step parent prev next :
  Forall (fun t => single t = true) l ->
  consumeToken data (S (S (S (S (List.length l + f))))) this
    (TSequence [TModifier "^"; TSet l]) i step parent prev next
  = Ok (if existsb (fun t => matches data this t i) l
        then simple false i
        else simple true (num_add i (Int step))).
Proof.
  intros Hl. rewrite consumeToken_sequence. cbn [sequence_loop nth_error].
  rewrite consumeToken_caret. cbn [operand nth_error bind].
  rewrite (set_single_result data this l f i step _ _ _ Hl).
  cbn [bind c_result simple index next_token_index nullish negb].
  destruct (existsb (fun t => matches data this t i) l); reflexivity.
Qed.




(** LB9 where it matches: no side effect is called. *)
Lemma checkRule_LB9_matches this f j :
  0 < j ->
  existsb (fun c => checkClass this c (Int (j - 1))) ["BK"; "CR"; "LF"; "NL"; "SP"; "ZW"]
  = false ->
  checkClass this "CM" (Int j) || checkClass this "ZWJ" (Int j) = true ->
  checkRule data (S (S (S (S (S (S (S (S (S (S (S f))))))))))) this LB9 (Int j)
  = Ok (Some BreakType.FORBIDDEN, this).
Proof.
  intros Hj Hu Hv. unfold checkRule, LB9. cbn [before after side_effect result name].
  pose proof (consume_negated_set this
                [TBase "sot"; TClass "BK"; TClass "CR"; TClass "LF"; TClass "NL";
                 TClass "SP"; TClass "ZW"] f) as Hb.
  cbn [List.length Nat.add] in Hb. rewrite Hb by (repeat constructor). clear Hb.
  cbn [existsb matches String.eqb Ascii.eqb Bool.eqb orb andb num_sub num_ltb].
  replace (j - 1 <? 0) with false by (symmetry; apply Z.ltb_ge; lia).
  cbn [existsb orb] in Hu. cbn [orb]. rewrite Hu.
  cbn [bind c_result simple].
  pose proof (consume_sequence_of_set data this [TClass "CM"; TClass "ZWJ"]
                (S (S (S (S (S (S f))))))) as Ha.
  cbn [List.length Nat.add] in Ha. rewrite Ha by (repeat constructor). clear Ha.
  cbn [existsb matches]. rewrite orb_false_r, Hv. reflexivity.
Qed.

End CombiningMarks.

Section SpacesAndMarks.

Variable data : unicodeData.


End SpacesAndMarks.


(** ** The code point of a surrogate pair *)

(** X24. On a surrogate pair, [computeCodePointFromSurrogatePair] gives the
    code point [codePointAt] reads at the pair, the one [setCodePoints] stores
    for it; it lies in the supplementary planes. *)
Theorem surrogate_pair_code_point (high low : Z) :
  isSurrogatePair high low = true ->
  codePointAt [high; low] 0 = Some (computeCodePointFromSurrogatePair high low)
  /\ fst (setCodePoints [high; low])
     = [Some (computeCodePointFromSurrogatePair high low)]
  /\ 0x10000 <= computeCodePointFromSurrogatePair high low <= 0x10FFFF.
Proof.
  intros H. unfold isSurrogatePair in H.
  apply andb_true_iff in H. destruct H as [H H4].
  apply andb_true_iff in H. destruct H as [H H3].
  apply andb_true_iff in H. destruct H as [H1 H2].
  assert (Hc : computeCodePointFromSurrogatePair high low
               = (high - 0xd800) * 0x400 + (low - 0xdc00) + 0x10000).
  { unfold computeCodePointFromSurrogatePair. rewrite !Z.shiftl_mul_pow2 by lia.
    change (2 ^ 10) with 1024. lia. }
  assert (Hat : codePointAt [high; low] 0
                = Some (computeCodePointFromSurrogatePair high low)).
  { unfold codePointAt. cbn [nth_error]. rewrite H1, H2, H3, H4. cbn [andb].
    rewrite Hc. reflexivity. }
  apply Z.leb_le in H1, H2, H3, H4.
  split; [exact Hat|]. split; [|rewrite Hc; lia].
  assert (Hwf : wf_text [high; low])
    by (repeat (apply Forall_cons; [lia|]); apply Forall_nil).
  rewrite (setCodePoints_as_decode _ Hwf). cbn [fst].
  rewrite decode_pair
    by (unfold isSurrogatePair; repeat (apply andb_true_iff; split); apply Z.leb_le; lia).
  cbn [fst decode map]. rewrite Hc. reflexivity.
Qed.

Lemma surrogate_pair_code_point_witness :
  isSurrogatePair 0xd83c 0xddeb = true
  /\ codePointAt [0xd83c; 0xddeb] 0 = Some 0x1f1eb
  /\ fst (setCodePoints [0xd83c; 0xddeb]) = [Some 0x1f1eb].
Proof.
  assert (H : isSurrogatePair 0xd83c 0xddeb = true) by reflexivity.
  split; [exact H|].
  split.
  - exact (proj1 (surrogate_pair_code_point _ _ H)).
  - exact (proj1 (proj2 (surrogate_pair_code_point _ _ H))).
Defined.

(** ** The parser: a bracketed left side *)

Section Brackets.

Variable tokens : list string.

Lemma parse_group_flat closer f : forall inner k i content rs rest,
  skipn i tokens = inner ++ closer :: rest ->
  Forall (fun t => flat_token t = true) inner ->
  Forall (fun t => verdict_of t = None) inner ->
  ~ In closer inner ->
  (List.length inner < k)%nat ->
  RuleParser.parse_group (RuleParser.parseToken (S f) tokens) k tokens closer i content rs
  = Ok (content ++ flat_map pushed_of inner, rs, (i + List.length inner)%nat).
Proof.
  induction inner as [|t inner IH]; intros k i content rs rest Hskip Hflat Hnov Hnot Hk;
    (destruct k as [|k]; [cbn [List.length] in Hk; lia|]);
    cbn [RuleParser.parse_group]; cbn [app] in Hskip;
    destruct (skipn_cons _ _ _ _ Hskip) as (Hnth & Hskip' & Hi); rewrite Hnth.
  - rewrite String.eqb_refl. cbn [flat_map List.length].
    rewrite app_nil_r, Nat.add_0_r. reflexivity.
  - replace (String.eqb t closer) with false
      by (symmetry; apply String.eqb_neq; intros ->; apply Hnot; left; reflexivity).
    inversion Hflat as [|? ? Ht Hl]; subst.
    inversion Hnov as [|? ? Hvt Hnov']; subst.
    destruct (parseToken_flat_parsed f tokens i t Hnth Ht) as (Hp & _ & Hlen & _).
    rewrite Hp. cbn [bind RuleParser.next_i].
    rewrite (IH k (S i) _ _ rest Hskip' Hl Hnov');
      [| intros Hin; apply Hnot; right; exact Hin | cbn [List.length] in Hk; lia].
    unfold RuleParser.append_pushed, RuleParser.later_result.
    cbn [RuleParser.pushed RuleParser.set_result flat_map List.length].
    rewrite Hvt.
    replace (S i + List.length inner)%nat with (i + S (List.length inner))%nat by lia.
    destruct (pushed_of t) as [|x [|y l]];
      [| |cbn [List.length] in Hlen; lia];
      cbn [app]; rewrite <- ?app_assoc; reflexivity.
Qed.

Lemma parseToken_group f i opener closer inner rest :
  (opener = "(" /\ closer = ")") \/ (opener = "[" /\ closer = "]") ->
  nth_error tokens i = Some opener ->
  skipn (S i) tokens = inner ++ closer :: rest ->
  Forall (fun t => flat_token t = true) inner ->
  Forall (fun t => verdict_of t = None) inner ->
  ~ In closer inner ->
  (List.length inner < S f)%nat ->
  RuleParser.parseToken (S (S f)) tokens i
  = Ok {| RuleParser.pushed :=
            Some (if String.eqb opener "(" then TSet (flat_map pushed_of inner)
                  else TSequence (flat_map pushed_of inner));
          RuleParser.set_result := None;
          RuleParser.to_after := false;
          RuleParser.next_i := S (S i + List.length inner) |}.
Proof.
  intros Hoc Hnth Hskip Hflat Hnov Hnot Hlen.
  pose proof (parse_group_flat closer f inner (S f) (S i) [] None rest
                Hskip Hflat Hnov Hnot Hlen) as Hg.
  cbn [app] in Hg.
  assert (Hopen : RuleParser.parseToken (S (S f)) tokens i
                  = (g <- RuleParser.parse_group (RuleParser.parseToken (S f) tokens)
                            (S f) tokens closer (S i) [] None ;;
                     let '(content, r, j) := g in
                     Ok {| RuleParser.pushed :=
                             Some (if String.eqb opener "(" then TSet content
                                   else TSequence content);
                           RuleParser.set_result := r;
                           RuleParser.to_after := false;
                           RuleParser.next_i := S j |})).
  { destruct Hoc as [[-> ->] | [-> ->]];
      (etransitivity; [cbn [RuleParser.parseToken]; rewrite Hnth|]); reflexivity. }
  rewrite Hopen, Hg. reflexivity.
Qed.

Lemma parse_loop_step k i b :
  RuleParser.parse_loop (S k) tokens i b
  = if Nat.ltb i (List.length tokens) then
      p <- RuleParser.parseToken (S (List.length tokens)) tokens i ;;
      RuleParser.parse_loop k tokens (RuleParser.next_i p) (RuleParser.apply_parsed b p)
    else Ok b.
Proof. reflexivity. Qed.

End Brackets.

(** X25. A rule string whose left side is one bracketed group of tokens:
    for [[ ... ]], [cleanPart] unwraps the nested sequence, and [parseRule]
    gives the rule it gives for the same string without the brackets; for
    [( ... )], [before] is a sequence holding the one set. *)
Theorem bracketed_left_side (rule : rawRule) (opener closer v : string)
    (inner post : list string) :
  (opener = "(" /\ closer = ")") \/ (opener = "[" /\ closer = "]") ->
  RuleParser.split (raw_str rule) = opener :: inner ++ closer :: v :: post ->
  Forall (fun t => flat_token t = true) inner ->
  Forall (fun t => verdict_of t = None) inner ->
  ~ In closer inner ->
  verdict_of v <> None ->
  Forall (fun t => flat_token t = true) post ->
  RuleParser.parseRule rule
  = Ok {| before :=
            if String.eqb opener "("
            then TSequence [TSet (flat_map pushed_of inner)]
            else TSequence (RuleParser.reverse_content (flat_map pushed_of inner));
          after := TSequence (flat_map pushed_of post);
          name := raw_name rule;
          side_effect := raw_side_effect rule;
          result := last_verdict None (v :: post) |}.
Proof.
  intros Hoc Hsplit Hinner Hnov Hnot Hv Hpost.
  unfold RuleParser.parseRule. rewrite Hsplit.
  set (tokens := opener :: inner ++ closer :: v :: post).
  assert (Hlen : List.length tokens = S (List.length inner + S (S (List.length post)))).
  { subst tokens. cbn [List.length]. rewrite length_app. cbn [List.length]. lia. }
  assert (Hvflat : flat_token v = true).
  { unfold flat_token. destruct (verdict_of v); [reflexivity | congruence]. }
  rewrite parse_loop_step.
  replace (Nat.ltb 0 (List.length tokens)) with true
    by (symmetry; apply Nat.ltb_lt; lia).
  rewrite Hlen.
  rewrite (parseToken_group tokens _ 0 opener closer inner (v :: post) Hoc eq_refl
             eq_refl Hinner Hnov Hnot) by lia.
  cbn [bind RuleParser.next_i].
  rewrite (parse_loop_before tokens [] v post _ _ _);
    [| | cbn [List.length app]; lia | reflexivity
     | constructor; [exact Hvflat | exact Hpost] | constructor | exact Hv].
  - unfold RuleParser.apply_parsed, RuleParser.append_pushed.
    cbn [bind RuleParser.pushed RuleParser.in_after RuleParser.b_before
         RuleParser.b_after RuleParser.b_result flat_map app].
    rewrite (cleanPart_leaves _ (flat_pushes_leaves post Hpost)).
    pose proof (flat_pushes_leaves inner Hinner) as Hleaves.
    pose proof (cleanPart_leaves _ Hleaves) as Hclean.
    assert (Hmap : map RuleParser.cleanPart (flat_map pushed_of inner)
                   = flat_map pushed_of inner).
    { clear - Hleaves. induction Hleaves as [|x l Hx Hl IH]; [reflexivity|].
      cbn [map]. rewrite IH. destruct x; try reflexivity; discriminate. }
    assert (Hrev : map RuleParser.reverseSequences (flat_map pushed_of inner)
                   = flat_map pushed_of inner).
    { clear - Hleaves. induction Hleaves as [|x l Hx Hl IH]; [reflexivity|].
      cbn [map]. rewrite IH. destruct x; try reflexivity; discriminate. }
    destruct Hoc as [[-> ->] | [-> ->]]; cbn [String.eqb Ascii.eqb Bool.eqb].
    + assert (Hset : RuleParser.cleanPart (TSet (flat_map pushed_of inner))
                     = TSet (flat_map pushed_of inner)).
      { destruct (flat_map pushed_of inner) as [|x [|y l]] eqn:E; [reflexivity | |].
        - inversion Hleaves as [|? ? Hx _]; subst.
          destruct x; try reflexivity; discriminate.
        - cbn [RuleParser.cleanPart]. destruct x; rewrite Hmap; reflexivity. }
      change (RuleParser.cleanPart (TSequence [TSet (flat_map pushed_of inner)]))
        with (TSequence [RuleParser.cleanPart (TSet (flat_map pushed_of inner))]).
      rewrite Hset. cbn [RuleParser.reverseSequences map]. rewrite Hrev. reflexivity.
    + change (RuleParser.cleanPart (TSequence [TSequence (flat_map pushed_of inner)]))
        with (TSequence (map RuleParser.cleanPart (flat_map pushed_of inner))).
      rewrite Hmap. rewrite (reverseSequences_leaves _ Hleaves). reflexivity.
  - subst tokens.
    change (skipn (S (1 + List.length inner)) (opener :: inner ++ closer :: v :: post))
      with (skipn (S (List.length inner)) (inner ++ closer :: v :: post)).
    rewrite skipn_app, skipn_all2 by lia.
    replace (S (List.length inner) - List.length inner)%nat with 1%nat by lia.
    reflexivity.
Qed.

Lemma bracketed_left_side_witness :
  let rule := plain "[ ZW * SP ] ÷ any" in
  ((("[" = "(" /\ "]" = ")") \/ ("[" = "[" /\ "]" = "]"))
   /\ RuleParser.split (raw_str rule) = "[" :: ["ZW"; "*"; "SP"] ++ "]" :: "÷" :: ["any"]
   /\ Forall (fun t => flat_token t = true) ["ZW"; "*"; "SP"]
   /\ Forall (fun t => verdict_of t = None) ["ZW"; "*"; "SP"]
   /\ ~ In "]" ["ZW"; "*"; "SP"]
   /\ verdict_of "÷" <> None
   /\ Forall (fun t => flat_token t = true) ["any"])
  /\ RuleParser.parseRule rule = Ok LB8
  /\ In LB8 rulesV17.
Proof.
  cbv zeta.
  assert (H0 : ("[" = "(" /\ "]" = ")") \/ ("[" = "[" /\ "]" = "]"))
    by (right; split; reflexivity).
  assert (H1 : RuleParser.split (raw_str (plain "[ ZW * SP ] ÷ any"))
               = "[" :: ["ZW"; "*"; "SP"] ++ "]" :: "÷" :: ["any"]) by reflexivity.
  assert (H2 : Forall (fun t => flat_token t = true) ["ZW"; "*"; "SP"])
    by (repeat constructor).
  assert (H3 : Forall (fun t => verdict_of t = None) ["ZW"; "*"; "SP"])
    by (repeat constructor).
  assert (H4 : ~ In "]" ["ZW"; "*"; "SP"])
    by (cbn [In]; intros [H | [H | [H | []]]]; discriminate H).
  assert (H5 : verdict_of "÷" <> None) by (vm_compute; congruence).
  assert (H6 : Forall (fun t => flat_token t = true) ["any"]) by (repeat constructor).
  split; [auto 8|].
  split; [|vm_compute; tauto].
  exact (bracketed_left_side _ _ _ _ _ _ H0 H1 H2 H3 H4 H5 H6).
Defined.

(** ** Unrecognised tokens are rejected by the parser, not by the matcher *)

Lemma token_induction (P : token -> Prop) :
  (forall t, leaf t = true -> P t) ->
  (forall content, Forall P content -> P (TSet content)) ->
  (forall content, Forall P content -> P (TSequence content)) ->
  forall t, P t.
Proof.
  intros Hleaf Hset Hseq. fix IH 1. intros t.
  destruct t as [c| | |c|c|c|c|content|content];
    try (apply Hleaf; reflexivity).
  - apply Hset. induction content as [|x l IHl]; constructor; [apply IH | exact IHl].
  - apply Hseq. induction content as [|x l IHl]; constructor; [apply IH | exact IHl].
Qed.

Lemma forallb_known_map (g : token -> token) content :
  Forall (fun t => known t = true -> known (g t) = true) content ->
  forallb known content = true ->
  forallb known (map g content) = true.
Proof.
  induction 1 as [|x l Hx Hl IH]; intros H; [reflexivity|].
  cbn [forallb map] in *. apply andb_true_iff in H. destruct H as [H1 H2].
  rewrite (Hx H1), (IH H2). reflexivity.
Qed.

Lemma cleanPart_known_items : forall t,
  known t = true ->
  known (RuleParser.cleanPart t) = true
  /\ match t with
     | TSet content | TSequence content =>
         forallb known (map RuleParser.cleanPart content) = true
     | _ => True
     end.
Proof.
  apply (token_induction
           (fun t => known t = true ->
                     known (RuleParser.cleanPart t) = true
                     /\ match t with
                        | TSet content | TSequence content =>
                            forallb known (map RuleParser.cleanPart content) = true
                        | _ => True
                        end)).
  - intros t Hl Hk. destruct t; try (split; [exact Hk | exact I]); discriminate Hl.
  - intros content IH Hk. cbn [known] in Hk.
    assert (Hmap : forallb known (map RuleParser.cleanPart content) = true).
    { apply forallb_known_map; [|exact Hk].
      rewrite Forall_forall in *. intros x Hx Hkx. apply (IH x Hx Hkx). }
    split; [|exact Hmap].
    destruct content as [|x rest]; [reflexivity|].
    destruct x; try exact Hmap.
    destruct rest as [|y l]; [|exact Hmap].
    inversion IH as [|? ? Hx _]; subst.
    cbn [forallb] in Hk. rewrite andb_true_r in Hk.
    exact (proj2 (Hx Hk)).
  - intros content IH Hk. cbn [known] in Hk.
    assert (Hmap : forallb known (map RuleParser.cleanPart content) = true).
    { apply forallb_known_map; [|exact Hk].
      rewrite Forall_forall in *. intros x Hx Hkx. apply (IH x Hx Hkx). }
    split; [|exact Hmap].
    destruct content as [|x rest]; [reflexivity|].
    destruct x; try exact Hmap.
    destruct rest as [|y l]; [|exact Hmap].
    inversion IH as [|? ? Hx _]; subst.
    cbn [forallb] in Hk. rewrite andb_true_r in Hk.
    exact (proj2 (Hx Hk)).
Qed.

Lemma cleanPart_known t : known t = true -> known (RuleParser.cleanPart t) = true.
Proof. intros H. apply cleanPart_known_items. exact H. Qed.

Lemma swap_modifiers_known : forall rest prev,
  known prev = true ->
  forallb known rest = true ->
  forallb known (RuleParser.swap_modifiers prev rest) = true.
Proof.
  induction rest as [|t rest IH]; intros prev Hp Hr;
    cbn [RuleParser.swap_modifiers forallb] in *.
  - rewrite Hp. reflexivity.
  - apply andb_true_iff in Hr. destruct Hr as [Ht Hr].
    destruct (RuleParser.is_modifier t); cbn [forallb].
    + rewrite Ht. apply IH; assumption.
    + rewrite Hp. apply IH; assumption.
Qed.

Lemma reverse_content_known content :
  forallb known content = true ->
  forallb known (RuleParser.reverse_content content) = true.
Proof.
  intros H. unfold RuleParser.reverse_content.
  assert (Hrev : forallb known (rev content) = true).
  { rewrite forallb_forall in *. intros x Hx. apply H. apply in_rev. exact Hx. }
  destruct (rev content) as [|t rest]; [reflexivity|].
  cbn [forallb] in Hrev. apply andb_true_iff in Hrev. destruct Hrev as [Ht Hrest].
  apply swap_modifiers_known; assumption.
Qed.

Lemma reverseSequences_known : forall t,
  known t = true -> known (RuleParser.reverseSequences t) = true.
Proof.
  apply (token_induction
           (fun t => known t = true -> known (RuleParser.reverseSequences t) = true)).
  - intros t Hl Hk. destruct t; try exact Hk; discriminate Hl.
  - intros content IH Hk. cbn [known RuleParser.reverseSequences] in *.
    apply forallb_known_map; assumption.
  - intros content IH Hk. cbn [known RuleParser.reverseSequences] in *.
    apply reverse_content_known. apply forallb_known_map; assumption.
Qed.

Lemma parse_group_known (rec : nat -> res RuleParser.parsed) tokens closer :
  (forall i p t, rec i = Ok p -> RuleParser.pushed p = Some t -> known t = true) ->
  forall k j content rs content' rs' j',
    RuleParser.parse_group rec k tokens closer j content rs = Ok (content', rs', j') ->
    forallb known content = true ->
    forallb known content' = true.
Proof.
  intros Hrec.
  induction k as [|k IH]; intros j content rs content' rs' j' H Hk;
    cbn [RuleParser.parse_group] in H; [discriminate|].
  destruct (match nth_error tokens j with
            | Some t => String.eqb t closer
            | None => false
            end).
  - inversion H; subst. exact Hk.
  - apply bind_Ok in H. destruct H as (p & Hp & H).
    apply IH in H; [exact H|].
    unfold RuleParser.append_pushed.
    destruct (RuleParser.pushed p) as [t|] eqn:Et; [|exact Hk].
    rewrite forallb_app, Hk. cbn [forallb andb].
    rewrite (Hrec j p t Hp Et). reflexivity.
Qed.

Lemma parseToken_known tokens :
  forall f i p t,
    RuleParser.parseToken f tokens i = Ok p ->
    RuleParser.pushed p = Some t ->
    known t = true.
Proof.
  induction f as [|f IH]; intros i p t H Hpushed; cbn [RuleParser.parseToken] in H;
    [discriminate|].
  destruct (nth_error tokens i) as [tok|] eqn:Et; [|discriminate].
  assert (Hg : forall closer mk,
    (forall content, forallb known content = true -> known (mk content) = true) ->
    (g <- RuleParser.parse_group (RuleParser.parseToken f tokens) f tokens closer
            (S i) [] None ;;
     let '(content, r, j) := g in
     Ok {| RuleParser.pushed := Some (mk content); RuleParser.set_result := r;
           RuleParser.to_after := false; RuleParser.next_i := S j |}) = Ok p ->
    known t = true).
  { intros closer mk Hmk Hp. apply bind_Ok in Hp.
    destruct Hp as ([[content r] j] & Hgr & Hp). inversion Hp; subst.
    cbn [RuleParser.pushed] in Hpushed. inversion Hpushed; subst.
    apply Hmk. eapply parse_group_known; [|exact Hgr|reflexivity].
    intros i0 p0 t0 H0 Ht0. eapply IH; eassumption. }
  repeat match type of H with
         | (if ?c then _ else _) = _ => destruct c eqn:?
         end;
    try (inversion H; subst; cbn in Hpushed; inversion Hpushed; subst;
         cbn [known]; first [assumption | reflexivity]);
    try (eapply (Hg _ TSet); [intros content Hc; exact Hc | exact H]);
    try (eapply (Hg _ TSequence); [intros content Hc; exact Hc | exact H]).
Qed.

Lemma parse_loop_known tokens : forall k i b b',
  RuleParser.parse_loop k tokens i b = Ok b' ->
  forallb known (RuleParser.b_before b) = true ->
  forallb known (RuleParser.b_after b) = true ->
  forallb known (RuleParser.b_before b') = true
  /\ forallb known (RuleParser.b_after b') = true.
Proof.
  induction k as [|k IH]; intros i b b' H Hb Ha; [discriminate|].
  rewrite parse_loop_step in H.
  destruct (Nat.ltb i (List.length tokens)); [|inversion H; subst; auto].
  apply bind_Ok in H. destruct H as (p & Hp & H).
  apply IH in H; [exact H | |];
    unfold RuleParser.apply_parsed, RuleParser.append_pushed;
    cbn [RuleParser.b_before RuleParser.b_after];
    destruct (RuleParser.in_after b); try assumption;
    (destruct (RuleParser.pushed p) as [t|] eqn:Et; [|assumption]);
    rewrite forallb_app; cbn [forallb]; rewrite (parseToken_known _ _ _ _ _ Hp Et);
    rewrite ?Hb, ?Ha; reflexivity.
Qed.

Lemma parseRule_known rule o :
  RuleParser.parseRule rule = Ok o ->
  known (before o) = true /\ known (after o) = true.
Proof.
  unfold RuleParser.parseRule. intros H.
  apply bind_Ok in H. destruct H as (b & Hb & H). injection H as <-.
  cbn [before after].
  destruct (parse_loop_known _ _ _ _ _ Hb eq_refl eq_refl) as [H1 H2].
  split.
  - apply (reverseSequences_known
             (RuleParser.cleanPart (TSequence (RuleParser.b_before b)))).
    apply (cleanPart_known (TSequence (RuleParser.b_before b))). exact H1.
  - apply (cleanPart_known (TSequence (RuleParser.b_after b))). exact H2.
Qed.

Lemma parseRules_known : forall raw rs,
  parseRules raw = Ok rs ->
  Forall (fun o => known (before o) = true /\ known (after o) = true) rs.
Proof.
  induction raw as [|r raw IH]; intros rs H; cbn [parseRules] in H.
  - inversion H. constructor.
  - apply bind_Ok in H. destruct H as (o & Ho & H).
    apply bind_Ok in H. destruct H as (os & Hos & H). inversion H; subst.
    constructor; [apply (parseRule_known r o Ho) | apply IH; exact Hos].
Qed.

Lemma bind_no_Error {A B : Type} (m : res A) (k : A -> res B) :
  m <> Throw Error ->
  (forall a, m = Ok a -> k a <> Throw Error) ->
  bind m k <> Throw Error.
Proof.
  intros Hm Hk. destruct m as [a|e|]; cbn [bind].
  - apply Hk. reflexivity.
  - intros He. apply Hm. inversion He. reflexivity.
  - discriminate.
Qed.

Section NoError.

Variable data : unicodeData.
Variable this : checker.

Variable rec : consumer.

Hypothesis rec_no_Error :
  forall tok i step parent prev next,
    known tok = true ->
    (forall c, parent = Some c -> forallb known c = true) ->
    rec tok i step parent prev next <> Throw Error.

Lemma operand_known parent next op :
  (forall c, parent = Some c -> forallb known c = true) ->
  operand parent next = Ok op ->
  known op = true.
Proof.
  intros Hp H. unfold operand in H.
  destruct parent as [content|]; [|discriminate].
  destruct (nth_error content next) as [t|] eqn:Et; [|discriminate].
  inversion H; subst. specialize (Hp content eq_refl).
  rewrite forallb_forall in Hp. apply Hp. eapply nth_error_In. exact Et.
Qed.

Lemma operand_no_Error parent next : operand parent next <> Throw Error.
Proof.
  unfold operand. destruct parent as [content|]; [|discriminate].
  destruct (nth_error content next); discriminate.
Qed.

Lemma star_loop_no_Error : forall k op step parent next r,
  known op = true ->
  (forall c, parent = Some c -> forallb known c = true) ->
  star_loop rec k this op step parent next r <> Throw Error.
Proof.
  induction k as [|k IH]; intros op step parent next r Hop Hp; cbn [star_loop];
    [discriminate|].
  destruct (star_continues this r); [|discriminate].
  apply bind_no_Error; [apply rec_no_Error; assumption|].
  intros r' _. apply IH; assumption.
Qed.

Lemma set_loop_no_Error : forall k content step i prev idx token_i,
  forallb known content = true ->
  set_loop rec k content step i prev idx token_i <> Throw Error.
Proof.
  induction k as [|k IH]; intros content step i prev idx token_i Hc; cbn [set_loop];
    [discriminate|].
  destruct (nth_error content token_i) as [t|] eqn:Et; [|discriminate].
  apply bind_no_Error.
  - apply rec_no_Error.
    + rewrite forallb_forall in Hc. apply Hc. eapply nth_error_In. exact Et.
    + intros c Heq. inversion Heq; subst. exact Hc.
  - intros r _. destruct (c_result r && not_binary_modifier content _); [discriminate|].
    apply IH. exact Hc.
Qed.

Lemma sequence_loop_no_Error : forall k content step i prev idx token_i,
  forallb known content = true ->
  sequence_loop rec k content step i prev idx token_i <> Throw Error.
Proof.
  induction k as [|k IH]; intros content step i prev idx token_i Hc;
    cbn [sequence_loop]; [discriminate|].
  destruct (nth_error content token_i) as [t|] eqn:Et; [|discriminate].
  apply bind_no_Error.
  - apply rec_no_Error.
    + rewrite forallb_forall in Hc. apply Hc. eapply nth_error_In. exact Et.
    + intros c Heq. inversion Heq; subst. exact Hc.
  - intros r _. destruct (negb (c_result r)); [discriminate|].
    apply IH. exact Hc.
Qed.

Lemma consume_body_no_Error k tok i step parent prev next :
  known tok = true ->
  (forall c, parent = Some c -> forallb known c = true) ->
  consume_body data rec k this tok i step parent prev next <> Throw Error.
Proof.
  intros Hk Hp.
  destruct tok as [c| | |c|c|c|c|content|content]; cbn [consume_body];
    try discriminate.
  - unfold checkBase. cbn [known] in Hk.
    destruct (String.eqb c "any"); [discriminate|].
    destruct (String.eqb c "sot"); [discriminate|].
    destruct (String.eqb c "eot"); [discriminate|].
    discriminate Hk.
  - unfold checkExtPict. destruct (aget_opt (codePoints this) i); discriminate.
  - cbn [known] in Hk.
    assert (Hop : forall (k' : token -> res consumed),
               (forall op, known op = true -> k' op <> Throw Error) ->
               bind (operand parent next) k' <> Throw Error).
    { intros k' Hk'. apply bind_no_Error; [apply operand_no_Error|].
      intros op Hoper. apply Hk'. eapply operand_known; eassumption. }
    destruct (String.eqb c "^").
    { apply Hop. intros op Hkop.
      apply bind_no_Error; [apply rec_no_Error; assumption | discriminate]. }
    destruct (String.eqb c "&").
    { destruct (is_false prev); [discriminate|].
      apply Hop. intros op Hkop.
      apply bind_no_Error; [apply rec_no_Error; assumption | discriminate]. }
    destruct (String.eqb c "-").
    { destruct (is_false prev); [discriminate|].
      apply Hop. intros op Hkop.
      apply bind_no_Error; [apply rec_no_Error; assumption | discriminate]. }
    destruct (String.eqb c "*"); [|discriminate Hk].
    apply Hop. intros op Hkop.
    apply bind_no_Error; [apply rec_no_Error; assumption|].
    intros r0 _.
    apply bind_no_Error; [apply star_loop_no_Error; assumption | discriminate].
  - apply set_loop_no_Error. exact Hk.
  - apply sequence_loop_no_Error. exact Hk.
Qed.

End NoError.

Section NoErrorCalls.

Variable data : unicodeData.

Lemma consumeToken_no_Error : forall fuel this tok i step parent prev next,
  known tok = true ->
  (forall c, parent = Some c -> forallb known c = true) ->
  consumeToken data fuel this tok i step parent prev next <> Throw Error.
Proof.
  induction fuel as [|f IH]; intros this tok i step parent prev next Hk Hp;
    cbn [consumeToken]; [discriminate|].
  apply consume_body_no_Error; [|exact Hk | exact Hp].
  intros tok' i' step' parent' prev' next' Hk' Hp'. apply IH; assumption.
Qed.

Lemma checkRule_no_Error fuel this rule idx :
  known (before rule) = true ->
  known (after rule) = true ->
  checkRule data fuel this rule idx <> Throw Error.
Proof.
  intros Hb Ha. unfold checkRule.
  apply bind_no_Error;
    [apply consumeToken_no_Error; [exact Hb | discriminate]|].
  intros b _. apply bind_no_Error.
  - destruct (c_result b); [|discriminate].
    apply consumeToken_no_Error; [exact Ha | discriminate].
  - intros a _. destruct (c_result b && c_result a); [discriminate|].
    destruct (side_effect rule) as [fn|]; [|discriminate].
    apply bind_no_Error; [|discriminate].
    unfold call_side_effect. destruct fn.
    destruct (nullish _ _) as [|[] ?]; discriminate.
Qed.

Lemma rules_loop_no_Error fuel i : forall rs this r,
  Forall (fun o => known (before o) = true /\ known (after o) = true) rs ->
  rules_loop data fuel this rs i r <> Throw Error.
Proof.
  induction rs as [|rule rest IH]; intros this r Hrs; cbn [rules_loop];
    [discriminate|].
  inversion Hrs as [|? ? [Hb Ha] Hrest]; subst.
  apply bind_no_Error; [apply checkRule_no_Error; assumption|].
  intros [r' this'] _. destruct (decided r'); [discriminate|].
  apply IH. exact Hrest.
Qed.

(** X26. A checker built by the constructor, from any rule list it accepts,
    never throws the [Error] of an unrecognised base or modifier while
    matching: at every position, in every state and with every text,
    [isPosLineBreaking] does not reach the [throw new Error] of [checkBase]
    and [consumeToken], such tokens being rejected when the rules are parsed;
    whereas a token object with another base, which the parser never builds,
    makes [consumeToken] throw it. *)
Theorem matcher_never_throws_Error (raw : list rawRule)
    (criteria : option (option string -> string -> option string))
    (c : config) (this : checker) (fuel : nat) (i : Z) :
  LineBreakingChecker criteria raw = Ok c ->
  cfg this = c ->
  isPosLineBreaking data fuel this i <> Throw Error
  /\ forall base idx step parent prev next,
       known (TBase base) = false ->
       consumeToken data (S fuel) this (TBase base) idx step parent prev next
       = Throw Error.
Proof.
  intros Hc Hcfg. split.
  - unfold LineBreakingChecker in Hc.
    apply bind_Ok in Hc. destruct Hc as (parsed & Hparsed & Hc).
    inversion Hc as [Hc']. rewrite <- Hc' in Hcfg.
    unfold isPosLineBreaking. apply bind_no_Error.
    + destruct (inside_surrogate_pair this i); [discriminate|].
      apply rules_loop_no_Error. rewrite Hcfg. cbn [rules registerSideEffectArguments].
      apply (parseRules_known raw). exact Hparsed.
    + intros [r this'] _. discriminate.
  - intros base idx step parent prev next Hk.
    cbn [consumeToken consume_body]. unfold checkBase. cbn [known] in Hk.
    destruct (String.eqb base "any"); [discriminate Hk|].
    destruct (String.eqb base "sot"); [discriminate Hk|].
    destruct (String.eqb base "eot"); [discriminate Hk|].
    reflexivity.
Qed.

End NoErrorCalls.

Lemma matcher_never_throws_Error_witness :
  let this := setText sampleData (constructed None rulesV17) (units "a b") in
  (LineBreakingChecker None lineBreakingRulesV17 = Ok (constructed None rulesV17)
   /\ cfg this = constructed None rulesV17)
  /\ isPosLineBreaking sampleData 40 this 7 <> Throw Error
  /\ consumeToken sampleData 41 this (TBase "start") (Int 0) 1 None None 0%nat = Throw Error.
Proof.
  cbv zeta.
  assert (H1 : LineBreakingChecker None lineBreakingRulesV17
               = Ok (constructed None rulesV17)) by apply LineBreakingChecker_V17.
  assert (H2 : cfg (setText sampleData (constructed None rulesV17) (units "a b"))
               = constructed None rulesV17) by reflexivity.
  split; [split; [exact H1 | exact H2]|].
  split.
  - exact (proj1 (matcher_never_throws_Error sampleData _ None _ _ 40%nat 7 H1 H2)).
  - exact (proj2 (matcher_never_throws_Error sampleData _ None _ _ 40%nat 7 H1 H2)
             "start" (Int 0) 1 None None 0%nat eq_refl).
Defined.

(** ** Termination of the matcher *)

Lemma ahead_refl step i : ahead step i i.
Proof. destruct i; cbn; [lia | exact I]. Qed.

Lemma ahead_trans step i j k : ahead step i j -> ahead step j k -> ahead step i k.
Proof. destruct i, j, k; cbn; try tauto; lia. Qed.

Lemma ahead_step step i : ahead step i (num_add i (Int step)).
Proof. destruct i; cbn; [lia | exact I]. Qed.

Section Shape.

Variable data : unicodeData.
Variable this : checker.
Variable step : Z.
Variable rec : consumer.

Hypothesis rec_shape :
  forall tok i parent prev next r,
    rec tok i step parent prev next = Ok r ->
    ahead step i (index r)
    /\ (forall x, next_token_index r = Some x -> (next < x)%nat).

Lemma star_loop_shape op parent next : forall k r0 r i,
  ahead step i (index r0) ->
  (forall x, next_token_index r0 = Some x -> (S next < x)%nat) ->
  star_loop rec k this op step parent next r0 = Ok r ->
  ahead step i (index r)
  /\ (forall x, next_token_index r = Some x -> (S next < x)%nat).
Proof.
  induction k as [|k IH]; intros r0 r i Hi Hn H; cbn [star_loop] in H;
    [discriminate|].
  destruct (star_continues this r0).
  - apply bind_Ok in H. destruct H as (r' & Hr' & H).
    destruct (rec_shape _ _ _ _ _ _ Hr') as [Ha Hx].
    apply (IH r' r i); [|exact Hx | exact H].
    eapply ahead_trans; [exact Hi|].
    eapply ahead_trans; [apply ahead_step | exact Ha].
  - inversion H; subst. auto.
Qed.

Lemma set_loop_shape content i : forall k prev idx token_i r,
  set_loop rec k content step i prev idx token_i = Ok r ->
  index r = i /\ next_token_index r = None.
Proof.
  induction k as [|k IH]; intros prev idx token_i r H; cbn [set_loop] in H;
    [discriminate|].
  destruct (nth_error content token_i) as [t|]; [|inversion H; subst; auto].
  apply bind_Ok in H. destruct H as (r' & _ & H).
  destruct (c_result r' && not_binary_modifier content _);
    [inversion H; subst; auto | eapply IH; exact H].
Qed.

Lemma sequence_loop_shape content i : forall k prev idx token_i r,
  ahead step i idx ->
  sequence_loop rec k content step i prev idx token_i = Ok r ->
  ahead step i (index r) /\ next_token_index r = None.
Proof.
  induction k as [|k IH]; intros prev idx token_i r Hi H; cbn [sequence_loop] in H;
    [discriminate|].
  destruct (nth_error content token_i) as [t|]; [|inversion H; subst; auto].
  apply bind_Ok in H. destruct H as (r' & Hr' & H).
  destruct (negb (c_result r')).
  - inversion H; subst. split; [apply ahead_refl | reflexivity].
  - destruct (rec_shape _ _ _ _ _ _ Hr') as [Ha _].
    eapply IH; [|exact H].
    destruct (content_is_star t).
    + eapply ahead_trans; eassumption.
    + eapply ahead_trans; [exact Hi|].
      eapply ahead_trans; [exact Ha | apply ahead_step].
Qed.

Lemma nullish_next (o : option nat) (next x : nat) :
  (forall y, o = Some y -> (S next < y)%nat) ->
  Some (nullish o (S next)) = Some x ->
  (next < x)%nat.
Proof.
  intros Ho Hx. inversion Hx; subst. destruct o as [y|]; cbn [nullish].
  - specialize (Ho y eq_refl). lia.
  - lia.
Qed.

Lemma consume_body_shape k tok i parent prev next r :
  consume_body data rec k this tok i step parent prev next = Ok r ->
  ahead step i (index r)
  /\ (forall x, next_token_index r = Some x -> (next < x)%nat).
Proof.
  intros H.
  assert (Hsimple : forall b, ahead step i (index (simple b i))
                              /\ (forall x, next_token_index (simple b i) = Some x ->
                                            (next < x)%nat)).
  { intros b. split; [apply ahead_refl | discriminate]. }
  assert (Hskip : forall r0,
             r0 = {| c_result := false; index := i; next_token_index := Some (S next) |} ->
             ahead step i (index r0)
             /\ (forall x, next_token_index r0 = Some x -> (next < x)%nat)).
  { intros r0 ->. split; [apply ahead_refl|].
    cbn [next_token_index]. intros x Hx. inversion Hx. lia. }
  assert (Hop : forall (g : bool -> bool),
             (op <- operand parent next ;;
              r' <- rec op i step parent prev (S next) ;;
              Ok {| c_result := g (c_result r'); index := index r';
                    next_token_index := Some (nullish (next_token_index r') (S next)) |})
             = Ok r ->
             ahead step i (index r)
             /\ (forall x, next_token_index r = Some x -> (next < x)%nat)).
  { intros g Hg. apply bind_Ok in Hg. destruct Hg as (op & _ & Hg).
    apply bind_Ok in Hg. destruct Hg as (r' & Hr' & Hg). inversion Hg; subst.
    destruct (rec_shape _ _ _ _ _ _ Hr') as [Ha Hx].
    cbn [index next_token_index]. split; [exact Ha|].
    intros x. apply nullish_next. exact Hx. }
  destruct tok as [c| | |c|c|c|c|content|content]; cbn [consume_body] in H.
  - apply bind_Ok in H. destruct H as (b & _ & H). inversion H; subst. apply Hsimple.
  - inversion H; subst. apply Hsimple.
  - apply bind_Ok in H. destruct H as (b & _ & H). inversion H; subst. apply Hsimple.
  - inversion H; subst. apply Hsimple.
  - inversion H; subst. apply Hsimple.
  - inversion H; subst. apply Hsimple.
  - destruct (String.eqb c "^"); [apply (Hop negb); exact H|].
    destruct (String.eqb c "&").
    { destruct (is_false prev); [apply Hskip; inversion H; reflexivity|].
      apply (Hop (fun b => b)); exact H. }
    destruct (String.eqb c "-").
    { destruct (is_false prev); [apply Hskip; inversion H; reflexivity|].
      apply (Hop negb); exact H. }
    destruct (String.eqb c "*"); [|discriminate].
    apply bind_Ok in H. destruct H as (op & _ & H).
    apply bind_Ok in H. destruct H as (r0 & Hr0 & H).
    apply bind_Ok in H. destruct H as (r1 & Hr1 & H). inversion H; subst.
    destruct (rec_shape _ _ _ _ _ _ Hr0) as [Ha Hx].
    destruct (star_loop_shape _ _ _ _ _ _ i Ha Hx Hr1) as [Ha1 Hx1].
    cbn [index next_token_index]. split; [exact Ha1|].
    intros x. apply nullish_next. exact Hx1.
  - apply set_loop_shape in H. destruct H as [Hi Hn]. rewrite Hi, Hn.
    split; [apply ahead_refl | discriminate].
  - apply sequence_loop_shape in H; [|apply ahead_refl]. destruct H as [Ha Hn].
    rewrite Hn. split; [exact Ha | discriminate].
Qed.

End Shape.

Lemma consumeToken_shape data this step : forall fuel tok i parent prev next r,
  consumeToken data fuel this tok i step parent prev next = Ok r ->
  ahead step i (index r)
  /\ (forall x, next_token_index r = Some x -> (next < x)%nat).
Proof.
  induction fuel as [|f IH]; intros tok i parent prev next r H; cbn [consumeToken] in H;
    [discriminate|].
  eapply consume_body_shape; [|exact H].
  intros tok' i' parent' prev' next' r' H'. eapply IH. exact H'.
Qed.

Lemma weight_positive t : (1 <= weight t)%nat.
Proof. destruct t; cbn [weight]; lia. Qed.

Lemma weight_In t content :
  In t content -> (weight t <= list_sum (map weight content))%nat.
Proof.
  induction content as [|x l IH]; intros Hin; [contradiction|].
  change (list_sum (map weight (x :: l)))
    with (weight x + list_sum (map weight l))%nat.
  destruct Hin as [-> | Hin]; [lia|].
  specialize (IH Hin). lia.
Qed.

Lemma budget_child content j t :
  nth_error content j = Some t ->
  (budget t (Some content) (S j)
   <= List.length content + list_sum (map weight content))%nat.
Proof.
  intros Hn.
  assert (Hj : (j < List.length content)%nat) by (apply nth_error_Some; congruence).
  pose proof (weight_In t content (nth_error_In _ _ Hn)) as Hw.
  destruct t; cbn [budget]; lia.
Qed.

Lemma budget_operand content next op :
  nth_error content next = Some op ->
  (budget op (Some content) (S next)
   <= List.length content - next + list_sum (map weight content))%nat.
Proof.
  intros Hn.
  assert (Hj : (next < List.length content)%nat) by (apply nth_error_Some; congruence).
  pose proof (weight_In op content (nth_error_In _ _ Hn)) as Hw.
  destruct op; cbn [budget]; lia.
Qed.

Section Total.

Variable data : unicodeData.
Variable this : checker.
Variable step : Z.
Hypothesis step_nonzero : step <> 0.

Variable rec : consumer.
Variable f : nat.

Hypothesis rec_total :
  forall tok i parent prev next,
    (budget tok parent next + List.length (codePoints this) + 2 <= f)%nat ->
    rec tok i step parent prev next <> OutOfFuel.

Hypothesis rec_shape :
  forall tok i parent prev next r,
    rec tok i step parent prev next = Ok r ->
    ahead step i (index r)
    /\ (forall x, next_token_index r = Some x -> (next < x)%nat).

Lemma star_loop_total op parent next :
  (forall i prev, rec op i step parent prev (S next) <> OutOfFuel) ->
  forall k r0,
    (0 < k)%nat ->
    (forall z, star_continues this r0 = true -> index r0 = Int z ->
               (if 0 <? step
                then Z.of_nat (List.length (codePoints this)) - 1 - z
                else z) < Z.of_nat k) ->
    star_loop rec k this op step parent next r0 <> OutOfFuel.
Proof.
  intros Hrec. induction k as [|k IH]; intros r0 Hk Hm; [lia|].
  cbn [star_loop].
  destruct (star_continues this r0) eqn:E; [|discriminate].
  destruct (star_continues_inside _ _ E) as (z & Hz & Hin).
  specialize (Hm z eq_refl Hz).
  destruct (rec op (num_add (index r0) (Int step)) step parent (Some (c_result r0))
              (S next)) as [a|e|] eqn:Er; cbn [bind];
    [|discriminate | exfalso; eapply Hrec; exact Er].
  destruct (rec_shape _ _ _ _ _ _ Er) as [Ha _].
  rewrite Hz in Ha. cbn [num_add] in Ha.
  rewrite Nat2Z.inj_succ in Hm.
  apply IH.
  - destruct (0 <? step); lia.
  - intros z' E' Hz'. rewrite Hz' in Ha. cbn [ahead] in Ha.
    destruct (0 <? step) eqn:Es.
    + apply Z.ltb_lt in Es. lia.
    + apply Z.ltb_ge in Es. lia.
Qed.

Lemma set_loop_total content i :
  (forall j t idx prev, nth_error content j = Some t ->
                        rec t idx step (Some content) prev (S j) <> OutOfFuel) ->
  forall k prev idx token_i,
    (List.length content - token_i < k)%nat ->
    set_loop rec k content step i prev idx token_i <> OutOfFuel.
Proof.
  intros Hrec. induction k as [|k IH]; intros prev idx token_i Hk; [lia|].
  cbn [set_loop].
  destruct (nth_error content token_i) as [t|] eqn:Et; [|discriminate].
  assert (Hj : (token_i < List.length content)%nat)
    by (apply nth_error_Some; congruence).
  destruct (rec t idx step (Some content) prev (S token_i)) as [a|e|] eqn:Er;
    cbn [bind]; [|discriminate | exfalso; eapply Hrec; eassumption].
  destruct (c_result a && not_binary_modifier content _); [discriminate|].
  apply IH.
  destruct (rec_shape _ _ _ _ _ _ Er) as [_ Hx].
  destruct (next_token_index a) as [x|]; cbn [nullish].
  - specialize (Hx x eq_refl). lia.
  - lia.
Qed.

Lemma sequence_loop_total content i :
  (forall j t idx prev, nth_error content j = Some t ->
                        rec t idx step (Some content) prev (S j) <> OutOfFuel) ->
  forall k prev idx token_i,
    (List.length content - token_i < k)%nat ->
    sequence_loop rec k content step i prev idx token_i <> OutOfFuel.
Proof.
  intros Hrec. induction k as [|k IH]; intros prev idx token_i Hk; [lia|].
  cbn [sequence_loop].
  destruct (nth_error content token_i) as [t|] eqn:Et; [|discriminate].
  assert (Hj : (token_i < List.length content)%nat)
    by (apply nth_error_Some; congruence).
  destruct (rec t idx step (Some content) prev (S token_i)) as [a|e|] eqn:Er;
    cbn [bind]; [|discriminate | exfalso; eapply Hrec; eassumption].
  destruct (negb (c_result a)); [discriminate|].
  apply IH.
  destruct (rec_shape _ _ _ _ _ _ Er) as [_ Hx].
  destruct (next_token_index a) as [x|]; cbn [nullish].
  - specialize (Hx x eq_refl). lia.
  - lia.
Qed.

Lemma consume_body_total tok i parent prev next :
  (budget tok parent next + List.length (codePoints this) + 2 <= S f)%nat ->
  consume_body data rec f this tok i step parent prev next <> OutOfFuel.
Proof.
  intros Hb.
  assert (Hop : forall (k : token -> res consumed),
             (forall content op,
                 parent = Some content -> nth_error content next = Some op ->
                 k op <> OutOfFuel) ->
             bind (operand parent next) k <> OutOfFuel).
  { intros k Hk. unfold operand. destruct parent as [content|]; [|discriminate].
    destruct (nth_error content next) as [op|] eqn:Eo; [|discriminate].
    cbn [bind]. eapply Hk; [reflexivity | exact Eo]. }
  assert (Hitems : forall content,
             (S (List.length content + list_sum (map weight content))
              + List.length (codePoints this) + 2 <= f)%nat ->
             forall j t idx p, nth_error content j = Some t ->
                               rec t idx step (Some content) p (S j) <> OutOfFuel).
  { intros content Hc j t idx p Ht. apply rec_total.
    pose proof (budget_child content j t Ht). lia. }
  destruct tok as [c| | |c|c|c|c|content|content]; cbn [consume_body].
  - unfold checkBase.
    destruct (String.eqb c "any"); [discriminate|].
    destruct (String.eqb c "sot"); [discriminate|].
    destruct (String.eqb c "eot"); discriminate.
  - discriminate.
  - unfold checkExtPict. destruct (aget_opt (codePoints this) i); discriminate.
  - discriminate.
  - discriminate.
  - discriminate.
  - assert (Hrec : forall content op,
               parent = Some content -> nth_error content next = Some op ->
               forall j p, rec op j step parent p (S next) <> OutOfFuel).
    { intros content op Hp Ho j p. apply rec_total. subst parent.
      pose proof (budget_operand content next op Ho) as Hbo.
      cbn [budget] in Hb. lia. }
    assert (Hcall : forall (g : consumed -> res consumed),
               (forall r, g r <> OutOfFuel) ->
               (op <- operand parent next ;;
                r <- rec op i step parent prev (S next) ;; g r) <> OutOfFuel).
    { intros g Hg. apply Hop. intros content op Hp Ho.
      destruct (rec op i step parent prev (S next)) as [a|e|] eqn:Er; cbn [bind];
        [apply Hg | discriminate | exfalso; eapply Hrec; eassumption]. }
    destruct (String.eqb c "^"); [apply Hcall; discriminate|].
    destruct (String.eqb c "&");
      [destruct (is_false prev); [discriminate | apply Hcall; discriminate]|].
    destruct (String.eqb c "-");
      [destruct (is_false prev); [discriminate | apply Hcall; discriminate]|].
    destruct (String.eqb c "*"); [|discriminate].
    apply Hop. intros content op Hp Ho.
    destruct (rec op i step parent prev (S next)) as [r0|e|] eqn:Er; cbn [bind];
      [| discriminate | exfalso; eapply Hrec; eassumption].
    destruct (star_loop rec f this op step parent next r0) as [r|e|] eqn:Es;
      cbn [bind]; [discriminate | discriminate |].
    exfalso. revert Es. apply star_loop_total.
    + intros j p. eapply Hrec; eassumption.
    + subst parent. cbn [budget] in Hb. lia.
    + intros z E Hz. destruct (star_continues_inside _ _ E) as (z' & Hz' & Hin).
      rewrite Hz in Hz'. inversion Hz'; subst z'.
      subst parent. cbn [budget] in Hb.
      destruct (0 <? step); lia.
  - cbn [budget weight] in Hb.
    apply set_loop_total; [apply Hitems; lia | lia].
  - cbn [budget weight] in Hb.
    apply sequence_loop_total; [apply Hitems; lia | lia].
Qed.

End Total.

Lemma consumeToken_total data this step :
  step <> 0 ->
  forall fuel tok i parent prev next,
    (budget tok parent next + List.length (codePoints this) + 2 <= fuel)%nat ->
    consumeToken data fuel this tok i step parent prev next <> OutOfFuel.
Proof.
  intros Hstep.
  induction fuel as [|f IH]; intros tok i parent prev next Hb.
  - exfalso. pose proof (weight_positive tok).
    destruct tok; cbn [budget] in Hb; try lia; destruct parent; lia.
  - cbn [consumeToken]. apply consume_body_total; [exact Hstep | | | exact Hb].
    + intros tok' i' parent' prev' next' Hb'. apply IH. exact Hb'.
    + intros tok' i' parent' prev' next' r. apply consumeToken_shape.
Qed.

Section MatcherTerminates.

Variable data : unicodeData.

Lemma budget_top tok : (budget tok None 0 <= weight tok)%nat.
Proof. destruct tok; cbn [budget weight]; lia. Qed.

Lemma checkRule_total fuel this rule idx :
  (weight (before rule) + List.length (codePoints this) + 2 <= fuel)%nat ->
  (weight (after rule) + List.length (codePoints this) + 2 <= fuel)%nat ->
  checkRule data fuel this rule idx <> OutOfFuel.
Proof.
  intros Hb Ha. unfold checkRule.
  destruct (consumeToken data fuel this (before rule) (num_sub idx (Int 1)) (-1)
              None None 0%nat) as [b|e|] eqn:Eb; cbn [bind]; [|discriminate|].
  - assert (Hafter : (if c_result b
                      then consumeToken data fuel this (after rule) idx 1 None None 0%nat
                      else Ok (simple false idx)) <> OutOfFuel).
    { destruct (c_result b); [|discriminate].
      apply consumeToken_total; [lia|].
      pose proof (budget_top (after rule)). lia. }
    destruct (if c_result b
              then consumeToken data fuel this (after rule) idx 1 None None 0%nat
              else Ok (simple false idx)) as [a|e|]; cbn [bind];
      [|discriminate | exfalso; apply Hafter; reflexivity].
    destruct (c_result b && c_result a); [discriminate|].
    destruct (side_effect rule) as [fn|]; [|discriminate].
    unfold call_side_effect. destruct fn.
    destruct (nullish _ _) as [|[] ?]; discriminate.
  - exfalso. revert Eb. apply consumeToken_total; [lia|].
    pose proof (budget_top (before rule)). lia.
Qed.

Lemma rules_loop_total fuel i L : forall rs this r,
  (List.length (codePoints this) <= L)%nat ->
  (List.length (codePointsWithoutCS this) <= L)%nat ->
  Forall (fun o => (weight (before o) + L + 2 <= fuel)%nat
                   /\ (weight (after o) + L + 2 <= fuel)%nat) rs ->
  rules_loop data fuel this rs i r <> OutOfFuel.
Proof.
  induction rs as [|rule rest IH]; intros this r H1 H2 Hrs; cbn [rules_loop];
    [discriminate|].
  inversion Hrs as [|? ? [Hb Ha] Hrest]; subst.
  destruct (checkRule data fuel this rule (rule_index this i)) as [[r' this']|e|] eqn:Ec;
    cbn [bind]; [|discriminate | exfalso; revert Ec; apply checkRule_total; lia].
  destruct (decided r'); [discriminate|].
  apply checkRule_state in Ec.
  apply IH; [| | exact Hrest]; destruct Ec as [-> | ->]; assumption.
Qed.

Lemma rules_budget_covers this :
  Forall (fun o =>
            (weight (before o)
             + Nat.max (List.length (codePoints this))
                       (List.length (codePointsWithoutCS this)) + 2
             <= rules_budget this)%nat
            /\ (weight (after o)
                + Nat.max (List.length (codePoints this))
                          (List.length (codePointsWithoutCS this)) + 2
                <= rules_budget this)%nat)
         (rules (cfg this)).
Proof.
  unfold rules_budget.
  pose proof (proj1 (list_max_le
                       (map (fun o => Nat.max (weight (before o)) (weight (after o)))
                            (rules (cfg this))) _) (Nat.le_refl _)) as H.
  rewrite Forall_map in H.
  eapply Forall_impl; [|exact H]. cbv beta. intros o Ho. lia.
Qed.

Lemma isPosLineBreaking_total this i fuel :
  (rules_budget this <= fuel)%nat ->
  isPosLineBreaking data fuel this i <> OutOfFuel.
Proof.
  intros Hf. unfold isPosLineBreaking.
  destruct (inside_surrogate_pair this i); [discriminate|].
  destruct (rules_loop data fuel this (rules (cfg this)) i (Some BreakType.UNKNOWN))
    as [[r this']|e|] eqn:E; cbn [bind]; [discriminate | discriminate |].
  exfalso. revert E.
  apply (rules_loop_total fuel i
           (Nat.max (List.length (codePoints this))
                    (List.length (codePointsWithoutCS this)))); [lia | lia |].
  eapply Forall_impl; [|apply rules_budget_covers]. cbv beta. intros o Ho. lia.
Qed.

(** X27. The matcher terminates.  Whatever the rules, the text, the state of
    the checker and the position, [isPosLineBreaking] returns or throws: with
    a budget of the size of the largest rule plus the number of code points
    plus two the model does not run out, and every larger budget gives the
    same result. *)
Theorem matcher_terminates (this : checker) (i : Z) (fuel : nat) :
  (rules_budget this <= fuel)%nat ->
  isPosLineBreaking data fuel this i <> OutOfFuel
  /\ forall fuel', (fuel <= fuel')%nat ->
                   isPosLineBreaking data fuel' this i
                   = isPosLineBreaking data fuel this i.
Proof.
  intros Hf.
  pose proof (isPosLineBreaking_total this i fuel Hf) as Hret.
  split; [exact Hret|].
  intros fuel' Hle.
  destruct (isPosLineBreaking_refines data fuel fuel' this i Hle) as [H | H];
    [contradiction | symmetry; exact H].
Qed.

Lemma next_total c txt fuel :
  (rules_budget (setText data c txt) <= fuel)%nat ->
  forall m k cur,
    Z.of_nat m = Z.of_nat (List.length txt) - cur ->
    (m < k)%nat ->
    next data k fuel (setText data c txt) cur <> OutOfFuel.
Proof.
  intros Hf. induction m as [|m IH]; intros k cur Hm Hk;
    (destruct k as [|k]; [lia|]); cbn [next]; rewrite setText_text.
  - replace (Z.of_nat (List.length txt) <? cur + 1) with true
      by (symmetry; apply Z.ltb_lt; lia).
    discriminate.
  - replace (Z.of_nat (List.length txt) <? cur + 1) with false
      by (symmetry; apply Z.ltb_ge; lia).
    destruct (isPosLineBreaking data fuel (setText data c txt) (cur + 1))
      as [[r t]|e|] eqn:Ep; cbn [bind];
      [| discriminate | exfalso; revert Ep; apply isPosLineBreaking_total; exact Hf].
    pose proof (isPosLineBreaking_setText_state _ _ _ _ _ _ _ Ep) as ->.
    destruct (bit_and r (Z.lor BreakType.MANDATORY BreakType.ALLOWED) =? 0);
      [|discriminate].
    apply IH; lia.
Qed.

Lemma iterate_from_total c txt fuel :
  (rules_budget (setText data c txt) <= fuel)%nat ->
  forall k m cur,
    Z.of_nat m = Z.of_nat (List.length txt) - cur ->
    (m < k)%nat -> (m < fuel)%nat ->
    iterate_from data k fuel (setText data c txt) cur <> OutOfFuel.
Proof.
  intros Hf. induction k as [|k IH]; intros m cur Hm Hk Hmf; [lia|].
  cbn [iterate_from].
  destruct (next data fuel fuel (setText data c txt) cur) as [[[v cur'] this']|e|] eqn:En;
    cbn [bind]; [| discriminate | exfalso; revert En; eapply next_total; eassumption].
  destruct (next_scans data c txt fuel _ _ _ _ _ _ Hm En) as [-> Hv].
  destruct v as [s|]; [|discriminate].
  destruct Hv as (m' & Hlt & Hm' & _).
  destruct (iterate_from data k fuel (setText data c txt) cur') as [rest|e|] eqn:Ei;
    cbn [bind]; [discriminate | discriminate |].
  exfalso. revert Ei. apply (IH m' cur' Hm'); lia.
Qed.

(** X28. The iterator terminates.  A [for ... of] loop over a checker whose
    text [setText] installed, whatever the rules and the text, either throws
    or yields exactly the positions 0, ..., [text.length], in this order,
    whose verdict has a bit of [MANDATORY | ALLOWED]: with a budget above the
    number of positions and the budget of the matcher, the model does not
    run out. *)
Theorem iterator_terminates (c : config) (txt : list Z) (fuel : nat) :
  (rules_budget (setText data c txt) <= fuel)%nat ->
  (S (List.length txt) < fuel)%nat ->
  (exists e, iterate data fuel (setText data c txt) = Throw e)
  \/ iterate data fuel (setText data c txt)
     = Ok (flat_map (yielded data fuel (setText data c txt))
             (positions_after (-1) (S (List.length txt)))).
Proof.
  intros Hf Hlen. unfold iterate.
  destruct (iterate_from data fuel fuel (setText data c txt) (-1)) as [l|e|] eqn:Ei.
  - right. f_equal.
    apply (iterate_from_scans data c txt fuel fuel (S (List.length txt)) (-1) l);
      [lia | exact Ei].
  - left. exists e. reflexivity.
  - exfalso. revert Ei.
    apply (iterate_from_total c txt fuel Hf fuel (S (List.length txt))); lia.
Qed.

End MatcherTerminates.

Lemma matcher_terminates_witness :
  let this := setText sampleData (constructed None rulesV17) (units "a b") in
  (rules_budget this <= 60)%nat
  /\ isPosLineBreaking sampleData 60 this 2 <> OutOfFuel
  /\ isPosLineBreaking sampleData 100 this 2 = isPosLineBreaking sampleData 60 this 2.
Proof.
  cbv zeta.
  assert (H : (rules_budget (setText sampleData (constructed None rulesV17) (units "a b"))
               <= 60)%nat) by (vm_compute; lia).
  split; [exact H|].
  split.
  - exact (proj1 (matcher_terminates sampleData _ 2 60%nat H)).
  - exact (proj2 (matcher_terminates sampleData _ 2 60%nat H) 100%nat ltac:(lia)).
Defined.

Lemma iterator_terminates_witness :
  let this := setText sampleData (constructed None rulesV17) (units "a b") in
  ((rules_budget this <= 60)%nat /\ (S (List.length (units "a b")) < 60)%nat)
  /\ iterate sampleData 60 this
     = Ok [[("index", 2); ("breakType", BreakType.ALLOWED)];
           [("index", 3); ("breakType", BreakType.MANDATORY)]].
Proof.
  cbv zeta.
  assert (H1 : (rules_budget (setText sampleData (constructed None rulesV17) (units "a b"))
                <= 60)%nat) by (vm_compute; lia).
  assert (H2 : (S (List.length (units "a b")) < 60)%nat) by (vm_compute; lia).
  split; [split; [exact H1 | exact H2]|].
  destruct (iterator_terminates sampleData (constructed None rulesV17) (units "a b")
              60%nat H1 H2) as [[e He] | Hok].
  - exfalso. revert He. vm_compute. discriminate.
  - rewrite Hok. vm_compute. reflexivity.
Defined.

(** ** In range, the standard rules do not throw *)

Lemma standard_rules_shape rs :
  rs = rulesV17 \/ rs = rulesV16 ->
  exists A B,
    rs = A ++ LB9 :: B ++ [LB30b; LB31]
    /\ forallb total_rule A = true
    /\ forallb total_rule B = true.
Proof.
  intros [-> | ->].
  - exists (firstn 9 rulesV17), (firstn 54 (skipn 10 rulesV17)).
    repeat split; vm_compute; reflexivity.
  - exists (firstn 9 rulesV16), (firstn 54 (skipn 10 rulesV16)).
    repeat split; vm_compute; reflexivity.
Qed.

Lemma bind_no_throw {A B : Type} (m : res A) (k : A -> res B) :
  no_throw m ->
  (forall a, m = Ok a -> no_throw (k a)) ->
  no_throw (bind m k).
Proof.
  intros Hm Hk e. destruct m as [a|e'|]; cbn [bind].
  - apply Hk. reflexivity.
  - exfalso. exact (Hm e' eq_refl).
  - discriminate.
Qed.

Lemma no_throw_Ok {A : Type} (a : A) : no_throw (Ok a).
Proof. intros e. discriminate. Qed.

Lemma operands_present_next : forall content j m,
  operands_present content = true ->
  nth_error content j = Some (TModifier m) ->
  exists op, nth_error content (S j) = Some op.
Proof.
  induction content as [|t rest IH]; intros j m Hp Hj; [destruct j; discriminate|].
  destruct j as [|j].
  - cbn in Hj. inversion Hj; subst. cbn [operands_present] in Hp.
    destruct rest as [|op rest']; [discriminate|]. exists op. reflexivity.
  - cbn [nth_error] in Hj |- *. apply (IH j m); [|exact Hj].
    cbn [operands_present] in Hp. destruct t; try exact Hp.
    destruct rest; [destruct j; discriminate | exact Hp].
Qed.

(** An item of a content of total tokens is called as [called] says. *)
Lemma called_item content j t :
  forallb total_token content = true ->
  operands_present content = true ->
  nth_error content j = Some t ->
  called t (Some content) (S j).
Proof.
  intros Hall Hp Hj. refine (conj _ (conj _ _)).
  - rewrite forallb_forall in Hall. apply Hall. eapply nth_error_In. exact Hj.
  - intros c Hc. inversion Hc; subst. auto.
  - intros Hm. destruct t; try discriminate Hm.
    destruct (operands_present_next _ _ _ Hp Hj) as [op Hop].
    exists content, op. auto.
Qed.

(** The operand of a modifier that was called so: it is there, and is called
    so in turn. *)
Lemma called_operand c parent next :
  called (TModifier c) parent next ->
  exists op, operand parent next = Ok op /\ called op parent (S next).
Proof.
  intros (_ & Hp & Hm). destruct (Hm eq_refl) as (content & op & -> & Hop).
  exists op. unfold operand. rewrite Hop. split; [reflexivity|].
  destruct (Hp content eq_refl) as [Hall Hpres].
  exact (called_item content next op Hall Hpres Hop).
Qed.

Section NoThrow.

Variable data : unicodeData.
Variable this : checker.

Variable rec : consumer.

Hypothesis rec_no_throw :
  forall tok i step parent prev next,
    called tok parent next ->
    no_throw (rec tok i step parent prev next).

Lemma star_loop_no_throw : forall k op step parent next r,
  called op parent (S next) ->
  no_throw (star_loop rec k this op step parent next r).
Proof.
  induction k as [|k IH]; intros op step parent next r Hop; cbn [star_loop];
    [intros e; discriminate|].
  destruct (star_continues this r); [|apply no_throw_Ok].
  apply bind_no_throw; [apply rec_no_throw; exact Hop|].
  intros r' _. apply IH. exact Hop.
Qed.

Lemma set_loop_no_throw : forall k content step i prev idx token_i,
  forallb total_token content = true ->
  operands_present content = true ->
  no_throw (set_loop rec k content step i prev idx token_i).
Proof.
  induction k as [|k IH]; intros content step i prev idx token_i Hc Hp;
    cbn [set_loop]; [intros e; discriminate|].
  destruct (nth_error content token_i) as [t|] eqn:Et; [|apply no_throw_Ok].
  apply bind_no_throw.
  - apply rec_no_throw. exact (called_item content token_i t Hc Hp Et).
  - intros r _. destruct (c_result r && not_binary_modifier content _);
      [apply no_throw_Ok|].
    apply IH; assumption.
Qed.

Lemma sequence_loop_no_throw : forall k content step i prev idx token_i,
  forallb total_token content = true ->
  operands_present content = true ->
  no_throw (sequence_loop rec k content step i prev idx token_i).
Proof.
  induction k as [|k IH]; intros content step i prev idx token_i Hc Hp;
    cbn [sequence_loop]; [intros e; discriminate|].
  destruct (nth_error content token_i) as [t|] eqn:Et; [|apply no_throw_Ok].
  apply bind_no_throw.
  - apply rec_no_throw. exact (called_item content token_i t Hc Hp Et).
  - intros r _. destruct (negb (c_result r)); [apply no_throw_Ok|].
    apply IH; assumption.
Qed.

Lemma consume_body_no_throw k tok i step parent prev next :
  called tok parent next ->
  no_throw (consume_body data rec k this tok i step parent prev next).
Proof.
  intros Hcall. pose proof Hcall as (Ht & Hp & Hm).
  destruct tok as [c| | |c|c|c|c|content|content]; cbn [consume_body];
    try apply no_throw_Ok.
  - unfold checkBase. cbn [total_token known] in Ht.
    destruct (String.eqb c "any"); [apply no_throw_Ok|].
    destruct (String.eqb c "sot"); [apply no_throw_Ok|].
    destruct (String.eqb c "eot"); [apply no_throw_Ok|].
    discriminate Ht.
  - discriminate Ht.
  - cbn [total_token known] in Ht.
    destruct (called_operand c parent next Hcall) as (op & Hop & Hcop).
    rewrite Hop. cbn [bind].
    destruct (String.eqb c "^").
    { apply bind_no_throw; [apply rec_no_throw; exact Hcop|].
      intros r _. apply no_throw_Ok. }
    destruct (String.eqb c "&").
    { destruct (is_false prev); [apply no_throw_Ok|].
      apply bind_no_throw; [apply rec_no_throw; exact Hcop|].
      intros r _. apply no_throw_Ok. }
    destruct (String.eqb c "-").
    { destruct (is_false prev); [apply no_throw_Ok|].
      apply bind_no_throw; [apply rec_no_throw; exact Hcop|].
      intros r _. apply no_throw_Ok. }
    destruct (String.eqb c "*"); [|discriminate Ht].
    apply bind_no_throw; [apply rec_no_throw; exact Hcop|].
    intros r0 _.
    apply bind_no_throw; [apply star_loop_no_throw; exact Hcop|].
    intros r _. apply no_throw_Ok.
  - cbn [total_token] in Ht. apply andb_true_iff in Ht. destruct Ht as [Hall Hpres].
    apply set_loop_no_throw; assumption.
  - cbn [total_token] in Ht. apply andb_true_iff in Ht. destruct Ht as [Hall Hpres].
    apply sequence_loop_no_throw; assumption.
Qed.

End NoThrow.

Section NoThrowCalls.

Variable data : unicodeData.

Lemma consumeToken_no_throw : forall fuel this tok i step parent prev next,
  called tok parent next ->
  no_throw (consumeToken data fuel this tok i step parent prev next).
Proof.
  induction fuel as [|f IH]; intros this tok i step parent prev next Hc;
    cbn [consumeToken]; [intros e; discriminate|].
  apply consume_body_no_throw; [|exact Hc].
  intros tok' i' step' parent' prev' next' Hc'. apply IH. exact Hc'.
Qed.

(** A part of a rule is called without a parent. *)
Lemma called_top tok :
  total_token tok = true -> RuleParser.is_modifier tok = false -> called tok None 0.
Proof.
  intros H Hm. refine (conj H (conj _ _)); [discriminate|].
  rewrite Hm. discriminate.
Qed.

Lemma total_parts_called o :
  total_parts o = true -> called (before o) None 0 /\ called (after o) None 0.
Proof.
  unfold total_parts. intros H.
  apply andb_true_iff in H. destruct H as [H Hma].
  apply andb_true_iff in H. destruct H as [H Hmb].
  apply andb_true_iff in H. destruct H as [Hb Ha].
  apply negb_true_iff in Hma, Hmb.
  split; apply called_top; assumption.
Qed.

(** The matching of a rule, before its side effect. *)
Lemma checkRule_parts_no_throw fuel this rule idx :
  no_throw (consumeToken data fuel this (before rule) (num_sub idx (Int 1)) (-1)
              None None 0%nat) ->
  no_throw (consumeToken data fuel this (after rule) idx 1 None None 0%nat) ->
  side_effect rule = None ->
  no_throw (checkRule data fuel this rule idx).
Proof.
  intros Hb Ha Hs. unfold checkRule.
  apply bind_no_throw; [exact Hb|].
  intros b _. apply bind_no_throw.
  - destruct (c_result b); [exact Ha | apply no_throw_Ok].
  - intros a _. destruct (c_result b && c_result a); [apply no_throw_Ok|].
    rewrite Hs. apply no_throw_Ok.
Qed.

Lemma checkRule_total_rule fuel this rule idx :
  total_rule rule = true ->
  no_throw (checkRule data fuel this rule idx).
Proof.
  unfold total_rule. intros H. apply andb_true_iff in H. destruct H as [Hp Hs].
  destruct (total_parts_called rule Hp) as [Hb Ha].
  apply checkRule_parts_no_throw.
  - apply consumeToken_no_throw. exact Hb.
  - apply consumeToken_no_throw. exact Ha.
  - destruct (side_effect rule); [discriminate | reflexivity].
Qed.

(** A rule without side effect leaves the checker as it is. *)
Lemma checkRule_without_side_effect fuel this rule idx r this' :
  side_effect rule = None ->
  checkRule data fuel this rule idx = Ok (r, this') ->
  this' = this.
Proof.
  intros Hs H. unfold checkRule in H.
  apply bind_Ok in H. destruct H as (b & _ & H).
  apply bind_Ok in H. destruct H as (a & _ & H).
  rewrite Hs in H. destruct (c_result b && c_result a); inversion H; reflexivity.
Qed.

(** An undecided verdict is UNKNOWN. *)
Lemma undecided_UNKNOWN r : decided r = false -> r = Some BreakType.UNKNOWN.
Proof.
  unfold decided. destruct r as [v|]; [|discriminate].
  intros H. apply negb_false_iff in H. apply Z.eqb_eq in H. subst. reflexivity.
Qed.

(** Rules that cannot throw, before rules that do not throw in the state of
    the checker: the loop does not throw. *)
Lemma rules_loop_total_rules fuel i this ys :
  (forall r, no_throw (rules_loop data fuel this ys i r)) ->
  forall xs r,
    forallb total_rule xs = true ->
    no_throw (rules_loop data fuel this (xs ++ ys) i r).
Proof.
  intros Hys. induction xs as [|rule rest IH]; intros r Hxs; [apply Hys|].
  cbn [forallb] in Hxs. apply andb_true_iff in Hxs. destruct Hxs as [Hrule Hrest].
  cbn [app rules_loop].
  apply bind_no_throw; [apply checkRule_total_rule; exact Hrule|].
  intros [r' this'] Hcr.
  assert (Hst : this' = this).
  { apply (checkRule_without_side_effect fuel this rule (rule_index this i) r').
    - unfold total_rule in Hrule. apply andb_true_iff in Hrule.
      destruct Hrule as [_ Hs]. destruct (side_effect rule); [discriminate | reflexivity].
    - exact Hcr. }
  subst this'. destruct (decided r'); [apply no_throw_Ok|].
  apply IH. exact Hrest.
Qed.

End NoThrowCalls.

Section Extpict.

Variable data : unicodeData.

(** The left side of LB30b at an index that holds a code point. *)
Lemma consume_LB30b_before this z c :
  aget_opt (codePoints this) (Int z) = Some c ->
  exists r,
    consumeToken data 6 this (TSequence [TSet [TExtpict; TModifier "&"; TGc "Cn"]])
      (Int z) (-1) None None 0%nat = Ok r.
Proof.
  intros H.
  cbn [consumeToken consume_body sequence_loop set_loop nth_error bind].
  unfold checkExtPict. rewrite H.
  destruct (extendedPictographic data c); cbn -[checkGeneralCategory];
    destruct (checkGeneralCategory data this "Cn" (Int z)); cbn; eauto.
Qed.

End Extpict.

(** ** The offsets of the combining sequences between two code points *)

Lemma nth_error_snoc {A : Type} (l : list A) (x : A) j o :
  nth_error (l ++ [x]) j = Some o ->
  ((j < List.length l)%nat /\ nth_error l j = Some o) \/ (j = List.length l /\ o = x).
Proof.
  intros H. destruct (Nat.ltb_spec j (List.length l)) as [Hj | Hj].
  - rewrite nth_error_app1 in H by exact Hj. auto.
  - rewrite nth_error_app2 in H by exact Hj.
    destruct (j - List.length l)%nat as [|k] eqn:Ed.
    + inversion H. right. split; [lia | reflexivity].
    + destruct k; discriminate.
Qed.

Lemma scanned_step cps p m x :
  scanned p m ->
  aget_opt cps (Int (Z.of_nat (List.length p))) <> None ->
  scanned (p ++ [x]) (setCombiningSequencesMaps_step cps m (List.length p, x)).
Proof.
  intros (Hlen & Hprev & Htot & Hwo & Hsome & Hsum & Hoffs & Hkeep) Hcp.
  assert (Hpos : p <> [] -> (0 < List.length (m_classesWithoutCS m))%nat).
  { intros Hp. destruct (m_offsetsCombiningSeqs m) as [|o0 l0] eqn:E.
    - destruct p; [congruence | discriminate Hlen].
    - specialize (Hoffs 0%nat o0 eq_refl). lia. }
  assert (Hold : forall t j o, nth_error (m_offsetsCombiningSeqs m) j = Some o ->
                   nth_error (m_offsetsCombiningSeqs m ++ [t]) j = Some o).
  { intros t j o H. rewrite nth_error_app1; [exact H|].
    apply nth_error_Some. congruence. }
  assert (Hnew : forall t, nth_error (m_offsetsCombiningSeqs m ++ [t]) (List.length p)
                           = Some t).
  { intros t. rewrite nth_error_app2 by lia. rewrite Hlen, Nat.sub_diag. reflexivity. }
  assert (Hlast : forall j a, nth_error p j = Some a -> S j = List.length p ->
                    a = m_prevCls m
                    /\ nth_error (m_offsetsCombiningSeqs m) j = Some (m_totOffset m)).
  { intros j a Ha Hj. split.
    - destruct Hprev as [[-> _] | [p0 Hp0]]; [destruct j; discriminate|].
      rewrite Hp0 in Ha, Hj. rewrite length_app in Hj. cbn in Hj.
      rewrite nth_error_app2 in Ha by lia.
      replace (j - List.length p0)%nat with 0%nat in Ha by lia.
      inversion Ha. reflexivity.
    - destruct Htot as [[E _] | [o0 Ho0]].
      + rewrite E in Hlen. cbn in Hlen. lia.
      + rewrite Ho0 in Hlen |- *. rewrite length_app in Hlen. cbn in Hlen.
        rewrite nth_error_app2 by lia.
        replace (j - List.length o0)%nat with 0%nat by lia. reflexivity. }
  assert (Hkeep' : forall t,
            (is_CM_or_ZWJ x = false \/ falsy (m_prevCls m) || is_hard_or_space (m_prevCls m)
                                       = true -> t = m_totOffset m) ->
            forall j a b,
              nth_error (p ++ [x]) j = Some a -> nth_error (p ++ [x]) (S j) = Some b ->
              is_CM_or_ZWJ b = false \/ falsy a || is_hard_or_space a = true ->
              exists o, nth_error (m_offsetsCombiningSeqs m ++ [t]) j = Some o
                        /\ nth_error (m_offsetsCombiningSeqs m ++ [t]) (S j) = Some o).
  { intros t Ht j a b Ha Hb Hab.
    apply nth_error_snoc in Hb. destruct Hb as [[Hj Hb] | [Hj ->]].
    - rewrite nth_error_app1 in Ha by lia.
      destruct (Hkeep j a b Ha Hb Hab) as (o & Ho1 & Ho2).
      exists o. split; apply Hold; assumption.
    - rewrite nth_error_app1 in Ha by lia.
      destruct (Hlast j a Ha Hj) as [-> Ho].
      exists (m_totOffset m). split; [apply Hold; exact Ho|].
      rewrite Hj, Hnew. f_equal. apply Ht. exact Hab. }
  unfold setCombiningSequencesMaps_step. fold (is_CM_or_ZWJ x).
  destruct (is_CM_or_ZWJ x) eqn:Ecm;
    [destruct (falsy (m_prevCls m) || is_hard_or_space (m_prevCls m)) eqn:Ef|];
    unfold scanned;
    cbn [m_classesWithoutCS m_codePointsWithoutCS m_offsetsCombiningSeqs
         m_prevCls m_totOffset];
    rewrite ?length_app; cbn [List.length].
  - refine (conj _ (conj _ (conj _ (conj _ (conj _ (conj _ (conj _ _))))))).
    + lia.
    + right. exists p. reflexivity.
    + right. eexists. reflexivity.
    + lia.
    + apply Forall_app. split; [exact Hsome|]. repeat constructor. discriminate.
    + lia.
    + intros j o H. apply nth_error_snoc in H. destruct H as [[_ H] | [-> ->]].
      * apply Hoffs in H. lia.
      * lia.
    + apply Hkeep'. auto.
  - assert (Hne : p <> []).
    { intros E. destruct Hprev as [[_ Hp] | [p0 Hp0]].
      - rewrite Hp in Ef. discriminate.
      - subst p. destruct p0; discriminate. }
    specialize (Hpos Hne).
    refine (conj _ (conj _ (conj _ (conj _ (conj _ (conj _ (conj _ _))))))).
    + lia.
    + right. exists p. reflexivity.
    + right. eexists. reflexivity.
    + exact Hwo.
    + exact Hsome.
    + lia.
    + intros j o H. apply nth_error_snoc in H. destruct H as [[_ H] | [-> ->]].
      * apply Hoffs in H. lia.
      * lia.
    + apply Hkeep'. intros [H | H]; congruence.
  - refine (conj _ (conj _ (conj _ (conj _ (conj _ (conj _ (conj _ _))))))).
    + lia.
    + right. exists p. reflexivity.
    + right. eexists. reflexivity.
    + lia.
    + apply Forall_app. split; [exact Hsome|]. repeat constructor. exact Hcp.
    + lia.
    + intros j o H. apply nth_error_snoc in H. destruct H as [[_ H] | [-> ->]].
      * apply Hoffs in H. lia.
      * lia.
    + apply Hkeep'. auto.
Qed.

Lemma scanned_fold cps :
  forall l p m,
    scanned p m ->
    (forall i, (i < List.length (p ++ l))%nat ->
               aget_opt cps (Int (Z.of_nat i)) <> None) ->
    scanned (p ++ l)
      (fold_left (setCombiningSequencesMaps_step cps)
         (combine (seq (List.length p) (List.length l)) l) m).
Proof.
  induction l as [|x l IH]; intros p m Hm Hcp.
  - rewrite app_nil_r. exact Hm.
  - cbn [List.length seq combine fold_left].
    replace (p ++ x :: l) with ((p ++ [x]) ++ l) in * by (rewrite <- app_assoc; reflexivity).
    replace (S (List.length p)) with (List.length (p ++ [x]))
      by (rewrite length_app; cbn; lia).
    apply IH; [|exact Hcp].
    apply scanned_step; [exact Hm|].
    apply Hcp. rewrite !length_app. cbn. lia.
Qed.

(** The three arrays of [setCombiningSequencesMaps], for classes [cls] whose
    indices hold code points. *)
Lemma setCombiningSequencesMaps_kept cls cps :
  (forall i, (i < List.length cls)%nat -> aget_opt cps (Int (Z.of_nat i)) <> None) ->
  let '(clsWithoutCS, cpsWithoutCS, offsets) := setCombiningSequencesMaps cls cps in
  List.length clsWithoutCS = List.length cpsWithoutCS
  /\ Forall (fun x => x <> None) cpsWithoutCS
  /\ (forall j a b,
        nth_error cls j = Some a -> nth_error cls (S j) = Some b ->
        is_CM_or_ZWJ b = false \/ falsy a || is_hard_or_space a = true ->
        exists o, nth_error offsets (S j) = Some o
                  /\ 1 <= Z.of_nat (S j) - o < Z.of_nat (List.length clsWithoutCS)).
Proof.
  intros Hcp. unfold setCombiningSequencesMaps.
  set (m0 := {| m_classesWithoutCS := []; m_codePointsWithoutCS := [];
                m_offsetsCombiningSeqs := []; m_prevCls := None; m_totOffset := 0 |}).
  assert (H0 : scanned [] m0).
  { unfold scanned, m0. cbn.
    refine (conj _ (conj _ (conj _ (conj _ (conj _ (conj _ (conj _ _))))))); auto.
    - intros i o H. destruct i; discriminate.
    - intros j a b H. destruct j; discriminate. }
  pose proof (scanned_fold cps cls [] m0 H0 Hcp) as H.
  cbn [app List.length] in H.
  set (m := fold_left _ _ m0) in *.
  destruct H as (Hlen & _ & _ & Hwo & Hsome & _ & Hoffs & Hkeep).
  refine (conj Hwo (conj Hsome _)).
  intros j a b Ha Hb Hab.
  destruct (Hkeep j a b Ha Hb Hab) as (o & Ho1 & Ho2).
  exists o. split.
  - rewrite nth_error_app1; [exact Ho2|]. apply nth_error_Some. congruence.
  - pose proof (Hoffs j o Ho1). pose proof (Hoffs (S j) o Ho2). lia.
Qed.

Lemma refines_no_throw {A : Type} (m m' : res A) :
  refines m m' -> no_throw m' -> no_throw m.
Proof.
  intros [-> | ->] H; [intros e; discriminate | exact H].
Qed.

Section InRange.

Variable data : unicodeData.

(** A call that returns with some budget does not throw with any. *)
Lemma consumeToken_returns_no_throw this tok i step parent prev next f0 r :
  consumeToken data f0 this tok i step parent prev next = Ok r ->
  forall fuel, no_throw (consumeToken data fuel this tok i step parent prev next).
Proof.
  intros H fuel. destruct (Nat.le_ge_cases fuel f0) as [Hle | Hge].
  - apply (refines_no_throw _ _ (consumeToken_refines data this fuel f0 Hle
                                   tok i step parent prev next)).
    rewrite H. apply no_throw_Ok.
  - destruct (consumeToken_refines data this f0 fuel Hge tok i step parent prev next)
      as [E | E]; [congruence|].
    rewrite <- E, H. apply no_throw_Ok.
Qed.

Lemma checkRule_LB30b_no_throw fuel this z c :
  aget_opt (codePoints this) (Int (z - 1)) = Some c ->
  no_throw (checkRule data fuel this LB30b (Int z)).
Proof.
  intros H. apply checkRule_parts_no_throw; [| |reflexivity].
  - destruct (consume_LB30b_before data this (z - 1) c H) as [r Hr].
    exact (consumeToken_returns_no_throw _ _ _ _ _ _ _ _ _ Hr fuel).
  - apply consumeToken_no_throw. apply called_top; reflexivity.
Qed.

(** LB9 with its registered argument: it does not throw, and when it does
    not decide, it has put the checker on the transformed arrays. *)
Lemma checkRule_LB9_no_throw fuel this idx :
  sideEffectArguments (cfg this)
  = [("std_remove_cm_sequences", [boundRemoveCombiningSequences])] ->
  no_throw (checkRule data fuel this LB9 idx)
  /\ forall r this',
       checkRule data fuel this LB9 idx = Ok (r, this') ->
       decided r = false ->
       this' = removeCombiningSequences this.
Proof.
  intros Hargs. unfold checkRule. rewrite Hargs.
  cbn [side_effect name LB9 nullish lookup_arguments String.eqb Ascii.eqb Bool.eqb
       call_side_effect bind result].
  split.
  - apply bind_no_throw; [apply consumeToken_no_throw; apply called_top; reflexivity|].
    intros b _. apply bind_no_throw.
    + destruct (c_result b); [|apply no_throw_Ok].
      apply consumeToken_no_throw; apply called_top; reflexivity.
    + intros a _. destruct (c_result b && c_result a); apply no_throw_Ok.
  - intros r this' H Hd.
    apply bind_Ok in H. destruct H as (b & _ & H).
    apply bind_Ok in H. destruct H as (a & _ & H).
    destruct (c_result b && c_result a); inversion H; subst; [discriminate Hd|].
    reflexivity.
Qed.

End InRange.

Section InRangePositions.

Variable data : unicodeData.

Lemma decode_nonempty off u rest : fst (decode off (u :: rest)) <> [].
Proof.
  destruct rest as [|low rest']; [discriminate|].
  destruct (isSurrogatePair u low) eqn:E.
  - rewrite decode_pair by exact E. discriminate.
  - rewrite decode_single by (intros l r Heq; inversion Heq; subst; exact E).
    discriminate.
Qed.

(** A position inside the text that no surrogate pair straddles lies between
    two code points. *)
Lemma inner_position_between c txt p :
  wf_text txt ->
  0 < p < Z.of_nat (List.length txt) ->
  inside_surrogate_pair (setText data c txt) p = false ->
  exists j a b,
    0 < j
    /\ rule_index (setText data c txt) p = Int j
    /\ nth_error (classes (setText data c txt)) (Z.to_nat (j - 1)) = Some a
    /\ nth_error (classes (setText data c txt)) (Z.to_nat j) = Some b.
Proof.
  intros Hwf Hp Hin.
  unfold inside_surrogate_pair in Hin. rewrite setText_text in Hin.
  replace (0 <? p) with true in Hin by (symmetry; apply Z.ltb_lt; lia).
  replace (p <? Z.of_nat (List.length txt)) with true in Hin
    by (symmetry; apply Z.ltb_lt; lia).
  cbn [andb] in Hin.
  destruct (nth_error txt (Z.to_nat (p - 1))) as [h|] eqn:Eh;
    [|apply nth_error_None in Eh; lia].
  destruct (nth_error txt (Z.to_nat p)) as [l|] eqn:El;
    [|apply nth_error_None in El; lia].
  destruct (nth_error_split txt (Z.to_nat (p - 1)) Eh) as (pre & rest & Htxt & Hpre).
  assert (Hrest : exists post, rest = l :: post).
  { rewrite Htxt in El. rewrite nth_error_app2 in El by lia.
    replace (Z.to_nat p - List.length pre)%nat with 1%nat in El by lia.
    destruct rest as [|l' post]; [discriminate|].
    inversion El; subst. eauto. }
  destruct Hrest as [post ->].
  destruct (exists_last (decode_nonempty 0 (hd 0 (pre ++ [h])) (tl (pre ++ [h]))))
    as (cps1 & u & Hu).
  replace (hd 0 (pre ++ [h]) :: tl (pre ++ [h])) with (pre ++ [h]) in Hu
    by (destruct pre; reflexivity).
  destruct (fst (decode 0 (l :: post))) as [|v cps2] eqn:Hv;
    [exfalso; exact (decode_nonempty 0 l post Hv)|].
  rewrite Htxt in Hwf |- *.
  destruct (between_code_points data c pre h l post cps1 u v cps2 Hwf Hin Hu Hv)
    as (_ & Hidx & _ & Ha & Hb).
  replace (Z.of_nat (List.length pre) + 1) with p in Hidx by lia.
  exists (Z.of_nat (List.length cps1) + 1). eexists. eexists.
  split; [lia|]. split; [exact Hidx|]. split; [exact Ha | exact Hb].
Qed.

End InRangePositions.

Section InRangeRules.

Variable data : unicodeData.

Lemma rule_index_transformed this p j o :
  rule_index this p = Int j ->
  applyOffset this = false ->
  0 <= j ->
  nth_error (offsetsCombiningSeqs this) (Z.to_nat j) = Some o ->
  rule_index (removeCombiningSequences this) p = Int (j - o).
Proof.
  unfold rule_index. cbn [removeCombiningSequences offsetsSurrogates offsetsCombiningSeqs
                          applyOffset].
  intros H Ha Hj Ho. rewrite Ha in H.
  destruct (num_sub (Int p) (to_num (aget (offsetsSurrogates this) (Int p)))) as [j'|];
    [|discriminate H].
  assert (j' = j).
  { destruct (aget (offsetsCombiningSeqs this) (Int j')); cbn in H; inversion H; lia. }
  subst j'. unfold aget.
  replace (j <? 0) with false by (symmetry; apply Z.ltb_ge; lia).
  rewrite Ho. cbn. f_equal. lia.
Qed.

(** LB9 decides at a CM or ZWJ that the scan of the combining sequences has
    absorbed. *)
Lemma LB9_decides_absorbed this j a b fuel r this' :
  0 < j ->
  nth_error (classes this) (Z.to_nat (j - 1)) = Some a ->
  nth_error (classes this) (Z.to_nat j) = Some b ->
  is_CM_or_ZWJ b = true ->
  falsy a || is_hard_or_space a = false ->
  checkRule data fuel this LB9 (Int j) = Ok (r, this') ->
  decided r = true.
Proof.
  intros Hj Ha Hb Hcm Hprev H.
  apply orb_false_iff in Hprev. destruct Hprev as [_ Hhard].
  assert (Hu : existsb (fun c => checkClass this c (Int (j - 1)))
                 ["BK"; "CR"; "LF"; "NL"; "SP"; "ZW"] = false).
  { cbn [existsb]. rewrite !(checkClass_at this _ (j - 1) a) by (lia || exact Ha).
    unfold is_hard_or_space, is_class in Hhard.
    destruct a as [s|]; [|reflexivity].
    rewrite !(String.eqb_sym _ s).
    destruct (String.eqb s "SP"), (String.eqb s "BK"), (String.eqb s "CR"),
      (String.eqb s "LF"), (String.eqb s "NL"), (String.eqb s "ZW");
      try discriminate Hhard; reflexivity. }
  assert (Hv : checkClass this "CM" (Int j) || checkClass this "ZWJ" (Int j) = true).
  { rewrite !(checkClass_at this _ j b) by (lia || exact Hb).
    unfold is_CM_or_ZWJ, is_class in Hcm.
    destruct b as [s|]; [|discriminate Hcm].
    rewrite !(String.eqb_sym _ s). exact Hcm. }
  pose proof (checkRule_LB9_matches data this (fuel - 11) j Hj Hu Hv) as Hm.
  assert (Hle : (fuel <= 11 + (fuel - 11))%nat) by lia.
  destruct (checkRule_refines data fuel (11 + (fuel - 11)) this LB9 (Int j) Hle)
    as [E | E]; [congruence|].
  cbn [Nat.add] in E. rewrite Hm in E. rewrite E in H. inversion H. reflexivity.
Qed.

(** Between two code points of a text, the standard rules do not throw. *)
Lemma inner_position_no_throw raw criteria c txt p fuel :
  raw = lineBreakingRulesV17 \/ raw = lineBreakingRulesV16 ->
  LineBreakingChecker criteria raw = Ok c ->
  wf_text txt ->
  0 < p < Z.of_nat (List.length txt) ->
  no_throw (isPosLineBreaking data fuel (setText data c txt) p).
Proof.
  intros Hraw Hc Hwf Hp.
  assert (Hcfg : exists rs, (rs = rulesV17 \/ rs = rulesV16)
                            /\ c = constructed criteria rs).
  { destruct Hraw as [-> | ->].
    - rewrite LineBreakingChecker_V17 in Hc. inversion Hc. eauto.
    - rewrite LineBreakingChecker_V16 in Hc. inversion Hc. eauto. }
  destruct Hcfg as (rs & Hrs & ->).
  destruct (standard_rules_shape rs Hrs) as (A & B & Hshape & HA & HB).
  set (this := setText data (constructed criteria rs) txt).
  unfold isPosLineBreaking.
  apply bind_no_throw; [|intros [r this'] _; apply no_throw_Ok].
  destruct (inside_surrogate_pair this p) eqn:Hin; [apply no_throw_Ok|].
  destruct (inner_position_between data (constructed criteria rs) txt p Hwf Hp Hin)
    as (j & a & b & Hj & Hidx & Ha & Hb).
  fold this in Hidx, Ha, Hb.
  assert (Hrules : rules (cfg this) = A ++ LB9 :: B ++ [LB30b; LB31])
    by (unfold this; rewrite setText_cfg; exact Hshape).
  assert (Hargs : sideEffectArguments (cfg this)
                  = [("std_remove_cm_sequences", [boundRemoveCombiningSequences])])
    by (unfold this; rewrite setText_cfg; reflexivity).
  rewrite Hrules.
  apply rules_loop_total_rules; [|exact HA].
  intros r0. cbn [rules_loop]. rewrite Hidx.
  destruct (checkRule_LB9_no_throw data fuel this (Int j) Hargs) as [Hno Hstate].
  apply bind_no_throw; [exact Hno|].
  intros [r' this'] Hcr. destruct (decided r') eqn:Ed; [apply no_throw_Ok|].
  rewrite (Hstate r' this' Hcr Ed).
  (* the code point after the position has been kept by the scan *)
  assert (Hkept : is_CM_or_ZWJ b = false \/ falsy a || is_hard_or_space a = true).
  { destruct (is_CM_or_ZWJ b) eqn:Ecm; [|auto].
    destruct (falsy a || is_hard_or_space a) eqn:Ef; [auto|].
    rewrite (LB9_decides_absorbed this j a b fuel r' this' Hj Ha Hb Ecm Ef Hcr) in Ed.
    discriminate Ed. }
  (* the arrays of the transformed view *)
  destruct (setText_lengths data (constructed criteria rs) txt) as (Hlc & _ & _).
  fold this in Hlc.
  assert (Hcps : forall i, (i < List.length (classes this))%nat ->
                   aget_opt (codePoints this) (Int (Z.of_nat i)) <> None).
  { assert (Ecps : codePoints this = map Some (fst (decode 0 txt))).
    { unfold this. rewrite setText_codePoints, (setCodePoints_as_decode txt Hwf).
      reflexivity. }
    intros i Hi. rewrite Hlc, Ecps, length_map in Hi. rewrite Ecps.
    unfold aget_opt, aget.
    replace (Z.of_nat i <? 0) with false by (symmetry; apply Z.ltb_ge; lia).
    rewrite Nat2Z.id, nth_error_map.
    destruct (nth_error (fst (decode 0 txt)) i) eqn:E; [discriminate|].
    apply nth_error_None in E. lia. }
  pose proof (setCombiningSequencesMaps_kept (classes this) (codePoints this) Hcps)
    as Hmaps.
  unfold this in Hmaps. rewrite <- setText_maps in Hmaps. fold this in Hmaps.
  destruct Hmaps as (Hwo & Hsome & Hkeep).
  assert (Hn : S (Z.to_nat (j - 1)) = Z.to_nat j) by lia.
  rewrite <- Hn in Hb.
  destruct (Hkeep (Z.to_nat (j - 1)) a b Ha Hb Hkept) as (o & Ho & Hbound).
  rewrite Hn in Ho, Hbound. rewrite Z2Nat.id in Hbound by lia.
  assert (Ha0 : applyOffset this = false) by (unfold this; apply setText_applyOffset).
  pose proof (rule_index_transformed this p j o Hidx Ha0 ltac:(lia) Ho) as Hidx1.
  assert (Hcp1 : exists cp,
             aget_opt (codePoints (removeCombiningSequences this)) (Int (j - o - 1))
             = Some cp).
  { cbn [removeCombiningSequences codePoints]. unfold aget_opt, aget.
    replace (j - o - 1 <? 0) with false by (symmetry; apply Z.ltb_ge; lia).
    destruct (nth_error (codePointsWithoutCS this) (Z.to_nat (j - o - 1)))
      as [x|] eqn:E.
    - rewrite Forall_forall in Hsome.
      destruct x as [cp|]; [eauto|].
      exfalso. apply (Hsome None); [|reflexivity]. eapply nth_error_In. exact E.
    - apply nth_error_None in E. lia. }
  destruct Hcp1 as [cp Hcp1].
  apply rules_loop_total_rules; [|exact HB].
  intros r1. cbn [rules_loop]. rewrite Hidx1.
  apply bind_no_throw;
    [exact (checkRule_LB30b_no_throw data fuel _ (j - o) cp Hcp1)|].
  intros [r2 this2] Hcr2.
  rewrite (checkRule_without_side_effect data fuel _ LB30b _ r2 this2 eq_refl Hcr2).
  destruct (decided r2); [apply no_throw_Ok|].
  apply bind_no_throw; [apply checkRule_total_rule; reflexivity|].
  intros [r3 this3] _. destruct (decided r3); apply no_throw_Ok.
Qed.

End InRangeRules.

Section InRangeVerdicts.

Variable data : unicodeData.

(** A call of [isPosLineBreaking] that returns with some budget does not
    throw with any. *)
Lemma isPosLineBreaking_returns_no_throw this p f0 x :
  isPosLineBreaking data f0 this p = Ok x ->
  forall fuel, no_throw (isPosLineBreaking data fuel this p).
Proof.
  intros H fuel. destruct (Nat.le_ge_cases fuel f0) as [Hle | Hge].
  - apply (refines_no_throw _ _ (isPosLineBreaking_refines data fuel f0 this p Hle)).
    rewrite H. apply no_throw_Ok.
  - destruct (isPosLineBreaking_refines data f0 fuel this p Hge) as [E | E];
      [congruence|].
    rewrite <- E, H. apply no_throw_Ok.
Qed.

(** At the positions 0, ..., [text.length] the standard rules do not throw. *)
Lemma position_no_throw raw criteria c txt p fuel :
  raw = lineBreakingRulesV17 \/ raw = lineBreakingRulesV16 ->
  LineBreakingChecker criteria raw = Ok c ->
  wf_text txt ->
  0 <= p <= Z.of_nat (List.length txt) ->
  no_throw (isPosLineBreaking data fuel (setText data c txt) p).
Proof.
  intros Hraw Hc Hwf Hp.
  destruct txt as [|u txt'] eqn:Etxt.
  - cbn [List.length] in Hp. assert (p = 0) by lia. subst p.
    apply (isPosLineBreaking_returns_no_throw _ _ 3%nat
             (Some BreakType.FORBIDDEN, setText data c [])).
    destruct (standard_rules_head raw criteria c Hraw Hc) as [rest Hrules].
    rewrite (isPosLineBreaking_start data (setText data c []) 0 (LB3 :: rest)).
    + rewrite cleanup_setText. reflexivity.
    + rewrite setText_cfg. exact Hrules.
    + reflexivity.
  - rewrite <- Etxt in *.
    assert (Hne : txt <> []) by (rewrite Etxt; discriminate).
    destruct (standard_boundaries data raw criteria c txt 0 Hraw Hc Hwf Hne) as [H0 Hn].
    assert (Hcases : p = 0 \/ p = Z.of_nat (List.length txt)
                     \/ 0 < p < Z.of_nat (List.length txt)) by lia.
    destruct Hcases as [-> | [-> | Hin]].
    + exact (isPosLineBreaking_returns_no_throw _ _ _ _ H0 fuel).
    + exact (isPosLineBreaking_returns_no_throw _ _ _ _ Hn fuel).
    + exact (inner_position_no_throw data raw criteria c txt p fuel Hraw Hc Hwf Hin).
Qed.

Lemma position_returns raw criteria c txt p fuel :
  raw = lineBreakingRulesV17 \/ raw = lineBreakingRulesV16 ->
  LineBreakingChecker criteria raw = Ok c ->
  wf_text txt ->
  0 <= p <= Z.of_nat (List.length txt) ->
  (rules_budget (setText data c txt) <= fuel)%nat ->
  exists r t, isPosLineBreaking data fuel (setText data c txt) p = Ok (r, t).
Proof.
  intros Hraw Hc Hwf Hp Hf.
  pose proof (position_no_throw raw criteria c txt p fuel Hraw Hc Hwf Hp) as Hno.
  pose proof (isPosLineBreaking_total data (setText data c txt) p fuel Hf) as Htot.
  destruct (isPosLineBreaking data fuel (setText data c txt) p) as [[r t]|e|].
  - eauto.
  - exfalso. exact (Hno e eq_refl).
  - congruence.
Qed.

(** X29. In range, the standard rules return: with one of the two rule
    lists, whatever the text, the class table and the class criterion,
    [isPosLineBreaking] throws at no position from 0 to [text.length] (the
    modifiers of the rules have their operands, the side effect of LB9 has
    its argument, and LB30b tests Extended_Pictographic on a code point of
    the text), and leaves the checker as [setText] left it. *)
Theorem standard_rules_return_in_range (raw : list rawRule)
    (criteria : option (option string -> string -> option string))
    (c : config) (txt : list Z) (p : Z) (fuel : nat) :
  raw = lineBreakingRulesV17 \/ raw = lineBreakingRulesV16 ->
  LineBreakingChecker criteria raw = Ok c ->
  wf_text txt ->
  0 <= p <= Z.of_nat (List.length txt) ->
  (rules_budget (setText data c txt) <= fuel)%nat ->
  exists r,
    isPosLineBreaking data fuel (setText data c txt) p = Ok (r, setText data c txt).
Proof.
  intros Hraw Hc Hwf Hp Hf.
  pose proof (position_no_throw raw criteria c txt p fuel Hraw Hc Hwf Hp) as Hno.
  pose proof (isPosLineBreaking_total data (setText data c txt) p fuel Hf) as Htot.
  destruct (isPosLineBreaking data fuel (setText data c txt) p) as [[r t]|e|] eqn:E.
  - exists r. f_equal. f_equal.
    exact (isPosLineBreaking_setText_state data c txt fuel p r t E).
  - exfalso. exact (Hno e eq_refl).
  - congruence.
Qed.

(** X17. With the standard rule lists, a [for ... of] loop over a non-empty
    text never yields position 0 and always ends with the position
    [text.length] as a MANDATORY break, whatever the text; between them it
    yields the positions 1, ..., [text.length - 1] that [isPosLineBreaking]
    allows. The budget is above the number of positions and covers the
    matcher. *)
Theorem standard_iteration_ends_with_break (raw : list rawRule)
    (criteria : option (option string -> string -> option string))
    (c : config) (txt : list Z) (fuel : nat) :
  raw = lineBreakingRulesV17 \/ raw = lineBreakingRulesV16 ->
  LineBreakingChecker criteria raw = Ok c ->
  wf_text txt ->
  txt <> [] ->
  (S (List.length txt) < fuel)%nat ->
  (rules_budget (setText data c txt) <= fuel)%nat ->
  iterate data fuel (setText data c txt)
  = Ok (flat_map (yielded data fuel (setText data c txt))
          (positions_after 0 (List.length txt - 1))
        ++ [[("index", Z.of_nat (List.length txt));
             ("breakType", BreakType.MANDATORY)]]).
Proof.
  intros Hraw Hc Hwf Hne Hf Hb.
  assert (Hlen : (0 < List.length txt)%nat)
    by (destruct txt; [congruence | cbn [List.length]; lia]).
  destruct fuel as [|[|[|f]]]; try lia.
  destruct (standard_boundaries data raw criteria c txt f Hraw Hc Hwf Hne) as [H0 Hn].
  assert (Hall : forall p, 0 <= p <= Z.of_nat (List.length txt) ->
                   exists r t,
                     isPosLineBreaking data (S (S (S f))) (setText data c txt) p
                     = Ok (r, t)).
  { intros p Hp. exact (position_returns raw criteria c txt p _ Hraw Hc Hwf Hp Hb). }
  unfold iterate.
  destruct (iterate_from_returns data c txt (S (S (S f))) Hall (S (S (S f)))
              (S (List.length txt)) (-1)) as (l & Hl); [lia | lia | lia | lia |].
  rewrite Hl. f_equal.
  rewrite (iterate_from_scans data c txt (S (S (S f))) (S (S (S f)))
             (S (List.length txt)) (-1) l ltac:(lia) Hl).
  assert (HY0 : yielded data (S (S (S f))) (setText data c txt) 0 = [])
    by (unfold yielded; rewrite H0; reflexivity).
  assert (HYn : yielded data (S (S (S f))) (setText data c txt)
                  (Z.of_nat (List.length txt))
                = [[("index", Z.of_nat (List.length txt));
                    ("breakType", BreakType.MANDATORY)]])
    by (unfold yielded; rewrite Hn; reflexivity).
  rewrite positions_after_S. cbn [flat_map].
  replace (-1 + 1) with 0 by lia. rewrite HY0. cbn [app].
  replace (List.length txt) with (S (List.length txt - 1)) at 1 by lia.
  rewrite positions_after_snoc, flat_map_app. cbn [flat_map].
  replace (0 + 1 + Z.of_nat (List.length txt - 1))
    with (Z.of_nat (List.length txt)) by lia.
  rewrite HYn, app_nil_r. reflexivity.
Qed.

End InRangeVerdicts.

Section OutsideTheArrays.

Variable data : unicodeData.

(** In both views of a text, the class array is as long as the code-point
    array. *)
Lemma reachable_lengths c txt this :
  wf_text txt ->
  reachable data c txt this ->
  List.length (classes this) = List.length (codePoints this).
Proof.
  intros Hwf Hr.
  destruct (setText_lengths data c txt) as (Hlc & _ & _).
  destruct (reachable_cases data c txt this Hr) as [-> | ->]; [exact Hlc|].
  cbn [removeCombiningSequences classes codePoints].
  set (this := setText data c txt) in *.
  assert (Ecps : codePoints this = map Some (fst (decode 0 txt))).
  { unfold this. rewrite setText_codePoints, (setCodePoints_as_decode txt Hwf).
    reflexivity. }
  assert (Hcps : forall i, (i < List.length (classes this))%nat ->
                   aget_opt (codePoints this) (Int (Z.of_nat i)) <> None).
  { intros i Hi. rewrite Hlc, Ecps, length_map in Hi. rewrite Ecps.
    unfold aget_opt, aget.
    replace (Z.of_nat i <? 0) with false by (symmetry; apply Z.ltb_ge; lia).
    rewrite Nat2Z.id, nth_error_map.
    destruct (nth_error (fst (decode 0 txt)) i) eqn:E; [discriminate|].
    apply nth_error_None in E. lia. }
  pose proof (setCombiningSequencesMaps_kept (classes this) (codePoints this) Hcps)
    as Hmaps.
  unfold this in Hmaps. rewrite <- setText_maps in Hmaps.
  destruct Hmaps as (Hwo & _). exact Hwo.
Qed.

(** X13. Once [setText] has run, in either view of the text, at an index
    that is NaN, negative, or not below the number of code points of the
    view, a class, a general category, a code point and the East Asian set
    do not match, whereas the test of Extended_Pictographic throws a
    RangeError. *)
Theorem outside_the_arrays (c : config) (txt : list Z) (this : checker) (f : nat)
    (i : num) (step : Z) (parent : option (list token)) (prev : option bool)
    (next : nat) (cls : string) (cp : Z) :
  wf_text txt ->
  reachable data c txt this ->
  (i = NaN
   \/ exists z, i = Int z
                /\ (z < 0 \/ Z.of_nat (List.length (codePoints this)) <= z)) ->
  consumeToken data (S f) this (TClass cls) i step parent prev next
  = Ok (simple false i)
  /\ consumeToken data (S f) this (TGc cls) i step parent prev next
     = Ok (simple false i)
  /\ consumeToken data (S f) this (TCodepoint cp) i step parent prev next
     = Ok (simple false i)
  /\ consumeToken data (S f) this TEastasian i step parent prev next
     = Ok (simple false i)
  /\ consumeToken data (S f) this TExtpict i step parent prev next = Throw RangeError.
Proof.
  intros Hwf Hr Hi.
  pose proof (reachable_lengths c txt this Hwf Hr) as Hlen.
  assert (Hc : aget (classes this) i = None).
  { destruct Hi as [-> | (z & -> & Hz)]; [reflexivity|].
    apply aget_outside. rewrite Hlen. exact Hz. }
  assert (Hp : aget (codePoints this) i = None).
  { destruct Hi as [-> | (z & -> & Hz)]; [reflexivity|].
    apply aget_outside. exact Hz. }
  cbn [consumeToken consume_body].
  unfold checkClass, checkGeneralCategory, checkCodePoint, checkEastAsian,
    checkExtPict, aget_opt.
  rewrite Hc, Hp. cbn. repeat split; reflexivity.
Qed.

End OutsideTheArrays.

Lemma outside_the_arrays_witness :
  let c := constructed None rulesV17 in
  let this := removeCombiningSequences (setText sampleData c [97; 0x301; 98]) in
  (wf_text [97; 0x301; 98]
   /\ reachable sampleData c [97; 0x301; 98] this
   /\ (Int 2 = NaN
       \/ exists z, Int 2 = Int z
                    /\ (z < 0 \/ Z.of_nat (List.length (codePoints this)) <= z)))
  /\ consumeToken sampleData 1 this (TClass "AL") (Int 2) 1 None None 0%nat
     = Ok (simple false (Int 2))
  /\ consumeToken sampleData 1 this (TGc "Ll") (Int 2) 1 None None 0%nat
     = Ok (simple false (Int 2))
  /\ consumeToken sampleData 1 this (TCodepoint 98) (Int 2) 1 None None 0%nat
     = Ok (simple false (Int 2))
  /\ consumeToken sampleData 1 this TEastasian (Int 2) 1 None None 0%nat
     = Ok (simple false (Int 2))
  /\ consumeToken sampleData 1 this TExtpict (Int 2) 1 None None 0%nat
     = Throw RangeError.
Proof.
  cbv zeta.
  assert (H1 : wf_text [97; 0x301; 98])
    by (repeat (apply Forall_cons; [lia|]); apply Forall_nil).
  assert (H2 : reachable sampleData (constructed None rulesV17) [97; 0x301; 98]
                 (removeCombiningSequences
                    (setText sampleData (constructed None rulesV17) [97; 0x301; 98])))
    by (apply reach_side_effect, reach_setText).
  assert (H3 : Int 2 = NaN
               \/ exists z, Int 2 = Int z
                    /\ (z < 0
                        \/ Z.of_nat (List.length
                             (codePoints
                                (removeCombiningSequences
                                   (setText sampleData (constructed None rulesV17)
                                      [97; 0x301; 98])))) <= z)).
  { right. exists 2. split; [reflexivity|]. right. vm_compute. discriminate. }
  split; [auto|].
  exact (outside_the_arrays sampleData _ _ _ 0%nat (Int 2) 1 None None 0%nat "AL" 98
           H1 H2 H3).
Defined.

(** The standard lists keep [extpict] in range, a rule list of one's own may
    not: with the one rule [extpict × any], the left side is tested before
    the first code point, and [isPosLineBreaking(0)] throws. *)
Example extpict_before_the_text :
  exists c,
    LineBreakingChecker None [plain "extpict × any"] = Ok c
    /\ isPosLineBreaking sampleData 10 (setText sampleData c (units "ab")) 0
       = Throw RangeError.
Proof. eexists. split; vm_compute; reflexivity. Qed.

Lemma standard_rules_return_in_range_witness :
  let c := constructed None rulesV17 in
  let txt := [97; 0x301; 0xd83c; 0xddeb; 32; 98] in
  ((lineBreakingRulesV17 = lineBreakingRulesV17
    \/ lineBreakingRulesV17 = lineBreakingRulesV16)
   /\ LineBreakingChecker None lineBreakingRulesV17 = Ok c
   /\ wf_text txt
   /\ 0 <= 2 <= Z.of_nat (List.length txt)
   /\ (rules_budget (setText sampleData c txt) <= 60)%nat)
  /\ isPosLineBreaking sampleData 60 (setText sampleData c txt) 2
     = Ok (Some BreakType.ALLOWED, setText sampleData c txt)
  /\ exists r,
       isPosLineBreaking sampleData 60 (setText sampleData c txt) 2
       = Ok (r, setText sampleData c txt).
Proof.
  cbv zeta.
  assert (H1 : lineBreakingRulesV17 = lineBreakingRulesV17
               \/ lineBreakingRulesV17 = lineBreakingRulesV16) by (left; reflexivity).
  assert (H2 : LineBreakingChecker None lineBreakingRulesV17
               = Ok (constructed None rulesV17)) by apply LineBreakingChecker_V17.
  assert (H3 : wf_text [97; 0x301; 0xd83c; 0xddeb; 32; 98])
    by (repeat (apply Forall_cons; [lia|]); apply Forall_nil).
  assert (H4 : 0 <= 2 <= Z.of_nat (List.length [97; 0x301; 0xd83c; 0xddeb; 32; 98]))
    by (cbn; lia).
  assert (H5 : (rules_budget (setText sampleData (constructed None rulesV17)
                                [97; 0x301; 0xd83c; 0xddeb; 32; 98]%Z) <= 60)%nat)
    by (vm_compute; lia).
  split; [auto 10|].
  split; [vm_compute; reflexivity|].
  exact (standard_rules_return_in_range sampleData _ None _ _ 2 60%nat H1 H2 H3 H4 H5).
Defined.

Lemma standard_iteration_ends_with_break_witness :
  let this := setText sampleData (constructed None rulesV17) (units "a b") in
  ((lineBreakingRulesV17 = lineBreakingRulesV17
    \/ lineBreakingRulesV17 = lineBreakingRulesV16)
   /\ LineBreakingChecker None lineBreakingRulesV17 = Ok (constructed None rulesV17)
   /\ wf_text (units "a b")
   /\ units "a b" <> []
   /\ (S (List.length (units "a b")) < 60)%nat
   /\ (rules_budget this <= 60)%nat)
  /\ iterate sampleData 60 this
     = Ok (flat_map (yielded sampleData 60 this) (positions_after 0 2)
           ++ [[("index", 3); ("breakType", BreakType.MANDATORY)]]).
Proof.
  cbv zeta.
  assert (H1 : lineBreakingRulesV17 = lineBreakingRulesV17
               \/ lineBreakingRulesV17 = lineBreakingRulesV16) by (left; reflexivity).
  assert (H2 : LineBreakingChecker None lineBreakingRulesV17
               = Ok (constructed None rulesV17)) by apply LineBreakingChecker_V17.
  assert (H3 : wf_text (units "a b")) by (repeat constructor; vm_compute; congruence).
  assert (H4 : units "a b" <> []) by (vm_compute; congruence).
  assert (H5 : (S (List.length (units "a b")) < 60)%nat) by (vm_compute; lia).
  assert (H6 : (rules_budget (setText sampleData (constructed None rulesV17)
                                (units "a b")) <= 60)%nat) by (vm_compute; lia).
  split; [auto 10|].
  exact (standard_iteration_ends_with_break sampleData _ None _ _ 60%nat H1 H2 H3 H4 H5 H6).
Defined.
